(* ===== verification/_CoqProject ===== *)
-Q . S2P
Prelude.v
Regexp.v
GoStrings.v
GoPath.v
GoNet.v
GoHTTP.v
Sha256.v
GoText.v
Json.v
Diagnose.v
Domain.v
Lifecycle.v
Gateway.v
GatewayProofs.v
Scheduler.v
Store.v
StoreOps.v
Fixtures.v
StoreInv.v
AuditLog.v
AuditProofs.v
AuditTamper.v
Policy.v
PolicyProofs.v
Vault.v
VaultProofs.v
Scrub.v
ScrubProofs.v
Outside.v
EventRing.v
S3.v
SigV4.v
SigV4Proofs.v
S3Run.v
Mail.v
MailForward.v
MailRun.v
MailRate.v
Egress.v
EgressProofs.v
EgressReconcile.v
Orch.v
AppTools.v
Facility.v
OrchAdmin.v
OrchSensitive.v
OrchTools.v
OrchProvision.v
OrchBeam.v
OrchLife.v
OrchFixtures.v
OrchScope.v
OrchFrames.v
OrchRun.v
OrchWorkload.v
OrchAdminRun.v
OrchGovern.v
OrchProduction.v
OrchPromote.v
OrchApprove.v
OrchFourEyes.v
OrchOffboard.v
OrchUsing.v
OrchRelay.v
EgressSync.v
Tarball.v
Auth.v
GitTokens.v
GitServer.v
Docker.v
DockerProofs.v
Mcp.v
McpTools.v
McpAdmin.v
McpCalls.v
McpMenu.v
McpRun.v
Console.v
ConsoleProofs.v
ConsoleRun.v
