(* ===== verification/Prelude.v ===== *)
(** * Verification of the Beamhall backplane

    Beamhall runs small applications ("beams") for the teams of an organisation.  The
    backplane is one Go program (src/cmd, src/internal): a store in SQLite, an audit log, a
    policy enforcement point, a secret vault, a gateway (Caddy), a scheduler that pauses idle
    previews, an egress firewall, and an orchestrator that every user operation goes
    through.  This library models its logic as executable functions and proves what makes
    it correct.  A definition has the name it has in the source, or that name with a prefix
    or suffix where two packages use the same one; its section names the Go file.

    ** How effects are modelled

    A Go function that returns an error is a value of [M S E A] (this file): a state [S]
    in, a result or error and a state out.  An error does not undo the state, as in Go; only
    a transaction of the store ([withTx], Store.v) does.  [logged m] is a call whose error
    the source logs and drops.
    The state of the orchestrator is a [World] (Orch.v): the tables, the gateway's routes,
    the scheduler's timers and the outside [X].  Whatever is not part of the program (Docker,
    Caddy's API, the identity provider, the mail and object-store brokers, git, iptables,
    age, the clock, the random source) is a type class of calls on [X] (Outside.v and the
    head of the file that uses it) or a parameter.  Their documented promises are classes of
    laws ([DriverLaws], [FirewallLaws], ...) that only the theorems that need them assume,
    and every such theorem has a witness on a concrete instance.
    Any statement of the database may fail: [fault] of the environment [Env] (Store.v)
    decides which.  A theorem for all [Env] therefore holds whatever fails, a crash of one
    statement in the middle of an operation included.

    ** The files

    - Foundations.  Prelude: the monad, the notation, lists and strings.  Regexp: Go's
      regular expressions (leftmost-first backtracking) and what a match means.  GoStrings,
      GoPath, GoNet, GoHTTP and GoText: what the program uses of Go's strings, strconv,
      path/filepath, net, time, net/url, net/http, fmt and encoding/base64 packages, with
      lemmas on them.  Sha256: the hash.
    - internal/domain: Domain (entities, the lifecycle state machine), Lifecycle (what it
      guarantees on all histories: nothing runs that was not built, live means promoted, no
      beam is ever wedged).
    - internal/store: Store (tables, statements, constraints), StoreOps (the operations),
      StoreInv (the unique indexes hold in every reachable database; quota gates and the swap
      of a hostname's active route are exact and atomic).
    - internal/gateway: Gateway, GatewayProofs (the rendered configuration dispatches every
      request as the route table says; failed loads are rolled back, except by Upsert).
    - internal/scheduler: Scheduler (timers, their critical sections as a step relation: a
      disarmed timer never fires outside one window, shown to be real).
    - internal/audit: AuditLog, AuditProofs, AuditTamper (an honest log
      verifies, two clean logs with one head are equal or SHA-256 collides, verification
      terminates and is exact, retention and export).
    - internal/policy: Policy, PolicyProofs (who is allowed; every decision on the record).
    - internal/secret: Vault, VaultProofs (the vault refines a map and leaves no orphan),
      Scrub, ScrubProofs (no known value survives; chunking is irrelevant).
    - internal/diagnose: Diagnose.
    - internal/egress: Egress, EgressProofs, EgressReconcile (the script decides each packet
      as the policy says, nothing in a policy becomes a command, reconciliation is all or
      nothing and idempotent).
    - internal/facility/mail: EventRing (the audit ring both brokers keep: pulls are complete
      if they come in time, and a restart skips), Mail (registry, sessions, delivery, control
      channel, who may send as whom), MailRun (in every history nothing leaves but
      what its sender was allowed to send), MailRate (the rate of a registration is bounded; a
      new registration starts afresh), MailForward (the conversation with
      the smarthost follows one script).
    - internal/facility/s3: S3 (registry, control channel, client), SigV4 (the signature check,
      confinement, quota and the aws-chunked reader), SigV4Proofs (a signature fits one
      request, and the engine reads exactly the data of a chunked body, up to its
      declared length), S3Run (in every history the registry is the map its control requests
      describe, and a request reaches the engine only inside its beam's bucket).
    - internal/apptools: AppTools (the contract of an app's tools, the client, assertions).
    - internal/orch, the operations: Outside (the seams), Orch (world, authorization, scope),
      Facility (what the lifecycle asks of the facilities), OrchBeam and OrchLife (create,
      deploy, pause, promote, rollback, destroy, boot), OrchProvision (databases, mail,
      sign-in, object storage, branding), OrchTools (app tools and the relay between beams),
      OrchAdmin and OrchSensitive (administration, four-eyes actions, backup, upgrade; Json is
      their payload; OrchAdmin ends with published apps).
    - internal/orch, the theorems: OrchScope (names, secret scope, refusals), OrchFrames (what
      operations may change), OrchRun and OrchAdminRun (histories: releases are immutable, no
      effect without authorization and record, what administration changes),
      OrchWorkload (no leaked container), OrchProduction, OrchPromote and OrchApprove
      (rollback, promotion, its approval), OrchGovern (administration is gated and recorded, the
      hardening floor), OrchFourEyes (what was requested is executed), OrchOffboard (disabling
      an identity is effective), OrchUsing (noninterference of the using tier), OrchRelay (who
      the relay believes, what it reaches, its bounds, and what its answers hide).
    - internal/driver: Docker (the runtime driver: what it asks of the daemon, the staging of
      secrets), DockerProofs (what it asks to create is confined; a workload gets exactly its
      secrets and they do not outlive it; it keeps the contract the orchestrator relies on).
    - cmd/beamhalld: EgressSync (the policies derived from the store and enforced).
    - internal/auth: Auth (claims, the verifier, discovery, the cache of signing keys; an
      accepted token's claims were validated, the flat roles claim counts only
      if it is trusted, key fetches are at least thirty seconds apart).
    - internal/gitserver: GitTokens (the token store with its shared grants, pushes as a step
      relation: a push token deploys at most once), GitServer (paths, authentication, the
      handler and the deploy callback of main.go over the state [Site]: the world and the
      tokens; nothing happens without a live token of the right kind).
    - internal/mcp: Tarball (unpacking an upload: what it asks for stays inside as text, but
      not through links), Mcp (the caller, the names, the menu), McpTools and McpAdmin
      (every tool handler), McpCalls (the registered tools; no scope, no effect), McpMenu (a
      hidden tool fails, a shown one passes its gate), McpRun (a call is operations of its
      caller and nothing else, so the theorems on the orchestrator carry over; calls without
      elevation never administer).
    - internal/web: Console (session cookies, login, middleware, actions and views of the admin
      console), ConsoleProofs (cookies read back; a signature fits one session and no form token;
      nothing happens without a session), ConsoleRun (every session was opened by a verified
      administrator's token and ends with it; a request is operations of its operator).
    - Fixtures and OrchFixtures: the small appliance the witnesses run.

    ** Correspondence

    Store rows are stdpp [gmap]s keyed by primary key; a Go pointer or slice argument that a
    function fills is its result; a zero time or empty string stays what Go stores.  Strings
    are byte strings.  Machine integers that can reach their limits (timestamps, ports,
    quotas) are [Z] with the conversions written out.  Enumerations carry the strings of the
    source.

    ** Bounds and fuel

    Recursions that are not structural carry fuel.  A repetition of a regular expression
    runs at most once per byte of the subject, since an iteration must consume ([star_loop]).
    An encoded length has at most one byte per bit ([uvarint]), an IPv6 address eight
    groups.  A log writer holds at most as many lines as bytes ([write_lines]).  [Verify]
    and [Export] take the number of batches: their theorems ask for more than there are
    records and prove that they stop by themselves.  The wait for a workload polls at most
    [polls] times, which stands for the cancellation of the caller's context; the source's
    deadline is tested at each poll as written.  [adminVerifyAuditChain] takes its batches
    from the length of the log, one more than [Verify_complete] asks for, so its last branch is
    never taken.  A file tree walks at most 255 path elements, as Linux bounds its links.

    ** Not modelled

    The object-store broker serves requests one at a time: a quota check and its write are
    not interleaved with others; its storage engine (gofakes3) and the forwarding backend are
    parameters.  The locks: each operation of the orchestrator is one atomic step, which the per-beam
    lock gives for one beam; two operations on different beams interleave only in Gateway
    and Scheduler, where it matters and is modelled.  Logging, contexts and cancellation,
    progress streams; the text of Go errors is kept, wrapping is a constructor.  Case folding
    of non-ASCII letters in patterns.  The opening and migration of the database file.  Of the
    MCP server the descriptions of the tools, the transport and the metadata document, and
    its progress notifications; of the git server the encoding of packets, which is go-git's.
    The admin console's templates, builds, backup archives, release downloads, subprocess
    handling and the Keycloak client, which are I/O, and the generated query code,
    whose statements are the functions of StoreOps.
    Of the Docker driver the resource statistics, which are floating-point.
    DNS answers are one function for the whole of a script. *)
From Stdlib Require Export ZArith Lia Ascii.
From stdpp Require Export base tactics option list gmap strings pretty sets sorting.

#[global] Set Default Goal Selector "!".

(** * Record update *)

(** [x <| f := v |>] is [x] with field [f] replaced.  A record type opts in by
    giving its eta expansion; the setter of a field is found by abstracting that
    field's projection in it. *)
Class Eta (T : Type) := eta : T → T.
Class Setter {T A : Type} (p : T → A) := upd : (A → A) → T → T.
Arguments upd {T A} p {_} f x /.

Ltac find_setter :=
  match goal with
  | |- @Setter ?T ?A ?p =>
      let i := constr:(_ : Eta T) in
      let e := eval hnf in (@eta T i) in
      let e := eval pattern p in e in
      match e with
      | ?F _ => exact (fun (f : A → A) => F (fun x => f (p x)))
      end
  end.
#[export] Hint Extern 1 (Setter _) => find_setter : typeclass_instances.

Declare Scope go_scope.
Delimit Scope go_scope with go.
#[warning="-postfix-notation-not-level-1"]
Notation "x <| f := v |>" := (upd f (λ _, v) x)
  (at level 12, f at level 9, v at level 200, left associativity) : go_scope.
#[global] Open Scope go_scope.

(** * Go integers, times and strings *)

(** int64 arithmetic wraps around. *)
Definition wrap64 (z : Z) : Z := (z + 2 ^ 63) `mod` 2 ^ 64 - 2 ^ 63.
Definition int64 (z : Z) : Prop := (- 2 ^ 63 ≤ z < 2 ^ 63)%Z.

Lemma wrap64_id z : int64 z → wrap64 z = z.
Proof. unfold wrap64, int64. intros ?. rewrite Z.mod_small; lia. Qed.

Lemma wrap64_range z : int64 (wrap64 z).
Proof. unfold wrap64, int64. pose proof (Z.mod_pos_bound (z + 2 ^ 63) (2 ^ 64)). lia. Qed.

(** time.Time: [None] is the zero time (IsZero), [Some n] an instant in unix
    nanoseconds. *)
Definition time := option Z.
(** time.Duration, in nanoseconds. *)
Definition duration := Z.

(** Unix seconds of the zero time (year 1), the value UnixNano computes from. *)
Definition zero_time_sec : Z := -62135596800.
Definition UnixNano (t : time) : Z :=
  wrap64 (match t with Some n => n | None => zero_time_sec * 10 ^ 9 end).
(** t.Add(d) on an instant. *)
Definition time_add (t : time) (d : duration) : time :=
  Some (match t with Some n => n | None => zero_time_sec * 10 ^ 9 end + d)%Z.

(** fmt's %d and strconv.FormatInt(_, 10). *)
Definition format_int (z : Z) : string := pretty z.

Definition hex_digit (n : nat) : ascii :=
  Ascii.ascii_of_nat (if decide (n < 10) then 48 + n else 87 + n).
(** encoding/hex.EncodeToString *)
Fixpoint hex_encode (s : string) : string :=
  match s with
  | EmptyString => EmptyString
  | String c s =>
      let n := Ascii.nat_of_ascii c in
      String (hex_digit (n `div` 16)) (String (hex_digit (n `mod` 16)) (hex_encode s))
  end.

Definition dquote : ascii := Ascii.ascii_of_nat 34.
Definition backslash : ascii := Ascii.ascii_of_nat 92.

(** strconv.Quote byte by byte: exact on ASCII, and on bytes that are not part of
    a valid UTF-8 sequence (printable non-ASCII runes stay as they are in Go). *)
Definition quote_byte (c : ascii) : string :=
  let n := Ascii.nat_of_ascii c in
  let esc (x : nat) := String backslash (String (Ascii.ascii_of_nat x) EmptyString) in
  match n with
  | 7 => esc 97 | 8 => esc 98 | 9 => esc 116 | 10 => esc 110
  | 11 => esc 118 | 12 => esc 102 | 13 => esc 114
  | 34 => esc 34 | 92 => esc 92
  | _ => if decide (32 ≤ n ∧ n < 127) then String c EmptyString
         else esc 120 +:+ hex_encode (String c EmptyString)
  end.
Fixpoint quote_bytes (s : string) : string :=
  match s with
  | EmptyString => EmptyString
  | String c s => quote_byte c +:+ quote_bytes s
  end.
(** fmt's %q *)
Definition quoted (s : string) : string :=
  String dquote (quote_bytes s +:+ String dquote EmptyString).

Lemma string_app_cons c a b : String c a +:+ b = String c (a +:+ b).
Proof. done. Qed.
Lemma string_app_assoc (a b c : string) : (a +:+ b) +:+ c = a +:+ (b +:+ c).
Proof. induction a as [|x a IH]; [done|]. by rewrite !string_app_cons, IH. Qed.
Lemma string_app_nil_r (a : string) : a +:+ EmptyString = a.
Proof. induction a as [|x a IH]; [done|]. by rewrite string_app_cons, IH. Qed.
Lemma string_length_app a b : String.length (a +:+ b) = String.length a + String.length b.
Proof. induction a as [|c a IH]; [done|]. rewrite string_app_cons. simpl. by rewrite IH. Qed.

(** sort.Strings *)
Definition sort_strings (l : list string) : list string := merge_sort String.le l.

Lemma elem_of_sort_strings x l : x ∈ sort_strings l ↔ x ∈ l.
Proof. unfold sort_strings. by rewrite merge_sort_Permutation. Qed.

Lemma NoDup_sort_strings l : NoDup l → NoDup (sort_strings l).
Proof. unfold sort_strings. by rewrite merge_sort_Permutation. Qed.

Lemma Sorted_sort_strings l : StronglySorted String.le (sort_strings l).
Proof. apply (StronglySorted_merge_sort _). Qed.

(** * Lists *)

Lemma filter_all {A} (P : A → Prop) `{∀ x, Decision (P x)} l :
  Forall P l → filter P l = l.
Proof. induction 1 as [|x l Hx _ IH]; [done|]. by rewrite filter_cons_True, IH. Qed.

Lemma filter_none {A} (P : A → Prop) `{∀ x, Decision (P x)} l :
  Forall (λ x, ¬ P x) l → filter P l = [].
Proof. induction 1 as [|x l Hx _ IH]; [done|]. by rewrite filter_cons_False. Qed.

(** In a sorted list an upward closed predicate holds of a suffix. *)
Lemma filter_suffix {A} (R : relation A) (P : A → Prop) `{∀ x, Decision (P x)} l :
  StronglySorted R l → (∀ x y, R x y → P x → P y) →
  ∃ pre, l = pre ++ filter P l ∧ Forall (λ x, ¬ P x) pre.
Proof.
  intros Hl Hup. induction Hl as [|x l Hl IH Hx]; [by exists []|].
  destruct (decide (P x)) as [HP|HP].
  - exists []. split; [|done]. rewrite filter_all; [done|]. constructor; [done|].
    eapply Forall_impl; [done|]. naive_solver.
  - destruct IH as (pre & E & Hpre). exists (x :: pre).
    rewrite filter_cons_False by done. split; [by rewrite E at 1|by constructor].
Qed.

(** A stable sort (sort.SliceStable, ORDER BY): equal elements keep their order. *)
Section stable_sort.
Context {A : Type} (le : A → A → bool).

Fixpoint insert_sorted (x : A) (l : list A) : list A :=
  match l with
  | [] => [x]
  | y :: l' => if le x y then x :: l else y :: insert_sorted x l'
  end.
Definition stable_sort (l : list A) : list A := foldr insert_sorted [] l.

Lemma insert_sorted_Permutation x l : insert_sorted x l ≡ₚ x :: l.
Proof.
  induction l as [|y l IH]; simpl; [done|]. destruct (le x y); [done|].
  rewrite IH. constructor.
Qed.

Lemma stable_sort_Permutation l : stable_sort l ≡ₚ l.
Proof.
  induction l as [|x l IH]; simpl; [done|]. by rewrite insert_sorted_Permutation, IH.
Qed.

Lemma stable_sort_Sorted l :
  (∀ x y, le x y = true ∨ le y x = true) → Sorted le (stable_sort l).
Proof.
  intros Htot. induction l as [|x l IH]; simpl; [constructor|].
  induction IH as [|y l' Hs IHs Hy]; simpl; [by repeat constructor|].
  destruct (le x y) eqn:E.
  - constructor; [by constructor|]. constructor. by rewrite E.
  - constructor; [done|]. destruct (Htot x y) as [|Hyx]; [congruence|].
    destruct Hy as [|z l' Hz]; simpl; [constructor; by rewrite Hyx|].
    destruct (le x z); constructor; [by rewrite Hyx|done].
Qed.

(** The elements equal to [x] in the order come in their original order. *)
Lemma stable_sort_stable (p : A → bool) l :
  (∀ x y, p x → p y → le x y = true) → filter p (stable_sort l) = filter p l.
Proof.
  intros Hp. induction l as [|x l IH]; simpl; [done|].
  assert (∀ l, filter p (insert_sorted x l) = filter p (x :: l)) as Hins; [|by rewrite Hins,
    !filter_cons, IH].
  clear l IH. induction l as [|y l IH]; simpl; [done|]. destruct (le x y) eqn:E; [done|].
  rewrite (filter_cons _ y), IH, !filter_cons. repeat case_decide; try done.
  rewrite Hp in E; done.
Qed.
End stable_sort.

(** * Effects *)

(** A Go call returning (T, error) over a world: an error, or a value, and the
    world it leaves. *)
Definition M (W E A : Type) : Type := W → (E + A) * W.

(** A Go call returning (T, error) that has no effect. *)
#[global] Instance sum_ret {E} : MRet (sum E) := λ _, inr.
#[global] Instance sum_bind {E} : MBind (sum E) := λ _ _ f x,
  match x with inl e => inl e | inr a => f a end.

Lemma sum_bind_inr {E A B} (x : E + A) (f : A → E + B) b :
  x ≫= f = inr b → ∃ a, x = inr a ∧ f a = inr b.
Proof. destruct x as [e|a]; [done|]. by exists a. Qed.
Lemma mapM_sum_inr {E A B} (f : A → E + B) l k :
  mapM f l = inr k → Forall2 (λ a b, f a = inr b) l k.
Proof.
  revert k. induction l as [|a l IH]; intros k; simpl; [intros [= <-]; constructor|].
  intros (b & Hb & (k' & Hk & [= <-])%sum_bind_inr)%sum_bind_inr. constructor; [done|by apply IH].
Qed.

Lemma mapM_sum_Forall {E A B} (f : A → E + B) (P : B → Prop) l k :
  mapM f l = inr k → (∀ a b, a ∈ l → f a = inr b → P b) → Forall P k.
Proof.
  intros H2%mapM_sum_inr Hf. induction H2 as [|a b l k Hab H2 IH]; constructor.
  - eapply Hf; [left|done].
  - apply IH. intros a' b' Ha. apply Hf. by right.
Qed.

Definition is_inl {A B : Type} (x : A + B) : bool :=
  match x with inl _ => true | inr _ => false end.

Section monad.
Context {W E : Type}.

Definition throw {A} (e : E) : M W E A := λ w, (inl e, w).
#[global] Instance M_ret : MRet (M W E) := λ _ a w, (inr a, w).
#[global] Instance M_bind : MBind (M W E) := λ _ _ k m w,
  match m w with
  | (inl e, w') => (inl e, w')
  | (inr a, w') => k a w'
  end.
(** Run [m] and look at its error instead of returning it. *)
Definition attempt {A} (m : M W E A) : M W E (E + A) :=
  λ w, (inr (fst (m w)), snd (m w)).
Definition gets {A} (f : W → A) : M W E A := λ w, (inr (f w), w).
Definition modify (f : W → W) : M W E () := λ w, (inr tt, f w).
(** [if err := ...; err != nil { return err }] of a pure check. *)
Definition check (o : option E) : M W E () :=
  match o with Some e => throw e | None => mret tt end.
(** A call whose error is only logged. *)
Definition logged {A} (m : M W E A) : M W E () := λ w, (inr tt, snd (m w)).
(** [if err != nil { return fmt.Errorf("...: %w", err) }] *)
Definition map_error {A} (f : E → E) (m : M W E A) : M W E A := λ w,
  (match fst (m w) with inl e => inl (f e) | inr a => inr a end, snd (m w)).
(** A loop over a slice that returns at the first error. *)
Fixpoint for_each {A} (l : list A) (f : A → M W E ()) : M W E () :=
  match l with
  | [] => mret tt
  | x :: l => f x ≫= λ _, for_each l f
  end.

(** ** Weakest preconditions *)
Definition wp {A} (m : M W E A) (Q : E + A → W → Prop) (w : W) : Prop :=
  Q (fst (m w)) (snd (m w)).

Lemma wp_mono {A} (m : M W E A) (Q Q' : E + A → W → Prop) w :
  wp m Q w → (∀ r w', Q r w' → Q' r w') → wp m Q' w.
Proof. unfold wp. auto. Qed.

Lemma wp_ret {A} (a : A) (Q : E + A → W → Prop) w : Q (inr a) w → wp (mret a) Q w.
Proof. done. Qed.

Lemma wp_throw {A} e (Q : E + A → W → Prop) w : Q (inl e) w → wp (throw e) Q w.
Proof. done. Qed.

Lemma wp_bind {A B} (m : M W E A) (k : A → M W E B) (Q : E + B → W → Prop) w :
  wp m (λ r w', match r with inl e => Q (inl e) w' | inr a => wp (k a) Q w' end) w →
  wp (m ≫= k) Q w.
Proof.
  unfold wp, mbind, M_bind. destruct (m w) as [[e|a] w']; done.
Qed.

Lemma wp_attempt {A} (m : M W E A) Q w :
  wp m (λ r w', Q (inr r) w') w → wp (attempt m) Q w.
Proof. done. Qed.

Lemma wp_logged {A} (m : M W E A) Q w :
  wp m (λ _ w', Q (inr tt) w') w → wp (logged m) Q w.
Proof. done. Qed.

Lemma wp_map_error {A} f (m : M W E A) Q w :
  wp m (λ r w', Q (match r with inl e => inl (f e) | inr a => inr a end) w') w →
  wp (map_error f m) Q w.
Proof. done. Qed.

Lemma wp_gets {A} (f : W → A) Q w : Q (inr (f w)) w → wp (gets f) Q w.
Proof. done. Qed.

Lemma wp_modify f (Q : E + () → W → Prop) w : Q (inr tt) (f w) → wp (modify f) Q w.
Proof. done. Qed.

Lemma wp_check o (Q : E + () → W → Prop) w :
  (∀ e, o = Some e → Q (inl e) w) → (o = None → Q (inr tt) w) → wp (check o) Q w.
Proof. destruct o; intros He Hn; [by apply He|by apply Hn]. Qed.

(** ** Frames: what a computation may change, whatever it returns *)
Section frames.
Context (R : relation W) `{!PreOrder R}.

Definition frames {A} (m : M W E A) : Prop := ∀ w, R w (snd (m w)).

Lemma frames_ret {A} (a : A) : frames (mret a).
Proof. intros w. reflexivity. Qed.
Lemma frames_throw {A} e : frames (A:=A) (throw e).
Proof. intros w. reflexivity. Qed.
Lemma frames_gets {A} (f : W → A) : frames (gets f).
Proof. intros w. reflexivity. Qed.
Lemma frames_check o : frames (check o).
Proof. destruct o; intros w; reflexivity. Qed.
Lemma frames_modify f : (∀ w, R w (f w)) → frames (modify f).
Proof. intros Hf w. apply Hf. Qed.
Lemma frames_bind {A B} (m : M W E A) (k : A → M W E B) :
  frames m → (∀ a, frames (k a)) → frames (m ≫= k).
Proof.
  intros Hm Hk w. unfold mbind, M_bind. specialize (Hm w).
  destruct (m w) as [[e|a] w']; simpl in *; [done|].
  etrans; [done|apply Hk].
Qed.
Lemma frames_attempt {A} (m : M W E A) : frames m → frames (attempt m).
Proof. intros Hm w. apply Hm. Qed.
Lemma frames_logged {A} (m : M W E A) : frames m → frames (logged m).
Proof. intros Hm w. apply Hm. Qed.
Lemma frames_map_error {A} f (m : M W E A) : frames m → frames (map_error f m).
Proof. intros Hm w. apply Hm. Qed.
Lemma frames_for_each {A} (l : list A) f :
  (∀ x, frames (f x)) → frames (for_each l f).
Proof.
  intros Hf. induction l as [|x l IH]; simpl; [apply frames_ret|].
  apply frames_bind; auto.
Qed.
End frames.
End monad.

(** ** Embedding a component's effects in a larger world *)
Section lift.
Context {W V E : Type} (get : W → V) (put : V → W → W).

Definition lift {A} (m : M V E A) : M W E A := λ w,
  (fst (m (get w)), put (snd (m (get w))) w).

Lemma wp_lift {A} (m : M V E A) (Q : E + A → W → Prop) w :
  wp m (λ r v, Q r (put v w)) (get w) → wp (lift m) Q w.
Proof. done. Qed.

Lemma frames_lift {A} (R : relation V) (R' : relation W) (m : M V E A) :
  (∀ w v, R (get w) v → R' w (put v w)) → frames R m → frames R' (lift m).
Proof. intros HR Hm w. apply HR, Hm. Qed.
End lift.
