(* ===== verification/Regexp.v ===== *)
(** Go's regexp on bytes: the constructs the program's patterns use, with the
    leftmost-first semantics of the package, as a backtracking matcher, and what a
    match means.  ASCII case folding only. *)
From S2P Require Import Prelude.

Inductive re :=
  | Empty
  | Class_ (p : ascii → bool)
  | Cat (a b : re)
  | Alt (a b : re)
  | Star (greedy : bool) (a : re)
  | AtStart
  | AtEnd
  | WordBoundary.

(** A position: the byte before it and the text after it. *)
Definition pos : Type := option ascii * string.

Definition in_range (lo hi : nat) (c : ascii) : bool :=
  bool_decide (lo ≤ Ascii.nat_of_ascii c ≤ hi).
Definition is_lower (c : ascii) : bool := in_range 97 122 c.
Definition is_upper (c : ascii) : bool := in_range 65 90 c.
Definition is_digit (c : ascii) : bool := in_range 48 57 c.
Definition is_word (c : ascii) : bool :=
  is_lower c || is_upper c || is_digit c || bool_decide (c = "_"%char).
Definition one_of (s : string) (c : ascii) : bool :=
  existsb (λ d, bool_decide (c = d)) (String.list_ascii_of_string s).
Definition newline : ascii := Ascii.ascii_of_nat 10.
(** \s *)
Definition is_space (c : ascii) : bool :=
  let n := Ascii.nat_of_ascii c in bool_decide (n = 9 ∨ n = 10 ∨ n = 12 ∨ n = 13 ∨ n = 32).
Definition boundary (p : pos) : bool :=
  let before := match p.1 with Some c => is_word c | None => false end in
  let after := match p.2 with String c _ => is_word c | EmptyString => false end in
  xorb before after.

Section run.
Context {A : Type}.

(** The repetition loop of a body that must consume. *)
Definition star_loop (body : pos → (pos → option A) → option A) (greedy : bool)
    (k : pos → option A) : nat → pos → option A :=
  fix star n p :=
    match n with
    | O => None
    | S n =>
        let more := body p (λ p',
          if decide (String.length p'.2 < String.length p.2) then star n p' else None) in
        if greedy then match more with Some x => Some x | None => k p end
        else match k p with Some x => Some x | None => more end
    end.

(** The first way, in Perl's order of preference, of matching [r] at [p] after which
    [k] succeeds. *)
Fixpoint run (r : re) (p : pos) (k : pos → option A) {struct r} : option A :=
  match r with
  | Empty => k p
  | Class_ f =>
      match p.2 with
      | String c s => if f c then k (Some c, s) else None
      | EmptyString => None
      end
  | Cat a b => run a p (λ p, run b p k)
  | Alt a b => match run a p k with Some x => Some x | None => run b p k end
  | Star greedy a => star_loop (run a) greedy k (S (String.length p.2)) p
  | AtStart => if decide (p.1 = None) then k p else None
  | AtEnd => if decide (p.2 = EmptyString) then k p else None
  | WordBoundary => if boundary p then k p else None
  end.
End run.

#[global] Arguments star_loop : simpl never.

(** The text left after the preferred match at a position. *)
Definition match_at (r : re) (p : pos) : option string := run r p (λ p, Some p.2).

(** Regexp.MatchString *)
Fixpoint match_from (r : re) (prev : option ascii) (s : string) : bool :=
  bool_decide (is_Some (match_at r (prev, s)))
  || match s with
     | String c s => match_from r (Some c) s
     | EmptyString => false
     end.
Definition MatchString (r : re) (s : string) : bool := match_from r None s.

(** Regexp.ReplaceAllFunc, for a pattern that does not match the empty string:
    [skip] bytes belong to the match just replaced. *)
Fixpoint replace_from (r : re) (f : string → string) (prev : option ascii) (skip : nat)
    (s : string) : string :=
  match s with
  | EmptyString => EmptyString
  | String c s' =>
      match skip with
      | S skip => replace_from r f (Some c) skip s'
      | O =>
          match match_at r (prev, s) with
          | Some rest =>
              let n := String.length s - String.length rest in
              if decide (0 < n) then
                f (String.substring 0 n s) +:+ replace_from r f (Some c) (n - 1) s'
              else String c (replace_from r f (Some c) 0 s')
          | None => String c (replace_from r f (Some c) 0 s')
          end
      end
  end.
Definition ReplaceAllFunc (r : re) (f : string → string) (s : string) : string :=
  replace_from r f None 0 s.

(** * Building patterns *)
Fixpoint Lit (s : string) : re :=
  match s with
  | EmptyString => Empty
  | String c EmptyString => Class_ (λ d, bool_decide (d = c))
  | String c s => Cat (Class_ (λ d, bool_decide (d = c))) (Lit s)
  end.
Definition to_lower (c : ascii) : ascii :=
  if is_upper c then Ascii.ascii_of_nat (Ascii.nat_of_ascii c + 32) else c.
(** (?i) of a literal *)
Fixpoint LitI (s : string) : re :=
  match s with
  | EmptyString => Empty
  | String c EmptyString => Class_ (λ d, bool_decide (to_lower d = to_lower c))
  | String c s => Cat (Class_ (λ d, bool_decide (to_lower d = to_lower c))) (LitI s)
  end.
Definition Plus (r : re) : re := Cat r (Star true r).
Definition Opt (r : re) : re := Alt r Empty.
Fixpoint Cats (l : list re) : re :=
  match l with [] => Empty | [r] => r | r :: l => Cat r (Cats l) end.
Fixpoint Alts (l : list re) : re :=
  match l with [] => Class_ (λ _, false) | [r] => r | r :: l => Alt r (Alts l) end.
(** r{n} *)
Fixpoint Times (n : nat) (r : re) : re :=
  match n with O => Empty | S n => Cat r (Times n r) end.
(** r{0,n} *)
Fixpoint UpTo (n : nat) (r : re) : re :=
  match n with O => Empty | S n => Opt (Cat r (UpTo n r)) end.
(** r{lo,hi} and r{lo,} *)
Definition Between (lo hi : nat) (r : re) : re := Cat (Times lo r) (UpTo (hi - lo) r).
Definition AtLeast (lo : nat) (r : re) : re := Cat (Times lo r) (Star true r).
(** . without and with (?s) *)
Definition Dot : re := Class_ (λ c, negb (bool_decide (c = newline))).
Definition Any : re := Class_ (λ _, true).

(** * What a match means *)

Inductive matches : re → pos → pos → Prop :=
  | m_empty p : matches Empty p p
  | m_class f prev c s : f c = true → matches (Class_ f) (prev, String c s) (Some c, s)
  | m_cat a b p1 p2 p3 : matches a p1 p2 → matches b p2 p3 → matches (Cat a b) p1 p3
  | m_left a b p p' : matches a p p' → matches (Alt a b) p p'
  | m_right a b p p' : matches b p p' → matches (Alt a b) p p'
  | m_stop g a p : matches (Star g a) p p
  | m_more g a p1 p2 p3 :
      matches a p1 p2 → String.length p2.2 < String.length p1.2 →
      matches (Star g a) p2 p3 → matches (Star g a) p1 p3
  | m_start s : matches AtStart (None, s) (None, s)
  | m_end prev : matches AtEnd (prev, EmptyString) (prev, EmptyString)
  | m_boundary p : boundary p = true → matches WordBoundary p p.

Lemma first_Some {A} (x y : option A) :
  is_Some (match x with Some a => Some a | None => y end) ↔ is_Some x ∨ is_Some y.
Proof. destruct x; naive_solver eauto. Qed.

Lemma star_loop_S {A} body g (k : pos → option A) n p :
  star_loop body g k (S n) p =
    (if g then match body p (λ p', if decide (String.length p'.2 < String.length p.2)
                                   then star_loop body g k n p' else None) with
               | Some x => Some x | None => k p end
     else match k p with
          | Some x => Some x
          | None => body p (λ p', if decide (String.length p'.2 < String.length p.2)
                                  then star_loop body g k n p' else None)
          end).
Proof. done. Qed.

Lemma star_loop_spec {A} g a (k : pos → option A) n p :
  (∀ p (k : pos → option A), is_Some (run a p k) ↔ ∃ p', matches a p p' ∧ is_Some (k p')) →
  String.length p.2 < n →
  is_Some (star_loop (run a) g k n p) ↔ ∃ p', matches (Star g a) p p' ∧ is_Some (k p').
Proof.
  intros Ha. revert p. induction n as [|n IHn]; intros p Hn; [lia|].
  trans (is_Some (k p) ∨ is_Some (run a p (λ p',
    if decide (String.length p'.2 < String.length p.2) then star_loop (run a) g k n p'
    else None))).
  { rewrite star_loop_S. destruct g; rewrite first_Some; tauto. }
  rewrite Ha. split.
  - intros [Hk|(p2 & H1 & H2)]; [exists p; split; [constructor|done]|].
    case_decide as Hlt; [|by destruct H2]. apply IHn in H2 as (p3 & H3 & Hk); [|lia].
    exists p3. split; [by econstructor|done].
  - intros (p3 & Hm & Hk). inversion Hm; subst; [by left|right].
    exists p2. split; [done|]. rewrite decide_True by done. apply IHn; [lia|eauto].
Qed.

(** The matcher succeeds exactly when some match of [r] lets the continuation
    succeed. *)
Lemma run_spec {A} (r : re) (p : pos) (k : pos → option A) :
  is_Some (run r p k) ↔ ∃ p', matches r p p' ∧ is_Some (k p').
Proof.
  revert p k. induction r as [|f|a IHa b IHb|a IHa b IHb|g a IHa| | |]; intros p k; simpl.
  - split; [intros H; exists p; split; [constructor|done]|].
    intros (p' & Hm & Hk). by inversion Hm; subst.
  - destruct p as [prev [|c s]]; simpl.
    + split; [by intros [? ?]|]. intros (p' & Hm & _). inversion Hm.
    + split.
      * destruct (f c) eqn:E; [|by intros [? ?]]. intros H. eexists. split; [by constructor|done].
      * intros (p' & Hm & Hk). inversion Hm as [|? ? ? ? E| | | | | | | |]; subst. by rewrite E.
  - rewrite IHa. setoid_rewrite IHb. split.
    + intros (p2 & Ha & p3 & Hb & Hk). exists p3. split; [by econstructor|done].
    + intros (p3 & Hm & Hk). inversion Hm; subst. eauto.
  - rewrite first_Some, IHa, IHb. split.
    + intros [(p' & Hm & Hk)|(p' & Hm & Hk)]; exists p'; (split; [|done]);
        [by apply m_left|by apply m_right].
    + intros (p' & Hm & Hk). inversion Hm; subst; eauto.
  - apply star_loop_spec; [done|lia].
  - case_decide as E; [|split; [by intros [? ?]|intros (p' & Hm & _); by inversion Hm; subst]].
    destruct p as [prev s]; simpl in E; subst.
    split; [intros H; eexists; split; [constructor|done]|].
    intros (p' & Hm & Hk). by inversion Hm; subst.
  - case_decide as E; [|split; [by intros [? ?]|intros (p' & Hm & _); by inversion Hm; subst]].
    destruct p as [prev s]; simpl in E; subst.
    split; [intros H; eexists; split; [constructor|done]|].
    intros (p' & Hm & Hk). by inversion Hm; subst.
  - destruct (boundary p) eqn:E;
      [|split; [by intros [? ?]|intros (p' & Hm & _); inversion Hm; subst; congruence]].
    split; [intros H; eexists; split; [by constructor|done]|].
    intros (p' & Hm & Hk). by inversion Hm; subst.
Qed.

(** ** Repetitions of a byte class, and anchored patterns *)

Fixpoint all_bytes (f : ascii → bool) (s : string) : bool :=
  match s with EmptyString => true | String c s => f c && all_bytes f s end.
(** The byte before the position after reading [t]. *)
Fixpoint after (prev : option ascii) (t : string) : option ascii :=
  match t with EmptyString => prev | String c t => after (Some c) t end.

Lemma matches_class f p p' :
  matches (Class_ f) p p' ↔ ∃ c, p.2 = String c p'.2 ∧ p'.1 = Some c ∧ f c = true.
Proof.
  destruct p as [prev s], p' as [prev' s']; simpl. split.
  - inversion 1; subst; eauto.
  - intros (c & -> & -> & ?). by constructor.
Qed.

Lemma matches_cat a b p p' :
  matches (Cat a b) p p' ↔ ∃ p2, matches a p p2 ∧ matches b p2 p'.
Proof. split; [inversion 1; subst; eauto|intros (? & ? & ?); by econstructor]. Qed.

Lemma matches_alt a b p p' : matches (Alt a b) p p' ↔ matches a p p' ∨ matches b p p'.
Proof.
  split; [inversion 1; subst; eauto|intros [?|?]; [by apply m_left|by apply m_right]].
Qed.

Lemma matches_empty p p' : matches Empty p p' ↔ p' = p.
Proof. split; [by inversion 1|intros ->; constructor]. Qed.

Lemma matches_end p p' : matches AtEnd p p' ↔ p' = p ∧ p.2 = EmptyString.
Proof.
  split; [by inversion 1|]. destruct p as [prev s]; simpl. intros [-> ->]. constructor.
Qed.

Lemma matches_times f n prev s p' :
  matches (Times n (Class_ f)) (prev, s) p' ↔
  ∃ t, s = t +:+ p'.2 ∧ String.length t = n ∧ all_bytes f t = true ∧ p'.1 = after prev t.
Proof.
  revert prev s. induction n as [|n IH]; intros prev s; simpl.
  - rewrite matches_empty. split; [intros ->; by exists EmptyString|].
    intros ([|] & Hs & Hl & _ & Hp); [|done]. simpl in *. subst. by destruct p'.
  - rewrite matches_cat. split.
    + intros ([prev2 s2] & (c & Hs & Hp & Hc)%matches_class & (t & Ht & Hn & Hf & Hp')%IH).
      simpl in *. subst. exists (String c t). simpl. by rewrite Hc.
    + intros ([|c t] & -> & Hl & Hf & Hp); [done|]. simpl in *.
      apply andb_true_iff in Hf as [Hc Hf]. exists (Some c, t +:+ p'.2). split.
      * apply matches_class. eauto.
      * apply IH. exists t. split_and!; [done|lia|done..].
Qed.

Lemma matches_upto f n prev s p' :
  matches (UpTo n (Class_ f)) (prev, s) p' ↔
  ∃ t, s = t +:+ p'.2 ∧ String.length t ≤ n ∧ all_bytes f t = true ∧ p'.1 = after prev t.
Proof.
  revert prev s. induction n as [|n IH]; intros prev s; simpl.
  - rewrite matches_empty. split; [intros ->; by exists EmptyString|].
    intros ([|] & Hs & Hl & _ & Hp); [|simpl in Hl; lia]. simpl in *. subst. by destruct p'.
  - unfold Opt. rewrite matches_alt, matches_cat, matches_empty. split.
    + intros [([prev2 s2] & (c & Hs & Hp & Hc)%matches_class & (t & Ht & Hn & Hf & Hp')%IH)| ->].
      * simpl in *. subst. exists (String c t). simpl. rewrite Hc. split_and!; [done|lia|done..].
      * exists EmptyString. split_and!; [done|simpl; lia|done..].
    + intros ([|c t] & -> & Hl & Hf & Hp); simpl in *; [right; by destruct p'; subst|left].
      apply andb_true_iff in Hf as [Hc Hf]. exists (Some c, t +:+ p'.2). split.
      * apply matches_class. eauto.
      * apply IH. exists t. split_and!; [done|lia|done..].
Qed.

Lemma all_bytes_app f a b : all_bytes f (a +:+ b) = all_bytes f a && all_bytes f b.
Proof.
  induction a as [|c a IH]; [done|]. rewrite string_app_cons. simpl. by rewrite IH, andb_assoc.
Qed.
Lemma after_app prev a b : after prev (a +:+ b) = after (after prev a) b.
Proof. revert prev. induction a as [|c a IH]; intros prev; [done|]. apply IH. Qed.
Lemma split_length n s :
  n ≤ String.length s → ∃ a b, s = a +:+ b ∧ String.length a = n.
Proof.
  revert s. induction n as [|n IH]; intros s Hn; [by exists EmptyString, s|].
  destruct s as [|c s]; simpl in Hn; [lia|].
  destruct (IH s) as (a & b & -> & Ha); [lia|]. exists (String c a), b. simpl. auto.
Qed.

Lemma matches_between f lo hi prev s p' :
  lo ≤ hi →
  matches (Between lo hi (Class_ f)) (prev, s) p' ↔
  ∃ t, s = t +:+ p'.2 ∧ lo ≤ String.length t ≤ hi ∧ all_bytes f t = true
       ∧ p'.1 = after prev t.
Proof.
  intros Hle. unfold Between. rewrite matches_cat. split.
  - intros ([prev1 s1] & (t & -> & Hl & Hf & Hp1)%matches_times &
      (u & Hs1 & Hlu & Hfu & Hp)%matches_upto).
    simpl in *. subst. exists (t +:+ u).
    rewrite string_app_assoc, string_length_app, all_bytes_app, after_app, Hf.
    split_and!; [done|lia|lia|done..].
  - intros (t & -> & Hl & Hf & Hp). destruct (split_length lo t) as (a & b & -> & Ha); [lia|].
    rewrite string_length_app in Hl. rewrite all_bytes_app in Hf.
    apply andb_true_iff in Hf as [Hfa Hfb]. rewrite string_app_assoc.
    exists (after prev a, b +:+ p'.2). split.
    + apply matches_times. by exists a.
    + apply matches_upto. exists b. rewrite <-after_app. split_and!; [done|lia|done..].
Qed.

(** What a pattern reads: if every byte class of it lies within [f], so does the text of a
    match. *)
Fixpoint re_over (f : ascii → bool) (r : re) : Prop :=
  match r with
  | Empty | AtStart | AtEnd | WordBoundary => True
  | Class_ g => ∀ c, g c = true → f c = true
  | Cat a b | Alt a b => re_over f a ∧ re_over f b
  | Star _ a => re_over f a
  end.
Lemma matches_over f r p p' :
  matches r p p' → re_over f r → ∃ t, p.2 = t +:+ p'.2 ∧ all_bytes f t = true.
Proof.
  induction 1; simpl; intros Hr;
    try (by exists EmptyString).
  - exists (String c EmptyString). simpl. by rewrite (Hr c).
  - destruct Hr as [Ha Hb]. destruct (IHmatches1 Ha) as (t1 & -> & H1).
    destruct (IHmatches2 Hb) as (t2 & -> & H2). exists (t1 +:+ t2).
    by rewrite string_app_assoc, all_bytes_app, H1, H2.
  - by apply IHmatches, Hr.
  - by apply IHmatches, Hr.
  - destruct (IHmatches1 Hr) as (t1 & -> & H1'). destruct (IHmatches2 Hr) as (t2 & -> & H2').
    exists (t1 +:+ t2). by rewrite string_app_assoc, all_bytes_app, H1', H2'.
Qed.
Lemma re_over_Times f n r : re_over f r → re_over f (Times n r).
Proof. intros Hr. induction n; simpl; [done|by split]. Qed.
Lemma re_over_UpTo f n r : re_over f r → re_over f (UpTo n r).
Proof. intros Hr. induction n; simpl; [done|by repeat split]. Qed.
Lemma re_over_Between f lo hi r : re_over f r → re_over f (Between lo hi r).
Proof. intros Hr. split; [by apply re_over_Times|by apply re_over_UpTo]. Qed.
Lemma re_over_Lit f s : all_bytes f s = true → re_over f (Lit s).
Proof.
  induction s as [|c s IH]; [done|]. simpl. intros [Hc Hs]%andb_true_iff.
  destruct s as [|d s]; [by intros x ->%bool_decide_eq_true|].
  split; [by intros x ->%bool_decide_eq_true|by apply IH].
Qed.

(** The last byte of a text. *)
Fixpoint ends_with (f : ascii → bool) (s : string) : bool :=
  match s with
  | EmptyString => false
  | String c EmptyString => f c
  | String _ s => ends_with f s
  end.
Definition begins_with (f : ascii → bool) (s : string) : bool :=
  match s with EmptyString => false | String c _ => f c end.

Lemma ends_with_snoc f a c : ends_with f (a +:+ String c EmptyString) = f c.
Proof.
  induction a as [|d a IH]; [done|]. rewrite string_app_cons. simpl.
  rewrite IH. by destruct (a +:+ String c EmptyString) eqn:E; [destruct a|].
Qed.
Lemma ends_with_inv f s : ends_with f s = true → ∃ a c, s = a +:+ String c EmptyString ∧ f c = true.
Proof.
  induction s as [|d s IH]; [done|]. destruct s as [|e s]; [intros H; by exists EmptyString, d|].
  intros H. destruct (IH H) as (a & c & E & Hc). exists (String d a), c.
  by rewrite string_app_cons, <-E.
Qed.


(** A label: bytes of a class, the first and the last of a narrower one. *)
Definition label (e f : ascii → bool) (n : nat) (t : string) : Prop :=
  1 ≤ String.length t ≤ n ∧ all_bytes f t = true ∧ begins_with e t = true ∧ ends_with e t = true.

Lemma matches_cat_assoc a b c p p' : matches (Cat a (Cat b c)) p p' ↔ matches (Cat (Cat a b) c) p p'.
Proof. rewrite !matches_cat. setoid_rewrite matches_cat. naive_solver. Qed.

Lemma matches_label e f n prev s p' (Hef : ∀ c, e c = true → f c = true) :
  matches (Cat (Class_ e) (Opt (Cat (UpTo n (Class_ f)) (Class_ e)))) (prev, s) p' ↔
  ∃ t, s = t +:+ p'.2 ∧ p'.1 = after prev t ∧ label e f (S (S n)) t.
Proof.
  destruct p' as [prev' s']. unfold Opt, label. rewrite matches_cat. setoid_rewrite matches_alt.
  setoid_rewrite matches_empty. setoid_rewrite matches_cat. split.
  - intros ([prev1 s1] & (c & Hs & Hp1 & Hc)%matches_class & Hm). simpl in *. subst.
    destruct Hm as [([prev3 s3] & (t & -> & Hl & Hf & Hp)%matches_upto & (d & Hs3 & Hp' & Hd)%matches_class)|[= -> ->]].
    + simpl in *. subst. exists (String c (t +:+ String d EmptyString)).
      assert (ends_with e (String c (t +:+ String d EmptyString)) = true) as He
        by (by rewrite <-string_app_cons, ends_with_snoc).
      rewrite string_app_cons, string_app_assoc. split; [done|]. simpl. rewrite after_app. split; [done|].
      rewrite string_length_app, all_bytes_app. simpl. rewrite Hf, !Hef by done. split_and!; [lia|lia|done..].
    + exists (String c EmptyString). simpl. rewrite Hc, Hef by done. split_and!; [done|done|lia|lia|done..].
  - intros (t & Hs & Hp & Hl & Hf & Hb & He). simpl in Hs, Hp. subst s prev'. destruct t as [|c t]; [done|]. simpl in Hb, Hf, Hl.
    apply andb_true_iff in Hf as [_ Hf]. exists (Some c, t +:+ s'). split; [apply matches_class; simpl; eauto|].
    destruct t as [|c' t']; [by right|left].
    assert (ends_with e (String c' t') = true) as (a & d & E & Hd)%ends_with_inv by done.
    rewrite E in *. clear E He. rewrite string_length_app in Hl. simpl in Hl.
    rewrite all_bytes_app in Hf. apply andb_true_iff in Hf as [Hfa _].
    exists (after (Some c) a, String d s'). split.
    + apply matches_upto. exists a. rewrite string_app_assoc. split_and!; [done|lia|done..].
    + apply matches_class. exists d. simpl. by rewrite after_app.
Qed.

Lemma match_at_spec r p : is_Some (match_at r p) ↔ ∃ p', matches r p p'.
Proof. unfold match_at. rewrite run_spec. naive_solver. Qed.

(** A pattern that starts with ^ matches at the start of the text only. *)
Lemma MatchString_anchored r s :
  MatchString (Cat AtStart r) s = true ↔ ∃ p', matches r (None, s) p'.
Proof.
  assert (∀ c s, match_from (Cat AtStart r) (Some c) s = false) as Hno.
  { intros c s'. revert c. induction s' as [|d s' IH]; intros c; [done|].
    simpl. by rewrite IH. }
  unfold MatchString. destruct s as [|c s]; simpl; rewrite ?Hno, orb_false_r,
    bool_decide_eq_true, match_at_spec; setoid_rewrite matches_cat;
    (split; [intros (p' & p2 & Hs & Hm); inversion Hs; subst; eauto
            |intros (p' & Hm); eexists _, _; split; [constructor|done]]).
Qed.

#[global] Arguments Times : simpl never.
#[global] Arguments UpTo : simpl never.
#[global] Arguments Between : simpl never.
