(* ===== verification/GoStrings.v ===== *)
(** Functions of Go's strings, strconv and encoding/json packages the program uses, on
    bytes: exact on ASCII. *)
From S2P Require Import Prelude Regexp.

(** unicode.IsSpace on ASCII *)
Definition is_space_byte (c : ascii) : bool :=
  let n := Ascii.nat_of_ascii c in bool_decide (9 ≤ n ≤ 13 ∨ n = 32).
Fixpoint trim_left (s : string) : string :=
  match s with
  | String c s' => if is_space_byte c then trim_left s' else s
  | EmptyString => EmptyString
  end.
Definition reverse (s : string) : string :=
  String.string_of_list_ascii (rev (String.list_ascii_of_string s)).
(** strings.TrimSpace *)
Definition TrimSpace (s : string) : string := reverse (trim_left (reverse (trim_left s))).

Fixpoint map_bytes (f : ascii → ascii) (s : string) : string :=
  match s with
  | EmptyString => EmptyString
  | String c s => String (f c) (map_bytes f s)
  end.
(** strings.ToUpper and strings.ToLower *)
Definition to_upper (c : ascii) : ascii :=
  if is_lower c then Ascii.ascii_of_nat (Ascii.nat_of_ascii c - 32) else c.
Definition ToUpper : string → string := map_bytes to_upper.
Definition ToLower : string → string := map_bytes to_lower.
(** strings.ReplaceAll of one byte by another *)
Definition replace_byte (old new : ascii) : string → string :=
  map_bytes (λ c, if decide (c = old) then new else c).

(** strings.HasPrefix *)
Definition HasPrefix (s pre : string) : bool := String.prefix pre s.

(** strings.Split on a one-byte separator *)
Fixpoint Split (s : string) (sep : ascii) : list string :=
  match s with
  | EmptyString => [EmptyString]
  | String c s =>
      if decide (c = sep) then EmptyString :: Split s sep
      else match Split s sep with
           | [] => [String c EmptyString]
           | x :: xs => String c x :: xs
           end
  end.
(** strings.Join *)
Fixpoint Join (l : list string) (sep : string) : string :=
  match l with
  | [] => EmptyString
  | [x] => x
  | x :: l => x +:+ sep +:+ Join l sep
  end.

(** The value strconv.ParseInt(s, 10, 64) returns: 0 on a syntax error, the nearest
    int64 when out of range. *)
Fixpoint digits (s : string) (acc : Z) : option Z :=
  match s with
  | EmptyString => Some acc
  | String c s =>
      if is_digit c
      then digits s (acc * 10 + Z.of_nat (Ascii.nat_of_ascii c - 48))%Z
      else None
  end.
Definition clamp64 (z : Z) : Z := Z.max (- 2 ^ 63) (Z.min z (2 ^ 63 - 1)).
Definition ParseInt (s : string) : Z :=
  match s with
  | EmptyString => 0%Z
  | String c s' =>
      let '(sign, ds) := if decide (c = "-"%char) then (-1, s')%Z
                         else if decide (c = "+"%char) then (1, s')%Z else (1, s)%Z in
      if decide (ds = EmptyString) then 0%Z
      else match digits ds 0 with Some n => clamp64 (sign * n) | None => 0%Z end
  end.

(** * JSON strings *)

(** encoding/json's string encoder with HTML escaping; bytes from 128 up stay as they
    are, as in Go for well-formed UTF-8 (save U+2028 and U+2029). *)
Definition json_byte (c : ascii) : string :=
  let n := Ascii.nat_of_ascii c in
  let esc (x : ascii) := String backslash (String x EmptyString) in
  match n with
  | 34 | 92 => esc c
  | 8 => esc "b"%char
  | 9 => esc "t"%char
  | 10 => esc "n"%char
  | 12 => esc "f"%char
  | 13 => esc "r"%char
  | 60 | 62 | 38 =>
      String backslash ("u00" +:+ hex_encode (String c EmptyString))
  | _ => if decide (n < 32)
         then String backslash ("u00" +:+ hex_encode (String c EmptyString))
         else String c EmptyString
  end.
Fixpoint json_bytes (s : string) : string :=
  match s with
  | EmptyString => EmptyString
  | String c s => json_byte c +:+ json_bytes s
  end.
Definition json_string (s : string) : string :=
  String dquote (json_bytes s +:+ String dquote EmptyString).
Definition json_bool (b : bool) : string := if b then "true" else "false".
(** An object from its members, in order. *)
Definition json_object (members : list (string * string)) : string :=
  "{" +:+ Join ((λ kv, json_string kv.1 +:+ ":" +:+ kv.2) <$> members) "," +:+ "}".
(** A member with omitempty. *)
Definition omit_empty (key value : string) : list (string * string) :=
  if decide (value = EmptyString) then [] else [(key, json_string value)].

Example parse_ints :
  ParseInt "1024" = 1024%Z ∧ ParseInt "-7" = (-7)%Z ∧ ParseInt "7x" = 0%Z
  ∧ ParseInt "99999999999999999999" = (2 ^ 63 - 1)%Z.
Proof. vm_compute. done. Qed.
Example trims : TrimSpace "  a b " = "a b" ∧ Split "a,b,,c" "," = ["a"; "b"; EmptyString; "c"].
Proof. vm_compute. done. Qed.

(** strings.CutPrefix *)
Definition CutPrefix (s pre : string) : option string :=
  if HasPrefix s pre
  then Some (String.substring (String.length pre) (String.length s - String.length pre) s)
  else None.
(** strings.LastIndexByte *)
Fixpoint LastIndexByte (s : string) (c : ascii) : option nat :=
  match s with
  | EmptyString => None
  | String d s =>
      match LastIndexByte s c with
      | Some i => Some (S i)
      | None => if decide (d = c) then Some 0 else None
      end
  end.
(** hex.DecodeString *)
Definition hex_digit_value (c : ascii) : option nat :=
  if is_digit c then Some (Ascii.nat_of_ascii c - 48)
  else if in_range 97 102 c then Some (Ascii.nat_of_ascii c - 87)
  else if in_range 65 70 c then Some (Ascii.nat_of_ascii c - 55)
  else None.
Fixpoint hex_decode (s : string) : option string :=
  match s with
  | EmptyString => Some EmptyString
  | String a (String b s) =>
      x ← hex_digit_value a; y ← hex_digit_value b; r ← hex_decode s;
      Some (String (Ascii.ascii_of_nat (16 * x + y)) r)
  | String _ EmptyString => None
  end.
(** strings.Trim(s, cutset) *)
Fixpoint trim_set_left (cut : string) (s : string) : string :=
  match s with
  | EmptyString => EmptyString
  | String c r => if one_of cut c then trim_set_left cut r else s
  end.
Definition Trim (s cut : string) : string :=
  reverse (trim_set_left cut (reverse (trim_set_left cut s))).
Definition Contains_byte (c : ascii) (s : string) : bool := negb (all_bytes (λ d, negb (bool_decide (d = c))) s).
(** strings.TrimRight(s, cutset) *)
Definition TrimRight (s cut : string) : string := reverse (trim_set_left cut (reverse s)).

(** * Facts on strings that several components share: splitting and joining, encodings that
    determine what they encode, and text that avoids a byte. *)

Lemma string_app_nil t : EmptyString +:+ t = t.
Proof. done. Qed.
Lemma string_cons_inj c c' s s' : String c s = String c' s' → c = c' ∧ s = s'.
Proof. by intros [= -> ->]. Qed.
Lemma string_app_inj s1 s2 t1 t2 :
  String.length s1 = String.length s2 → s1 +:+ t1 = s2 +:+ t2 → s1 = s2 ∧ t1 = t2.
Proof.
  revert s2. induction s1 as [|c s1 IH]; intros [|c' s2] Hl H; simpl in *; try lia; [done|].
  injection H as -> H. injection Hl as Hl. destruct (IH _ Hl H) as [-> ->]. done.
Qed.
Lemma hex_digit_inj n m : n < 16 → m < 16 → hex_digit n = hex_digit m → n = m.
Proof.
  intros Hn Hm. do 16 (destruct n as [|n]; [do 16 (destruct m as [|m]; [done|]); lia|]). lia.
Qed.
Lemma hex_encode_inj s1 : ∀ s2, hex_encode s1 = hex_encode s2 → s1 = s2.
Proof.
  induction s1 as [|c1 s1 IH]; intros [|c2 s2] H; [done..|].
  cbn [hex_encode] in H. apply string_cons_inj in H as [Hh [Hl H]%string_cons_inj].
  pose proof (Ascii.nat_ascii_bounded c1). pose proof (Ascii.nat_ascii_bounded c2).
  apply hex_digit_inj in Hh; [|apply Nat.Div0.div_lt_upper_bound; lia..].
  apply hex_digit_inj in Hl; [|apply Nat.mod_upper_bound; lia..].
  assert (Ascii.nat_of_ascii c1 = Ascii.nat_of_ascii c2) as Hc.
  { rewrite (Nat.div_mod_eq (Ascii.nat_of_ascii c1) 16),
      (Nat.div_mod_eq (Ascii.nat_of_ascii c2) 16). congruence. }
  f_equal; [|by apply IH].
  rewrite <-(Ascii.ascii_nat_embedding c1), <-(Ascii.ascii_nat_embedding c2). by f_equal.
Qed.
Lemma all_bytes_impl (f g : ascii → bool) s :
  (∀ c, f c = true → g c = true) → all_bytes f s = true → all_bytes g s = true.
Proof.
  intros Hfg. induction s as [|c s IH]; [done|]. simpl. intros [Hc Hs]%andb_true_iff.
  by rewrite (Hfg _ Hc), IH.
Qed.
Lemma Split_nonempty s sep : Split s sep ≠ [].
Proof. destruct s as [|c s]; simpl; [done|]. case_decide; [done|]. by destruct (Split s sep). Qed.
Lemma Split_free s sep : all_bytes (λ c, negb (bool_decide (c = sep))) s = true → Split s sep = [s].
Proof.
  induction s as [|c s IH]; [done|]. simpl. intros [Hc Hs]%andb_true_iff.
  rewrite decide_False by (by apply negb_true_iff, bool_decide_eq_false in Hc). by rewrite IH.
Qed.
Lemma Split_app a sep b : all_bytes (λ c, negb (bool_decide (c = sep))) a = true →
  Split (a +:+ String sep b) sep = a :: Split b sep.
Proof.
  induction a as [|c a IH]; simpl.
  - intros _. rewrite decide_True by done. done.
  - intros [Hc Ha]%andb_true_iff.
    rewrite decide_False by (by apply negb_true_iff, bool_decide_eq_false in Hc). by rewrite IH.
Qed.
Lemma Split_Join ws sep : ws ≠ [] →
  Forall (λ w, all_bytes (λ c, negb (bool_decide (c = sep))) w = true) ws →
  Split (Join ws (String sep EmptyString)) sep = ws.
Proof.
  intros Hne Hws. induction Hws as [|w ws Hw Hws IH]; [done|]. destruct ws as [|w' ws].
  - simpl. by apply Split_free.
  - change (Split (w +:+ String sep (Join (w' :: ws) (String sep EmptyString))) sep = w :: w' :: ws).
    rewrite Split_app by done. f_equal. by apply IH.
Qed.
Lemma Join_Split s sep : Join (Split s sep) (String sep EmptyString) = s.
Proof.
  induction s as [|c s IH]; [done|]. simpl. case_decide as Hc.
  - subst c. destruct (Split s sep) eqn:E; [by apply Split_nonempty in E|].
    change (String sep (Join (s0 :: l) (String sep EmptyString)) = String sep s). by rewrite IH.
  - destruct (Split s sep) as [|x l] eqn:E; [by apply Split_nonempty in E|]. rewrite <-IH.
    by destruct l.
Qed.
Lemma Contains_byte_app c a b : Contains_byte c (a +:+ b) = Contains_byte c a || Contains_byte c b.
Proof. unfold Contains_byte. by rewrite all_bytes_app, negb_andb. Qed.
Lemma Contains_byte_cons c d s : Contains_byte c (String d s) = bool_decide (d = c) || Contains_byte c s.
Proof. unfold Contains_byte. simpl. by rewrite negb_andb, negb_involutive. Qed.
Lemma substring_full s : String.substring 0 (String.length s) s = s.
Proof. induction s as [|c s IH]; [done|]. simpl. by rewrite IH. Qed.
Lemma substring_after a b : String.substring (String.length a) (String.length b) (a +:+ b) = b.
Proof. induction a as [|c a IH]; [apply substring_full|exact IH]. Qed.
Lemma last_split (c : ascii) a b a' b' :
  a +:+ String c b = a' +:+ String c b' → Contains_byte c b = false → Contains_byte c b' = false →
  a = a' ∧ b = b'.
Proof.
  intros E Hb Hb'. revert a' E. induction a as [|x a IH]; intros [|x' a'] E.
  - by injection E as ->.
  - injection E as -> ->. rewrite Contains_byte_app, Contains_byte_cons, bool_decide_true in Hb by done.
    by rewrite orb_true_r in Hb.
  - injection E as -> <-. rewrite Contains_byte_app, Contains_byte_cons, bool_decide_true in Hb' by done.
    by rewrite orb_true_r in Hb'.
  - injection E as -> E. by destruct (IH a' E) as [-> ->].
Qed.
Lemma substring_after_byte a c b :
  String.substring (S (String.length a)) (String.length (a +:+ String c b) - S (String.length a))
    (a +:+ String c b) = b.
Proof.
  rewrite string_length_app. simpl.
  replace (String.length a + S (String.length b) - S (String.length a)) with (String.length b) by lia.
  replace (a +:+ String c b) with ((a +:+ String c EmptyString) +:+ b) by (by rewrite string_app_assoc).
  replace (S (String.length a)) with (String.length (a +:+ String c EmptyString))
    by (rewrite string_length_app; simpl; lia).
  apply substring_after.
Qed.
Lemma HasPrefix_byte c d s : HasPrefix (String d s) (String c EmptyString) = bool_decide (d = c).
Proof.
  unfold HasPrefix. simpl. destruct (Ascii.ascii_dec c d) as [->|Hne].
  - rewrite bool_decide_true by done. by destruct s.
  - by rewrite bool_decide_false.
Qed.
