(* ===== verification/GoPath.v ===== *)
(** Go's path/filepath on Unix: Clean, Join, Dir, IsAbs and IsLocal. *)
From S2P Require Import Prelude Regexp GoStrings.

(** * The functions *)

(** One element of a path, onto those kept so far (innermost first). *)
Definition clean_step (rooted : bool) (kept : list string) (c : string) : list string :=
  if decide (c = EmptyString ∨ c = ".") then kept
  else if decide (c = "..") then
    match kept with
    | k :: kept' => if decide (k = "..") then c :: kept else kept'
    | [] => if rooted then [] else [c]
    end
  else c :: kept.
Definition clean_comps (rooted : bool) (comps : list string) : list string :=
  rev (foldl (clean_step rooted) [] comps).
Definition IsAbs (p : string) : bool := HasPrefix p "/".
Definition Clean (p : string) : string :=
  let comps := clean_comps (IsAbs p) (Split p "/") in
  if IsAbs p then "/" +:+ Join comps "/"
  else if decide (comps = []) then "." else Join comps "/".
(** Join of two elements. *)
Definition Path_Join (a b : string) : string :=
  if decide (a ≠ EmptyString) then Clean (a +:+ "/" +:+ b)
  else if decide (b ≠ EmptyString) then Clean b else EmptyString.
Definition Dir (p : string) : string :=
  Clean (match LastIndexByte p "/" with Some i => String.substring 0 (S i) p | None => EmptyString end).
Definition IsLocal (p : string) : bool :=
  if IsAbs p || bool_decide (p = EmptyString) then false
  else let dots := existsb (λ c, bool_decide (c = "." ∨ c = "..")) (Split p "/") in
       let p := if dots then Clean p else p in
       negb (bool_decide (p = "..") || HasPrefix p "../").

Example clean_examples :
  (Clean <$> ["a/b/../c"; "/../a/./b//"; "../../x/.."; ""; "./"; "a/../.."; "/"])
  = ["a/c"; "/a/b"; "../.."; "."; "."; ".."; "/"]
  ∧ Path_Join "/tmp/src" "a/b" = "/tmp/src/a/b" ∧ Path_Join "." "x" = "x"
  ∧ Dir "a/b" = "a" ∧ Dir "a" = "." ∧ Dir "/a" = "/"
  ∧ (IsLocal <$> ["a"; "a/../b"; "a/../../b"; "/a"; ""; "."; "..x"]) = [true; true; false; false; false; true; true].
Proof. vm_compute. done. Qed.

(** * What is kept *)

Definition plain_comp (c : string) : Prop := c ≠ EmptyString ∧ c ≠ "." ∧ c ≠ "..".
#[export] Instance plain_comp_dec c : Decision (plain_comp c).
Proof. unfold plain_comp. apply _. Defined.
(** Elements that climb come first, if the path is not rooted. *)
Definition climbs_first (kept : list string) : Prop :=
  ∃ n ps, kept = ps ++ replicate n ".." ∧ Forall plain_comp ps.
Lemma clean_step_climbs rooted kept c : climbs_first kept → climbs_first (clean_step rooted kept c).
Proof.
  intros (n & ps & -> & Hps). unfold clean_step. case_decide as H1; [by exists n, ps|].
  case_decide as H2.
  - subst c. destruct ps as [|p ps]; simpl.
    + destruct n as [|n]; simpl.
      * destruct rooted; [by exists 0, []|by exists 1, []].
      * by exists (S (S n)), [].
    + inversion Hps as [|? ? [_ [_ Hp]] Hps']; subst. rewrite decide_False by done. by exists n, ps.
  - exists n, (c :: ps). split; [done|]. constructor; [|done].
    unfold plain_comp. split_and!; [intros ->; by apply H1; left|intros ->; by apply H1; right|done].
Qed.
Lemma clean_fold_climbs rooted comps kept :
  climbs_first kept → climbs_first (foldl (clean_step rooted) kept comps).
Proof.
  revert kept. induction comps as [|c comps IH]; intros kept Hk; [done|]. simpl.
  by apply IH, clean_step_climbs.
Qed.
(** A rooted path keeps no climbing element. *)
Lemma clean_fold_rooted comps kept :
  Forall plain_comp kept → Forall plain_comp (foldl (clean_step true) kept comps).
Proof.
  revert kept. induction comps as [|c comps IH]; intros kept Hk; [done|]. simpl. apply IH.
  unfold clean_step. case_decide as H1; [done|]. case_decide as H2.
  - destruct kept as [|k kept]; [done|]. inversion Hk as [|? ? [_ [_ Hp]] Hk']; subst.
    by rewrite decide_False.
  - constructor; [|done]. split_and!; [intros ->; by apply H1; left|intros ->; by apply H1; right|done].
Qed.
(** Plain elements are kept as they are. *)
Lemma clean_fold_plain rooted comps kept :
  Forall plain_comp comps → foldl (clean_step rooted) kept comps = rev comps ++ kept.
Proof.
  intros Hc. revert kept. induction Hc as [|c comps [He [Hd Hdd]] _ IH]; intros kept; [done|].
  simpl. rewrite IH. unfold clean_step. rewrite decide_False by naive_solver.
  rewrite decide_False by done. by rewrite <-app_assoc.
Qed.
Lemma clean_comps_plain rooted comps : Forall plain_comp comps → clean_comps rooted comps = comps.
Proof.
  intros Hc. unfold clean_comps. by rewrite clean_fold_plain, app_nil_r, rev_involutive.
Qed.

(** * Local names, joined to a directory *)

Definition no_slash (c : string) : Prop := all_bytes (λ d, negb (bool_decide (d = "/"%char))) c = true.
Definition plain_path (comps : list string) : Prop := Forall plain_comp comps ∧ Forall no_slash comps.
Definition path_of (comps : list string) : string := "/" +:+ Join comps "/".

Lemma Split_no_slash s : Forall no_slash (Split s "/").
Proof.
  induction s as [|c s IH]; simpl; [by repeat constructor|]. case_decide as Hc; [by constructor|].
  destruct (Split s "/") as [|x xs]; [constructor; [|constructor]|inversion_clear IH; constructor; [|done]];
    unfold no_slash in *; simpl; rewrite bool_decide_false by done; done.
Qed.
Lemma clean_fold_Forall (P : string → Prop) rooted comps kept : P ".." →
  Forall P kept → Forall P comps → Forall P (foldl (clean_step rooted) kept comps).
Proof.
  intros Hdd Hk Hc. revert kept Hk. induction Hc as [|c comps Hx _ IH]; intros kept Hk; [done|]. simpl.
  apply IH. unfold clean_step. case_decide; [done|]. case_decide; [|by constructor]. subst c.
  destruct Hk as [|k kept Hk1 Hk]; [destruct rooted; repeat constructor; done|].
  case_decide; repeat constructor; done.
Qed.
Lemma Forall_Split_Join comps : comps ≠ [] → Forall no_slash comps → Split (Join comps "/") "/" = comps.
Proof. intros Hne Hs. by apply Split_Join. Qed.
Lemma Split_path_of comps : comps ≠ [] → Forall no_slash comps → Split (path_of comps) "/" = EmptyString :: comps.
Proof. intros Hne Hs. unfold path_of. simpl. by rewrite string_app_nil, Forall_Split_Join. Qed.

Lemma rev_replicate {A} k (x : A) : rev (replicate k x) = replicate k x.
Proof. rewrite rev_alt. apply reverse_replicate. Qed.
Lemma clean_comps_shape rooted comps :
  ∃ k ps, clean_comps rooted comps = replicate k ".." ++ ps ∧ Forall plain_comp ps.
Proof.
  destruct (clean_fold_climbs rooted comps []) as (k & ps & Hk & Hps); [by exists 0, []|].
  exists k, (rev ps). unfold clean_comps. rewrite Hk, rev_app_distr, rev_replicate.
  split; [done|by apply Forall_rev].
Qed.
Lemma clean_fold_dd k m :
  foldl (clean_step false) (replicate m "..") (replicate k "..") = replicate (k + m) "..".
Proof.
  revert m. induction k as [|k IH]; intros m; [done|]. simpl.
  assert (clean_step false (replicate m "..") ".." = replicate (S m) "..") as -> by (by destruct m).
  rewrite IH. by replace (k + S m) with (S (k + m)) by lia.
Qed.
Lemma clean_comps_idem k ps : Forall plain_comp ps →
  clean_comps false (replicate k ".." ++ ps) = replicate k ".." ++ ps.
Proof.
  intros Hps. unfold clean_comps. rewrite foldl_app. change [] with (replicate 0 "..") at 1.
  rewrite (clean_fold_dd k 0), clean_fold_plain by done.
  by rewrite rev_app_distr, rev_involutive, rev_replicate, Nat.add_0_r.
Qed.
(** A cleaned name that is local and not the directory itself is a list of plain elements. *)
Lemma clean_local n : IsLocal (Clean n) = true → Clean n ≠ "." →
  ∃ comps, comps ≠ [] ∧ plain_path comps ∧ Clean n = Join comps "/".
Proof.
  destruct (IsAbs n) eqn:Habs.
  { unfold IsLocal. replace (IsAbs (Clean n)) with true; [done|].
    unfold Clean. rewrite Habs. unfold IsAbs, HasPrefix. simpl. by destruct (Join _ _). }
  assert (∀ m, IsAbs m = false → clean_comps false (Split m "/") ≠ [] →
    Clean m = Join (clean_comps false (Split m "/")) "/") as HClean.
  { intros m Hm Hne. unfold Clean. by rewrite Hm, decide_False. }
  destruct (decide (clean_comps false (Split n "/") = [])) as [Hnil|Hne].
  { intros _ []. unfold Clean. by rewrite Habs, decide_True. }
  rewrite (HClean n) by done.
  assert (Forall no_slash (clean_comps false (Split n "/"))) as Hs.
  { apply Forall_rev, clean_fold_Forall; [done|done|apply Split_no_slash]. }
  destruct (clean_comps_shape false (Split n "/")) as (k & ps & Hk & Hps).
  rewrite Hk in *. intros Hl _. exists (replicate k ".." ++ ps). split; [done|]. split; [|done].
  split; [|done]. destruct k as [|k]; [done|]. exfalso. set (comps := replicate (S k) ".." ++ ps) in *.
  assert (IsAbs (Join comps "/") = false) as Ha by (unfold comps; simpl; by destruct (replicate k ".." ++ ps)).
  assert (Split (Join comps "/") "/" = comps) as Hsp by (by apply Forall_Split_Join).
  assert (clean_comps false comps = comps) as Hid by (by apply clean_comps_idem).
  assert (Clean (Join comps "/") = Join comps "/") as Hcl.
  { rewrite HClean; rewrite ?Hsp, ?Hid; done. }
  unfold IsLocal in Hl. rewrite Ha, Hsp in Hl. rewrite bool_decide_false in Hl
    by (unfold comps; simpl; by destruct (replicate k ".." ++ ps)).
  replace (existsb _ comps) with true in Hl by done. rewrite Hcl in Hl.
  unfold comps in Hl. simpl in Hl. destruct (replicate k ".." ++ ps) as [|x l]; [done|].
  simpl in Hl. by destruct l, x.
Qed.
(** Below a directory: its elements, then these. *)
Lemma Clean_split rooted_comps n : IsAbs n = true →
  foldl (clean_step true) [] (Split n "/") = rev rooted_comps → Clean n = path_of rooted_comps.
Proof. intros Ha Hf. unfold Clean. rewrite Ha. unfold clean_comps. by rewrite Hf, rev_involutive. Qed.
Lemma IsAbs_path_of comps : IsAbs (path_of comps) = true.
Proof. unfold IsAbs, HasPrefix, path_of. simpl. by destruct (Join comps "/"). Qed.
Lemma path_of_cons c comps : comps ≠ [] → path_of (c :: comps) = "/" +:+ c +:+ path_of comps.
Proof. intros Hne. unfold path_of. by destruct comps. Qed.
Lemma path_of_app l comps : l ≠ [] → comps ≠ [] → path_of (l ++ comps) = path_of l +:+ path_of comps.
Proof.
  intros Hl Hc. induction l as [|c l IH]; [done|]. simpl. destruct l as [|d l]; simpl.
  - by rewrite path_of_cons.
  - rewrite path_of_cons by done. simpl in IH. rewrite IH by done. rewrite (path_of_cons c (d :: l)) by done.
    by rewrite !string_app_assoc.
Qed.
Lemma Path_Join_local dst n : dst ≠ [] → plain_path dst → IsLocal (Clean n) = true → Clean n ≠ "." →
  ∃ comps, comps ≠ [] ∧ plain_path comps ∧ Clean n = Join comps "/"
    ∧ Path_Join (path_of dst) (Clean n) = path_of (dst ++ comps).
Proof.
  intros Hd [Hdp Hds] Hl Hne. destruct (clean_local n Hl Hne) as (comps & Hc & [Hcp Hcs] & Hn).
  exists comps. split; [done|]. split; [done|]. split; [done|]. rewrite Hn.
  unfold Path_Join. rewrite decide_True by (unfold path_of; done).
  assert (path_of dst +:+ "/" +:+ Join comps "/" = path_of (dst ++ comps)) as ->
    by (rewrite path_of_app by done; done).
  apply Clean_split; [apply IsAbs_path_of|].
  rewrite Split_path_of; [|by destruct dst|by apply Forall_app].
  simpl. rewrite clean_fold_plain by by apply Forall_app. by rewrite app_nil_r.
Qed.
Lemma LastIndexByte_none c s : all_bytes (λ d, negb (bool_decide (d = c))) s = true → LastIndexByte s c = None.
Proof.
  induction s as [|d s IH]; [done|]. simpl. intros [Hd Hs]%andb_true_iff. rewrite IH by done.
  rewrite negb_true_iff, bool_decide_eq_false in Hd. by rewrite decide_False.
Qed.
Lemma LastIndexByte_app a c b : LastIndexByte b c = None →
  LastIndexByte (a +:+ String c b) c = Some (String.length a).
Proof.
  intros Hb. induction a as [|d a IH]; [simpl; by rewrite Hb, decide_True|].
  rewrite string_app_cons. simpl. by rewrite IH.
Qed.
Lemma substring_slash a b : String.substring 0 (S (String.length a)) (a +:+ String "/" b) = a +:+ "/".
Proof.
  induction a as [|d a IH]; [by destruct b|]. rewrite !string_app_cons. simpl. simpl in IH. by rewrite IH.
Qed.
Lemma Dir_path_of dst c : dst ≠ [] → plain_path (dst ++ [c]) → Dir (path_of (dst ++ [c])) = path_of dst.
Proof.
  intros Hd [[Hp _]%Forall_app [Hs Hc]%Forall_app]. inversion_clear Hc as [|? ? Hc' _].
  unfold Dir. rewrite path_of_app by done.
  change (path_of [c]) with (String "/" c). rewrite LastIndexByte_app by by apply LastIndexByte_none.
  rewrite substring_slash. apply Clean_split.
  { unfold path_of. rewrite string_app_cons. apply (HasPrefix_byte "/" "/"). }
  assert (Split (path_of dst +:+ "/") "/" = (EmptyString :: dst) ++ [EmptyString]) as ->.
  { rewrite <-(Split_path_of dst) by done. generalize (path_of dst). clear. intros s.
    induction s as [|d s IH]; [done|]. rewrite string_app_cons. simpl. rewrite IH. case_decide; [done|].
    destruct (Split s "/") eqn:E; [by apply Split_nonempty in E|done]. }
  rewrite foldl_app. simpl. by rewrite clean_fold_plain, app_nil_r.
Qed.
