(* ===== verification/GoNet.v ===== *)
(** Go's net package, what the program uses of it: addresses as the bytes of net.IP, their
    parsing (netip.ParseAddr, ParseIP, ParseCIDR) and printing.  The time package's calendar and
    layouts follow. *)
From S2P Require Import Prelude Regexp GoStrings.

(** net.IP: 4 or 16 bytes. *)
Definition IP := list Z.

Definition dot : ascii := "."%char.
Definition colon : ascii := ":"%char.
Definition digit_value (c : ascii) : Z := Z.of_nat (Ascii.nat_of_ascii c - 48).
Definition hex_value (c : ascii) : option Z :=
  if is_digit c then Some (digit_value c)
  else if in_range 97 102 c then Some (Z.of_nat (Ascii.nat_of_ascii c - 87))
  else if in_range 65 70 c then Some (Z.of_nat (Ascii.nat_of_ascii c - 55))
  else None.

(** netip.parseIPv4Fields: the loop, with the fields done, the value and the number of
    digits of the current one.  A dot needs a digit before it and a byte after it. *)
Fixpoint ipv4_fields (s : string) (fields : list Z) (val : Z) (digLen : nat) : option (list Z) :=
  match s with
  | EmptyString => if decide (length fields < 3) then None else Some (fields ++ [val])
  | String c s =>
      if is_digit c then
        if decide (digLen = 1 ∧ val = 0%Z) then None
        else
          let val := (val * 10 + digit_value c)%Z in
          if decide (255 < val)%Z then None else ipv4_fields s fields val (S digLen)
      else if decide (c = dot) then
        if decide (digLen = 0 ∨ s = EmptyString) then None
        else if decide (length fields = 3) then None
        else ipv4_fields s (fields ++ [val]) 0 0
      else None
  end.
Definition parseIPv4 (s : string) : option IP := ipv4_fields s [] 0 0.

(** One group of hexadecimal digits, at most four, and what follows it. *)
Fixpoint hex_group (s : string) (off : nat) (acc : Z) : option (nat * Z * string) :=
  match s with
  | String c s' =>
      match hex_value c with
      | Some v => if decide (3 < off) then None else hex_group s' (S off) (acc * 16 + v)%Z
      | None => Some (off, acc, s)
      end
  | EmptyString => Some (off, acc, s)
  end.
(** The loop of netip.parseIPv6: the bytes so far, where the ellipsis is; [fuel] bounds the
    groups, of which there are at most eight. *)
Fixpoint ipv6_groups (fuel : nat) (s : string) (ip : IP) (ellipsis : option nat)
    : option (string * IP * option nat) :=
  match fuel with
  | O => Some (s, ip, ellipsis)
  | S fuel =>
      match hex_group s 0 0 with
      | None => None
      | Some (off, acc, rest) =>
          if decide (off = 0) then None
          else match rest with
          | EmptyString => Some (EmptyString, ip ++ [acc / 256; acc mod 256]%Z, ellipsis)
          | String c after =>
              if decide (c = dot) then
                if decide (ellipsis = None ∧ length ip ≠ 12) then None
                else if decide (16 < length ip + 4) then None
                else v4 ← parseIPv4 s; Some (EmptyString, ip ++ v4, ellipsis)
              else
                let ip := ip ++ [acc / 256; acc mod 256]%Z in
                if decide (c ≠ colon ∨ after = EmptyString) then None
                else match after with
                | String c' after' =>
                    if decide (c' = colon) then
                      if decide (ellipsis ≠ None) then None
                      else if decide (after' = EmptyString)
                      then Some (EmptyString, ip, Some (length ip))
                      else ipv6_groups fuel after' ip (Some (length ip))
                    else ipv6_groups fuel after ip ellipsis
                | EmptyString => None
                end
          end
      end
  end.
Definition expand_ellipsis (ip : IP) (ellipsis : option nat) : option IP :=
  if decide (length ip < 16) then
    match ellipsis with
    | None => None
    | Some e => Some (take e ip ++ replicate (16 - length ip) 0%Z ++ drop e ip)
    end
  else if decide (ellipsis ≠ None) then None else Some ip.
Definition parseIPv6_groups (s : string) : option IP :=
  let '(s, start) := match s with
                     | String a (String b s') =>
                         if decide (a = colon ∧ b = colon) then (s', Some 0) else (s, None)
                     | _ => (s, None)
                     end in
  if decide (start = Some 0 ∧ s = EmptyString) then Some (replicate 16 0%Z)
  else
    r ← ipv6_groups 8 s [] start;
    let '(rest, ip, ellipsis) := r in
    if decide (rest = EmptyString) then expand_ellipsis ip ellipsis else None.
(** strings.Cut *)
Fixpoint Cut (s : string) (sep : ascii) : string * option string :=
  match s with
  | EmptyString => (EmptyString, None)
  | String c s =>
      if decide (c = sep) then (EmptyString, Some s)
      else let '(a, b) := Cut s sep in (String c a, b)
  end.
(** netip.ParseAddr, a zone dropped: the address and its zone. *)
Definition parseIPv6 (s : string) : option (IP * string) :=
  match Cut s "%" with
  | (a, None) => ip ← parseIPv6_groups a; Some (ip, EmptyString)
  | (a, Some zone) =>
      if decide (zone = EmptyString) then None else ip ← parseIPv6_groups a; Some (ip, zone)
  end.
Fixpoint addr_kind (s : string) : option ascii :=
  match s with
  | EmptyString => None
  | String c s => if one_of ".:%" c then Some c else addr_kind s
  end.
Definition ParseAddr (s : string) : option (IP * string) :=
  match addr_kind s with
  | Some c =>
      if decide (c = dot) then ip ← parseIPv4 s; Some (ip, EmptyString)
      else if decide (c = colon) then parseIPv6 s
      else None
  | None => None
  end.
(** net.ParseIP: no zone.  (Go widens an IPv4 address to 16 bytes; [To4] undoes it.) *)
Definition ParseIP (s : string) : option IP :=
  match ParseAddr s with
  | Some (ip, zone) => if decide (zone = EmptyString) then Some ip else None
  | None => None
  end.

Definition To4 (ip : IP) : option IP :=
  if decide (length ip = 4) then Some ip
  else if decide (length ip = 16 ∧ take 10 ip = replicate 10 0%Z ∧ take 2 (drop 10 ip) = [255; 255]%Z)
  then Some (drop 12 ip) else None.
(** ip.String() of a 4-byte address *)
Definition IP4_String (ip : IP) : string := Join (format_int <$> ip) ".".

(** net.dtoi: the number a text starts with and whether it is all of it; fails from
    0xFFFFFF up. *)
Fixpoint dtoi (s : string) (n : Z) (some : bool) : option Z :=
  match s with
  | EmptyString => if some then Some n else None
  | String c s =>
      if is_digit c then
        let n := (n * 10 + digit_value c)%Z in
        if decide (16777215 ≤ n)%Z then None else dtoi s n true
      else None
  end.
(** net.ParseCIDR: the address and the length of its prefix. *)
Definition ParseCIDR (s : string) : option (IP * Z) :=
  match Cut s "/" with
  | (_, None) => None
  | (addr, Some mask) =>
      ip ← ParseIP addr;
      n ← dtoi mask 0 false;
      if decide (Z.of_nat (8 * length ip) < n)%Z then None else Some (ip, n)
  end.

Example parse_ips :
  ParseIP "10.0.0.1" = Some [10; 0; 0; 1]%Z ∧ ParseIP "10.0.0.01" = None ∧ ParseIP "10.0.1" = None
  ∧ ParseIP "256.0.0.1" = None ∧ ParseIP "1..2.3" = None ∧ ParseIP "a.b" = None
  ∧ (ParseIP "::ffff:1.2.3.4" ≫= To4) = Some [1; 2; 3; 4]%Z
  ∧ ParseIP "fe80::1%eth0" = None ∧ ParseIP "2001:db8::1::2" = None
  ∧ ParseIP "1:2:3:4:5:6:7:8" = Some [0;1;0;2;0;3;0;4;0;5;0;6;0;7;0;8]%Z
  ∧ ParseIP "::" = Some (replicate 16 0%Z) ∧ ParseIP "1:2:3:4:5:6:7::8" = None
  ∧ ParseCIDR "10.0.0.0/8" = Some ([10; 0; 0; 0]%Z, 8%Z) ∧ ParseCIDR "10.0.0.0/33" = None
  ∧ IP4_String [192; 0; 2; 1]%Z = "192.0.2.1".
Proof. vm_compute. done. Qed.

(** * What parses is made of digits and dots *)

(** net.SplitHostPort; an error is the reason. *)
Fixpoint IndexByte (s : string) (c : ascii) : option nat :=
  match s with
  | EmptyString => None
  | String d s => if decide (c = d) then Some 0 else S <$> IndexByte s c
  end.
Definition from_byte (n : nat) (s : string) : string := String.substring n (String.length s - n) s.
Definition SplitHostPort (hostport : string) : string + (string * string) :=
  let err why := inl ("address " +:+ hostport +:+ ": " +:+ why) in
  match LastIndexByte hostport ":" with
  | None => err "missing port in address"
  | Some i =>
      let finish host j k :=
        if decide (is_Some (IndexByte (from_byte j hostport) "[")) then err "unexpected '[' in address"
        else if decide (is_Some (IndexByte (from_byte k hostport) "]")) then err "unexpected ']' in address"
        else inr (host, from_byte (S i) hostport) in
      if HasPrefix hostport "[" then
        match IndexByte hostport "]" with
        | None => err "missing ']' in address"
        | Some end_ =>
            if decide (S end_ = String.length hostport) then err "missing port in address"
            else if decide (S end_ = i) then finish (String.substring 1 (end_ - 1) hostport) 1 (S end_)
            else if decide (String.get (S end_) hostport = Some ":"%char)
            then err "too many colons in address" else err "missing port in address"
        end
      else
        let host := String.substring 0 i hostport in
        if decide (is_Some (IndexByte host ":")) then err "too many colons in address"
        else finish host 0 0
  end.
Example split_host_port :
  SplitHostPort "smtp.example.com:587" = inr ("smtp.example.com", "587")
  ∧ SplitHostPort "[::1]:25" = inr ("::1", "25")
  ∧ SplitHostPort "::1:25" = inl "address ::1:25: too many colons in address"
  ∧ SplitHostPort "smtp" = inl "address smtp: missing port in address".
Proof. vm_compute. done. Qed.

Definition ipv4_char (c : ascii) : bool := is_digit c || one_of "." c.

Lemma ipv4_fields_chars s fields val n ip :
  ipv4_fields s fields val n = Some ip → all_bytes ipv4_char s = true.
Proof.
  revert fields val n. induction s as [|c s IH]; intros fields val n; [done|]. simpl. unfold ipv4_char.
  destruct (is_digit c) eqn:Ed; simpl.
  - case_decide; [done|]. case_decide; [done|]. apply IH.
  - destruct (decide (c = dot)) as [->|]; [|done]. case_decide; [done|]. case_decide; [done|]. apply IH.
Qed.
Lemma ipv4_fields_length s fields val n ip :
  length fields ≤ 3 → ipv4_fields s fields val n = Some ip → length ip = 4.
Proof.
  revert fields val n. induction s as [|c s IH]; intros fields val n Hl; simpl.
  - case_decide; [done|]. intros [= <-]. rewrite length_app. simpl. lia.
  - destruct (is_digit c); [case_decide; [done|]; case_decide; [done|]; by apply IH|].
    case_decide; [|done]. case_decide; [done|]. case_decide; [done|]. apply IH.
    rewrite length_app. simpl. lia.
Qed.
Lemma addr_kind_None s : all_bytes ipv4_char s = true → addr_kind s = Some dot ∨ addr_kind s = None.
Proof.
  induction s as [|c s IH]; [by right|]. simpl. unfold ipv4_char at 1. intros [Hc Hs]%andb_true_iff.
  destruct (one_of ".:%" c) eqn:E; [|by apply IH]. left. f_equal. apply orb_true_iff in Hc as [Hc|Hc].
  - exfalso. unfold one_of in E. simpl in E. repeat case_bool_decide; simplify_eq; done.
  - unfold one_of in Hc. simpl in Hc. rewrite orb_false_r in Hc. by apply bool_decide_eq_true in Hc.
Qed.

(** * Go's time package, what the program uses of it: the UTC calendar date and clock of an
    instant, and the layouts it prints. *)

(** The proleptic Gregorian date of a day counted from 1970-01-01: year, month, day. *)
Definition civil (days : Z) : Z * Z * Z :=
  let z := (days + 719468)%Z in
  let era := (z `div` 146097)%Z in
  let doe := (z `mod` 146097)%Z in
  let yoe := ((doe - doe `div` 1460 + doe `div` 36524 - doe `div` 146096) `div` 365)%Z in
  let doy := (doe - (365 * yoe + yoe `div` 4 - yoe `div` 100))%Z in
  let mp := ((5 * doy + 2) `div` 153)%Z in
  let d := (doy - (153 * mp + 2) `div` 5 + 1)%Z in
  let m := (if decide (mp < 10) then mp + 3 else mp - 9)%Z in
  let y := (yoe + era * 400 + if decide (m ≤ 2) then 1 else 0)%Z in
  (y, m, d).

(** A number with at least [n] digits. *)
Definition pad (n : nat) (z : Z) : string :=
  let s := format_int z in
  String.string_of_list_ascii (replicate (n - String.length s) "0"%char) +:+ s.

Definition unix_seconds (t : time) : Z :=
  match t with Some n => n `div` 10 ^ 9 | None => zero_time_sec end.
(** t.UTC().Format of the layouts 20060102T150405Z and RFC 3339 *)
Definition clock_of (t : time) : (Z * Z * Z) * (Z * Z * Z) :=
  let s := unix_seconds t in
  let r := (s `mod` 86400)%Z in
  (civil (s `div` 86400), (r `div` 3600, r `mod` 3600 `div` 60, r `mod` 60)%Z).
Definition FormatBasic (t : time) : string :=
  let '((y, mo, d), (h, mi, s)) := clock_of t in
  pad 4 y +:+ pad 2 mo +:+ pad 2 d +:+ "T" +:+ pad 2 h +:+ pad 2 mi +:+ pad 2 s +:+ "Z".
Definition FormatRFC3339 (t : time) : string :=
  let '((y, mo, d), (h, mi, s)) := clock_of t in
  pad 4 y +:+ "-" +:+ pad 2 mo +:+ "-" +:+ pad 2 d +:+ "T" +:+ pad 2 h +:+ ":" +:+ pad 2 mi
  +:+ ":" +:+ pad 2 s +:+ "Z".

Example dates :
  FormatRFC3339 (Some 0%Z) = "1970-01-01T00:00:00Z"
  ∧ FormatBasic (Some (1709210096 * 10 ^ 9 + 5)%Z) = "20240229T123456Z"
  ∧ FormatRFC3339 (Some (-1)%Z) = "1969-12-31T23:59:59Z"
  ∧ FormatRFC3339 None = "0001-01-01T00:00:00Z".
Proof. vm_compute. done. Qed.
