(* ===== verification/GoHTTP.v ===== *)
(** What the object-store broker uses of Go's net/url, net/http, strconv and time packages:
    percent-encoding, header keys, integers with their errors, and the timestamp of a signed
    request. *)
From S2P Require Import Prelude Regexp GoStrings GoNet.

(** * net/url *)

(** unescape in the modes of PathUnescape and QueryUnescape: every % takes two hexadecimal
    digits, and a query's + is a blank. *)
Fixpoint unescape (plus : bool) (s : string) : option string :=
  match s with
  | EmptyString => Some EmptyString
  | String c s =>
      if decide (c = "%"%char) then
        match s with
        | String a (String b s) =>
            x ← hex_digit_value a; y ← hex_digit_value b; r ← unescape plus s;
            Some (String (Ascii.ascii_of_nat (16 * x + y)) r)
        | _ => None
        end
      else r ← unescape plus s;
           Some (String (if plus && bool_decide (c = "+"%char) then " "%char else c) r)
  end.
Definition PathUnescape : string → option string := unescape false.
Definition QueryUnescape : string → option string := unescape true.

(** * net/http *)

Definition token_byte (c : ascii) : bool :=
  is_lower c || is_upper c || is_digit c || one_of "!#$%&'*+-.^_`|~" c.
Fixpoint canonical_bytes (upper : bool) (s : string) : string :=
  match s with
  | EmptyString => EmptyString
  | String c s =>
      String (if upper then to_upper c else to_lower c) (canonical_bytes (bool_decide (c = "-"%char)) s)
  end.
(** textproto.CanonicalMIMEHeaderKey *)
Definition CanonicalMIMEHeaderKey (s : string) : string :=
  if all_bytes token_byte s then canonical_bytes true s else s.
Definition Header := gmap string (list string).
Definition Header_Get (h : Header) (key : string) : string :=
  match h !! CanonicalMIMEHeaderKey key with Some (v :: _) => v | _ => EmptyString end.
Definition Header_Set (key v : string) (h : Header) : Header := <[CanonicalMIMEHeaderKey key := [v]]> h.
Definition Header_Del (key : string) (h : Header) : Header := delete (CanonicalMIMEHeaderKey key) h.

(** * strings and strconv *)

(** strings.SplitN on a byte, [n] positive *)
Fixpoint SplitN (s : string) (sep : ascii) (n : nat) : list string :=
  match n with
  | 0 => []
  | 1 => [s]
  | S n => match Cut s sep with
           | (x, Some rest) => x :: SplitN rest sep n
           | (x, None) => [x]
           end
  end.
(** The digits of a base up to 16, and the errors of strconv. *)
Inductive NumError := ErrSyntax | ErrRange.
Fixpoint ParseUint_ (base : Z) (s : string) (acc : Z) : NumError + Z :=
  match s with
  | EmptyString => inr acc
  | String c s =>
      match hex_digit_value c with
      | Some d =>
          let n := (acc * base + Z.of_nat d)%Z in
          if decide (base ≤ Z.of_nat d)%Z then inl ErrSyntax
          else if decide (2 ^ 64 ≤ n)%Z then inl ErrRange else ParseUint_ base s n
      | None => inl ErrSyntax
      end
  end.
(** strconv.ParseInt(s, base, 64) *)
Definition ParseInt_ (base : Z) (s : string) : NumError + Z :=
  let '(neg, t) := match s with
                   | String c t => if decide (c = "-"%char) then (true, t)
                                   else if decide (c = "+"%char) then (false, t) else (false, s)
                   | EmptyString => (false, s)
                   end in
  if decide (t = EmptyString) then inl ErrSyntax
  else match ParseUint_ base t 0 with
       | inl e => inl e
       | inr n => let z := if (neg : bool) then (- n)%Z else n in
                  if decide (int64 z) then inr z else inl ErrRange
       end.
Definition ParseInt_error (s : string) (e : NumError) : string :=
  "strconv.ParseInt: parsing " +:+ quoted s +:+ ": "
  +:+ match e with ErrSyntax => "invalid syntax" | ErrRange => "value out of range" end.

(** * time *)

(** Days from 1970-01-01 to a date, the inverse of [civil]. *)
Definition days_from_civil (y m d : Z) : Z :=
  let y := if decide (m ≤ 2)%Z then (y - 1)%Z else y in
  let era := (y `div` 400)%Z in
  let yoe := (y `mod` 400)%Z in
  let mp := (if decide (2 < m) then m - 3 else m + 9)%Z in
  let doy := ((153 * mp + 2) `div` 5 + d - 1)%Z in
  let doe := (yoe * 365 + yoe `div` 4 - yoe `div` 100 + doy)%Z in
  (era * 146097 + doe - 719468)%Z.
Definition leap (y : Z) : bool :=
  bool_decide (y `mod` 4 = 0)%Z && (negb (bool_decide (y `mod` 100 = 0)%Z) || bool_decide (y `mod` 400 = 0)%Z).
Definition days_in (m y : Z) : Z :=
  if decide (m = 2)%Z then (if leap y then 29 else 28)%Z
  else if decide (m = 4 ∨ m = 6 ∨ m = 9 ∨ m = 11)%Z then 30%Z else 31%Z.
(** getnum of two digits; one is enough when [fixed] is not asked for. *)
Definition getnum (fixed : bool) (s : string) : option (Z * string) :=
  match s with
  | String a t =>
      if negb (is_digit a) then None
      else match t with
           | String b t' =>
               if is_digit b then Some (digit_value a * 10 + digit_value b, t')%Z
               else if fixed then None else Some (digit_value a, t)
           | EmptyString => if fixed then None else Some (digit_value a, t)
           end
  | EmptyString => None
  end.
(** The first byte is a digit and the four are a number (atoi takes no sign after a digit). *)
Definition get_year (s : string) : option (Z * string) :=
  if decide (String.length s < 4) then None
  else match ParseUint_ 10 (String.substring 0 4 s) 0 with
       | inr n => Some (n, from_byte 4 s)
       | inl _ => None
       end.
Fixpoint span_digits (s : string) : string * string :=
  match s with
  | String c t => if is_digit c then let '(d, r) := span_digits t in (String c d, r) else (EmptyString, s)
  | EmptyString => (EmptyString, EmptyString)
  end.
(** A fraction the layout does not mention: its first nine digits are nanoseconds. *)
Definition get_fraction (s : string) : Z * string :=
  match s with
  | String c t =>
      if one_of ".," c then
        let '(ds, rest) := span_digits t in
        if decide (ds = EmptyString) then (0%Z, s)
        else let ds := String.substring 0 9 ds in
             ((match ParseUint_ 10 ds 0 with inr n => n | inl _ => 0 end)
              * 10 ^ (9 - Z.of_nat (String.length ds)), rest)%Z
      else (0%Z, s)
  | EmptyString => (0%Z, s)
  end.
(** time.Parse with the layout 20060102T150405Z, in unix nanoseconds *)
Definition ParseBasic (s : string) : option Z :=
  '(y, s) ← get_year s;
  '(mo, s) ← getnum true s;
  if decide (mo < 1 ∨ 12 < mo)%Z then None else
  '(d, s) ← getnum true s;
  s ← CutPrefix s "T";
  '(h, s) ← getnum false s;
  if decide (24 ≤ h)%Z then None else
  '(mi, s) ← getnum true s;
  if decide (60 ≤ mi)%Z then None else
  '(se, s) ← getnum true s;
  if decide (60 ≤ se)%Z then None else
  let '(ns, s) := get_fraction s in
  if decide (s ≠ "Z") then None
  else if decide (d < 1 ∨ days_in mo y < d)%Z then None
  else Some ((days_from_civil y mo d * 86400 + h * 3600 + mi * 60 + se) * 10 ^ 9 + ns)%Z.
(** t.Sub(u), saturating *)
Definition time_sub (t u : Z) : duration := clamp64 (t - u).

Example urls :
  PathUnescape "a%2Fb+c" = Some "a/b+c" ∧ QueryUnescape "a%2fb+c" = Some "a/b c"
  ∧ PathUnescape "a%2" = None ∧ PathUnescape "%zz" = None.
Proof. vm_compute. done. Qed.
Example keys :
  CanonicalMIMEHeaderKey "x-amz-content-SHA256" = "X-Amz-Content-Sha256"
  ∧ CanonicalMIMEHeaderKey "a b" = "a b".
Proof. vm_compute. done. Qed.
Example ints :
  ParseInt_ 16 "7fffffffffffffff" = inr (2 ^ 63 - 1)%Z ∧ ParseInt_ 16 "8000000000000000" = inl ErrRange
  ∧ ParseInt_ 16 "-5" = inr (-5)%Z ∧ ParseInt_ 10 "a" = inl ErrSyntax
  ∧ ParseInt_ 10 EmptyString = inl ErrSyntax ∧ ParseInt_ 10 "99999999999999999999x" = inl ErrRange
  ∧ SplitN "a/b/c/d" "/" 3 = ["a"; "b"; "c/d"].
Proof. vm_compute. done. Qed.
Example stamps :
  ParseBasic "20240229T123456Z" = Some (1709210096 * 10 ^ 9)%Z
  ∧ ParseBasic "20240229T123456.5Z" = Some (1709210096 * 10 ^ 9 + 5 * 10 ^ 8)%Z
  ∧ ParseBasic "20230229T123456Z" = None ∧ ParseBasic "20240229T12345Z" = None
  ∧ ParseBasic "20240229T123456" = None.
Proof. vm_compute. done. Qed.
