(* ===== verification/Sha256.v ===== *)
(** SHA-256 (crypto/sha256), executable: the hash of the audit chain, of relay keys
    and of signed assertions. *)
From S2P Require Import Prelude.

(** * Words and bytes *)

Definition mask32 : Z := 0xffffffff.
Definition add32 (x y : Z) : Z := Z.land (x + y) mask32.
Definition rotr (x n : Z) : Z :=
  Z.lor (Z.shiftr x n) (Z.land (Z.shiftl x (32 - n)) mask32).

Fixpoint bytes_of (s : string) : list Z :=
  match s with
  | EmptyString => []
  | String c s => Z.of_nat (Ascii.nat_of_ascii c) :: bytes_of s
  end.
Definition byte_char (z : Z) : ascii := Ascii.ascii_of_nat (Z.to_nat z).
Definition string_of_bytes (l : list Z) : string :=
  foldr (λ z s, String (byte_char z) s) EmptyString l.

(** Big-endian encoding on [n] bytes. *)
Fixpoint be_bytes (n : nat) (z : Z) : list Z :=
  match n with
  | 0 => []
  | S n => Z.land (Z.shiftr z (8 * Z.of_nat n)) 255 :: be_bytes n z
  end.
Definition be_word (l : list Z) : Z := foldl (λ acc b, Z.lor (Z.shiftl acc 8) b) 0%Z l.

Fixpoint chunks_fuel {A} (fuel n : nat) (l : list A) : list (list A) :=
  match fuel, l with
  | 0, _ | _, [] => []
  | S fuel, _ => take n l :: chunks_fuel fuel n (drop n l)
  end.
Definition chunks {A} (n : nat) (l : list A) : list (list A) := chunks_fuel (length l) n l.

(** * The compression function *)

(** The constants are the first 32 bits of the fractional parts of roots of the first
    primes: cube roots for the rounds, square roots for the initial state. *)
Definition first_primes (n : nat) : list Z :=
  take n (filter (λ p, forallb (λ d, negb (p mod Z.of_nat d =? 0)%Z) (seq 2 (Z.to_nat p - 2)))
            (Z.of_nat <$> seq 2 320)).
(** The integer cube root below 2^36, bit by bit. *)
Definition cube_root (n : Z) : Z :=
  foldl (λ r i, let r' := (r + 2 ^ Z.of_nat i)%Z in if (r' ^ 3 <=? n)%Z then r' else r)
    0%Z (rev (seq 0 36)).
Definition sha_k : list Z := Eval vm_compute in
  (λ p, Z.land (cube_root (p * 2 ^ 96)) mask32) <$> first_primes 64.
Definition sha_init : list Z := Eval vm_compute in
  (λ p, Z.land (Z.sqrt (p * 2 ^ 64)) mask32) <$> first_primes 8.

Definition small_sigma0 (x : Z) : Z :=
  Z.lxor (rotr x 7) (Z.lxor (rotr x 18) (Z.shiftr x 3)).
Definition small_sigma1 (x : Z) : Z :=
  Z.lxor (rotr x 17) (Z.lxor (rotr x 19) (Z.shiftr x 10)).
Definition big_sigma0 (x : Z) : Z := Z.lxor (rotr x 2) (Z.lxor (rotr x 13) (rotr x 22)).
Definition big_sigma1 (x : Z) : Z := Z.lxor (rotr x 6) (Z.lxor (rotr x 11) (rotr x 25)).
Definition ch (x y z : Z) : Z := Z.lxor (Z.land x y) (Z.land (Z.lxor x mask32) z).
Definition maj (x y z : Z) : Z := Z.lxor (Z.land x y) (Z.lxor (Z.land x z) (Z.land y z)).

(** The message schedule, newest word first. *)
Fixpoint schedule (n : nat) (w : list Z) : list Z :=
  match n with
  | 0 => w
  | S n =>
      let at_ i := nth i w 0%Z in
      schedule n (add32 (add32 (small_sigma1 (at_ 1)) (at_ 6))
                        (add32 (small_sigma0 (at_ 14)) (at_ 15)) :: w)
  end.

Definition round (st : list Z) (kw : Z * Z) : list Z :=
  match st with
  | [a; b; c; d; e; f; g; h] =>
      let t1 := add32 (add32 h (big_sigma1 e)) (add32 (ch e f g) (add32 kw.1 kw.2)) in
      let t2 := add32 (big_sigma0 a) (maj a b c) in
      [add32 t1 t2; a; b; c; add32 d t1; e; f; g]
  | _ => st
  end.

Definition compress (st : list Z) (block : list Z) : list Z :=
  let w := rev (schedule 48 (rev (be_word <$> chunks 4 block))) in
  zip_with add32 st (foldl round st (zip sha_k w)).

(** * The hash *)

Definition sha_pad (l : list Z) : list Z :=
  let n := length l in
  let zeros := (119 - n `mod` 64) `mod` 64 in
  l ++ [0x80%Z] ++ replicate zeros 0%Z ++ be_bytes 8 (8 * Z.of_nat n).

(** sha256.Sum256 *)
Definition sha256 (s : string) : string :=
  string_of_bytes (mjoin (be_bytes 4 <$>
    foldl compress sha_init (chunks 64 (sha_pad (bytes_of s))))).
Definition sha256_hex (s : string) : string := hex_encode (sha256 s).
(** Two distinct strings with the same SHA-256. *)
Definition sha256_collision : Prop := ∃ x y, x ≠ y ∧ sha256 x = sha256 y.

(** The test vectors of FIPS 180-2. *)
Example sha256_abc : hex_encode (sha256 "abc")
  = "ba7816bf8f01cfea414140de5dae2223b00361a396177a9cb410ff61f20015ad".
Proof. vm_compute. reflexivity. Qed.
Example sha256_two_blocks :
  hex_encode (sha256 "abcdbcdecdefdefgefghfghighijhijkijkljklmklmnlmnomnopnopq")
  = "248d6a61d20638b8e5c026930c3e6039a33ce45964ff2167f6ecedd419db06c1".
Proof. vm_compute. reflexivity. Qed.
Example sha256_empty : hex_encode (sha256 EmptyString)
  = "e3b0c44298fc1c149afbf4c8996fb92427ae41e4649b934ca495991b7852b855".
Proof. vm_compute. reflexivity. Qed.
