(* ===== verification/GoText.v ===== *)
(** More of Go's standard library: fmt.Sprintf for the verbs the program uses,
    strings.Fields and base64.  Exact on ASCII text; format strings are written with
    [\n] and [\'] for a line break and a double quote. *)
From S2P Require Import Prelude Regexp GoStrings Sha256.

(** * Formatting *)

(** A literal as the source writes it. *)
Fixpoint Lit_ (s : string) : string :=
  match s with
  | EmptyString => EmptyString
  | String c s1 =>
      if decide (c = backslash) then
        match s1 with
        | String d s2 => String (if decide (d = "n"%char) then newline
                                 else if decide (d = "'"%char) then dquote else d) (Lit_ s2)
        | EmptyString => EmptyString
        end
      else String c (Lit_ s1)
  end.
(** An argument: a string, an integer, or a slice of integers. *)
Inductive farg :=
  | FS (s : string)
  | FD (z : Z)
  | FInts (l : list Z).
(** %s, %q, %d and %v of an argument *)
Definition format_arg (verb : ascii) (a : farg) : string :=
  match a with
  | FS s => if decide (verb = "q"%char) then quoted s else s
  | FD z => format_int z
  | FInts l => "[" +:+ Join (format_int <$> l) " " +:+ "]"
  end.
Fixpoint sprintf (f : string) (args : list farg) : string :=
  match f with
  | String c f1 =>
      if decide (c = "%"%char) then
        match f1 with
        | String v f2 =>
            if decide (v = "%"%char) then String c (sprintf f2 args)
            else match args with
                 | a :: args => format_arg v a +:+ sprintf f2 args
                 | [] => "%!" +:+ String v "(MISSING)" +:+ sprintf f2 []
                 end
        | EmptyString => "%!(NOVERB)"
        end
      else String c (sprintf f1 args)
  | EmptyString => EmptyString
  end.
Definition Sprintf (f : string) (args : list farg) : string := sprintf (Lit_ f) args.

Example Sprintf1 : Sprintf "beam %q has %d%% of %v\n" [FS "x"; FD 12; FInts [3; 2]%Z]
  = "beam " +:+ quoted "x" +:+ " has 12% of [3 2]" +:+ String newline EmptyString.
Proof. reflexivity. Qed.

(** * strings.Fields *)

Fixpoint fields (word : string) (s : string) : list string :=
  match s with
  | EmptyString => if decide (word = EmptyString) then [] else [reverse word]
  | String c s =>
      if is_space_byte c then
        if decide (word = EmptyString) then fields EmptyString s else reverse word :: fields EmptyString s
      else fields (String c word) s
  end.
Definition Fields (s : string) : list string := fields EmptyString s.
Example Fields1 : Fields "  beams:write beams:use " = ["beams:write"; "beams:use"].
Proof. reflexivity. Qed.

(** * encoding/base64 *)

(** The value of a byte in the standard and in the URL alphabet. *)
Definition b64_value (url : bool) (c : ascii) : option Z :=
  let n := Z.of_nat (Ascii.nat_of_ascii c) in
  if is_upper c then Some (n - 65)%Z
  else if is_lower c then Some (n - 71)%Z
  else if is_digit c then Some (n + 4)%Z
  else if decide (c = (if url then "-" else "+")%char) then Some 62%Z
  else if decide (c = (if url then "_" else "/")%char) then Some 63%Z
  else None.
Definition byte_of (z : Z) : ascii := Ascii.ascii_of_nat (Z.to_nat (z `mod` 256)).
(** Four bytes at a time; [padded] wants the padding bytes and refuses a short tail. *)
Fixpoint b64_groups (url padded : bool) (s : string) : option string :=
  match s with
  | EmptyString => Some EmptyString
  | String a (String b EmptyString) =>
      if padded then None else
      x ← b64_value url a; y ← b64_value url b;
      Some (String (byte_of (x * 4 + y / 16)) EmptyString)
  | String a (String b (String c EmptyString)) =>
      if padded then None else
      x ← b64_value url a; y ← b64_value url b; z ← b64_value url c;
      Some (String (byte_of (x * 4 + y / 16)) (String (byte_of (y * 16 + z / 4)) EmptyString))
  | String a (String b (String c (String d rest))) =>
      x ← b64_value url a; y ← b64_value url b;
      let one := byte_of (x * 4 + y / 16) in
      if decide (padded = true ∧ d = "="%char) then
        if decide (rest = EmptyString) then
          if decide (c = "="%char) then Some (String one EmptyString)
          else z ← b64_value url c; Some (String one (String (byte_of (y * 16 + z / 4)) EmptyString))
        else None
      else
      z ← b64_value url c; w ← b64_value url d; more ← b64_groups url padded rest;
      Some (String one (String (byte_of (y * 16 + z / 4)) (String (byte_of (z * 64 + w)) more)))
  | _ => None
  end.
(** The decoders skip line breaks. *)
Fixpoint skip_breaks (s : string) : string :=
  match s with
  | EmptyString => EmptyString
  | String c s => if decide (c = newline ∨ c = Ascii.ascii_of_nat 13) then skip_breaks s
                  else String c (skip_breaks s)
  end.
(** base64.RawURLEncoding and base64.StdEncoding *)
Definition RawURL_DecodeString (s : string) : option string := b64_groups true false (skip_breaks s).
Definition Std_DecodeString (s : string) : option string := b64_groups false true (skip_breaks s).
(** base64.StdEncoding.DecodedLen *)
Definition Std_DecodedLen (n : Z) : Z := (n / 4 * 3)%Z.

Example Std1 : Std_DecodeString "YmVhbWhhbGw=" = Some "beamhall".
Proof. reflexivity. Qed.
Example Raw1 : RawURL_DecodeString "AQAB" = Some (String (byte_of 1) (String (byte_of 0) (String (byte_of 1) EmptyString))).
Proof. reflexivity. Qed.

Lemma b64_groups_length url padded s t : b64_groups url padded s = Some t →
  (Z.of_nat (String.length t) * 4 ≤ Z.of_nat (String.length s) * 3)%Z.
Proof.
  remember (String.length s) as n eqn:Hn. revert s t Hn. induction n as [n IH] using lt_wf_ind. intros s t Hn.
  destruct s as [|a [|b [|c [|d rest]]]]; simpl; try done; [intros [= <-]; simpl; lia| | |].
  - destruct padded; [done|]. destruct (b64_value url a), (b64_value url b); try done. intros [= <-]. simpl in *. lia.
  - destruct padded; [done|]. destruct (b64_value url a), (b64_value url b), (b64_value url c); try done.
    intros [= <-]. simpl in *. lia.
  - destruct (b64_value url a), (b64_value url b); try done. simpl. case_decide.
    + case_decide; [|done]. case_decide; [intros [= <-]; simpl in *; lia|].
      destruct (b64_value url c); [|done]. intros [= <-]. simpl in *. lia.
    + destruct (b64_value url c), (b64_value url d); try done. simpl.
      destruct (b64_groups url padded rest) as [more|] eqn:Em; [|done]. intros [= <-]. simpl in *.
      specialize (IH (String.length rest) ltac:(lia) rest more eq_refl Em). lia.
Qed.
Lemma skip_breaks_length s : String.length (skip_breaks s) ≤ String.length s.
Proof. induction s as [|c s IH]; simpl; [done|]. case_decide; simpl; lia. Qed.
(** What decodes is no longer than DecodedLen says. *)
Lemma Std_DecodedLen_bound s t : Std_DecodeString s = Some t →
  (Z.of_nat (String.length t) ≤ Std_DecodedLen (Z.of_nat (String.length s)))%Z.
Proof.
  unfold Std_DecodeString, Std_DecodedLen. intros H.
  assert (∀ u v, b64_groups false true u = Some v → (String.length u mod 4 = 0) ) as Hmod.
  { clear. intros u. remember (String.length u) as n eqn:Hn. revert u Hn.
    induction n as [n IH] using lt_wf_ind. intros u Hn v.
    destruct u as [|a [|b [|c [|d rest]]]]; simpl; try done; [by subst|].
    destruct (b64_value false a), (b64_value false b); try done. simpl. case_decide.
    - case_decide; [|done]. intros _. subst rest. by subst n.
    - destruct (b64_value false c), (b64_value false d); try done. simpl.
      destruct (b64_groups false true rest) as [more|] eqn:Em; [|done]. intros _. simpl in Hn.
      pose proof (IH (String.length rest) ltac:(lia) rest eq_refl more Em) as Hr.
      apply Nat.Div0.mod_divides in Hr as [q Hq]. change (n mod 4 = 0). apply Nat.Div0.mod_divides. exists (S q). lia. }
  apply Hmod in H as Hm. apply b64_groups_length in H. pose proof (skip_breaks_length s).
  set (l := String.length (skip_breaks s)) in *.
  assert (Z.of_nat l / 4 * 4 = Z.of_nat l)%Z as Hl.
  { apply Nat.Div0.mod_divides in Hm as [q Hq]. clearbody l. subst l. Z.to_euclidean_division_equations. lia. }
  assert (Z.of_nat l / 4 ≤ Z.of_nat (String.length s) / 4)%Z by (apply Z.div_le_mono; lia). lia.
Qed.

(** * Go's encoders the admin console uses: base64.RawURLEncoding.EncodeToString with its
    decoder's inverse, url.QueryEscape and url.Values.Encode. *)

(** * base64 *)

Definition byte_value (c : ascii) : Z := Z.of_nat (Ascii.nat_of_ascii c).
(** The digit of a value in the URL alphabet. *)
Definition b64_digit (z : Z) : ascii :=
  byte_of (if decide (z < 26)%Z then z + 65 else if decide (z < 52)%Z then z + 71
           else if decide (z < 62)%Z then z - 4 else if decide (z = 62)%Z then 45 else 95).
Fixpoint RawURL_EncodeToString (s : string) : string :=
  match s with
  | EmptyString => EmptyString
  | String a EmptyString =>
      let x := byte_value a in
      String (b64_digit (x / 4)) (String (b64_digit (x `mod` 4 * 16)) EmptyString)
  | String a (String b EmptyString) =>
      let x := byte_value a in let y := byte_value b in
      String (b64_digit (x / 4)) (String (b64_digit (x `mod` 4 * 16 + y / 16))
        (String (b64_digit (y `mod` 16 * 4)) EmptyString))
  | String a (String b (String c rest)) =>
      let x := byte_value a in let y := byte_value b in let z := byte_value c in
      String (b64_digit (x / 4)) (String (b64_digit (x `mod` 4 * 16 + y / 16))
        (String (b64_digit (y `mod` 16 * 4 + z / 64)) (String (b64_digit (z `mod` 64))
          (RawURL_EncodeToString rest))))
  end.
Example Raw2 : RawURL_EncodeToString "beamhall??>" = "YmVhbWhhbGw_Pz4".
Proof. reflexivity. Qed.

Lemma byte_value_range c : (0 ≤ byte_value c < 256)%Z.
Proof. unfold byte_value. pose proof (Ascii.nat_ascii_bounded c). lia. Qed.
Lemma byte_of_value c z : (z `mod` 256 = byte_value c)%Z → byte_of z = c.
Proof.
  intros E. unfold byte_of. rewrite E.
  unfold byte_value. by rewrite Nat2Z.id, Ascii.ascii_nat_embedding.
Qed.
Lemma b64_digits : Forall (λ n, b64_value true (b64_digit (Z.of_nat n)) = Some (Z.of_nat n)
    ∧ b64_digit (Z.of_nat n) ≠ newline ∧ b64_digit (Z.of_nat n) ≠ Ascii.ascii_of_nat 13
    ∧ b64_digit (Z.of_nat n) ≠ ":"%char ∧ b64_digit (Z.of_nat n) ≠ "."%char) (seq 0 64).
Proof. apply (bool_decide_unpack _). vm_compute. exact I. Qed.
Lemma b64_digit_ok z : (0 ≤ z < 64)%Z →
  b64_value true (b64_digit z) = Some z ∧ b64_digit z ≠ newline ∧ b64_digit z ≠ Ascii.ascii_of_nat 13
  ∧ b64_digit z ≠ ":"%char ∧ b64_digit z ≠ "."%char.
Proof.
  intros Hz. pose proof b64_digits as H. rewrite Forall_forall in H.
  specialize (H (Z.to_nat z)). rewrite Z2Nat.id in H by lia. apply H. apply elem_of_seq. lia.
Qed.

(** Strings three bytes at a time. *)
Lemma string_ind3 (P : string → Prop) :
  P EmptyString → (∀ a, P (String a EmptyString)) → (∀ a b, P (String a (String b EmptyString))) →
  (∀ a b c s, P s → P (String a (String b (String c s)))) → ∀ s, P s.
Proof.
  intros H0 H1 H2 H3. fix IH 1. intros [|a [|b [|c s]]]; [done|done|done|]. apply H3, IH.
Qed.
Ltac b64_range :=
  repeat match goal with
  | c : ascii |- _ =>
      let x := fresh "code" in
      pose proof (byte_value_range c); set (x := byte_value c) in *; clearbody x; revert c
  end; intros; Z.to_euclidean_division_equations; lia.
(** What is encoded is made of digits. *)
Lemma RawURL_Encode_digits (f : ascii → bool) s :
  (∀ z, (0 ≤ z < 64)%Z → f (b64_digit z) = true) → all_bytes f (RawURL_EncodeToString s) = true.
Proof.
  intros Hf. induction s as [|a|a b|a b c s IH] using string_ind3; cbn [RawURL_EncodeToString all_bytes]; [done|..].
  all: cbv zeta; repeat (apply andb_true_intro; split); try done; apply Hf; b64_range.
Qed.
Definition line_break (c : ascii) : bool := bool_decide (c = newline ∨ c = Ascii.ascii_of_nat 13).
Lemma skip_breaks_none s : all_bytes (λ c, negb (line_break c)) s = true → skip_breaks s = s.
Proof.
  induction s as [|c s IH]; simpl; [done|]. unfold line_break at 1.
  intros [Hc Hs]%andb_prop. destruct (decide (c = newline ∨ c = Ascii.ascii_of_nat 13));
    [by rewrite bool_decide_true in Hc|]. by rewrite IH.
Qed.

Ltac b64_bytes := f_equal; repeat first [reflexivity | apply byte_of_value; b64_range | f_equal].
(** What is encoded decodes to itself. *)
Lemma RawURL_roundtrip s : RawURL_DecodeString (RawURL_EncodeToString s) = Some s.
Proof.
  unfold RawURL_DecodeString. rewrite skip_breaks_none.
  2:{ apply RawURL_Encode_digits. intros z Hz. destruct (b64_digit_ok z Hz) as (_ & ? & ? & _).
      unfold line_break. by rewrite bool_decide_false by tauto. }
  induction s as [|a|a b|a b c s IH] using string_ind3; simpl; [done| | |].
  - rewrite (proj1 (b64_digit_ok (byte_value a / 4) ltac:(b64_range))), (proj1 (b64_digit_ok (byte_value a `mod` 4 * 16) ltac:(b64_range))).
    simpl. b64_bytes.
  - rewrite (proj1 (b64_digit_ok (byte_value a / 4) ltac:(b64_range))),
      (proj1 (b64_digit_ok (byte_value a `mod` 4 * 16 + byte_value b / 16) ltac:(b64_range))),
      (proj1 (b64_digit_ok (byte_value b `mod` 16 * 4) ltac:(b64_range))).
    simpl. b64_bytes.
  - rewrite (proj1 (b64_digit_ok (byte_value a / 4) ltac:(b64_range))),
      (proj1 (b64_digit_ok (byte_value a `mod` 4 * 16 + byte_value b / 16) ltac:(b64_range))),
      (proj1 (b64_digit_ok (byte_value b `mod` 16 * 4 + byte_value c / 64) ltac:(b64_range))),
      (proj1 (b64_digit_ok (byte_value c `mod` 64) ltac:(b64_range))).
    simpl. rewrite IH. simpl. b64_bytes.
Qed.
Lemma RawURL_Encode_inj s s' : RawURL_EncodeToString s = RawURL_EncodeToString s' → s = s'.
Proof. intros E. pose proof (RawURL_roundtrip s) as H. rewrite E, RawURL_roundtrip in H. by injection H. Qed.

(** A text with another byte than digits and line breaks does not decode. *)
Definition b64_byte (c : ascii) : bool := match b64_value true c with Some _ => true | None => false end.
Lemma b64_groups_alphabet s t : b64_groups true false s = Some t → all_bytes b64_byte s = true.
Proof.
  remember (String.length s) as n eqn:Hn. revert s t Hn. induction n as [n IH] using lt_wf_ind. intros s t Hn.
  destruct s as [|a [|b [|c [|d rest]]]]; simpl; unfold b64_byte; try done.
  - by destruct (b64_value true a), (b64_value true b).
  - by destruct (b64_value true a), (b64_value true b), (b64_value true c).
  - destruct (b64_value true a), (b64_value true b); try done. simpl.
    destruct (b64_value true c), (b64_value true d); try done. simpl.
    destruct (b64_groups true false rest) as [more|] eqn:Em; [|done]. intros _. simpl in Hn.
    by apply (IH (String.length rest) ltac:(lia) rest more).
Qed.
Lemma RawURL_Decode_alphabet s t : RawURL_DecodeString s = Some t →
  all_bytes (λ c, line_break c || b64_byte c) s = true.
Proof.
  unfold RawURL_DecodeString. intros H%b64_groups_alphabet. induction s as [|c s IH]; simpl; [done|].
  simpl in H. unfold line_break at 1. destruct (decide (c = newline ∨ c = Ascii.ascii_of_nat 13)).
  - rewrite bool_decide_true by done. simpl. by apply IH.
  - simpl in H. apply andb_prop in H as [Hc Hs]. rewrite Hc, orb_true_r. simpl. by apply IH.
Qed.

(** * net/url *)

Definition query_unreserved (c : ascii) : bool :=
  is_upper c || is_lower c || is_digit c || bool_decide (c ∈ ["-"; "_"; "."; "~"]%char).
Fixpoint QueryEscape (s : string) : string :=
  match s with
  | EmptyString => EmptyString
  | String c s =>
      (if query_unreserved c then String c EmptyString
       else if decide (c = " "%char) then "+"
       else "%" +:+ ToUpper (hex_encode (String c EmptyString))) +:+ QueryEscape s
  end.
(** url.Values.Encode of single values, by key. *)
Definition Values_Encode (vs : gmap string string) : string :=
  Join ((λ k, QueryEscape k +:+ "=" +:+ QueryEscape (default EmptyString (vs !! k)))
          <$> sort_strings (map_to_list vs).*1) "&".
Example Encode1 : Values_Encode {["state" := "a+b"; "client_id" := "x y"; "scope" := "openid admin:it"]}
  = "client_id=x+y&scope=openid+admin%3Ait&state=a%2Bb".
Proof. reflexivity. Qed.
