(* ===== verification/Json.v ===== *)
(** Flat JSON objects as encoding/json writes and reads them: members that are strings or
    integers.  Marshal writes the fields of a struct in order; Unmarshal accepts white
    space, ignores unknown members, matches names up to case and lets the last one win, and
    refuses a member of the wrong kind.  Exact on ASCII: escapes of other characters, and
    nested values, are refused here and are not written by the backplane. *)
From S2P Require Import Prelude Regexp GoStrings.

Inductive jval :=
  | JStr (s : string)
  | JInt (z : Z).
#[export] Instance jval_eq_dec : EqDecision jval.
Proof. solve_decision. Defined.

Definition print_val (v : jval) : string :=
  match v with
  | JStr s => json_string s
  | JInt z => format_int z
  end.
Definition Marshal (members : list (string * jval)) : string :=
  json_object ((λ kv, (kv.1, print_val kv.2)) <$> members).

(** * Reading *)

Fixpoint skip_ws (s : string) : string :=
  match s with
  | String c s' => if decide (c ∈ [" "; Ascii.ascii_of_nat 9; newline; Ascii.ascii_of_nat 13]%char)
                   then skip_ws s' else s
  | EmptyString => EmptyString
  end.
Definition hex_val (c : ascii) : option nat :=
  let n := Ascii.nat_of_ascii c in
  if is_digit c then Some (n - 48)
  else if decide (97 ≤ n ≤ 102) then Some (n - 87)
  else if decide (65 ≤ n ≤ 70) then Some (n - 55)
  else None.
Definition unescape (c : ascii) : option ascii :=
  if decide (c = dquote ∨ c = backslash ∨ c = "/"%char) then Some c
  else if decide (c = "b"%char) then Some (Ascii.ascii_of_nat 8)
  else if decide (c = "f"%char) then Some (Ascii.ascii_of_nat 12)
  else if decide (c = "n"%char) then Some (Ascii.ascii_of_nat 10)
  else if decide (c = "r"%char) then Some (Ascii.ascii_of_nat 13)
  else if decide (c = "t"%char) then Some (Ascii.ascii_of_nat 9)
  else None.
(** The text of a string after its opening quote, and what follows its closing one. *)
Fixpoint read_string (s : string) : option (string * string) :=
  match s with
  | EmptyString => None
  | String c s1 =>
      if decide (c = dquote) then Some (EmptyString, s1)
      else if decide (c = backslash) then
        match s1 with
        | EmptyString => None
        | String e s2 =>
            if decide (e = "u"%char) then
              match s2 with
              | String h1 (String h2 (String h3 (String h4 s3))) =>
                  n1 ← hex_val h1; n2 ← hex_val h2; n3 ← hex_val h3; n4 ← hex_val h4;
                  let n := 4096 * n1 + 256 * n2 + 16 * n3 + n4 in
                  if decide (n < 128) then
                    r ← read_string s3;
                    Some (String (Ascii.ascii_of_nat n) r.1, r.2)
                  else None
              | _ => None
              end
            else
              x ← unescape e;
              r ← read_string s2;
              Some (String x r.1, r.2)
        end
      else if decide (Ascii.nat_of_ascii c < 32) then None
      else r ← read_string s1; Some (String c r.1, r.2)
  end.
(** The digits a text starts with. *)
Fixpoint span_digits (s : string) : string * string :=
  match s with
  | String c s' =>
      if is_digit c then let r := span_digits s' in (String c r.1, r.2) else (EmptyString, s)
  | EmptyString => (EmptyString, EmptyString)
  end.
(** A number without fraction or exponent, in the range of int64. *)
Definition read_int (s : string) : option (Z * string) :=
  let '(sign, s) := match s with
                    | String c s' => if decide (c = "-"%char) then (-1, s')%Z else (1, s)%Z
                    | EmptyString => (1, s)%Z
                    end in
  let '(ds, rest) := span_digits s in
  match ds with
  | EmptyString => None
  | String c ds' =>
      if decide (c = "0"%char ∧ ds' ≠ EmptyString) then None
      else n ← digits ds 0; if decide (int64 (sign * n)) then Some (sign * n, rest)%Z else None
  end.
Definition read_val (s : string) : option (jval * string) :=
  match s with
  | String c s' =>
      if decide (c = dquote) then r ← read_string s'; Some (JStr r.1, r.2)
      else r ← read_int s; Some (JInt r.1, r.2)
  | EmptyString => None
  end.
Definition expect (c : ascii) (s : string) : option string :=
  match skip_ws s with
  | String d s' => if decide (d = c) then Some s' else None
  | EmptyString => None
  end.
(** The members after the opening brace; [fuel] bounds their number. *)
Fixpoint read_members (fuel : nat) (s : string) : option (list (string * jval) * string) :=
  match fuel with
  | O => None
  | S fuel =>
      s ← expect dquote s;
      k ← read_string s;
      s ← expect ":"%char k.2;
      v ← read_val (skip_ws s);
      match skip_ws v.2 with
      | String c s' =>
          if decide (c = "}"%char) then Some ([(k.1, v.1)], s')
          else if decide (c = ","%char) then
            r ← read_members fuel s'; Some ((k.1, v.1) :: r.1, r.2)
          else None
      | EmptyString => None
      end
  end.
Definition Unmarshal (s : string) : option (list (string * jval)) :=
  s ← expect "{"%char s;
  r ← match skip_ws s with
      | String c s' => if decide (c = "}"%char) then Some ([], s')
                       else read_members (String.length s) s
      | EmptyString => None
      end;
  if decide (skip_ws r.2 = EmptyString) then Some r.1 else None.

(** ** Fields *)

Definition same_name (f k : string) : bool := bool_decide (ToLower f = ToLower k).
Definition member (f : string) (members : list (string * jval)) : option jval :=
  snd <$> last (filter (λ kv, same_name f kv.1) members).
(** A string or integer field of a struct: its zero value when absent, [None] when of the
    wrong kind. *)
Definition str_field (f : string) (members : list (string * jval)) : option string :=
  match member f members with
  | None => Some EmptyString
  | Some (JStr s) => Some s
  | Some (JInt _) => None
  end.
Definition int_field (f : string) (members : list (string * jval)) : option Z :=
  match member f members with
  | None => Some 0%Z
  | Some (JInt z) => Some z
  | Some (JStr _) => None
  end.

Definition Members1 : list (string * jval) :=
  [("Name", JStr "a<b>"); ("ThroughSeq", JInt (-120)); ("X", JStr (String dquote (String newline EmptyString)))].
Example reads_what_it_writes : Unmarshal (Marshal Members1) = Some Members1.
Proof. vm_compute. done. Qed.
Example reads_loosely :
  Unmarshal " { } " = Some [] ∧ Unmarshal "{1:2}" = None
  ∧ int_field "throughseq" Members1 = Some (-120)%Z ∧ str_field "ThroughSeq" Members1 = None.
Proof. vm_compute. done. Qed.

(** * What is written reads back *)

Lemma read_string_byte c t :
  read_string (json_byte c +:+ t) = r ← read_string t; Some (String c r.1, r.2).
Proof. destruct c as [[] [] [] [] [] [] [] []]; reflexivity. Qed.

Lemma read_string_bytes s t : read_string (json_bytes s +:+ String dquote t) = Some (s, t).
Proof.
  induction s as [|c s IH]; [done|]. simpl. rewrite string_app_assoc, read_string_byte.
  by rewrite IH.
Qed.

Lemma digits_pretty_go n s : digits (pretty_N_go n s) 0 = digits s (Z.of_N n).
Proof.
  revert s. induction n as [n IH] using (well_founded_induction N.lt_wf_0); intros s.
  destruct (decide (0 < n)%N) as [Hn|Hn].
  - rewrite pretty_N_go_step by done. rewrite IH by (by apply N.div_lt). simpl.
    assert (n `mod` 10 < 10)%N as Hm by (apply N.mod_lt; lia).
    pose proof (N.div_mod' n 10) as Hdm.
    assert (∀ d, (d < 10)%N → is_digit (pretty_N_char d) = true
              ∧ Z.of_nat (Ascii.nat_of_ascii (pretty_N_char d) - 48) = Z.of_N d) as Hd.
    { intros d Hd. assert (d ∈ [0;1;2;3;4;5;6;7;8;9]%N) as Hin.
      { rewrite !elem_of_cons. lia. }
      repeat (apply elem_of_cons in Hin as [->|Hin]; [done|]). by apply not_elem_of_nil in Hin. }
    destruct (Hd _ Hm) as [-> ->]. f_equal. lia.
  - replace n with 0%N by lia. by rewrite pretty_N_go_0.
Qed.

Lemma pretty_N_go_head n s : (0 < n)%N →
  ∃ c t, pretty_N_go n s = String c t ∧ is_digit c = true ∧ c ≠ "0"%char.
Proof.
  revert s. induction n as [n IH] using (well_founded_induction N.lt_wf_0); intros s Hn.
  rewrite pretty_N_go_step by done. destruct (decide (0 < n `div` 10)%N) as [Hd|Hd].
  - apply IH; [by apply N.div_lt|done].
  - assert (n `div` 10 = 0)%N as E by (apply N.le_0_r, N.nlt_ge; exact Hd). rewrite E, pretty_N_go_0.
    assert (n < 10)%N as Hlt by (apply N.div_small_iff; lia). rewrite N.mod_small by done.
    eexists _, _. split; [done|]. assert (n ∈ [1;2;3;4;5;6;7;8;9]%N) as Hin.
    { rewrite !elem_of_cons. lia. }
    repeat (apply elem_of_cons in Hin as [->|Hin]; [done|]). by apply not_elem_of_nil in Hin.
Qed.

Definition no_digit_first (s : string) : bool :=
  match s with String c _ => negb (is_digit c) | EmptyString => true end.

Lemma span_digits_app a s : all_bytes is_digit a = true → no_digit_first s = true →
  span_digits (a +:+ s) = (a, s).
Proof.
  intros Ha Hs. induction a as [|c a IH]; simpl in *.
  - destruct s as [|c s]; [done|]. simpl in *. by destruct (is_digit c).
  - apply andb_prop in Ha as [-> Ha]. by rewrite (IH Ha).
Qed.
Lemma span_digits_all s : all_bytes is_digit s = true → span_digits s = (s, EmptyString).
Proof. intros Hs. rewrite <-(string_app_nil_r s) at 1. by apply span_digits_app. Qed.

Lemma pretty_N_go_digits n s : all_bytes is_digit s = true →
  all_bytes is_digit (pretty_N_go n s) = true.
Proof.
  revert s. induction n as [n IH] using (well_founded_induction N.lt_wf_0); intros s Hs.
  destruct (decide (0 < n)%N) as [Hn|Hn].
  - rewrite pretty_N_go_step by done. apply IH; [by apply N.div_lt|]. simpl. rewrite Hs.
    unfold pretty_N_char. repeat case_match; done.
  - replace n with 0%N by lia. by rewrite pretty_N_go_0.
Qed.

(** The decimal form of a positive number. *)
Lemma pretty_pos p : ∃ c t, pretty (Npos p) = String c t ∧ is_digit c = true ∧ c ≠ "0"%char
  ∧ all_bytes is_digit (String c t) = true ∧ digits (String c t) 0 = Some (Zpos p).
Proof.
  destruct (pretty_N_go_head (Npos p) EmptyString) as (c & t & E & Hc & H0); [done|].
  exists c, t. unfold pretty, pretty_N. rewrite decide_False by done. rewrite <-E at 2 3.
  split_and!; [done..|by apply pretty_N_go_digits|]. by rewrite digits_pretty_go.
Qed.

Lemma read_int_format z s : int64 z → no_digit_first s = true →
  read_int (format_int z +:+ s) = Some (z, s).
Proof.
  intros Hz Hs. unfold format_int. destruct z as [|p|p].
  - unfold read_int. change (pretty 0%Z +:+ s) with (String "0" s). simpl.
    destruct s as [|c s]; [done|]. simpl in *. by destruct (is_digit c).
  - destruct (pretty_pos p) as (c & t & E & Hc & H0 & Hd & Hv).
    change (pretty (Z.pos p)) with (pretty (Npos p)). rewrite E. unfold read_int.
    rewrite string_app_cons. destruct (decide (c = "-"%char)) as [->|_]; [done|].
    rewrite <-string_app_cons, span_digits_app by done.
    rewrite decide_False by naive_solver. rewrite Hv.
    cbn [mbind option_bind]. rewrite decide_True by done. done.
  - destruct (pretty_pos p) as (c & t & E & Hc & H0 & Hd & Hv).
    change (pretty (Z.neg p)) with ("-" +:+ pretty (Npos p)). rewrite E. unfold read_int.
    change (("-" +:+ ?x) +:+ s) with (String "-" (x +:+ s)).
    cbv beta iota. rewrite decide_True by done. rewrite span_digits_app by done.
    rewrite decide_False by naive_solver. rewrite Hv.
    cbn [mbind option_bind]. rewrite decide_True by done. done.
Qed.

Definition val_ok (v : jval) : Prop := match v with JStr _ => True | JInt z => int64 z end.

Lemma read_val_print v s : val_ok v → no_digit_first s = true →
  read_val (print_val v +:+ s) = Some (v, s).
Proof.
  intros Hv Hs. destruct v as [t|z]; cbn [print_val].
  - unfold json_string. rewrite string_app_cons, string_app_assoc.
    change (String dquote EmptyString +:+ s) with (String dquote s). unfold read_val.
    rewrite decide_True by done. by rewrite read_string_bytes.
  - pose proof (read_int_format z s Hv Hs) as E. unfold read_val.
    destruct (format_int z +:+ s) as [|c t] eqn:Ez; [done|].
    destruct (decide (c = dquote)) as [->|_]; [|by rewrite E].
    by unfold read_int in E.
Qed.
Lemma print_val_ws v s : skip_ws (print_val v +:+ s) = print_val v +:+ s.
Proof.
  destruct v as [t|[|p|p]]; [done|done| |done]. cbn [print_val]. unfold format_int.
  change (pretty (Z.pos p)) with (pretty (Npos p)).
  destruct (pretty_pos p) as (c & t & -> & Hc & _). rewrite string_app_cons. cbn [skip_ws].
  rewrite decide_False; [done|]. intros Hin. rewrite !elem_of_cons in Hin.
  destruct Hin as [->|[->|[->|[->|Hin]]]]; try done. by apply not_elem_of_nil in Hin.
Qed.

Definition print_member (kv : string * jval) : string :=
  json_string kv.1 +:+ ":" +:+ print_val kv.2.

Lemma Join_print members :
  Join ((λ kv, json_string kv.1 +:+ ":" +:+ kv.2)
    <$> ((λ kv, (kv.1, print_val kv.2)) <$> members)) "," = Join (print_member <$> members) ",".
Proof. f_equal. rewrite <-list_fmap_compose. done. Qed.

Lemma read_members_print members fuel :
  members ≠ [] → Forall (λ kv, val_ok kv.2) members → length members ≤ fuel →
  read_members fuel (Join (print_member <$> members) "," +:+ "}") = Some (members, EmptyString).
Proof.
  intros Hne Hok. revert fuel. induction Hok as [|kv members Hv Hok IH]; intros fuel Hf; [done|].
  destruct fuel as [|fuel]; [simpl in Hf; lia|].
  assert (∀ rest, no_digit_first rest = true →
    read_members (S fuel) (print_member kv +:+ rest) =
      match skip_ws rest with
      | String c s' =>
          if decide (c = "}"%char) then Some ([kv], s')
          else if decide (c = ","%char) then
            r ← read_members fuel s'; Some (kv :: r.1, r.2)
          else None
      | EmptyString => None
      end) as Hstep.
  { intros rest Hrest. unfold print_member, json_string.
    rewrite !string_app_cons, !string_app_assoc. cbn -[print_val].
    change (expect dquote (String dquote ?x)) with (Some x). cbn [mbind option_bind].
    change (String dquote EmptyString +:+ ?x) with (String dquote x).
    rewrite read_string_bytes. cbn [mbind option_bind fst snd]. rewrite string_app_cons.
    change (expect ":"%char (String ":" ?x)) with (Some x). cbn [mbind option_bind].
    change (EmptyString +:+ ?x) with x.
    rewrite print_val_ws, read_val_print by done. by destruct kv. }
  destruct members as [|kv2 members].
  - change (Join (print_member <$> [kv]) ",") with (print_member kv). by rewrite Hstep.
  - change (Join (print_member <$> kv :: kv2 :: members) ",")
      with (print_member kv +:+ "," +:+ Join (print_member <$> kv2 :: members) ",").
    rewrite !string_app_assoc, Hstep by done.
    change ("," +:+ ?x) with (String "," x). cbn [skip_ws].
    change (if decide (_ ∈ _) then _ else ?x) with x. cbv beta iota.
    change (if decide (","%char = "}"%char) then _ else ?x) with x.
    change (if decide (","%char = ","%char) then ?x else _) with x.
    rewrite IH; [done..|simpl in *; lia].
Qed.

Lemma Join_length members : length members ≤ S (String.length (Join (print_member <$> members) ",")).
Proof.
  induction members as [|kv [|kv2 members] IH]; [simpl; lia..|].
  csimpl in *. rewrite !string_length_app in *. simpl in *. lia.
Qed.

Lemma Unmarshal_Marshal members :
  Forall (λ kv, val_ok kv.2) members → Unmarshal (Marshal members) = Some members.
Proof.
  intros Hok. unfold Marshal, json_object. rewrite Join_print. unfold Unmarshal.
  change ("{" +:+ ?x) with (String "{" x). cbn -[read_members Join].
  change (EmptyString +:+ ?x) with x.
  destruct members as [|kv members]; [done|].
  assert (∃ t, Join (print_member <$> kv :: members) "," +:+ "}" = String dquote t) as [t Ht].
  { destruct members; csimpl; unfold print_member, json_string; rewrite ?string_app_cons; eauto. }
  change (expect "{"%char (String "{" ?x)) with (Some x). cbn [mbind option_bind].
  assert (Hr : read_members (String.length (String dquote t)) (String dquote t)
               = Some (kv :: members, EmptyString)).
  { rewrite <-Ht. apply read_members_print; [done..|].
    rewrite string_length_app. pose proof (Join_length (kv :: members)).
    change (String.length "}") with 1. lia. }
  rewrite Ht. change (skip_ws (String dquote t)) with (String dquote t). cbv beta iota.
  change (if decide (dquote = "}"%char) then _ else ?x) with x. by rewrite Hr.
Qed.
