(* ===== verification/Diagnose.v ===== *)
(** Failure messages (internal/diagnose): the signatures of build and run failures and
    the composed messages. *)
From S2P Require Import Prelude Regexp GoStrings.

(** A (?i) pattern of alternatives, each a sequence of literals and other pieces. *)
Definition any_of (l : list string) : re := Alts (LitI <$> l).
Definition anything : re := Star true Dot.
Definition alnum_ : re := Class_ is_word.
Definition number : re := Plus (Class_ is_digit).

Definition buildSignatures : list (re * string) :=
  [ (any_of ["no buildpack groups passed detection"; "failed to detect"],
     "no supported app was detected in the source. Buildpacks need a recognizable project root: package.json (Node.js), requirements.txt/pyproject.toml (Python), or a static site. Dockerfiles are ignored by design — do not add one; add the project manifest instead.");
    (Alt (Cat (LitI "npm ") (any_of ["ERR!"; "error"]))
         (Cats [LitI "npm install"; anything; LitI "failed"]),
     "npm install failed inside the build. Check that package.json is valid and every dependency exists at the pinned version; the build has no access to private registries.");
    (Alt (Cats [LitI "pip "; Opt (LitI "install "); LitI "error"])
         (LitI "could not find a version that satisfies"),
     "pip could not resolve the dependencies. Check requirements.txt for typos and versions that exist on PyPI; the build has no access to private indexes.");
    (any_of ["context deadline exceeded"; "signal: killed"],
     "the build exceeded its time limit. Trim heavy build steps (large dependency trees, asset compilation) or split the beam.");
    (any_of ["connection refused"; "i/o timeout"; "TLS handshake timeout"; "no such host"],
     "the build could not reach a network dependency. Builds may fetch public packages but nothing else; vendor anything unusual into the source.") ].

Definition runSignatures : list (re * string) :=
  [ (any_of ["EROFS"; "read-only file system"],
     "the workload tried to write to its filesystem, which is read-only by policy. Write only under /tmp (tmpfs), or keep state in the beam's database (create_database).");
    (Alts [Cats [any_of ["listen"; "bind"]; Star true alnum_; LitI " EACCES"];
           Cats [LitI "EACCES"; anything; any_of ["listen"; "bind"; "port"]];
           Cats [LitI "permission denied"; anything; any_of ["listen"; "bind"; "port"]]],
     "the workload may not bind that port. Listen on the port in the PORT environment variable (plain HTTP; TLS terminates at the gateway).");
    (LitI "EADDRINUSE",
     "the port is already taken inside the container — the app is probably binding a hardcoded port AND $PORT. Bind only the PORT environment variable, once.");
    (Cats [LitI "ENOENT"; anything; LitI "/run/secrets/"; Plus alnum_],
     "the workload reads a secret file that does not exist. Create it first (set_secret or create_database), then redeploy — secrets are mounted under /run/secrets/<KEY> at deploy time.");
    (any_of ["JavaScript heap out of memory"; "OOMKilled"; "Out of memory"],
     "the workload exceeded its memory ceiling (set by IT, immutable to agents). Reduce memory use; if genuinely undersized, ask IT to raise the beamhall quota.");
    (Alts [any_of ["ETIMEDOUT"; "EAI_AGAIN"; "getaddrinfo"; "ENETUNREACH"; "TimeoutError";
                   "UND_ERR_CONNECT_TIMEOUT"; "fetch failed"];
           Cats [LitI "connect ECONNREFUSED "; number; Lit "."; number; Lit "."; number;
                 Lit "."; number; Lit ":"; any_of ["80"; "443"]]],
     "an outbound connection failed: egress is DENIED BY DEFAULT for every beam. Internal dependencies live on the beam's own network (e.g. its database via /run/secrets/<NAME>_URL); anything external needs an IT-approved allowlist entry.");
    (any_of ["EPERM"; "operation not permitted"],
     "the operation needs a capability this workload does not have — the hardening baseline drops all capabilities and cannot be changed from here. Restructure the app to avoid it (no raw sockets, no mounts, no setuid).") ].

Definition q1 (s : string) : string := String dquote (s +:+ String dquote EmptyString).
Definition exitHints (code : Z) : string :=
  if decide (code = 125)%Z then "the container runtime refused the configuration"
  else if decide (code = 126)%Z then "the start command exists but is not executable"
  else if decide (code = 127)%Z then
    "the start command was not found — for Node, package.json needs a " +:+ q1 "start" +:+
    " script (or a server.js/index.js entrypoint)"
  else if decide (code = 137)%Z then
    "the workload was killed (SIGKILL) — usually the memory ceiling (OOM). Reduce memory use or ask IT to raise the quota"
  else if decide (code = 139)%Z then "the workload crashed with a segmentation fault"
  else if decide (code = 143)%Z then
    "the workload was terminated (SIGTERM) without shutting down"
  else EmptyString.

Fixpoint first_hint (sigs : list (re * string)) (s : string) : string :=
  match sigs with
  | [] => EmptyString
  | (r, hint) :: sigs => if MatchString r s then hint else first_hint sigs s
  end.
(** Build, Run and Exit *)
Definition Diagnose_Build (output : string) : string := first_hint buildSignatures output.
Definition Diagnose_Run (logTail : string) : string := first_hint runSignatures logTail.
Definition Diagnose_Exit (code : Z) : string := exitHints code.

Definition nl : string := String newline EmptyString.
Definition with_hint (hint : string) : string :=
  if decide (hint = EmptyString) then EmptyString else ". Likely cause: " +:+ hint.
Definition with_tail (title tail : string) : string :=
  if decide (TrimSpace tail = EmptyString) then EmptyString
  else nl +:+ title +:+ nl +:+ TrimSpace tail.

Definition StartFailure (exitCode : option Z) (logTail : string) : string :=
  "the workload exited during startup"
  +:+ match exitCode with Some c => " with code " +:+ format_int c | None => EmptyString end
  +:+ with_hint (match Diagnose_Run logTail, exitCode with
                 | EmptyString, Some c => Diagnose_Exit c
                 | hint, _ => hint
                 end)
  +:+ with_tail "--- last log lines (sanitized) ---" logTail.

Definition BuildFailure (cause outputTail : string) : string :=
  "the build failed: " +:+ cause +:+ with_hint (Diagnose_Build outputTail)
  +:+ with_tail "--- end of build output ---" outputTail.

Example diagnoses_port : MatchString (Alts [Cats [any_of ["listen"; "bind"]; Star true alnum_;
    LitI " EACCES"]]) "Error: listen EACCES: permission denied 0.0.0.0:80" = true
  ∧ Diagnose_Run "npm start ok" = EmptyString
  ∧ HasPrefix (Diagnose_Run "ENOENT: open '/run/secrets/MAIN_URL'")
      "the workload reads a secret file" = true.
Proof. vm_compute. done. Qed.
