(* ===== verification/Domain.v ===== *)
(** Core entities (internal/domain/entities.go) and the Beam lifecycle state
    machine (internal/domain/fsm.go): the vocabulary every other file shares.
    Enumerations are inductive types with the strings the source gives them;
    records keep the source's fields, prefixed by the record's name. *)
From S2P Require Import Prelude GoStrings.

(** An opaque identifier; the empty string is "unset". *)
Definition ID := string.
Definition no_id : ID := EmptyString.

(** * Identity and membership *)
Inductive IdentityStatus :=
  | IdentityActive
  | IdentityDisabled.
#[export] Instance IdentityStatus_eq_dec : EqDecision IdentityStatus.
Proof. solve_decision. Defined.
Definition IdentityStatus_string (x : IdentityStatus) : string :=
  match x with
  | IdentityActive => "active"
  | IdentityDisabled => "disabled"
  end.

Record Identity := MkIdentity {
  Identity_ID : ID;
  Identity_ExternalSubject : string;
  Identity_Email : string;
  Identity_DisplayName : string;
  Identity_IdPIssuer : string;
  Identity_Status : IdentityStatus;
  Identity_CreatedAt : time}.
#[export] Instance Eta_Identity : Eta Identity := λ x, MkIdentity (Identity_ID x)
  (Identity_ExternalSubject x) (Identity_Email x) (Identity_DisplayName x)
  (Identity_IdPIssuer x) (Identity_Status x) (Identity_CreatedAt x).
#[export] Instance Identity_eq_dec : EqDecision Identity.
Proof. solve_decision. Defined.

Inductive MembershipRole :=
  | RoleViewer
  | RoleBuilder
  | RoleBeamhallAdmin.
#[export] Instance MembershipRole_eq_dec : EqDecision MembershipRole.
Proof. solve_decision. Defined.
Definition MembershipRole_string (x : MembershipRole) : string :=
  match x with
  | RoleViewer => "viewer"
  | RoleBuilder => "builder"
  | RoleBeamhallAdmin => "beamhall_admin"
  end.

Record Membership := MkMembership {
  Membership_ID : ID;
  Membership_IdentityID : ID;
  Membership_BeamhallID : ID;
  Membership_Role : MembershipRole;
  Membership_GrantedBy : ID;
  Membership_GrantedAt : time}.
#[export] Instance Eta_Membership : Eta Membership := λ x, MkMembership (Membership_ID
  x) (Membership_IdentityID x) (Membership_BeamhallID x) (Membership_Role x)
  (Membership_GrantedBy x) (Membership_GrantedAt x).
#[export] Instance Membership_eq_dec : EqDecision Membership.
Proof. solve_decision. Defined.

(** * Beamhall *)
Inductive BeamhallStatus :=
  | BeamhallActive
  | BeamhallSuspended
  | BeamhallArchived.
#[export] Instance BeamhallStatus_eq_dec : EqDecision BeamhallStatus.
Proof. solve_decision. Defined.
Definition BeamhallStatus_string (x : BeamhallStatus) : string :=
  match x with
  | BeamhallActive => "active"
  | BeamhallSuspended => "suspended"
  | BeamhallArchived => "archived"
  end.

(** A string in the database: one that is neither constant can be stored. *)
Inductive RuntimeClass :=
  | RuntimeRunc
  | RuntimeRunsc
  | RuntimeOther (s : string).
#[export] Instance RuntimeClass_eq_dec : EqDecision RuntimeClass.
Proof. solve_decision. Defined.
Definition RuntimeClass_string (x : RuntimeClass) : string :=
  match x with
  | RuntimeRunc => "runc"
  | RuntimeRunsc => "runsc"
  | RuntimeOther s => s
  end.
(** domain.RuntimeClass(s) *)
Definition RuntimeClass_of (s : string) : RuntimeClass :=
  if decide (s = "runc") then RuntimeRunc
  else if decide (s = "runsc") then RuntimeRunsc
  else RuntimeOther s.

Inductive SecurityTemplate :=
  | TemplateWebApp
  | TemplateDataProcessor
  | TemplateDatabaseInit.
#[export] Instance SecurityTemplate_eq_dec : EqDecision SecurityTemplate.
Proof. solve_decision. Defined.
Definition SecurityTemplate_string (x : SecurityTemplate) : string :=
  match x with
  | TemplateWebApp => "web-app"
  | TemplateDataProcessor => "data-processor"
  | TemplateDatabaseInit => "database-init"
  end.

Record ResourceLimits := MkResourceLimits {
  CPUQuota : Z;
  MemBytes : Z;
  PidsMax : Z}.
#[export] Instance Eta_ResourceLimits : Eta ResourceLimits := λ x, MkResourceLimits
  (CPUQuota x) (MemBytes x) (PidsMax x).
#[export] Instance ResourceLimits_eq_dec : EqDecision ResourceLimits.
Proof. solve_decision. Defined.

Record SecurityContext := MkSecurityContext {
  SC_ID : ID;
  SC_BeamhallID : ID;
  SC_RuntimeClass : RuntimeClass;
  SC_UsernsRemap : bool;
  SC_CapDrop : list string;
  SC_CapAdd : list string;
  SC_SeccompProfile : string;
  SC_AppArmorProfile : string;
  SC_NoNewPrivileges : bool;
  SC_ReadOnlyRootfs : bool;
  SC_Tmpfs : list string;
  SC_CgroupLimits : ResourceLimits;
  SC_Template : SecurityTemplate}.
#[export] Instance Eta_SecurityContext : Eta SecurityContext := λ x, MkSecurityContext
  (SC_ID x) (SC_BeamhallID x) (SC_RuntimeClass x) (SC_UsernsRemap x) (SC_CapDrop x)
  (SC_CapAdd x) (SC_SeccompProfile x) (SC_AppArmorProfile x) (SC_NoNewPrivileges x)
  (SC_ReadOnlyRootfs x) (SC_Tmpfs x) (SC_CgroupLimits x) (SC_Template x).
#[export] Instance SecurityContext_eq_dec : EqDecision SecurityContext.
Proof. solve_decision. Defined.

Inductive EgressMode :=
  | EgressDenyAll
  | EgressAllowSet.
#[export] Instance EgressMode_eq_dec : EqDecision EgressMode.
Proof. solve_decision. Defined.
Definition EgressMode_string (x : EgressMode) : string :=
  match x with
  | EgressDenyAll => "deny_all"
  | EgressAllowSet => "allow_set"
  end.

Record NetworkPolicy := MkNetworkPolicy {
  NP_EgressMode : EgressMode;
  NP_EgressAllowlist : list string}.
#[export] Instance Eta_NetworkPolicy : Eta NetworkPolicy := λ x, MkNetworkPolicy
  (NP_EgressMode x) (NP_EgressAllowlist x).
#[export] Instance NetworkPolicy_eq_dec : EqDecision NetworkPolicy.
Proof. solve_decision. Defined.

Record ResourceQuota := MkResourceQuota {
  MaxBeams : Z;
  MaxLiveSlots : Z;
  MaxDBCount : Z;
  MaxStorageBytes : Z;
  CPUCeiling : Z;
  MemCeiling : Z}.
#[export] Instance Eta_ResourceQuota : Eta ResourceQuota := λ x, MkResourceQuota
  (MaxBeams x) (MaxLiveSlots x) (MaxDBCount x) (MaxStorageBytes x) (CPUCeiling x)
  (MemCeiling x).
#[export] Instance ResourceQuota_eq_dec : EqDecision ResourceQuota.
Proof. solve_decision. Defined.

Record Beamhall := MkBeamhall {
  Beamhall_ID : ID;
  Beamhall_Slug : string;
  Beamhall_DisplayName : string;
  Beamhall_Department : string;
  Beamhall_Status : BeamhallStatus;
  Beamhall_SecurityContextID : ID;
  Beamhall_NetworkPolicy : NetworkPolicy;
  Beamhall_Quota : ResourceQuota;
  Beamhall_LiveSlotLimit : Z;
  Beamhall_CreatedBy : ID;
  Beamhall_CreatedAt : time;
  Beamhall_UpdatedAt : time}.
#[export] Instance Eta_Beamhall : Eta Beamhall := λ x, MkBeamhall (Beamhall_ID x)
  (Beamhall_Slug x) (Beamhall_DisplayName x) (Beamhall_Department x) (Beamhall_Status x)
  (Beamhall_SecurityContextID x) (Beamhall_NetworkPolicy x) (Beamhall_Quota x)
  (Beamhall_LiveSlotLimit x) (Beamhall_CreatedBy x) (Beamhall_CreatedAt x)
  (Beamhall_UpdatedAt x).
#[export] Instance Beamhall_eq_dec : EqDecision Beamhall.
Proof. solve_decision. Defined.

(** * Audiences and peer grants *)
Record Audience := MkAudience {
  Everyone : bool;
  Groups : list string;
  Identities : list ID}.
#[export] Instance Eta_Audience : Eta Audience := λ x, MkAudience (Everyone x) (Groups
  x) (Identities x).
#[export] Instance Audience_eq_dec : EqDecision Audience.
Proof. solve_decision. Defined.

(** Audience.IsEmpty *)
Definition IsEmpty (a : Audience) : bool :=
  negb (Everyone a) && bool_decide (length (Groups a) = 0)
  && bool_decide (length (Identities a) = 0).

(** Audience.Allows *)
Definition Allows (a : Audience) (identityID : ID) (groups : list string) : bool :=
  Everyone a
  || existsb (λ id, bool_decide (id = identityID)) (Identities a)
  || existsb (λ g, existsb (λ have, bool_decide (g = have)) groups) (Groups a).

Record BeamAudience := MkBeamAudience {
  BA_BeamID : ID;
  BA_BeamhallID : ID;
  BA_Audience : Audience;
  BA_PublishedBy : ID;
  BA_PublishedAt : time;
  BA_UpdatedAt : time}.
#[export] Instance Eta_BeamAudience : Eta BeamAudience := λ x, MkBeamAudience (BA_BeamID x)
  (BA_BeamhallID x) (BA_Audience x) (BA_PublishedBy x) (BA_PublishedAt x) (BA_UpdatedAt x).
#[export] Instance BeamAudience_eq_dec : EqDecision BeamAudience.
Proof. solve_decision. Defined.

Record PeerSet := MkPeerSet {
  Peers_Beams : list ID;
  Peers_External : list string}.
#[export] Instance Eta_PeerSet : Eta PeerSet := λ x, MkPeerSet (Peers_Beams x)
  (Peers_External x).
#[export] Instance PeerSet_eq_dec : EqDecision PeerSet.
Proof. solve_decision. Defined.

(** PeerSet.Empty and PeerSet.AllowsBeam *)
Definition PeerSet_Empty (p : PeerSet) : bool :=
  bool_decide (length (Peers_Beams p) = 0) && bool_decide (length (Peers_External p) = 0).
Definition AllowsBeam (p : PeerSet) (target : ID) : bool :=
  existsb (λ id, bool_decide (id = target)) (Peers_Beams p).

Record BeamPeers := MkBeamPeers {
  BP_SourceBeamID : ID;
  BP_BeamhallID : ID;
  BP_Peers : PeerSet;
  BP_UpdatedBy : ID;
  BP_UpdatedAt : time}.
#[export] Instance Eta_BeamPeers : Eta BeamPeers := λ x, MkBeamPeers (BP_SourceBeamID x)
  (BP_BeamhallID x) (BP_Peers x) (BP_UpdatedBy x) (BP_UpdatedAt x).
#[export] Instance BeamPeers_eq_dec : EqDecision BeamPeers.
Proof. solve_decision. Defined.

(** * Branding *)
Record Branding := MkBranding {
  HeaderHTML : string;
  FooterHTML : string;
  PrimaryColor : string;
  SecondaryColor : string;
  AccentColor : string;
  BackgroundColor : string;
  TextColor : string}.
#[export] Instance Eta_Branding : Eta Branding := λ x, MkBranding (HeaderHTML x)
  (FooterHTML x) (PrimaryColor x) (SecondaryColor x) (AccentColor x) (BackgroundColor x)
  (TextColor x).
#[export] Instance Branding_eq_dec : EqDecision Branding.
Proof. solve_decision. Defined.
Definition NoBranding : Branding :=
  MkBranding EmptyString EmptyString EmptyString EmptyString EmptyString EmptyString EmptyString.
Definition Branding_IsZero (b : Branding) : bool := bool_decide (b = NoBranding).

Record BrandingLogo := MkBrandingLogo {
  Logo_Bytes : string;
  Logo_MIME : string;
  Logo_ETag : string;
  Logo_UpdatedAt : time}.
#[export] Instance Eta_BrandingLogo : Eta BrandingLogo := λ x, MkBrandingLogo (Logo_Bytes x)
  (Logo_MIME x) (Logo_ETag x) (Logo_UpdatedAt x).
#[export] Instance BrandingLogo_eq_dec : EqDecision BrandingLogo.
Proof. solve_decision. Defined.
Definition NoLogo : BrandingLogo := MkBrandingLogo EmptyString EmptyString EmptyString None.
(** The facility-wide scope. *)
Definition FacilityScope : ID := EmptyString.

(** * Beam, Build, Release, Route *)
Inductive BeamMode :=
  | ModePreview
  | ModeLive.
#[export] Instance BeamMode_eq_dec : EqDecision BeamMode.
Proof. solve_decision. Defined.
Definition BeamMode_string (x : BeamMode) : string :=
  match x with
  | ModePreview => "preview"
  | ModeLive => "live"
  end.

Inductive Channel :=
  | ChannelShared
  | ChannelPreview
  | ChannelLive.
#[export] Instance Channel_eq_dec : EqDecision Channel.
Proof. solve_decision. Defined.
Definition Channel_string (x : Channel) : string :=
  match x with
  | ChannelShared => EmptyString
  | ChannelPreview => "preview"
  | ChannelLive => "live"
  end.

(** StateNone is the empty string, which LiveState holds before the first promote. *)
Inductive BeamState :=
  | StateNone
  | StateCreated
  | StateBuilding
  | StateDeployed
  | StateRunning
  | StatePaused
  | StateLive
  | StateFailed.
#[export] Instance BeamState_eq_dec : EqDecision BeamState.
Proof. solve_decision. Defined.
Definition BeamState_string (x : BeamState) : string :=
  match x with
  | StateNone => EmptyString
  | StateCreated => "created"
  | StateBuilding => "building"
  | StateDeployed => "deployed"
  | StateRunning => "running"
  | StatePaused => "paused"
  | StateLive => "live"
  | StateFailed => "failed"
  end.

Inductive BeamStatus :=
  | BeamStatusUnset
  | BeamActive
  | BeamArchived.
#[export] Instance BeamStatus_eq_dec : EqDecision BeamStatus.
Proof. solve_decision. Defined.
Definition BeamStatus_string (x : BeamStatus) : string :=
  match x with
  | BeamStatusUnset => EmptyString
  | BeamActive => "active"
  | BeamArchived => "archived"
  end.

Record Beam := MkBeam {
  Beam_ID : ID;
  Beam_BeamhallID : ID;
  Beam_Slug : string;
  Beam_DisplayName : string;
  Beam_Description : string;
  Beam_RuntimeHint : string;
  Beam_Mode : BeamMode;
  Beam_State : BeamState;
  Beam_CurrentReleaseID : ID;
  Beam_DesiredReleaseID : ID;
  Beam_LiveReleaseID : ID;
  Beam_LiveState : BeamState;
  Beam_SecurityTemplate : SecurityTemplate;
  Beam_PreviewPauseAfter : duration;
  Beam_ResumedAt : time;
  Beam_PreviewHost : string;
  Beam_GitRemoteURL : string;
  Beam_RepoID : ID;
  Beam_Status : BeamStatus;
  Beam_CreatedBy : ID;
  Beam_CreatedAt : time;
  Beam_UpdatedAt : time}.
#[export] Instance Eta_Beam : Eta Beam := λ x, MkBeam (Beam_ID x) (Beam_BeamhallID x)
  (Beam_Slug x) (Beam_DisplayName x) (Beam_Description x) (Beam_RuntimeHint x)
  (Beam_Mode x) (Beam_State x) (Beam_CurrentReleaseID x) (Beam_DesiredReleaseID x)
  (Beam_LiveReleaseID x) (Beam_LiveState x) (Beam_SecurityTemplate x)
  (Beam_PreviewPauseAfter x) (Beam_ResumedAt x) (Beam_PreviewHost x) (Beam_GitRemoteURL
  x) (Beam_RepoID x) (Beam_Status x) (Beam_CreatedBy x) (Beam_CreatedAt x)
  (Beam_UpdatedAt x).
#[export] Instance Beam_eq_dec : EqDecision Beam.
Proof. solve_decision. Defined.

Inductive BuildStatus :=
  | BuildQueued
  | BuildBuilding
  | BuildSucceeded
  | BuildFailed.
#[export] Instance BuildStatus_eq_dec : EqDecision BuildStatus.
Proof. solve_decision. Defined.
Definition BuildStatus_string (x : BuildStatus) : string :=
  match x with
  | BuildQueued => "queued"
  | BuildBuilding => "building"
  | BuildSucceeded => "succeeded"
  | BuildFailed => "failed"
  end.

Inductive SourceKind :=
  | SourceManagedGit
  | SourceMCPTarball
  | SourceImageRef.
#[export] Instance SourceKind_eq_dec : EqDecision SourceKind.
Proof. solve_decision. Defined.
Definition SourceKind_string (x : SourceKind) : string :=
  match x with
  | SourceManagedGit => "managed_git"
  | SourceMCPTarball => "mcp_tarball"
  | SourceImageRef => "image_ref"
  end.

Record Build := MkBuild {
  Build_ID : ID;
  Build_BeamID : ID;
  Build_SourceRef : string;
  Build_SourceKind : SourceKind;
  Build_Builder : string;
  Build_Status : BuildStatus;
  Build_ImageRef : string;
  Build_ImageDigest : string;
  Build_SBOMRef : string;
  Build_CVEScanStatus : string;
  Build_LogStreamID : ID;
  Build_TriggeredBy : ID;
  Build_StartedAt : time;
  Build_FinishedAt : time}.
#[export] Instance Eta_Build : Eta Build := λ x, MkBuild (Build_ID x) (Build_BeamID x)
  (Build_SourceRef x) (Build_SourceKind x) (Build_Builder x) (Build_Status x)
  (Build_ImageRef x) (Build_ImageDigest x) (Build_SBOMRef x) (Build_CVEScanStatus x)
  (Build_LogStreamID x) (Build_TriggeredBy x) (Build_StartedAt x) (Build_FinishedAt x).
#[export] Instance Build_eq_dec : EqDecision Build.
Proof. solve_decision. Defined.

Inductive ReleaseStatus :=
  | ReleasePending
  | ReleaseActive
  | ReleaseSuperseded
  | ReleaseRolledBack.
#[export] Instance ReleaseStatus_eq_dec : EqDecision ReleaseStatus.
Proof. solve_decision. Defined.
Definition ReleaseStatus_string (x : ReleaseStatus) : string :=
  match x with
  | ReleasePending => "pending"
  | ReleaseActive => "active"
  | ReleaseSuperseded => "superseded"
  | ReleaseRolledBack => "rolled_back"
  end.

Record SecretRef := MkSecretRef {
  Ref_BeamhallID : ID;
  Ref_BeamID : ID;
  Ref_Key : string;
  Ref_Channel : Channel}.
#[export] Instance Eta_SecretRef : Eta SecretRef := λ x, MkSecretRef (Ref_BeamhallID x)
  (Ref_BeamID x) (Ref_Key x) (Ref_Channel x).
#[export] Instance SecretRef_eq_dec : EqDecision SecretRef.
Proof. solve_decision. Defined.

Record WorkloadHandle := MkWorkloadHandle {
  Handle_Driver : string;
  Handle_Ref : string}.
#[export] Instance Eta_WorkloadHandle : Eta WorkloadHandle := λ x, MkWorkloadHandle
  (Handle_Driver x) (Handle_Ref x).
#[export] Instance WorkloadHandle_eq_dec : EqDecision WorkloadHandle.
Proof. solve_decision. Defined.

Record Release := MkRelease {
  Rel_ID : ID;
  Rel_BeamID : ID;
  Rel_BuildID : ID;
  Rel_Version : Z;
  Rel_Channel : Channel;
  Rel_ConfigSnapshot : gmap string string;
  Rel_SecretRefs : list SecretRef;
  Rel_SecurityProfileSnap : SecurityContext;
  Rel_RouteID : ID;
  Rel_Workload : WorkloadHandle;
  Rel_Status : ReleaseStatus;
  Rel_CreatedAt : time;
  Rel_ActivatedAt : time}.
#[export] Instance Eta_Release : Eta Release := λ x, MkRelease (Rel_ID x) (Rel_BeamID x)
  (Rel_BuildID x) (Rel_Version x) (Rel_Channel x) (Rel_ConfigSnapshot x) (Rel_SecretRefs
  x) (Rel_SecurityProfileSnap x) (Rel_RouteID x) (Rel_Workload x) (Rel_Status x)
  (Rel_CreatedAt x) (Rel_ActivatedAt x).
#[export] Instance Release_eq_dec : EqDecision Release.
Proof. solve_decision. Defined.

Inductive RouteKind :=
  | RoutePreview
  | RouteLive.
#[export] Instance RouteKind_eq_dec : EqDecision RouteKind.
Proof. solve_decision. Defined.
Definition RouteKind_string (x : RouteKind) : string :=
  match x with
  | RoutePreview => "preview"
  | RouteLive => "live"
  end.

Inductive RouteStatus :=
  | RouteActive
  | RouteRetired.
#[export] Instance RouteStatus_eq_dec : EqDecision RouteStatus.
Proof. solve_decision. Defined.
Definition RouteStatus_string (x : RouteStatus) : string :=
  match x with
  | RouteActive => "active"
  | RouteRetired => "retired"
  end.

Record Route := MkRoute {
  Route_ID : ID;
  Route_BeamID : ID;
  Route_ReleaseID : ID;
  Route_Kind : RouteKind;
  Route_Hostname : string;
  Route_RandomToken : string;
  Route_BackendAddr : string;
  Route_TLSCertRef : string;
  Route_Status : RouteStatus;
  Route_CreatedAt : time;
  Route_RetiredAt : time}.
#[export] Instance Eta_Route : Eta Route := λ x, MkRoute (Route_ID x) (Route_BeamID x)
  (Route_ReleaseID x) (Route_Kind x) (Route_Hostname x) (Route_RandomToken x)
  (Route_BackendAddr x) (Route_TLSCertRef x) (Route_Status x) (Route_CreatedAt x)
  (Route_RetiredAt x).
#[export] Instance Route_eq_dec : EqDecision Route.
Proof. solve_decision. Defined.

(** * Approvals *)
Inductive PromotionStatus :=
  | PromotionPending
  | PromotionApproved
  | PromotionRejected.
#[export] Instance PromotionStatus_eq_dec : EqDecision PromotionStatus.
Proof. solve_decision. Defined.
Definition PromotionStatus_string (x : PromotionStatus) : string :=
  match x with
  | PromotionPending => "pending"
  | PromotionApproved => "approved"
  | PromotionRejected => "rejected"
  end.

Record PromotionRequest := MkPromotionRequest {
  PR_ID : ID;
  PR_BeamhallID : ID;
  PR_BeamID : ID;
  PR_ReleaseID : ID;
  PR_RequestedBy : ID;
  PR_Status : PromotionStatus;
  PR_Reason : string;
  PR_CreatedAt : time;
  PR_DecidedBy : ID;
  PR_DecidedAt : time}.
#[export] Instance Eta_PromotionRequest : Eta PromotionRequest := λ x,
  MkPromotionRequest (PR_ID x) (PR_BeamhallID x) (PR_BeamID x) (PR_ReleaseID x)
  (PR_RequestedBy x) (PR_Status x) (PR_Reason x) (PR_CreatedAt x) (PR_DecidedBy x)
  (PR_DecidedAt x).
#[export] Instance PromotionRequest_eq_dec : EqDecision PromotionRequest.
Proof. solve_decision. Defined.

(** * Sensitive administration requests *)
Inductive AdminActionStatus :=
  | AdminActionPending
  | AdminActionApproved
  | AdminActionRejected.
#[export] Instance AdminActionStatus_eq_dec : EqDecision AdminActionStatus.
Proof. solve_decision. Defined.
Definition AdminActionStatus_string (x : AdminActionStatus) : string :=
  match x with
  | AdminActionPending => "pending"
  | AdminActionApproved => "approved"
  | AdminActionRejected => "rejected"
  end.

(** The type is a string: one that is none of the constants can be stored. *)
Inductive AdminActionType :=
  | AdminActionFederateDirectory
  | AdminActionUnfederateDirectory
  | AdminActionSetSecurityContext
  | AdminActionPruneAudit
  | AdminActionRestoreBackup
  | AdminActionSelfUpgrade
  | AdminActionOther (s : string).
#[export] Instance AdminActionType_eq_dec : EqDecision AdminActionType.
Proof. solve_decision. Defined.
Definition AdminActionType_string (x : AdminActionType) : string :=
  match x with
  | AdminActionFederateDirectory => "federate_directory"
  | AdminActionUnfederateDirectory => "unfederate_directory"
  | AdminActionSetSecurityContext => "set_security_context"
  | AdminActionPruneAudit => "prune_audit"
  | AdminActionRestoreBackup => "restore_backup"
  | AdminActionSelfUpgrade => "self_upgrade"
  | AdminActionOther s => s
  end.

Record AdminActionRequest := MkAdminActionRequest {
  AAR_ID : ID;
  AAR_ActionType : AdminActionType;
  AAR_Summary : string;
  AAR_PayloadCipher : string;
  AAR_RequestedBy : ID;
  AAR_Status : AdminActionStatus;
  AAR_Reason : string;
  AAR_Result : string;
  AAR_CreatedAt : time;
  AAR_DecidedBy : ID;
  AAR_DecidedAt : time}.
#[export] Instance Eta_AdminActionRequest : Eta AdminActionRequest := λ x,
  MkAdminActionRequest (AAR_ID x) (AAR_ActionType x) (AAR_Summary x) (AAR_PayloadCipher x)
  (AAR_RequestedBy x) (AAR_Status x) (AAR_Reason x) (AAR_Result x) (AAR_CreatedAt x)
  (AAR_DecidedBy x) (AAR_DecidedAt x).
#[export] Instance AdminActionRequest_eq_dec : EqDecision AdminActionRequest.
Proof. solve_decision. Defined.

(** * Resources and secrets *)
Inductive ResourceType :=
  | ResourceDatabase
  | ResourceObjectStore
  | ResourceQueue
  | ResourceAuthClient
  | ResourceEmail.
#[export] Instance ResourceType_eq_dec : EqDecision ResourceType.
Proof. solve_decision. Defined.
Definition ResourceType_string (x : ResourceType) : string :=
  match x with
  | ResourceDatabase => "database"
  | ResourceObjectStore => "object_store"
  | ResourceQueue => "queue"
  | ResourceAuthClient => "auth_client"
  | ResourceEmail => "email"
  end.

Inductive ResourceStatus :=
  | ResourceProvisioning
  | ResourceReady
  | ResourceFailed
  | ResourceDeleting.
#[export] Instance ResourceStatus_eq_dec : EqDecision ResourceStatus.
Proof. solve_decision. Defined.
Definition ResourceStatus_string (x : ResourceStatus) : string :=
  match x with
  | ResourceProvisioning => "provisioning"
  | ResourceReady => "ready"
  | ResourceFailed => "failed"
  | ResourceDeleting => "deleting"
  end.

Record Resource := MkResource {
  Res_ID : ID;
  Res_BeamhallID : ID;
  Res_BeamID : ID;
  Res_Channel : Channel;
  Res_Type : ResourceType;
  Res_Status : ResourceStatus;
  Res_ConnectionSecretRef : SecretRef;
  Res_Spec : gmap string string;
  Res_BackingHandle : string;
  Res_CreatedAt : time;
  Res_UpdatedAt : time}.
#[export] Instance Eta_Resource : Eta Resource := λ x, MkResource (Res_ID x)
  (Res_BeamhallID x) (Res_BeamID x) (Res_Channel x) (Res_Type x) (Res_Status x)
  (Res_ConnectionSecretRef x) (Res_Spec x) (Res_BackingHandle x) (Res_CreatedAt x)
  (Res_UpdatedAt x).
#[export] Instance Resource_eq_dec : EqDecision Resource.
Proof. solve_decision. Defined.

Record Secret := MkSecret {
  Secret_ID : ID;
  Secret_BeamhallID : ID;
  Secret_BeamID : ID;
  Secret_Channel : Channel;
  Secret_Key : string;
  Secret_ValueRef : string;
  Secret_Version : Z;
  Secret_CreatedBy : ID;
  Secret_CreatedAt : time}.
#[export] Instance Eta_Secret : Eta Secret := λ x, MkSecret (Secret_ID x)
  (Secret_BeamhallID x) (Secret_BeamID x) (Secret_Channel x) (Secret_Key x)
  (Secret_ValueRef x) (Secret_Version x) (Secret_CreatedBy x) (Secret_CreatedAt x).
#[export] Instance Secret_eq_dec : EqDecision Secret.
Proof. solve_decision. Defined.

(** * Audit *)
Inductive AuditDecision :=
  | DecisionAllow
  | DecisionDeny.
#[export] Instance AuditDecision_eq_dec : EqDecision AuditDecision.
Proof. solve_decision. Defined.
Definition AuditDecision_string (x : AuditDecision) : string :=
  match x with
  | DecisionAllow => "allow"
  | DecisionDeny => "deny"
  end.

Record AuditEvent := MkAuditEvent {
  Ev_ID : ID;
  Ev_At : time;
  Ev_ActorID : ID;
  Ev_ActorTokenJTI : string;
  Ev_BeamhallID : ID;
  Ev_BeamID : ID;
  Ev_Action : string;
  Ev_Decision : AuditDecision;
  Ev_Reason : string;
  Ev_RequestDigest : string;
  Ev_ResultStatus : string;
  Ev_SourceIP : string;
  Ev_PrevHash : string;
  Ev_Hash : string}.
#[export] Instance Eta_AuditEvent : Eta AuditEvent := λ x, MkAuditEvent (Ev_ID x) (Ev_At
  x) (Ev_ActorID x) (Ev_ActorTokenJTI x) (Ev_BeamhallID x) (Ev_BeamID x) (Ev_Action x)
  (Ev_Decision x) (Ev_Reason x) (Ev_RequestDigest x) (Ev_ResultStatus x) (Ev_SourceIP x)
  (Ev_PrevHash x) (Ev_Hash x).
#[export] Instance AuditEvent_eq_dec : EqDecision AuditEvent.
Proof. solve_decision. Defined.

(** * The lifecycle state machine *)

(** EvOther is any event string outside the table, the [default] of [Can]. *)
Inductive Event :=
  | EvDeploy
  | EvBuildOK
  | EvBuildFail
  | EvStartOK
  | EvStartFail
  | EvPauseTimer
  | EvPausePreview
  | EvResumePreview
  | EvPromote
  | EvRollback
  | EvDestroy
  | EvOther (s : string).
#[export] Instance Event_eq_dec : EqDecision Event.
Proof. solve_decision. Defined.
Definition Event_string (x : Event) : string :=
  match x with
  | EvDeploy => "deploy_beam"
  | EvBuildOK => "build_ok"
  | EvBuildFail => "build_fail"
  | EvStartOK => "start_ok"
  | EvStartFail => "start_fail"
  | EvPauseTimer => "pause_timer"
  | EvPausePreview => "pause_preview"
  | EvResumePreview => "resume_preview"
  | EvPromote => "promote_to_live"
  | EvRollback => "rollback"
  | EvDestroy => "destroy"
  | EvOther s => s
  end.

(** Beam.Can: the resulting state, or the refusal's reason. *)
Definition Can (a : Beam) (ev : Event) : string + BeamState :=
  let s := Beam_State a in
  let q := quoted (BeamState_string s) in
  match ev with
  | EvDeploy =>
      match s with
      | StateCreated | StateDeployed | StateRunning | StatePaused | StateFailed =>
          inr StateBuilding
      | _ => inl ("cannot deploy while in state " +:+ q)
      end
  | EvBuildOK =>
      if decide (s = StateBuilding) then inr StateDeployed
      else inl ("build_ok is only valid while building, not " +:+ q)
  | EvBuildFail =>
      if decide (s = StateBuilding) then inr StateFailed
      else inl ("build_fail is only valid while building, not " +:+ q)
  | EvStartOK =>
      if decide (s = StateDeployed) then inr StateRunning
      else inl ("start_ok is only valid from deployed, not " +:+ q)
  | EvStartFail =>
      match s with
      | StateDeployed | StateRunning => inr StateFailed
      | _ => inl ("start_fail is not valid from " +:+ q)
      end
  | EvPauseTimer | EvPausePreview =>
      if decide (s = StateRunning) then inr StatePaused
      else inl ("can only pause a running preview, not " +:+ q)
  | EvResumePreview =>
      if decide (s = StatePaused) then inr StateRunning
      else inl ("can only resume a paused preview, not " +:+ q)
  | EvPromote =>
      if decide (s = StateRunning) then inr s
      else inl ("can only promote a running preview, not " +:+ q)
  | EvRollback =>
      if decide (Beam_Mode a ≠ ModeLive) then
        inl "nothing to roll back: this beam has no live channel (promote one first)"
      else inr s
  | EvDestroy => inr s
  | EvOther e => inl ("unknown event " +:+ quoted e)
  end.

Record TransitionError := MkTransitionError {
  TE_From : BeamState;
  TE_Mode : BeamMode;
  TE_Event : Event;
  TE_Reason : string}.
#[export] Instance Eta_TransitionError : Eta TransitionError := λ x, MkTransitionError
  (TE_From x) (TE_Mode x) (TE_Event x) (TE_Reason x).
#[export] Instance TransitionError_eq_dec : EqDecision TransitionError.
Proof. solve_decision. Defined.

Definition TransitionError_Error (e : TransitionError) : string :=
  "illegal transition " +:+ quoted (Event_string (TE_Event e)) +:+ " on " +:+
  BeamMode_string (TE_Mode e) +:+ " beam in state " +:+
  quoted (BeamState_string (TE_From e)) +:+ ": " +:+ TE_Reason e.

(** Beam.Apply, returning the mutated beam. *)
Definition Apply (a : Beam) (ev : Event) : TransitionError + Beam :=
  match Can a ev with
  | inl reason => inl (MkTransitionError (Beam_State a) (Beam_Mode a) ev reason)
  | inr next =>
      let a := if decide (ev = EvPromote) then a <| Beam_Mode := ModeLive |> else a in
      inr (a <| Beam_State := next |>)
  end.

(** * Go error values *)

(** The errors the modelled code returns and inspects.  The sentinel errors of
    internal/store carry the text wrapped behind them; [ErrExternal] is any error
    of code outside the repository (SQLite, Docker, Caddy, ...), [ErrMsg] an
    fmt.Errorf without %w, [ErrWrap] and [ErrAround] one with it; [ErrInvoke] and
    [ErrAppTool] an app's own refusal, [ErrAmbiguousApp] a name in several workspaces. *)
Inductive error :=
  | ErrNotFound (detail : string)
  | ErrConflict (detail : string)
  | ErrQuota (detail : string)
  | ErrDenial (action reason : string)
  | ErrQuotaLimit (limit : string) (used max : Z) (reason : string)
  | ErrTransition (te : TransitionError)
  | ErrExternal (msg : string)
  | ErrMsg (msg : string)
  | ErrInvoke (status : Z) (body : string)
  | ErrAppTool (status : Z) (body : string)
  | ErrAmbiguousApp (app : string) (workspaces : list string)
  | ErrWrap (prefix : string) (e : error)
  | ErrAround (prefix : string) (e : error) (suffix : string).
#[export] Instance error_eq_dec : EqDecision error.
Proof. solve_decision. Defined.

(** err.Error() *)
Fixpoint Error (e : error) : string :=
  match e with
  | ErrNotFound d => "store: not found" +:+ d
  | ErrConflict d => "store: conflict" +:+ d
  | ErrQuota d => "store: quota exceeded" +:+ d
  | ErrDenial a r => "denied " +:+ quoted a +:+ ": " +:+ r
  | ErrQuotaLimit l u m r =>
      "quota " +:+ l +:+ " exhausted (" +:+ format_int u +:+ " of " +:+ format_int m
      +:+ "): " +:+ r
  | ErrTransition te => TransitionError_Error te
  | ErrExternal m => m
  | ErrMsg m => m
  | ErrInvoke n _ | ErrAppTool n _ => "the app answered HTTP " +:+ format_int n
  | ErrAmbiguousApp app ws =>
      "app " +:+ quoted app +:+ " is published from more than one workspace: ["
      +:+ Join ws " " +:+ "]"
  | ErrWrap p e => p +:+ Error e
  | ErrAround p e s => p +:+ Error e +:+ s
  end.

(** errors.Is(err, store.ErrNotFound), errors.Is(err, store.ErrQuota) and
    errors.As(err, **TransitionError) *)
Fixpoint is_not_found (e : error) : bool :=
  match e with
  | ErrNotFound _ => true
  | ErrWrap _ e | ErrAround _ e _ => is_not_found e
  | _ => false
  end.
Fixpoint is_quota (e : error) : bool :=
  match e with
  | ErrQuota _ => true
  | ErrWrap _ e | ErrAround _ e _ => is_quota e
  | _ => false
  end.
Fixpoint as_transition (e : error) : option TransitionError :=
  match e with
  | ErrTransition te => Some te
  | ErrWrap _ e | ErrAround _ e _ => as_transition e
  | _ => None
  end.
