(* ===== verification/Lifecycle.v ===== *)
(** What the Beam state machine of internal/domain/fsm.go guarantees about whole
    histories of accepted events: a running preview was built and started, the
    live channel exists exactly when a promotion was accepted, and no reachable
    beam is wedged. *)
From S2P Require Import Prelude Domain.

(** A history: the events [Apply] accepted, oldest first. *)
Inductive history : Beam → list Event → Beam → Prop :=
  | history_nil a : history a [] a
  | history_snoc a evs b ev c :
      history a evs b → Apply b ev = inr c → history a (evs ++ [ev]) c.

(** A beam as CreateBeam makes it. *)
Definition fresh_beam (a : Beam) : Prop :=
  Beam_State a = StateCreated ∧ Beam_Mode a = ModePreview.

(** The states the preview channel can be in. *)
Definition preview_state (s : BeamState) : Prop := s ≠ StateNone ∧ s ≠ StateLive.

(** What the events of the history must contain, by the state reached. *)
Definition evidence (s : BeamState) : list Event :=
  match s with
  | StateBuilding => [EvDeploy]
  | StateDeployed => [EvDeploy; EvBuildOK]
  | StateRunning | StatePaused => [EvDeploy; EvBuildOK; EvStartOK]
  | _ => []
  end.

(** The events that bring a beam from a state to running. *)
Definition recovery (s : BeamState) : list Event :=
  let deploy := [EvDeploy; EvBuildOK; EvStartOK] in
  match s with
  | StateRunning => []
  | StatePaused => [EvResumePreview]
  | StateDeployed => [EvStartOK]
  | StateBuilding => [EvBuildOK; EvStartOK]
  | _ => deploy
  end.

(** Applying events in order, stopping at the first refusal. *)
Fixpoint Apply_all (a : Beam) (evs : list Event) : TransitionError + Beam :=
  match evs with
  | [] => inr a
  | ev :: evs =>
      match Apply a ev with
      | inl e => inl e
      | inr b => Apply_all b evs
      end
  end.

(** Open a goal about [Apply] on every branch. *)
Ltac fsm :=
  unfold Apply, Can in *; cbn in *;
  repeat (first [case_decide | case_match]; simplify_eq; cbn in *).

(** Close a sublist goal between explicit lists, matching heads greedily. *)
Ltac greedy_sublist :=
  repeat first [apply sublist_nil_l | apply sublist_skip | apply sublist_cons]; done.

Lemma Apply_inv a ev b :
  Apply a ev = inr b →
  Can a ev = inr (Beam_State b) ∧
  Beam_Mode b = (if decide (ev = EvPromote) then ModeLive else Beam_Mode a).
Proof. unfold Apply. case_match; intros [=<-]. case_decide; done. Qed.

Lemma Apply_evidence a ev b :
  Apply a ev = inr b →
  evidence (Beam_State b) `sublist_of` evidence (Beam_State a) ∨
  evidence (Beam_State b) `sublist_of` evidence (Beam_State a) ++ [ev].
Proof.
  intros [H _]%Apply_inv. revert H. generalize (Beam_State b) as s. unfold Can.
  destruct ev, (Beam_State a); cbn; intros s' H; repeat case_decide; simplify_eq; cbn;
    solve [left; greedy_sublist | right; greedy_sublist].
Qed.

Lemma Apply_preview_state a ev b :
  Apply a ev = inr b → preview_state (Beam_State a) → preview_state (Beam_State b).
Proof.
  unfold preview_state. intros [H _]%Apply_inv. revert H.
  generalize (Beam_State b) as s. unfold Can.
  destruct ev, (Beam_State a); cbn; intros s' H; repeat case_decide;
    simplify_eq; split; intuition congruence.
Qed.

Lemma history_preview_state a evs b :
  history a evs b → preview_state (Beam_State a) → preview_state (Beam_State b).
Proof. induction 1; eauto using Apply_preview_state. Qed.

Lemma fresh_preview_state a : fresh_beam a → preview_state (Beam_State a).
Proof. intros [-> _]. done. Qed.

Lemma history_evidence a evs b :
  history a evs b → fresh_beam a → evidence (Beam_State b) `sublist_of` evs.
Proof.
  intros Hh [Hs _]. induction Hh as [a|a evs b ev c Hh IH Ha].
  - rewrite Hs. constructor.
  - specialize (IH Hs). destruct (Apply_evidence _ _ _ Ha) as [H|H].
    + etrans; [exact H|]. etrans; [exact IH|]. apply sublist_inserts_r. done.
    + etrans; [exact H|]. by apply sublist_app.
Qed.

(** A preview that is running or paused was deployed, built and started, in
    that order: no history of accepted events from a fresh beam reaches either
    state without deploy_beam, build_ok and start_ok. *)
Theorem running_was_built (a b : Beam) (evs : list Event) :
  fresh_beam a → history a evs b →
  Beam_State b = StateRunning ∨ Beam_State b = StatePaused →
  [EvDeploy; EvBuildOK; EvStartOK] `sublist_of` evs.
Proof.
  intros Ha Hh Hs. pose proof (history_evidence _ _ _ Hh Ha) as He.
  destruct Hs as [Hs|Hs]; rewrite Hs in He; exact He.
Qed.

Lemma history_mode a evs b :
  history a evs b → Beam_Mode a = ModePreview → (Beam_Mode b = ModeLive ↔ EvPromote ∈ evs).
Proof.
  intros Hh Hm. induction Hh as [a|a evs b ev c Hh IH Ha].
  - rewrite Hm. split; [done|]. by intros ?%not_elem_of_nil.
  - apply Apply_inv in Ha as [_ ->]. specialize (IH Hm).
    rewrite elem_of_app, list_elem_of_singleton. case_decide; naive_solver.
Qed.

(** A beam has a live channel exactly when some promote_to_live was accepted
    in its history; no other event, rollback and destroy included, adds or
    removes the live channel. *)
Theorem live_iff_promoted (a b : Beam) (evs : list Event) :
  fresh_beam a → history a evs b → (Beam_Mode b = ModeLive ↔ EvPromote ∈ evs).
Proof. intros [_ Hm] Hh. by eapply history_mode. Qed.

Lemma Apply_to a ev s :
  Can a ev = inr s → ∃ b, Apply a ev = inr b ∧ Beam_State b = s.
Proof. unfold Apply. intros ->. by eexists. Qed.

(** The reverse reading of [evidence]: a legal event list ending in running. *)
Inductive path : BeamState → list Event → Prop :=
  | path_running : path StateRunning []
  | path_step s ev s' evs :
      (∀ a, Beam_State a = s → Can a ev = inr s') → path s' evs → path s (ev :: evs).

Lemma path_runs s evs a :
  path s evs → Beam_State a = s →
  ∃ b, Apply_all a evs = inr b ∧ Beam_State b = StateRunning.
Proof.
  intros Hp. revert a. induction Hp as [|s ev s' evs Hc Hp IH]; intros a Ha; simpl.
  - eauto.
  - destruct (Apply_to a ev s' (Hc a Ha)) as (b & -> & Hb). eauto.
Qed.

Lemma recovery_path s : preview_state s → path s (recovery s).
Proof.
  intros [? ?]. destruct s; try done; cbn;
    repeat (eapply path_step; [by intros a Ha; unfold Can; rewrite Ha|]); constructor.
Qed.

Lemma recovery_runs a :
  preview_state (Beam_State a) →
  ∃ b, Apply_all a (recovery (Beam_State a)) = inr b ∧ Beam_State b = StateRunning.
Proof. intros Ha. by eapply path_runs; [apply recovery_path|]. Qed.

(** C40: no beam is wedged: from every beam reachable from a fresh one, the
    events [recovery] lists (at most deploy, build_ok, start_ok) are all
    accepted and end with the preview running. *)
Theorem never_wedged (a b : Beam) (evs : list Event) :
  fresh_beam a → history a evs b →
  ∃ c, Apply_all b (recovery (Beam_State b)) = inr c ∧ Beam_State c = StateRunning.
Proof.
  intros Ha Hh. apply recovery_runs.
  eapply history_preview_state; [done|by apply fresh_preview_state].
Qed.

(** ** Witnesses *)
Definition demo_beam : Beam :=
  MkBeam "b1" "h1" "shop" "Shop" EmptyString "auto" ModePreview StateCreated no_id
    no_id no_id StateNone TemplateWebApp 0%Z None EmptyString EmptyString no_id
    BeamActive "u1" (Some 1%Z) (Some 1%Z).

Definition demo_events : list Event :=
  [EvDeploy; EvBuildOK; EvStartOK; EvPromote; EvPauseTimer].

Definition demo_paused : Beam :=
  demo_beam <| Beam_Mode := ModeLive |> <| Beam_State := StatePaused |>.

Lemma history_Apply_all a evs b :
  Apply_all a evs = inr b → ∀ h0 evs0, history h0 evs0 a → history h0 (evs0 ++ evs) b.
Proof.
  revert a. induction evs as [|ev evs IH]; cbn; intros a H h0 evs0 H0.
  - rewrite app_nil_r. by simplify_eq.
  - case_match; simplify_eq. rewrite cons_middle, app_assoc.
    eapply IH; [done|]. by econstructor.
Qed.

Lemma demo_history : history demo_beam demo_events demo_paused.
Proof. by apply (history_Apply_all demo_beam demo_events demo_paused eq_refl _ []), history_nil. Qed.

Lemma running_was_built_witness :
  [EvDeploy; EvBuildOK; EvStartOK] `sublist_of` demo_events.
Proof.
  apply (running_was_built demo_beam demo_paused);
    [done|exact demo_history|right; reflexivity].
Defined.

Lemma live_iff_promoted_witness : Beam_Mode demo_paused = ModeLive ↔ EvPromote ∈ demo_events.
Proof. apply (live_iff_promoted demo_beam); [done|exact demo_history]. Defined.

Lemma never_wedged_witness :
  ∃ c, Apply_all demo_paused (recovery (Beam_State demo_paused)) = inr c
       ∧ Beam_State c = StateRunning.
Proof. apply (never_wedged demo_beam _ demo_events); [done|exact demo_history]. Defined.
