(* ===== verification/Gateway.v ===== *)
(** The Caddy gateway (internal/gateway): the route table, the configuration
    rendered from it, and the operations that change the table and push the
    configuration to Caddy.  Caddy itself (its Admin API, how it serves a
    configuration) is a parameter. *)
From S2P Require Import Prelude Domain.

(** * Data *)
Record GwRoute := MkGwRoute {
  Gw_Hostname : string;
  Gw_BackendAddr : string;
  Gw_Kind : RouteKind}.
#[export] Instance Eta_GwRoute : Eta GwRoute := λ x, MkGwRoute (Gw_Hostname x)
  (Gw_BackendAddr x) (Gw_Kind x).
#[export] Instance GwRoute_eq_dec : EqDecision GwRoute.
Proof. solve_decision. Defined.

(** The typed subset of Caddy's configuration (caddyconfig.go). *)
Record remoteIPCfg := MkremoteIPCfg {
  Ranges : list string}.
#[export] Instance Eta_remoteIPCfg : Eta remoteIPCfg := λ x, MkremoteIPCfg (Ranges x).
#[export] Instance remoteIPCfg_eq_dec : EqDecision remoteIPCfg.
Proof. solve_decision. Defined.

(** [Not] of the source nests matchers; the program nests them once. *)
Record matchCfg := MkmatchCfg {
  m_Host : list string;
  m_RemoteIP : option remoteIPCfg;
  m_Not : list (list string)}.
#[export] Instance Eta_matchCfg : Eta matchCfg := λ x, MkmatchCfg (m_Host x) (m_RemoteIP
  x) (m_Not x).
#[export] Instance matchCfg_eq_dec : EqDecision matchCfg.
Proof. solve_decision. Defined.

Record upstreamCfg := MkupstreamCfg {
  Dial : string}.
#[export] Instance Eta_upstreamCfg : Eta upstreamCfg := λ x, MkupstreamCfg (Dial x).
#[export] Instance upstreamCfg_eq_dec : EqDecision upstreamCfg.
Proof. solve_decision. Defined.

Record handleCfg := MkhandleCfg {
  h_Handler : string;
  h_Upstreams : list upstreamCfg;
  h_StatusCode : Z;
  h_Body : string}.
#[export] Instance Eta_handleCfg : Eta handleCfg := λ x, MkhandleCfg (h_Handler x)
  (h_Upstreams x) (h_StatusCode x) (h_Body x).
#[export] Instance handleCfg_eq_dec : EqDecision handleCfg.
Proof. solve_decision. Defined.

Record routeCfg := MkrouteCfg {
  r_ID : string;
  r_Match : list matchCfg;
  r_Handle : list handleCfg;
  r_Terminal : bool}.
#[export] Instance Eta_routeCfg : Eta routeCfg := λ x, MkrouteCfg (r_ID x) (r_Match x)
  (r_Handle x) (r_Terminal x).
#[export] Instance routeCfg_eq_dec : EqDecision routeCfg.
Proof. solve_decision. Defined.

Record autoHTTPS := MkautoHTTPS {
  Disable : bool;
  DisableRedirects : bool}.
#[export] Instance Eta_autoHTTPS : Eta autoHTTPS := λ x, MkautoHTTPS (Disable x)
  (DisableRedirects x).
#[export] Instance autoHTTPS_eq_dec : EqDecision autoHTTPS.
Proof. solve_decision. Defined.

Record serverCfg := MkserverCfg {
  s_Listen : list string;
  s_Routes : list routeCfg;
  s_AutomaticHTTPS : option autoHTTPS}.
#[export] Instance Eta_serverCfg : Eta serverCfg := λ x, MkserverCfg (s_Listen x)
  (s_Routes x) (s_AutomaticHTTPS x).
#[export] Instance serverCfg_eq_dec : EqDecision serverCfg.
Proof. solve_decision. Defined.

Record caCfg := MkcaCfg {
  ca_Name : string;
  ca_RootCommonName : string;
  ca_IntermediateCommonName : string}.
#[export] Instance Eta_caCfg : Eta caCfg := λ x, MkcaCfg (ca_Name x) (ca_RootCommonName
  x) (ca_IntermediateCommonName x).
#[export] Instance caCfg_eq_dec : EqDecision caCfg.
Proof. solve_decision. Defined.

Record permissionCfg := MkpermissionCfg {
  p_Module : string;
  p_Endpoint : string}.
#[export] Instance Eta_permissionCfg : Eta permissionCfg := λ x, MkpermissionCfg
  (p_Module x) (p_Endpoint x).
#[export] Instance permissionCfg_eq_dec : EqDecision permissionCfg.
Proof. solve_decision. Defined.

Record policyCfg := MkpolicyCfg {
  pc_OnDemand : bool;
  pc_Issuers : list string}.
#[export] Instance Eta_policyCfg : Eta policyCfg := λ x, MkpolicyCfg (pc_OnDemand x)
  (pc_Issuers x).
#[export] Instance policyCfg_eq_dec : EqDecision policyCfg.
Proof. solve_decision. Defined.

Record automationCfg := MkautomationCfg {
  au_OnDemand : option permissionCfg;
  au_Policies : list policyCfg}.
#[export] Instance Eta_automationCfg : Eta automationCfg := λ x, MkautomationCfg
  (au_OnDemand x) (au_Policies x).
#[export] Instance automationCfg_eq_dec : EqDecision automationCfg.
Proof. solve_decision. Defined.

Record appsCfg := MkappsCfg {
  HTTP_Servers : gmap string serverCfg;
  TLS_Automation : option automationCfg;
  PKI_CAs : option (gmap string caCfg)}.
#[export] Instance Eta_appsCfg : Eta appsCfg := λ x, MkappsCfg (HTTP_Servers x)
  (TLS_Automation x) (PKI_CAs x).
#[export] Instance appsCfg_eq_dec : EqDecision appsCfg.
Proof. solve_decision. Defined.

Record caddyConfig := MkcaddyConfig {
  cfg_AdminListen : string;
  cfg_LogLevels : gmap string string;
  cfg_Apps : appsCfg}.
#[export] Instance Eta_caddyConfig : Eta caddyConfig := λ x, MkcaddyConfig
  (cfg_AdminListen x) (cfg_LogLevels x) (cfg_Apps x).
#[export] Instance caddyConfig_eq_dec : EqDecision caddyConfig.
Proof. solve_decision. Defined.

(** Gateway, without the HTTP client, the logger and the mutex.  [adminHost] is
    the host part of adminURL (net/url.Parse), empty when there is none. *)
Record Gateway := MkGateway {
  adminHost : string;
  gw_serverName : string;
  gw_listen : list string;
  askEndpoint : string;
  disableTLS : bool;
  internalTLS : bool;
  gw_routes : gmap string GwRoute;
  gw_static : gmap string GwRoute;
  workloadSubnets : list string;
  workloadExempt : list string}.
#[export] Instance Eta_Gateway : Eta Gateway := λ x, MkGateway (adminHost x)
  (gw_serverName x) (gw_listen x) (askEndpoint x) (disableTLS x) (internalTLS x)
  (gw_routes x) (gw_static x) (workloadSubnets x) (workloadExempt x).
#[export] Instance Gateway_eq_dec : EqDecision Gateway.
Proof. solve_decision. Defined.

(** * Options and construction *)
Definition WithServerName (n : string) (g : Gateway) : Gateway := g <| gw_serverName := n |>.
Definition WithListen (addrs : list string) (g : Gateway) : Gateway := g <| gw_listen := addrs |>.
Definition WithAskEndpoint (u : string) (g : Gateway) : Gateway := g <| askEndpoint := u |>.
Definition WithoutTLS (g : Gateway) : Gateway := g <| disableTLS := true |>.
Definition WithInternalTLS (g : Gateway) : Gateway := g <| internalTLS := true |>.
Definition WithStaticRoute (hostname backendAddr : string) (g : Gateway) : Gateway :=
  g <| gw_static := <[hostname := MkGwRoute hostname backendAddr RouteLive]> (gw_static g) |>.
Definition WithWorkloadExempt (hostnames : list string) (g : Gateway) : Gateway :=
  g <| workloadExempt := workloadExempt g ++ hostnames |>.

Definition Gw_New (opts : list (Gateway → Gateway)) : Gateway :=
  foldl (λ g o, o g)
    (MkGateway "localhost:2019" "beamhall" [":80"; ":443"] "http://localhost:2099/ask"
       false false ∅ ∅ [] []) opts.

(** * Rendering *)
Definition id_char (c : ascii) : bool :=
  let n := Ascii.nat_of_ascii c in
  bool_decide (48 ≤ n ∧ n ≤ 57 ∨ 65 ≤ n ∧ n ≤ 90 ∨ 97 ≤ n ∧ n ≤ 122
               ∨ n = 95 ∨ n = 46 ∨ n = 45).
(** idSanitizer replaces every character outside [a-zA-Z0-9_.-] by an underscore. *)
Fixpoint sanitizeID (s : string) : string :=
  match s with
  | EmptyString => EmptyString
  | String c s => String (if id_char c then c else "_"%char) (sanitizeID s)
  end.

Definition adminListen (host : string) : string :=
  if decide (host ≠ EmptyString) then host else "localhost:2019".

(** Static routes win on a hostname clash. *)
Definition merged (g : Gateway) : gmap string GwRoute := gw_static g ∪ gw_routes g.

Definition guard_body : string :=
  "workload-originated requests may not use the gateway" +:+
  String (Ascii.ascii_of_nat 10) EmptyString.

(** The workload guard, present when there are bridge subnets. *)
Definition guard_routes (g : Gateway) : list routeCfg :=
  if decide (0 < length (workloadSubnets g)) then
    let not := if decide (0 < length (workloadExempt g))
               then [sort_strings (workloadExempt g)] else [] in
    [MkrouteCfg "bh_workload_guard"
       [MkmatchCfg [] (Some (MkremoteIPCfg (workloadSubnets g))) not]
       [MkhandleCfg "static_response" [] 403 guard_body] true]
  else [].

Definition host_route (h : string) (r : GwRoute) : routeCfg :=
  MkrouteCfg ("bh_" +:+ sanitizeID h) [MkmatchCfg [h] None []]
    [MkhandleCfg "reverse_proxy" [MkupstreamCfg (Gw_BackendAddr r)] 0 EmptyString] true.

Definition host_routes (m : gmap string GwRoute) : list routeCfg :=
  omap (λ h, host_route h <$> m !! h) (sort_strings (map_to_list m).*1).

Definition render (g : Gateway) : caddyConfig :=
  let srv := MkserverCfg (gw_listen g) (guard_routes g ++ host_routes (merged g))
               (Some (if disableTLS g then MkautoHTTPS true false
                      else MkautoHTTPS false true)) in
  let pki := if negb (disableTLS g) && internalTLS g then
               Some {["local" := MkcaCfg "Beamhall Internal Authority"
                        "Beamhall Internal Root CA" "Beamhall Internal Intermediate CA"]}
             else None in
  let tls := if disableTLS g then None else
               Some (MkautomationCfg (Some (MkpermissionCfg "http" (askEndpoint g)))
                       [MkpolicyCfg true (if internalTLS g then ["internal"] else [])]) in
  MkcaddyConfig (adminListen (adminHost g)) {["default" := "ERROR"]}
    (MkappsCfg {[gw_serverName g := srv]} tls pki).

(** * Operations *)

(** Caddy's Admin API: POST /load of a configuration, on Caddy's own state. *)
Class Caddy (C : Type) := caddy_load : caddyConfig → C → option string * C.

Section operations.
Context {C : Type} `{!Caddy C}.

Record GWorld := MkGWorld { gw : Gateway; caddy : C }.
#[export] Instance Eta_GWorld : Eta GWorld := λ x, MkGWorld (gw x) (caddy x).

Definition GM := M GWorld error.

(** load POSTs the configuration. *)
Definition gw_load (cfg : caddyConfig) : GM () := λ w,
  match caddy_load cfg (caddy w) with
  | (Some e, c) => (inl (ErrExternal e), w <| caddy := c |>)
  | (None, c) => (inr tt, w <| caddy := c |>)
  end.

Definition gw_update (f : Gateway → Gateway) : GM () := modify (λ w, w <| gw := f (gw w) |>).

(** Gateway.Apply *)
Definition Gw_Apply : GM () := cfg ← gets (λ w, render (gw w)); gw_load cfg.

(** Gateway.Restore *)
Definition Gw_Restore (rs : list GwRoute) : GM () :=
  gw_update (λ g, g <| gw_routes := foldl (λ m r, <[Gw_Hostname r := r]> m) (gw_routes g) rs |>).

(** Gateway.Upsert *)
Definition Gw_Upsert (r : GwRoute) : GM () :=
  g ← gets gw;
  if decide (is_Some (gw_static g !! Gw_Hostname r)) then
    throw (ErrMsg ("hostname " +:+ quoted (Gw_Hostname r) +:+
      " is reserved for static infrastructure and cannot be used by a beam route"))
  else
    gw_update (λ g, g <| gw_routes := <[Gw_Hostname r := r]> (gw_routes g) |>);;
    cfg ← gets (λ w, render (gw w));
    gw_load cfg.

(** Gateway.Retire: on a failed load the route is put back. *)
Definition Gw_Retire (hostname : string) : GM () :=
  g ← gets gw;
  let existing := gw_routes g !! hostname in
  gw_update (λ g, g <| gw_routes := delete hostname (gw_routes g) |>);;
  cfg ← gets (λ w, render (gw w));
  err ← attempt (gw_load cfg);
  match err with
  | inr _ => mret tt
  | inl e =>
      match existing with
      | Some r => gw_update (λ g, g <| gw_routes := <[hostname := r]> (gw_routes g) |>)
      | None => mret tt
      end;;
      throw e
  end.

(** Gateway.SetWorkloadSubnets *)
Definition SetWorkloadSubnets (subnets : list string) : GM () :=
  let sorted := sort_strings subnets in
  g ← gets gw;
  if decide (sorted = workloadSubnets g) then mret tt
  else
    gw_update (λ g, g <| workloadSubnets := sorted |>);;
    cfg ← gets (λ w, render (gw w));
    err ← attempt (gw_load cfg);
    match err with
    | inr _ => mret tt
    | inl e => gw_update (λ g', g' <| workloadSubnets := workloadSubnets g |>);; throw e
    end.
End operations.
Arguments GWorld : clear implicits.
Arguments GM : clear implicits.

(** Gateway.Snapshot *)
Definition Snapshot (g : Gateway) : list GwRoute :=
  omap (λ h, gw_routes g !! h) (sort_strings (map_to_list (gw_routes g)).*1).

(** Gateway.AskHandler: the HTTP status for ?domain=. *)
Definition AskHandler (g : Gateway) (domain : string) : Z :=
  if decide (is_Some (gw_static g !! domain) ∨ is_Some (gw_routes g !! domain))
  then 200 else 403.

(** RandomPreviewHost, on the 8 bytes crypto/rand returned. *)
Definition RandomPreviewHost (base : string) (bytes : string) : string * string :=
  let token := hex_encode bytes in (token +:+ ".preview." +:+ base, token).
