(* ===== verification/GatewayProofs.v ===== *)
(** What the gateway promises: the rendered configuration dispatches every
    request as the route table says, with the workload guard first; failed loads
    are rolled back, except by Upsert; and what two operations racing on Caddy can
    do. *)
From S2P Require Import Prelude Domain Gateway.

(** * Serving a configuration *)

(** How Caddy serves a route list, for requests of type [Q].  [serve] is Caddy's;
    the laws are its documented matching rules: a route matches if one of its
    matcher sets does, a set matches if each of its matchers does, routes are tried
    in order and a matching terminal route handles the request. *)
Class CaddyServing (Q : Type) := {
  q_host : Q → string;
  q_in : Q → string → bool;
  serve : list routeCfg → Q → option routeCfg
}.

Definition match_set {Q} `{CaddyServing Q} (m : matchCfg) (q : Q) : bool :=
  (bool_decide (m_Host m = []) || bool_decide (q_host q ∈ m_Host m))
  && match m_RemoteIP m with
     | None => true
     | Some r => existsb (q_in q) (Ranges r)
     end
  && negb (existsb (λ hs, bool_decide (q_host q ∈ hs)) (m_Not m)).

Definition route_matches {Q} `{CaddyServing Q} (r : routeCfg) (q : Q) : bool :=
  existsb (λ m, match_set m q) (r_Match r).

Class CaddyServingOk (Q : Type) `{CaddyServing Q} : Prop := {
  serve_nil q : serve [] q = None;
  serve_skip r rs q : route_matches r q = false → serve (r :: rs) q = serve rs q;
  serve_take r rs q :
    route_matches r q = true → r_Terminal r = true → serve (r :: rs) q = Some r
}.

(** The server of a rendered configuration. *)
Definition served_routes (g : Gateway) : list routeCfg :=
  match HTTP_Servers (cfg_Apps (render g)) !! gw_serverName g with
  | Some srv => s_Routes srv
  | None => []
  end.

(** The guard's decision: the client is a container and the host is not exempt. *)
Definition guarded {Q} `{CaddyServing Q} (g : Gateway) (q : Q) : bool :=
  existsb (q_in q) (workloadSubnets g)
  && negb (bool_decide (q_host q ∈ workloadExempt g)).

Definition guard_route (g : Gateway) : option routeCfg := head (guard_routes g).

Lemma served_routes_eq g : served_routes g = guard_routes g ++ host_routes (merged g).
Proof. unfold served_routes, render. cbn. by rewrite lookup_singleton_eq. Qed.

Section serving.
Context {Q : Type} `{CaddyServingOk Q}.

Lemma host_route_matches h r q :
  route_matches (host_route h r) q = bool_decide (q_host q = h).
Proof.
  unfold route_matches, match_set. cbn. rewrite !andb_true_r, orb_false_r.
  apply bool_decide_ext. by rewrite list_elem_of_singleton.
Qed.

Lemma serve_hosts (f : string → option GwRoute) (hosts : list string) q :
  serve (omap (λ h, host_route h <$> f h) hosts) q =
    if decide (q_host q ∈ hosts) then host_route (q_host q) <$> f (q_host q) else None.
Proof.
  induction hosts as [|h hosts IH].
  - rewrite decide_False; [apply serve_nil|apply not_elem_of_nil].
  - cbn. destruct (f h) as [r|] eqn:Ef; cbn.
    + destruct (decide (q_host q = h)) as [<-|Hne].
      * rewrite serve_take; [|by rewrite host_route_matches, bool_decide_true|done].
        rewrite decide_True by set_solver. by rewrite Ef.
      * rewrite serve_skip by (by rewrite host_route_matches, bool_decide_false).
        rewrite IH. by rewrite (decide_ext (q_host q ∈ h :: hosts) (q_host q ∈ hosts)) by set_solver.
    + rewrite IH. repeat case_decide; try done; [set_solver|].
      assert (q_host q = h) as -> by set_solver. by rewrite Ef.
Qed.

Lemma serve_host_routes m q :
  serve (host_routes m) q = host_route (q_host q) <$> m !! q_host q.
Proof.
  unfold host_routes. rewrite serve_hosts. case_decide as Hin; [done|].
  destruct (m !! q_host q) as [r|] eqn:E; [|done].
  exfalso. apply Hin. rewrite elem_of_sort_strings, list_elem_of_fmap.
  exists (q_host q, r). by rewrite elem_of_map_to_list.
Qed.

Lemma guard_matches g r q : guard_route g = Some r → route_matches r q = guarded g q.
Proof.
  unfold guard_route, guard_routes, route_matches, guarded.
  case_decide; [|done]. intros [= <-]. cbn. rewrite orb_false_r. unfold match_set. cbn.
  case_decide as He; cbn.
  - rewrite orb_false_r. do 2 f_equal. apply bool_decide_ext, elem_of_sort_strings.
  - destruct (workloadExempt g); [|cbn in He; lia]. cbn.
    rewrite bool_decide_false by apply not_elem_of_nil. done.
Qed.

Lemma guarded_has_guard g q : guarded g q = true → is_Some (guard_route g).
Proof.
  unfold guarded, guard_route, guard_routes. intros Hg.
  destruct (workloadSubnets g); [done|]. rewrite decide_True by (cbn; lia).
  eexists. reflexivity.
Qed.

(** C36: the rendered configuration dispatches every request: one from a workload
    subnet to a host that is not exempt gets the guard's 403 whatever the
    routes are; any other goes to the backend of the static route of its host,
    or else of the beam route of its host, or to no route at all. *)
Theorem render_dispatch (g : Gateway) (q : Q) :
  serve (served_routes g) q =
    if guarded g q then guard_route g
    else host_route (q_host q) <$> (gw_static g ∪ gw_routes g) !! q_host q.
Proof.
  rewrite served_routes_eq, <- serve_host_routes. fold (merged g).
  destruct (guard_route g) as [r|] eqn:Eg.
  - pose proof (guard_matches _ _ q Eg) as Hm.
    assert (guard_routes g = [r] ∧ r_Terminal r = true) as [-> Ht].
    { revert Eg. unfold guard_route, guard_routes. case_decide; [|done]. by intros [= <-]. }
    cbn. destruct (guarded g q).
    + by apply serve_take.
    + by apply serve_skip.
  - destruct (guarded g q) eqn:Eq.
    + apply guarded_has_guard in Eq as [? ?]. congruence.
    + revert Eg. unfold guard_route, guard_routes. by case_decide.
Qed.
End serving.

(** * The operations against Caddy *)

(** What Caddy's Admin API documents of POST /load: after a success the posted
    configuration is the running one, after an error the previous one still is. *)
Class CaddyOk (C : Type) `{Caddy C} := {
  running : C → option caddyConfig;
  load_ok cfg c c' : caddy_load cfg c = (None, c') → running c' = Some cfg;
  load_err cfg c e c' : caddy_load cfg c = (Some e, c') → running c' = running c
}.

Section operations.
Context {C : Type} `{CaddyOk C}.
Implicit Types w : GWorld C.

(** Caddy serves what the in-memory table says. *)
Definition synced w : Prop := running (caddy w) = Some (render (gw w)).

Lemma gw_load_wp cfg w (Q : error + () → GWorld C → Prop) :
  (∀ c e, running c = running (caddy w) → Q (inl e) (w <| caddy := c |>)) →
  (∀ c, running c = Some cfg → Q (inr tt) (w <| caddy := c |>)) →
  wp (gw_load cfg) Q w.
Proof.
  intros He Ho. unfold wp, gw_load.
  destruct (caddy_load cfg (caddy w)) as [[e|] c] eqn:E; cbn.
  - apply He. by eapply load_err.
  - apply Ho. by eapply load_ok.
Qed.

Lemma gw_update_wp f w (Q : error + () → GWorld C → Prop) :
  Q (inr tt) (w <| gw := f (gw w) |>) → wp (gw_update f) Q w.
Proof. done. Qed.

Lemma Gw_Retire_wp h w (Q : error + () → GWorld C → Prop) :
  (∀ c e, running c = running (caddy w) → Q (inl e) (w <| caddy := c |>)) →
  (∀ c g, g = gw w <| gw_routes := delete h (gw_routes (gw w)) |> →
          running c = Some (render g) → Q (inr tt) (MkGWorld g c)) →
  wp (Gw_Retire h) Q w.
Proof.
  intros He Ho. unfold Gw_Retire.
  apply wp_bind, wp_gets, wp_bind, gw_update_wp, wp_bind, wp_gets, wp_bind, wp_attempt.
  apply gw_load_wp.
  - intros c e Hc. apply wp_bind. destruct (gw_routes (gw w) !! h) as [r|] eqn:E.
    + apply gw_update_wp, wp_throw.
      pose proof (He c e Hc) as HQ. destruct w as [g c0]. destruct g; cbn in *.
      by rewrite insert_delete_eq, insert_id.
    + apply wp_ret, wp_throw. pose proof (He c e Hc) as HQ.
      destruct w as [g c0]. destruct g; cbn in *. by rewrite delete_id.
  - intros c Hc. apply wp_ret. by apply Ho.
Qed.

Lemma Gw_Upsert_wp r w (Q : error + () → GWorld C → Prop) :
  let g' := gw w <| gw_routes := <[Gw_Hostname r := r]> (gw_routes (gw w)) |> in
  (∀ e, is_Some (gw_static (gw w) !! Gw_Hostname r) → Q (inl e) w) →
  (∀ c e, gw_static (gw w) !! Gw_Hostname r = None →
          running c = running (caddy w) → Q (inl e) (MkGWorld g' c)) →
  (∀ c, gw_static (gw w) !! Gw_Hostname r = None →
        running c = Some (render g') → Q (inr tt) (MkGWorld g' c)) →
  wp (Gw_Upsert r) Q w.
Proof.
  intros g' Hs He Ho. unfold Gw_Upsert. apply wp_bind, wp_gets. case_decide as Hst.
  - apply wp_throw. by apply Hs.
  - apply eq_None_not_Some in Hst.
    apply wp_bind, gw_update_wp, wp_bind, wp_gets, gw_load_wp.
    + intros c e Hc. by apply He.
    + intros c Hc. by apply Ho.
Qed.

(** Retire is transactional with Caddy: from a table Caddy is in sync with,
    it either removes exactly the route and Caddy serves the result, or fails
    leaving the table as it was, and Caddy in sync with it either way. *)
Theorem Retire_transactional w w' h r :
  synced w → Gw_Retire h w = (r, w') →
  synced w' ∧
  gw w' = match r with
          | inl _ => gw w
          | inr _ => gw w <| gw_routes := delete h (gw_routes (gw w)) |>
          end.
Proof.
  intros Hs Hr.
  cut (wp (Gw_Retire h) (λ r w', synced w' ∧ gw w' = match r with
         | inl _ => gw w
         | inr _ => gw w <| gw_routes := delete h (gw_routes (gw w)) |> end) w).
  { unfold wp. by rewrite Hr. }
  apply Gw_Retire_wp.
  - intros c e Hc. split; [|done]. unfold synced. cbn. by rewrite Hc.
  - intros c g -> Hc. done.
Qed.

(** Upsert is not: when Caddy refuses the configuration, the failed Upsert
    leaves its route in the table while Caddy still serves the old one, so the
    next successful load of any configuration, a plain Apply for one, routes
    the host to the backend whose Upsert failed. *)
Theorem failed_Upsert_takes_effect_later w w' w'' r e :
  synced w → gw_static (gw w) !! Gw_Hostname r = None →
  Gw_Upsert r w = (inl e, w') → Gw_Apply w' = (inr tt, w'') →
  gw_routes (gw w') !! Gw_Hostname r = Some r ∧
  running (caddy w') = Some (render (gw w)) ∧
  running (caddy w'') =
    Some (render (gw w <| gw_routes := <[Gw_Hostname r := r]> (gw_routes (gw w)) |>)).
Proof.
  intros Hs Hst Hu Ha.
  set (g' := gw w <| gw_routes := <[Gw_Hostname r := r]> (gw_routes (gw w)) |>).
  assert (gw w' = g' ∧ running (caddy w') = running (caddy w)) as [Hg Hc].
  { cut (wp (Gw_Upsert r) (λ r w', is_inl r = true →
           gw w' = g' ∧ running (caddy w') = running (caddy w)) w).
    { unfold wp. rewrite Hu. auto. }
    apply Gw_Upsert_wp; cbn; intros; [|done|done].
    rewrite Hst in *. by destruct (is_Some_None (A:=GwRoute)). }
  rewrite Hg, Hc. split_and!; [cbn; apply lookup_insert_eq|exact Hs|].
  revert Ha. unfold Gw_Apply, mbind, M_bind, gets, gw_load.
  destruct (caddy_load _ _) as [[?|] c] eqn:E; [done|]. intros [= <-]. cbn.
  rewrite Hg in E. by eapply load_ok.
Qed.
End operations.

(** * Racing operations *)

(** The mutex covers the table change and the rendering, not the POST: the
    configurations of concurrent operations are in flight together. *)
Record Racing := MkRacing {
  rc_gw : Gateway;
  rc_running : option caddyConfig;
  rc_inflight : list caddyConfig
}.

(** The critical sections of Upsert and Retire, and Caddy taking one of the
    configurations in flight. *)
Inductive race_step : relation Racing :=
  | race_upsert g run fl r :
      gw_static g !! Gw_Hostname r = None →
      let g' := g <| gw_routes := <[Gw_Hostname r := r]> (gw_routes g) |> in
      race_step (MkRacing g run fl) (MkRacing g' run (fl ++ [render g']))
  | race_retire g run fl h :
      let g' := g <| gw_routes := delete h (gw_routes g) |> in
      race_step (MkRacing g run fl) (MkRacing g' run (fl ++ [render g']))
  | race_load g run cfg fl1 fl2 :
      race_step (MkRacing g run (fl1 ++ cfg :: fl2)) (MkRacing g (Some cfg) (fl1 ++ fl2)).

(** The routes Caddy was given for the gateway's server. *)
Definition running_routes (g : Gateway) (cfg : option caddyConfig) : list routeCfg :=
  match cfg with
  | Some cfg =>
      match HTTP_Servers (cfg_Apps cfg) !! gw_serverName g with
      | Some srv => s_Routes srv
      | None => []
      end
  | None => []
  end.

Definition race_a : GwRoute := MkGwRoute "a.example" "10.0.0.1:8080" RoutePreview.
Definition race_b : GwRoute := MkGwRoute "b.example" "10.0.0.2:8080" RoutePreview.
Definition race_g1 : Gateway := Gw_New [] <| gw_routes := {["a.example" := race_a]} |>.
Definition race_g2 : Gateway :=
  race_g1 <| gw_routes := <["b.example" := race_b]> (gw_routes race_g1) |>.
Definition race_end : Racing := MkRacing race_g2 (Some (render race_g1)) [].

(** Two concurrent Upserts can both succeed and leave Caddy without one of
    the two routes, for as long as no other operation runs: the POSTs are not
    ordered by the mutex, so the older configuration can arrive last. *)
Theorem racing_Upserts_lose_a_route :
  rtc race_step (MkRacing (Gw_New []) None []) race_end ∧
  gw_routes (rc_gw race_end) !! "b.example" = Some race_b ∧
  rc_inflight race_end = [] ∧
  host_route "a.example" race_a ∈ running_routes race_g2 (rc_running race_end) ∧
  host_route "b.example" race_b ∉ running_routes race_g2 (rc_running race_end).
Proof.
  split.
  - eapply rtc_l; [apply (race_upsert (Gw_New []) None [] race_a); reflexivity|].
    eapply rtc_l; [apply (race_upsert race_g1 None [render race_g1] race_b); reflexivity|].
    eapply rtc_l; [apply (race_load race_g2 None (render race_g2) [render race_g1] [])|].
    eapply rtc_l; [apply (race_load race_g2 _ (render race_g1) [] [])|]. apply rtc_refl.
  - split_and!; [reflexivity|reflexivity| |]; apply (bool_decide_unpack _); vm_compute; exact I.
Qed.

(** * Witnesses *)

(** A Caddy whose outcomes are scripted: [Some e] refuses the next load. *)
Record ScriptedCaddy := MkScriptedCaddy {
  sc_running : option caddyConfig;
  sc_script : list (option string)
}.
#[export] Instance ScriptedCaddy_load : Caddy ScriptedCaddy := λ cfg c,
  match sc_script c with
  | Some e :: l => (Some e, MkScriptedCaddy (sc_running c) l)
  | None :: l => (None, MkScriptedCaddy (Some cfg) l)
  | [] => (None, MkScriptedCaddy (Some cfg) [])
  end.
#[export] Instance ScriptedCaddy_ok : CaddyOk ScriptedCaddy.
Proof.
  refine {| running := sc_running |}; intros cfg [r [|[|] l]] c; cbn; intros; simplify_eq; done.
Defined.

(** Requests as a host and the ranges the client is in, served by the first
    matching route. *)
Record TestReq := MkTestReq { tr_host : string; tr_in : list string }.
#[export] Instance TestReq_serving : CaddyServing TestReq := {|
  q_host := tr_host;
  q_in q r := bool_decide (r ∈ tr_in q);
  serve rs q :=
    find (λ r, existsb (λ m,
      (bool_decide (m_Host m = []) || bool_decide (tr_host q ∈ m_Host m))
      && match m_RemoteIP m with
         | None => true
         | Some r => existsb (λ x, bool_decide (x ∈ tr_in q)) (Ranges r)
         end
      && negb (existsb (λ hs, bool_decide (tr_host q ∈ hs)) (m_Not m))) (r_Match r)) rs
|}.
#[export] Instance TestReq_serving_ok : CaddyServingOk TestReq.
Proof.
  split; [done| |]; intros r rs q; unfold route_matches, match_set, serve; cbn; by intros ->.
Defined.

Definition demo_gw : Gateway :=
  Gw_New [WithStaticRoute "idp.example" "127.0.0.1:8080"; WithWorkloadExempt ["idp.example"]]
    <| workloadSubnets := ["172.18.0.0/16"] |> <| gw_routes := {["a.example" := race_a]} |>.

Lemma render_dispatch_witness :
  serve (served_routes demo_gw) (MkTestReq "a.example" ["172.18.0.0/16"]) =
    guard_route demo_gw.
Proof. rewrite (render_dispatch demo_gw). vm_compute. reflexivity. Defined.

Definition demo_world : GWorld ScriptedCaddy :=
  MkGWorld race_g1 (MkScriptedCaddy (Some (render race_g1)) [Some "bad gateway"]).

Lemma Retire_transactional_witness :
  gw (snd (Gw_Retire "a.example" demo_world)) = race_g1.
Proof.
  exact (proj2 (Retire_transactional demo_world _ "a.example" (fst (Gw_Retire "a.example" demo_world))
    eq_refl eq_refl)).
Defined.

Definition demo_failed : GWorld ScriptedCaddy := snd (Gw_Upsert race_b demo_world).

Lemma failed_Upsert_takes_effect_later_witness :
  gw_routes (gw demo_failed) !! "b.example" = Some race_b ∧
  running (caddy demo_failed) = Some (render race_g1) ∧
  running (caddy (snd (Gw_Apply demo_failed))) = Some (render race_g2).
Proof.
  exact (failed_Upsert_takes_effect_later demo_world demo_failed (snd (Gw_Apply demo_failed))
    race_b (ErrExternal "bad gateway") eq_refl eq_refl eq_refl eq_refl).
Defined.
