(* ===== verification/Scheduler.v ===== *)
(** The durable preview auto-pause scheduler (internal/scheduler): the pure choice
    of due timers, and the concurrent system of the loop, the callers of Arm and
    Disarm, and restarts, at the granularity of its critical sections and store
    calls. *)
From S2P Require Import Prelude Domain.
#[local] Open Scope Z_scope.

(** Instants and durations are nanoseconds. *)
Definition second : Z := 10 ^ 9.
Definition maxSleep : Z := 3600 * second.

(** * Choosing due timers *)

Record Due := MkDue { fire : list string; next : option Z }.

(** One iteration of the loop over the armed map. *)
Definition due_entry (now : Z) (acc : Due) (e : string * Z) : Due :=
  let '(id, dl) := e in
  if decide (dl ≤ now) then MkDue (fire acc ++ [id]) (next acc)
  else match next acc with
       | None => MkDue (fire acc) (Some dl)
       | Some n => if decide (dl < n) then MkDue (fire acc) (Some dl) else acc
       end.

(** due, for one iteration order of the map. *)
Definition due_in (entries : list (string * Z)) (now : Z) : Due :=
  let acc := foldl (due_entry now) (MkDue [] None) entries in
  MkDue (sort_strings (fire acc)) (next acc).

Definition due (armed : gmap string Z) (now : Z) : Due := due_in (map_to_list armed) now.

(** How long the loop sleeps, reading the clock again after firing. *)
Definition sleep_for (next : option Z) (now : Z) : Z :=
  match next with
  | None => maxSleep
  | Some n =>
      let d := if decide (n - now < maxSleep) then n - now else maxSleep in
      if decide (d < 0) then 0 else d
  end.

(** * The concurrent system *)

(** Where the loop is.  [LoopPaused] has called PauseFunc and not yet entered the
    critical section after it; [LoopResolve] has left it; [LoopRearm] is inside
    Arm, past the store. *)
Inductive LoopState :=
  | LoopSleep
  | LoopFire (rest : list string)
  | LoopPaused (id : string) (err : option error) (rest : list string)
  | LoopResolve (id : string) (err : option error) (cancelledMidFlight : bool)
      (rest : list string)
  | LoopRearm (id : string) (deadline : Z) (rest : list string).

Record Sched := MkSched {
  armed : gmap string Z;
  inFlight : gset string;
  cancelled : gset string;
  persisted : gmap string Z;
  loop : LoopState;
  (** callers of Arm and Disarm past their store call *)
  arming : list (string * Z);
  disarming : list string;
  now : Z
}.
#[export] Instance Eta_Sched : Eta Sched := λ x,
  MkSched (armed x) (inFlight x) (cancelled x) (persisted x) (loop x) (arming x)
    (disarming x) (now x).

Section scheduler.
(** The retry delay. *)
Context (retry : Z).

(** Arm: the store call (which may fail, leaving no effect), then the map. *)
Definition arm_save (id : string) (d : Z) (s : Sched) : Sched :=
  s <| persisted := <[id := d]> (persisted s) |> <| arming := arming s ++ [(id, d)] |>.
Definition arm_map (id : string) (d : Z) (s : Sched) : Sched :=
  s <| armed := <[id := d]> (armed s) |>.

(** Disarm: the store call, then the critical section. *)
Definition disarm_delete (id : string) (s : Sched) : Sched :=
  s <| persisted := delete id (persisted s) |> <| disarming := disarming s ++ [id] |>.
Definition disarm_map (id : string) (s : Sched) : Sched :=
  s <| armed := delete id (armed s) |>
    <| cancelled := if decide (id ∈ inFlight s) then {[id]} ∪ cancelled s
                    else cancelled s |>.

(** loop: claim the due timers. *)
Definition claim (s : Sched) : Sched :=
  let f := fire (due (armed s) (now s)) in
  s <| armed := foldl (λ m id, delete id m) (armed s) f |>
    <| inFlight := list_to_set f ∪ inFlight s |>
    <| loop := LoopFire f |>.

(** fire: the critical section after PauseFunc returned. *)
Definition fire_section (id : string) (err : option error) (rest : list string)
    (s : Sched) : Sched :=
  s <| inFlight := inFlight s ∖ {[id]} |>
    <| cancelled := cancelled s ∖ {[id]} |>
    <| loop := LoopResolve id err (bool_decide (id ∈ cancelled s)) rest |>.

(** Start after a restart: the deadlines are loaded from the store. *)
Definition restart (s : Sched) : Sched :=
  MkSched (persisted s) ∅ ∅ (persisted s) LoopSleep [] [] (now s).

Inductive action :=
  | Arms (id : string) (d : Z)     (* Arm persisted its deadline *)
  | ArmsMap                        (* ... and reached the map *)
  | Disarms (id : string)          (* Disarm deleted the deadline *)
  | DisarmsMap (id : string)       (* ... and left its critical section *)
  | Loops                          (* a step of the loop *)
  | Ticks                          (* the clock *)
  | Restarts.                      (* the daemon restarts *)

Inductive sched_step : action → relation Sched :=
  | step_arm_save s id d : sched_step (Arms id d) s (arm_save id d s)
  | step_arm_map s id d l1 l2 :
      arming s = l1 ++ (id, d) :: l2 →
      sched_step ArmsMap s (arm_map id d s <| arming := l1 ++ l2 |>)
  | step_disarm_delete s id : sched_step (Disarms id) s (disarm_delete id s)
  | step_disarm_map s id l1 l2 :
      disarming s = l1 ++ id :: l2 →
      sched_step (DisarmsMap id) s (disarm_map id s <| disarming := l1 ++ l2 |>)
  | step_claim s : loop s = LoopSleep → sched_step Loops s (claim s)
  | step_sleep s : loop s = LoopFire [] → sched_step Loops s (s <| loop := LoopSleep |>)
  | step_pause s id rest err :
      loop s = LoopFire (id :: rest) →
      sched_step Loops s (s <| loop := LoopPaused id err rest |>)
  | step_section s id err rest :
      loop s = LoopPaused id err rest → sched_step Loops s (fire_section id err rest s)
  | step_done s id c rest :
      loop s = LoopResolve id None c rest →
      sched_step Loops s
        (s <| persisted := delete id (persisted s) |> <| loop := LoopFire rest |>)
  | step_done_failed s id c rest :
      loop s = LoopResolve id None c rest →
      sched_step Loops s (s <| loop := LoopFire rest |>)
  | step_no_rearm s id e rest :
      loop s = LoopResolve id (Some e) true rest →
      sched_step Loops s (s <| loop := LoopFire rest |>)
  | step_rearm_save s id e rest :
      loop s = LoopResolve id (Some e) false rest →
      sched_step Loops s
        (s <| persisted := <[id := now s + retry]> (persisted s) |>
           <| loop := LoopRearm id (now s + retry) rest |>)
  | step_rearm_failed s id e rest :
      loop s = LoopResolve id (Some e) false rest →
      sched_step Loops s (s <| loop := LoopFire rest |>)
  | step_rearm_map s id d rest :
      loop s = LoopRearm id d rest →
      sched_step Loops s (arm_map id d s <| loop := LoopFire rest |>)
  | step_clock s t : now s ≤ t → sched_step Ticks s (s <| now := t |>)
  | step_restart s : sched_step Restarts s (restart s).

(** Runs of actions all satisfying [P]. *)
Inductive run (P : action → Prop) : relation Sched :=
  | run_refl s : run P s s
  | run_step s a s' s'' : P a → sched_step a s s' → run P s' s'' → run P s s''.

(** The states the daemon can be in, from a store of persisted deadlines. *)
Definition reachable (s : Sched) : Prop :=
  ∃ p t, run (λ _, True) (MkSched p ∅ ∅ p LoopSleep [] [] t) s.
End scheduler.

(** * Due timers *)

Lemma due_fold_fire now l acc :
  fire (foldl (due_entry now) acc l) =
    fire acc ++ (filter (λ e, e.2 ≤ now) l).*1.
Proof.
  revert acc. induction l as [|[id dl] l IH]; intros acc; [by rewrite app_nil_r|].
  simpl. rewrite IH, filter_cons. cbn. repeat case_decide; try done; cbn.
  - by rewrite <- app_assoc.
  - destruct (next acc); [|done]. by case_decide.
Qed.

(** The earliest future deadline of a list. *)
Definition earliest (now : Z) (l : list (string * Z)) (n : option Z) : Prop :=
  match n with
  | None => ∀ id dl, (id, dl) ∈ l → dl ≤ now
  | Some n => now < n ∧ (∃ id, (id, n) ∈ l) ∧ ∀ id dl, (id, dl) ∈ l → now < dl → n ≤ dl
  end.

Lemma due_fold_next now l seen acc :
  earliest now seen (next acc) →
  earliest now (seen ++ l) (next (foldl (due_entry now) acc l)).
Proof.
  revert seen acc. induction l as [|[id dl] l IH]; intros seen acc Hs;
    [by rewrite app_nil_r|].
  simpl. rewrite cons_middle, app_assoc. apply IH. clear IH.
  unfold due_entry. case_decide as Hd; cbn.
  - destruct (next acc); cbn in *; setoid_rewrite elem_of_app;
      setoid_rewrite list_elem_of_singleton.
    + destruct Hs as (? & [id' ?] & Hmin). split_and!; [done|eauto|].
      intros id'' dl' [?|?] ?; simplify_eq; [by eapply Hmin|lia].
    + intros id' dl' [?|?]; simplify_eq; [by eapply Hs|done].
  - destruct (next acc) as [n|] eqn:En; [case_decide|]; cbn in *; rewrite ?En; cbn;
      setoid_rewrite elem_of_app; setoid_rewrite list_elem_of_singleton.
    + destruct Hs as (? & _ & Hmin). split_and!; [lia|eauto|].
      intros id' dl' [?|?] ?; simplify_eq; [|done]. pose proof (Hmin id' dl'). naive_solver lia.
    + destruct Hs as (? & [id' ?] & Hmin). split_and!; [done|eauto|].
      intros id'' dl' [?|?] ?; simplify_eq; [by eapply Hmin|lia].
    + split_and!; [lia|eauto|]. intros id' dl' [Hin|?] ?; simplify_eq; [|done].
      specialize (Hs _ _ Hin). lia.
Qed.

Lemma due_in_next now l : earliest now l (next (due_in l now)).
Proof. apply (due_fold_next now l [] (MkDue [] None)). by intros id dl ?%not_elem_of_nil. Qed.

Lemma earliest_unique now l1 l2 n1 n2 :
  l1 ≡ₚ l2 → earliest now l1 n1 → earliest now l2 n2 → n1 = n2.
Proof.
  intros Hp. destruct n1 as [n1|], n2 as [n2|]; cbn; setoid_rewrite Hp.
  - intros (? & [? H1] & M1) (? & [? H2] & M2). f_equal.
    pose proof (M1 _ _ H2). pose proof (M2 _ _ H1). lia.
  - intros (? & [? H1] & _) H2. specialize (H2 _ _ H1). lia.
  - intros H2 (? & [? H1] & _). specialize (H2 _ _ H1). lia.
  - done.
Qed.

(** Due does not depend on Go's map iteration order, fires exactly the timers
    whose deadline has passed, and names the earliest deadline still in the
    future, if there is one. *)
Theorem due_correct (m : gmap string Z) (now : Z) (entries : list (string * Z)) :
  entries ≡ₚ map_to_list m →
  due_in entries now = due m now ∧
  (∀ id, id ∈ fire (due m now) ↔ ∃ d, m !! id = Some d ∧ d ≤ now) ∧
  match next (due m now) with
  | None => ∀ id d, m !! id = Some d → d ≤ now
  | Some n => now < n ∧ (∃ id, m !! id = Some n) ∧
              ∀ id d, m !! id = Some d → now < d → n ≤ d
  end.
Proof.
  intros Hp. split_and!.
  - unfold due. pose proof (due_in_next now entries) as H1.
    pose proof (due_in_next now (map_to_list m)) as H2.
    pose proof (earliest_unique _ _ _ _ _ Hp H1 H2) as Hn.
    unfold due_in in *. cbn in *. rewrite Hn, !due_fold_fire. f_equal. cbn.
    apply (StronglySorted_unique String.le); [apply Sorted_sort_strings..|].
    unfold sort_strings. rewrite !merge_sort_Permutation. by rewrite Hp.
  - intros id. unfold due, due_in. cbn.
    rewrite elem_of_sort_strings, due_fold_fire. cbn. rewrite list_elem_of_fmap.
    split.
    + intros ([id' d] & -> & [? H]%list_elem_of_filter).
      apply elem_of_map_to_list in H. eauto.
    + intros (d & H & Hd). exists (id, d). split; [done|].
      apply list_elem_of_filter. by rewrite elem_of_map_to_list.
  - pose proof (due_in_next now (map_to_list m)) as H. unfold due.
    destruct (next _) as [n|]; cbn in H; setoid_rewrite elem_of_map_to_list in H; exact H.
Qed.

(** * Disarm *)

(** The timers the loop has claimed and not yet resolved. *)
Definition claimed (l : LoopState) : list string :=
  match l with
  | LoopSleep => []
  | LoopFire rest => rest
  | LoopPaused id _ rest => id :: rest
  | LoopResolve _ _ _ rest => rest
  | LoopRearm _ _ rest => rest
  end.

(** The window between the critical section of a failed pause and its re-arm. *)
Definition in_window (id : string) (l : LoopState) : Prop :=
  match l with
  | LoopResolve id' (Some _) false _ => id' = id
  | LoopRearm id' _ _ => id' = id
  | _ => False
  end.

(** The claimed timers are distinct and marked in flight. *)
Definition claims_ok (s : Sched) : Prop :=
  NoDup (claimed (loop s)) ∧ ∀ id, id ∈ claimed (loop s) → id ∈ inFlight s.

(** Nothing can bring the timer of [id] back. *)
Definition disarmed (id : string) (s : Sched) : Prop :=
  armed s !! id = None ∧ persisted s !! id = None ∧
  (∀ d, (id, d) ∉ arming s) ∧
  ¬ in_window id (loop s) ∧
  (id ∈ claimed (loop s) → id ∈ cancelled s).

Lemma foldl_delete_lookup (f : list string) (m : gmap string Z) id :
  m !! id = None → foldl (λ m id, delete id m) m f !! id = None.
Proof.
  revert m. induction f as [|x f IH]; intros m Hm; [done|]. simpl. apply IH.
  rewrite lookup_delete. by case_decide.
Qed.

Lemma NoDup_fire m t : NoDup (fire (due m t)).
Proof.
  unfold due, due_in. cbn. apply NoDup_sort_strings. rewrite due_fold_fire. cbn.
  eapply sublist_NoDup; [apply (NoDup_fst_map_to_list m)|].
  apply fmap_sublist, sublist_filter.
Qed.

Lemma fire_armed m t id : id ∈ fire (due m t) → is_Some (m !! id).
Proof.
  intros Hin. destruct (due_correct m t (map_to_list m)) as (_ & Hf & _); [done|].
  apply Hf in Hin as (d & -> & _). eauto.
Qed.

Section steps.
Context (retry : Z).

Lemma claims_ok_step a s s' : sched_step retry a s s' → claims_ok s → claims_ok s'.
Proof.
  unfold claims_ok. destruct 1; cbn; try done;
    repeat match goal with E : loop _ = _ |- _ => rewrite E; clear E; cbn end; try done.
  - intros _. split; [apply NoDup_fire|]. intros id Hin.
    rewrite elem_of_union, elem_of_list_to_set. by left.
  - intros [[? ?]%NoDup_cons Hin]. split; [done|].
    intros id' ?. rewrite elem_of_difference, elem_of_singleton.
    split; [apply Hin; by right|]. by intros ->.
  - intros _. split; [constructor|by intros ? ?%not_elem_of_nil].
Qed.

Lemma run_claims_ok P s s' : run retry P s s' → claims_ok s → claims_ok s'.
Proof. induction 1; eauto using claims_ok_step. Qed.

Lemma reachable_claims_ok s : reachable retry s → claims_ok s.
Proof.
  intros (p & t & Hr). eapply run_claims_ok; [done|].
  split; [constructor|by intros ? ?%not_elem_of_nil].
Qed.

Lemma disarmed_step id a s s' :
  sched_step retry a s s' → (∀ d, a ≠ Arms id d) → disarmed id s → claims_ok s →
  disarmed id s'.
Proof.
  unfold disarmed, claims_ok. intros Hs Ha (Har & Hp & Hm & Hw & Hc) [Hn Hi].
  destruct Hs as [s id0 d|s id0 d l1 l2 E|s id0|s id0 l1 l2 E|s E|s E|s id0 rest err E
    |s id0 err rest E|s id0 c rest E|s id0 c rest E|s id0 e rest E|s id0 e rest E
    |s id0 e rest E|s id0 d rest E|s t Ht|s]; cbn in *; rewrite ?E in *; cbn in *.
  - assert (id0 ≠ id) by (intros ->; by eapply Ha).
    rewrite lookup_insert_ne by done. set_solver.
  - assert (id0 ≠ id) by (intros ->; apply (Hm d); set_solver).
    rewrite lookup_insert_ne by done. set_solver.
  - rewrite lookup_delete. by case_decide.
  - rewrite lookup_delete. repeat case_decide; set_solver.
  - split_and!; try done; [by apply foldl_delete_lookup|].
    intros [? ?]%fire_armed. congruence.
  - done.
  - done.
  - apply NoDup_cons in Hn as [? ?]. split_and!; try done.
    + destruct err; [|done]. case_bool_decide; [done|]. intros ->. set_solver.
    + set_solver.
  - rewrite lookup_delete. split_and!; try done. by case_decide.
  - done.
  - done.
  - rewrite lookup_insert_ne by done. done.
  - split_and!; auto.
  - rewrite lookup_insert_ne by done. split_and!; auto.
  - split_and!; auto.
  - split_and!; set_solver.
Qed.

Lemma disarmed_run id s s' :
  run retry (λ a, ∀ d, a ≠ Arms id d) s s' → disarmed id s → claims_ok s → disarmed id s'.
Proof. induction 1; eauto using disarmed_step, claims_ok_step. Qed.

(** C35: a Disarm sticks.  If the critical section of Disarm runs outside the
    window between a failed pause and its re-arm, and neither a concurrent Arm
    nor the store holds a deadline for the beam, then no run without a new Arm
    of that beam, whatever else happens, failed pauses and restarts included,
    ever arms or persists a timer for it again. *)
Theorem disarm_sticks (id : string) (s0 s s' : Sched) :
  reachable retry s0 → sched_step retry (DisarmsMap id) s0 s →
  ¬ in_window id (loop s0) → (∀ d, (id, d) ∉ arming s0) → persisted s0 !! id = None →
  run retry (λ a, ∀ d, a ≠ Arms id d) s s' →
  armed s' !! id = None ∧ persisted s' !! id = None.
Proof.
  intros Hr Hs Hw Hm Hp Hrun. apply reachable_claims_ok in Hr as Hi.
  cut (disarmed id s').
  { intros (? & ? & _). done. }
  apply (disarmed_run id s); [done| |by eapply claims_ok_step].
  destruct Hi as [_ Hi]. inversion Hs; subst; cbn in *. unfold disarmed; cbn.
  split_and!; try done; [by rewrite lookup_delete_eq|].
  intros Hc%Hi. rewrite decide_True by done. set_solver.
Qed.
End steps.

(** * Races *)

(** The trace of a resume between a successful pause and the loop's clean-up. *)
Definition race_start : Sched :=
  MkSched {["b" := 10]} ∅ ∅ {["b" := 10]} LoopSleep [] [] 10.
Definition race_paused : Sched := claim race_start <| loop := LoopPaused "b" None [] |>.
Definition race_resumed : Sched :=
  arm_map "b" 20 (arm_save "b" 20 race_paused) <| arming := [] |>.
Definition race_over : Sched :=
  let s := fire_section "b" None [] race_resumed in
  s <| persisted := delete "b" (persisted s) |> <| loop := LoopFire [] |>
    <| loop := LoopSleep |>.

Lemma run_app retry P s1 s2 s3 : run retry P s1 s2 → run retry P s2 s3 → run retry P s1 s3.
Proof. induction 1; eauto using run. Qed.

Ltac one_step lem := eapply run_step; [exact I|eapply lem; reflexivity|].

(** A timer armed while the previous one is being resolved is not durable.
    A preview resumed after its auto-pause succeeded but before the loop cleared
    the deadline it had just handled keeps its new timer in memory only; a
    restart then forgets it, and nothing will pause the preview. *)
Theorem resumed_timer_lost_on_restart (retry : Z) :
  run retry (λ _, True) race_start race_over ∧
  armed race_over !! "b" = Some 20 ∧ loop race_over = LoopSleep ∧
  persisted race_over !! "b" = None ∧
  armed (restart race_over) !! "b" = None.
Proof.
  split_and!; try (vm_compute; reflexivity).
  one_step step_claim. one_step (step_pause retry (claim race_start) "b" [] None).
  eapply run_step; [exact I|apply (step_arm_save retry race_paused "b" 20)|].
  eapply run_step;
    [exact I|apply (step_arm_map retry (arm_save "b" 20 race_paused) "b" 20 [] []); reflexivity|].
  one_step (step_section retry race_resumed "b" None []).
  one_step step_done. one_step step_sleep. apply run_refl.
Qed.

(** Disarm inside the window: the loop has read that the beam is not cancelled
    and is about to re-arm the failed pause. *)
Definition window_failed (e : error) : Sched :=
  fire_section "b" (Some e) [] (claim race_start <| loop := LoopPaused "b" (Some e) [] |>).
Definition window_disarmed (e : error) : Sched :=
  disarm_map "b" (disarm_delete "b" (window_failed e)) <| disarming := [] |>.
Definition window_over (retry : Z) (e : error) : Sched :=
  let s := window_disarmed e in
  arm_map "b" (now s + retry)
    (s <| persisted := <["b" := now s + retry]> (persisted s) |>
       <| loop := LoopRearm "b" (now s + retry) [] |>) <| loop := LoopFire [] |>.

(** The condition of the previous theorem is needed: a Disarm that completes
    in the window between the critical section of a failed pause and its re-arm is
    undone by the re-arm, in the map and in the store. *)
Theorem disarm_in_window_undone (retry : Z) (e : error) :
  run retry (λ _, True) race_start (window_failed e) ∧
  run retry (λ a, a = Disarms "b" ∨ a = DisarmsMap "b" ∨ a = Loops)
    (window_failed e) (window_over retry e) ∧
  armed (window_disarmed e) !! "b" = None ∧
  armed (window_over retry e) !! "b" = Some (10 + retry) ∧
  persisted (window_over retry e) !! "b" = Some (10 + retry).
Proof.
  split_and!.
  - one_step step_claim. one_step (step_pause retry (claim race_start) "b" [] (Some e)).
    one_step (step_section retry (claim race_start <| loop := LoopPaused "b" (Some e) [] |>)).
    apply run_refl.
  - eapply run_step; [by left|apply (step_disarm_delete retry (window_failed e) "b")|].
    eapply run_step; [by right; left|apply (step_disarm_map retry
      (disarm_delete "b" (window_failed e)) "b" [] []); reflexivity|].
    eapply run_step; [by right; right|
      apply (step_rearm_save retry (window_disarmed e) "b" e []); reflexivity|].
    eapply run_step; [by right; right|eapply step_rearm_map; reflexivity|]. apply run_refl.
  - reflexivity.
  - apply lookup_insert_eq.
  - apply lookup_insert_eq.
Qed.

(** * Witnesses *)

Lemma due_correct_witness :
  due_in [("b", 5); ("a", 7); ("c", 12)] 8 =
  due {["a" := 7; "b" := 5; "c" := 12]} 8.
Proof.
  exact (proj1 (due_correct {["a" := 7; "b" := 5; "c" := 12]} 8
    [("b", 5); ("a", 7); ("c", 12)]
    ltac:(apply (bool_decide_unpack _); vm_compute; exact I))).
Defined.

(** A Disarm while the pause is in flight; the pause then fails. *)
Definition demo_inflight : Sched := disarm_delete "b" (claim race_start).
Definition demo_disarmed : Sched := disarm_map "b" demo_inflight <| disarming := [] |>.
Definition demo_err : error := ErrExternal "docker: timeout".
Definition demo_failed_pause : Sched :=
  fire_section "b" (Some demo_err) []
    (demo_disarmed <| loop := LoopPaused "b" (Some demo_err) [] |>)
    <| loop := LoopFire [] |>.

Lemma disarm_sticks_witness :
  armed demo_failed_pause !! "b" = None ∧ persisted demo_failed_pause !! "b" = None.
Proof.
  apply (disarm_sticks 30 "b" demo_inflight demo_disarmed).
  - exists {["b" := 10]}, 10. eapply run_step; [exact I|by apply step_claim|].
    eapply run_step; [exact I|apply step_disarm_delete|apply run_refl].
  - by apply (step_disarm_map 30 demo_inflight "b" [] []).
  - intros [].
  - intros d ?%not_elem_of_nil. done.
  - reflexivity.
  - eapply (run_step _ _ _ Loops); [done|apply (step_pause 30 demo_disarmed "b" [] (Some demo_err)); reflexivity|].
    eapply (run_step _ _ _ Loops); [done|eapply step_section; reflexivity|].
    eapply (run_step _ _ _ Loops); [done|eapply step_no_rearm; reflexivity|]. apply run_refl.
Defined.
