(* ===== verification/Store.v ===== *)
(** The control-plane store (internal/store): SQLite tables as finite maps, the
    generated queries (internal/store/queries) with their constraints, and the
    operations of the Store type over them.

    - Every statement of the database may fail: [fault] says which do, [clock] and
      [fresh_id] are the clock and the ULID source; a counter numbers the calls, so
      a theorem that holds for all [Env] holds for every behaviour of them.
    - [withTx] runs its body in a transaction: on an error the tables are what they
      were at BEGIN.
    - A row is the domain struct read back from it: times pass through [ns] and
      [fromNS]; enumerations, JSON columns and integers are kept as values. *)
From S2P Require Import Prelude Domain.

(** * Times in columns *)

(** ns and fromNS *)
Definition ns (t : time) : Z := match t with None => 0 | Some _ => UnixNano t end.
Definition fromNS (n : Z) : time := if decide (n = 0%Z) then None else Some n.
(** What a time reads back as. *)
Definition col_time (t : time) : time := fromNS (ns t).

(** The instants a column holds exactly. *)
Definition storable (t : time) : Prop :=
  match t with None => True | Some n => int64 n ∧ n ≠ 0%Z end.

Lemma col_time_id t : storable t → col_time t = t.
Proof.
  unfold col_time, ns, fromNS, UnixNano. destruct t as [n|]; [|done].
  intros [H1 H2]. rewrite wrap64_id by done. by rewrite decide_False.
Qed.

Lemma col_time_storable t : storable (col_time t).
Proof.
  unfold col_time, fromNS. destruct (decide _) as [|Hn]; [done|]. split; [|done].
  unfold ns, UnixNano in *. destruct t; [apply wrap64_range|done].
Qed.

(** * Tables *)

Record AuditRecord := MkAuditRecord {
  Rec_Seq : Z;
  Rec_Event : AuditEvent}.
#[export] Instance AuditRecord_eq_dec : EqDecision AuditRecord.
Proof. solve_decision. Defined.

Record AuditCheckpoint := MkAuditCheckpoint {
  CP_ThroughSeq : Z;
  CP_AnchorHash : string;
  CP_PrunedCount : Z;
  CP_At : time;
  CP_PrunedBy : ID}.
#[export] Instance AuditCheckpoint_eq_dec : EqDecision AuditCheckpoint.
Proof. solve_decision. Defined.

(** db_audit lists the audit rows by ascending seq; db_audit_seq is the table's
    AUTOINCREMENT high-water mark (sqlite_sequence), which deletes do not lower. *)
Record DB := MkDB {
  db_identities : gmap ID Identity;
  db_memberships : gmap ID Membership;
  db_beamhalls : gmap ID Beamhall;
  db_security_contexts : gmap ID SecurityContext;
  db_beams : gmap ID Beam;
  db_builds : gmap ID Build;
  db_releases : gmap ID Release;
  db_routes : gmap ID Route;
  db_resources : gmap ID Resource;
  db_secrets : gmap ID Secret;
  db_secret_values : gmap string string;
  db_promotions : gmap ID PromotionRequest;
  db_beam_peers : gmap ID BeamPeers;
  db_c2c_keys : gmap ID string;
  db_armed_pauses : gmap ID time;
  db_audit : list AuditRecord;
  db_audit_seq : Z;
  db_checkpoints : list AuditCheckpoint;
  db_branding : gmap ID Branding;
  db_branding_logos : gmap ID BrandingLogo;
  db_audiences : gmap ID BeamAudience;
  db_admin_actions : gmap ID AdminActionRequest;
  db_control_keys : gmap string string}.
#[export] Instance Eta_DB : Eta DB := λ x, MkDB (db_identities x) (db_memberships x)
  (db_beamhalls x) (db_security_contexts x) (db_beams x) (db_builds x) (db_releases x)
  (db_routes x) (db_resources x) (db_secrets x) (db_secret_values x) (db_promotions x)
  (db_beam_peers x) (db_c2c_keys x) (db_armed_pauses x) (db_audit x) (db_audit_seq x)
  (db_checkpoints x) (db_branding x) (db_branding_logos x) (db_audiences x)
  (db_admin_actions x) (db_control_keys x).
Definition empty_DB : DB := MkDB ∅ ∅ ∅ ∅ ∅ ∅ ∅ ∅ ∅ ∅ ∅ ∅ ∅ ∅ ∅ [] 0 [] ∅ ∅ ∅ ∅ ∅.

(** ** Reading a table *)
Section tables.
Context {A : Type}.
Implicit Types (t : gmap ID A) (p : A → bool).

Definition rows t : list A := (map_to_list t).*2.
(** SELECT * ... WHERE p, in no particular order. *)
Definition select p t : list A := filter p (rows t).
(** SELECT * ... WHERE p of one row. *)
Definition select_one p t : option A := head (select p t).
(** SELECT COUNT( * ) ... WHERE p *)
Definition count p t : Z := Z.of_nat (length (select p t)).
Definition exists_row p t : bool := existsb p (rows t).

Lemma elem_of_rows x t : x ∈ rows t ↔ ∃ id, t !! id = Some x.
Proof.
  unfold rows. rewrite list_elem_of_fmap. split.
  - intros ([id y] & -> & H%elem_of_map_to_list). eauto.
  - intros [id H]. exists (id, x). by rewrite elem_of_map_to_list.
Qed.

Lemma elem_of_select x p t : x ∈ select p t ↔ p x ∧ ∃ id, t !! id = Some x.
Proof. unfold select. by rewrite list_elem_of_filter, elem_of_rows. Qed.

Lemma select_one_Some x p t :
  select_one p t = Some x → p x ∧ ∃ id, t !! id = Some x.
Proof.
  unfold select_one. intros H%head_Some_elem_of. by apply elem_of_select.
Qed.

Lemma select_one_None p t :
  select_one p t = None ↔ ∀ id x, t !! id = Some x → ¬ p x.
Proof.
  unfold select_one. rewrite head_None. split.
  - intros H id x Hx Hp. assert (x ∈ select p t) as Hin by (apply elem_of_select; eauto).
    rewrite H in Hin. by apply not_elem_of_nil in Hin.
  - intros H. destruct (select p t) as [|x l] eqn:E; [done|].
    destruct (elem_of_select x p t) as [Hin _].
    destruct Hin as (Hp & id & Hx); [rewrite E; left|]. by destruct (H id x Hx).
Qed.

Lemma exists_row_true p t : exists_row p t = true ↔ ∃ id x, t !! id = Some x ∧ p x.
Proof.
  unfold exists_row. rewrite existsb_exists. split.
  - intros (x & Hin & Hp). apply list_elem_of_In, elem_of_rows in Hin as [id Hx].
    exists id, x. by rewrite Hp.
  - intros (id & x & Hx & Hp). exists x. rewrite <-list_elem_of_In, elem_of_rows.
    split; [eauto|by destruct (p x)].
Qed.

Lemma exists_row_false p t : exists_row p t = false ↔ ∀ id x, t !! id = Some x → ¬ p x.
Proof.
  rewrite <-not_true_iff_false, exists_row_true. naive_solver.
Qed.

Lemma rows_insert_fresh id x t :
  t !! id = None → rows (<[id := x]> t) ≡ₚ x :: rows t.
Proof. intros H. unfold rows. by rewrite map_to_list_insert. Qed.

Lemma rows_delete id x t : t !! id = Some x → rows t ≡ₚ x :: rows (delete id t).
Proof.
  intros H. unfold rows. by rewrite <-(map_to_list_delete t id x).
Qed.

Lemma count_insert_fresh id x p t :
  t !! id = None → count p (<[id := x]> t) = (count p t + if p x then 1 else 0)%Z.
Proof.
  intros H. unfold count, select. rewrite rows_insert_fresh by done.
  rewrite filter_cons. destruct (p x) eqn:E; rewrite ?decide_True, ?decide_False by (by rewrite ?E);
    simpl; lia.
Qed.

Lemma count_delete id x p t :
  t !! id = Some x → count p (delete id t) = (count p t - if p x then 1 else 0)%Z.
Proof.
  intros H. unfold count, select. rewrite (rows_delete id x t) by done.
  rewrite filter_cons. destruct (p x) eqn:E; rewrite ?decide_True, ?decide_False by (by rewrite ?E);
    simpl; lia.
Qed.

Lemma count_update id x y p t :
  t !! id = Some x →
  count p (<[id := y]> t) =
    (count p t - (if p x then 1 else 0) + (if p y then 1 else 0))%Z.
Proof.
  intros H. rewrite <-insert_delete_eq. rewrite count_insert_fresh by apply lookup_delete_eq.
  by rewrite (count_delete id x).
Qed.
End tables.

Section order.
Context {A : Type}.
(** ORDER BY a text column, an integer column, the latter descending: stable, so that
    sorting by each column in turn sorts by several.  (SQLite leaves the order of rows
    equal in every column open; here it is that of the table.) *)
Definition order_by (key : A → string) (l : list A) : list A :=
  stable_sort (λ a b, bool_decide (String.le (key a) (key b))) l.
Definition order_by_int (key : A → Z) (l : list A) : list A :=
  stable_sort (λ a b, (key a <=? key b)%Z) l.
Definition order_by_int_desc (key : A → Z) (l : list A) : list A :=
  stable_sort (λ a b, (key b <=? key a)%Z) l.

Lemma elem_of_order_by key x l : x ∈ order_by key l ↔ x ∈ l.
Proof. unfold order_by. by rewrite stable_sort_Permutation. Qed.
Lemma elem_of_order_by_int key x l : x ∈ order_by_int key l ↔ x ∈ l.
Proof. unfold order_by_int. by rewrite stable_sort_Permutation. Qed.
Lemma elem_of_order_by_int_desc key x l : x ∈ order_by_int_desc key l ↔ x ∈ l.
Proof. unfold order_by_int_desc. by rewrite stable_sort_Permutation. Qed.
End order.

(** * Statements and transactions *)

(** clock n, fresh_id n: what time.Now and NewID return at the n-th step;
    fault n: the driver error of the n-th step's statement, if it fails;
    constraint_text n: SQLite's message should that statement violate a
    constraint. *)
Class Env := {
  clock : nat → Z;
  fresh_id : nat → ID;
  fault : nat → option string;
  constraint_text : nat → string }.

Record Store := MkStore {
  st_step : nat;
  st_db : DB}.
#[export] Instance Eta_Store : Eta Store := λ x, MkStore (st_step x) (st_db x).

Notation SM := (M Store error).

(** sql.ErrNoRows and SQLITE_CONSTRAINT, the driver errors mapErr translates. *)
Inductive db_error :=
  | NoRows
  | Constraint.

Definition query (A : Type) : Type := DB → db_error + A * DB.
Definition q_read {A} (f : DB → A) : query A := λ d, inr (f d, d).
Definition q_one {A} (f : DB → option A) : query A := λ d,
  match f d with Some a => inr (a, d) | None => inl NoRows end.
(** INSERT: [ok] is the foreign keys' check, [clash] the unique indexes'. *)
Definition q_insert {A} (table : DB → gmap ID A) `{!Setter table} (id : ID) (row : A)
    (ok : DB → bool) (clash : A → bool) : query () := λ d,
  if decide (table d !! id = None ∧ ok d = true ∧ exists_row clash (table d) = false)
  then inr (tt, d <| table := <[id := row]> (table d) |>)
  else inl Constraint.
(** UPDATE ... WHERE id = ?, returning the number of rows. *)
Definition q_update {A} (table : DB → gmap ID A) `{!Setter table} (id : ID) (f : A → A)
    : query Z := λ d,
  match table d !! id with
  | None => inr (0%Z, d)
  | Some x => inr (1%Z, d <| table := <[id := f x]> (table d) |>)
  end.
(** DELETE ... WHERE id = ? *)
Definition q_delete {A} (table : DB → gmap ID A) `{!Setter table} (id : ID) : query () :=
  λ d, inr (tt, d <| table := delete id (table d) |>).
Definition has {A} (table : DB → gmap ID A) (id : ID) (d : DB) : bool :=
  bool_decide (is_Some (table d !! id)).
Definition no_clash {A} (x : A) : bool := false.

Section store.
Context `{!Env}.

Definition mapErr (n : nat) (e : db_error) : error :=
  match e with
  | NoRows => ErrNotFound ": sql: no rows in result set"
  | Constraint => ErrConflict (": " +:+ constraint_text n)
  end.

(** One statement, its error mapped. *)
Definition exec {A} (q : query A) : SM A := λ s,
  let n := st_step s in
  let s := s <| st_step := S n |> in
  match fault n with
  | Some msg => (inl (ErrExternal msg), s)
  | None =>
      match q (st_db s) with
      | inl e => (inl (mapErr n e), s)
      | inr (a, d) => (inr a, s <| st_db := d |>)
      end
  end.

Definition withTx {A} (fn : SM A) : SM A := λ s,
  match exec (q_read (λ _, tt)) s with
  | (inl e, s1) => (inl e, s1)
  | (inr _, s1) =>
      match fn s1 with
      | (inl e, s2) => (inl e, s2 <| st_db := st_db s1 |>)
      | (inr a, s2) =>
          match exec (q_read (λ _, a)) s2 with
          | (inl e, s3) => (inl e, s3 <| st_db := st_db s1 |>)
          | (inr a, s3) => (inr a, s3)
          end
      end
  end.

Definition affected (m : SM Z) : SM () :=
  n ← m; if decide (n = 0%Z) then throw (ErrNotFound EmptyString) else mret tt.

Definition now : SM time := λ s, (inr (Some (clock (st_step s))), s <| st_step := S (st_step s) |>).
Definition NewID : SM ID := λ s, (inr (fresh_id (st_step s)), s <| st_step := S (st_step s) |>).
Definition fill_id (id : ID) : SM ID := if decide (id = no_id) then NewID else mret id.
Definition fill_time (t : time) : SM time :=
  match t with None => now | Some _ => mret t end.
End store.

(** * Reasoning about statements *)

(** What a relation on the tables says of two stores. *)
Definition db_rel (R : relation DB) : relation Store := λ s s', R (st_db s) (st_db s').
#[export] Instance db_rel_PreOrder R `{!PreOrder R} : PreOrder (db_rel R).
Proof.
  split; unfold db_rel; [intros s; reflexivity|intros s1 s2 s3 H1 H2; by etrans].
Qed.

(** The relation "if the invariant held, it holds". *)
Definition keeping (P : DB → Prop) : relation DB := λ d d', P d → P d'.
#[export] Instance keeping_PreOrder P : PreOrder (keeping P).
Proof. split; unfold keeping; [by intros d|naive_solver]. Qed.

(** A view of the tables that does not change. *)
Definition same {A} (f : DB → A) : relation DB := λ d d', f d' = f d.
#[export] Instance same_PreOrder {A} (f : DB → A) : PreOrder (same f).
Proof. split; unfold same; [by intros d|congruence]. Qed.

Definition q_frames (R : relation DB) {A} (q : query A) : Prop :=
  ∀ d a d', q d = inr (a, d') → R d d'.

Section store_frames.
Context `{!Env} (R : relation DB) `{!PreOrder R}.

Lemma frames_exec {A} (q : query A) : q_frames R q → frames (db_rel R) (exec q).
Proof.
  intros Hq s. unfold exec, db_rel. destruct (fault _); simpl; [reflexivity|].
  destruct (q (st_db s)) as [e|[a d]] eqn:E; simpl; [reflexivity|eauto].
Qed.

Lemma frames_withTx {A} (m : SM A) : frames (db_rel R) m → frames (db_rel R) (withTx m).
Proof.
  intros Hm s. unfold withTx, exec, db_rel, q_read.
  destruct (fault (st_step s)) as [e|]; simpl; [reflexivity|].
  match goal with |- context [m ?s1] => specialize (Hm s1) end.
  destruct (m _) as [[e|a] s2]; simpl in *; [reflexivity|].
  destruct (fault (st_step s2)); simpl; [reflexivity|exact Hm].
Qed.

Lemma frames_affected m : frames (db_rel R) m → frames (db_rel R) (affected m).
Proof.
  intros Hm. unfold affected. apply frames_bind; [tc_solve|done|].
  intros n. case_decide; [apply frames_throw|apply frames_ret]; tc_solve.
Qed.

Lemma frames_now : frames (db_rel R) now.
Proof. intros s. unfold db_rel. simpl. reflexivity. Qed.
Lemma frames_NewID : frames (db_rel R) NewID.
Proof. intros s. unfold db_rel. simpl. reflexivity. Qed.
Lemma frames_fill_id id : frames (db_rel R) (fill_id id).
Proof. unfold fill_id. case_decide; [apply frames_NewID|apply frames_ret; tc_solve]. Qed.
Lemma frames_fill_time t : frames (db_rel R) (fill_time t).
Proof. destruct t; [apply frames_ret; tc_solve|apply frames_now]. Qed.

Lemma q_frames_read {A} (f : DB → A) : q_frames R (q_read f).
Proof. intros d a d'. unfold q_read. intros [= _ <-]. reflexivity. Qed.
Lemma q_frames_one {A} (f : DB → option A) : q_frames R (q_one f).
Proof. intros d a d'. unfold q_one. destruct (f d); [intros [= _ <-]; reflexivity|done]. Qed.
End store_frames.

Create HintDb frame.
#[export] Hint Resolve frames_ret frames_throw frames_gets frames_check frames_attempt
  frames_logged frames_map_error frames_withTx frames_affected frames_now frames_NewID
  frames_fill_id frames_fill_time q_frames_read q_frames_one : frame.
#[export] Hint Extern 1 (PreOrder _) => tc_solve : frame.

(** Reduces a [frames] goal to one about the statements it executes. *)
Ltac solve_preorder :=
  lazymatch goal with |- PreOrder _ => tc_solve | |- _ => idtac end.
Ltac frame_step :=
  lazymatch goal with
  | |- ∀ _, _ => intros
  | |- frames _ (_ ≫= _) => apply frames_bind; solve_preorder
  | |- frames _ (for_each _ _) => apply frames_for_each; solve_preorder
  | |- frames _ (affected _) => apply frames_affected; solve_preorder
  | |- frames _ (withTx _) => apply frames_withTx; solve_preorder
  | |- frames _ (attempt _) => apply frames_attempt
  | |- frames _ (logged _) => apply frames_logged
  | |- frames _ (map_error _ _) => apply frames_map_error
  | |- frames _ (match _ with _ => _ end) => case_match; subst
  | |- frames _ (exec _) => apply frames_exec; solve_preorder
  | |- _ => idtac
  end; try solve [auto with frame nocore].
Ltac solve_frame := repeat (progress frame_step).

Section store_wp.
Context `{!Env}.

Lemma wp_exec {A} (q : query A) (Q : error + A → Store → Prop) s :
  (∀ e s', st_db s' = st_db s → Q (inl e) s') →
  (∀ a s', q (st_db s) = inr (a, st_db s') → Q (inr a) s') →
  wp (exec q) Q s.
Proof.
  intros He Ha. unfold wp, exec. destruct (fault _); simpl; [by apply He|].
  destruct (q (st_db s)) as [e|[a d]] eqn:E; simpl; [by apply He|by apply Ha].
Qed.

Lemma wp_withTx {A} (m : SM A) (Q : error + A → Store → Prop) s :
  (∀ e s', st_db s' = st_db s → Q (inl e) s') →
  (∀ s1, st_db s1 = st_db s →
     wp m (λ r s2, match r with
                   | inl _ => True
                   | inr a => ∀ s', st_db s' = st_db s2 → Q (inr a) s'
                   end) s1) →
  wp (withTx m) Q s.
Proof.
  intros He Ha. unfold wp, withTx, exec, q_read in *.
  destruct (fault (st_step s)) as [e|]; simpl; [by apply He|].
  match goal with |- context [m ?s1] => specialize (Ha s1 eq_refl) end.
  destruct (m _) as [[e|a] s2]; simpl in *; [by apply He|].
  destruct (fault (st_step s2)); simpl; [by apply He|by apply Ha].
Qed.

Lemma wp_affected m (Q : error + () → Store → Prop) s :
  wp m (λ r s', match r with
                | inl e => Q (inl e) s'
                | inr n => if decide (n = 0%Z) then Q (inl (ErrNotFound EmptyString)) s'
                           else Q (inr tt) s'
                end) s →
  wp (affected m) Q s.
Proof.
  intros Hm. apply wp_bind. eapply wp_mono; [exact Hm|]. intros [e|n] s' HQ; [done|].
  by destruct (decide (n = 0%Z)).
Qed.

Lemma wp_now (Q : error + time → Store → Prop) s :
  (∀ t s', st_db s' = st_db s → Q (inr (Some t)) s') → wp now Q s.
Proof. intros HQ. by apply HQ. Qed.

Lemma wp_fill_id id (Q : error + ID → Store → Prop) s :
  (∀ i s', st_db s' = st_db s → Q (inr i) s') → wp (fill_id id) Q s.
Proof. intros HQ. unfold fill_id. case_decide; by apply HQ. Qed.

Lemma wp_fill_time t (Q : error + time → Store → Prop) s :
  (∀ t' s', st_db s' = st_db s → Q (inr t') s') → wp (fill_time t) Q s.
Proof. intros HQ. destruct t; by apply HQ. Qed.
End store_wp.
