(* ===== verification/StoreOps.v ===== *)
(** The operations of the store (internal/store/identity.go, beamhall.go, beam.go,
    build.go, release.go, route.go, resource.go, secret.go, promotion.go, peers.go,
    pause.go, branding.go, audience.go, admin_request.go, controlkey.go), each with the statement of internal/store/queries it runs and the
    constraints of internal/store/migrations.  A function that fills its pointer
    argument returns the filled struct. *)
From S2P Require Import Prelude Domain Store.

Section ops.
Context `{!Env}.

(** * Identities and memberships (identity.go) *)

Definition identity_row (i : Identity) : Identity :=
  i <| Identity_CreatedAt := col_time (Identity_CreatedAt i) |>.

Definition CreateIdentity (ident : Identity) : SM Identity :=
  id ← fill_id (Identity_ID ident);
  at_ ← fill_time (Identity_CreatedAt ident);
  let ident := ident <| Identity_ID := id |> <| Identity_CreatedAt := at_ |> in
  exec (q_insert db_identities id (identity_row ident) (λ _, true)
    (λ x, bool_decide (Identity_IdPIssuer x = Identity_IdPIssuer ident
                       ∧ Identity_ExternalSubject x = Identity_ExternalSubject ident)));;
  mret ident.

Definition GetIdentity (id : ID) : SM Identity :=
  exec (q_one (λ d, db_identities d !! id)).

Definition GetIdentityByIssuerSubject (issuer subject : string) : SM Identity :=
  exec (q_one (λ d, select_one (λ x, bool_decide (Identity_IdPIssuer x = issuer
    ∧ Identity_ExternalSubject x = subject)) (db_identities d))).

Definition ListIdentities : SM (list Identity) :=
  exec (q_read (λ d, order_by Identity_Email (rows (db_identities d)))).

Definition UpdateIdentity (ident : Identity) : SM () :=
  affected (exec (q_update db_identities (Identity_ID ident) (λ x,
    x <| Identity_Email := Identity_Email ident |>
      <| Identity_DisplayName := Identity_DisplayName ident |>
      <| Identity_Status := Identity_Status ident |>))).

(** memberships still reference the row: the foreign key refuses. *)
Definition DeleteIdentity (id : ID) : SM () :=
  exec (λ d, if exists_row (λ m, bool_decide (Membership_IdentityID m = id))
                  (db_memberships d)
                && has db_identities id d
             then inl Constraint
             else q_delete db_identities id d).

Definition membership_row (m : Membership) : Membership :=
  m <| Membership_GrantedAt := col_time (Membership_GrantedAt m) |>.
Definition membership_of (identityID beamhallID : ID) (m : Membership) : bool :=
  bool_decide (Membership_IdentityID m = identityID ∧ Membership_BeamhallID m = beamhallID).

Definition CreateMembership (m : Membership) : SM Membership :=
  id ← fill_id (Membership_ID m);
  at_ ← fill_time (Membership_GrantedAt m);
  let m := m <| Membership_ID := id |> <| Membership_GrantedAt := at_ |> in
  exec (q_insert db_memberships id (membership_row m)
    (λ d, has db_identities (Membership_IdentityID m) d
          && has db_beamhalls (Membership_BeamhallID m) d)
    (membership_of (Membership_IdentityID m) (Membership_BeamhallID m)));;
  mret m.

Definition GetMembership (identityID beamhallID : ID) : SM Membership :=
  exec (q_one (λ d, select_one (membership_of identityID beamhallID) (db_memberships d))).

Definition ListMembershipsByBeamhall (beamhallID : ID) : SM (list Membership) :=
  exec (q_read (λ d, order_by_int (λ m, ns (Membership_GrantedAt m))
    (select (λ m, bool_decide (Membership_BeamhallID m = beamhallID)) (db_memberships d)))).

Definition ListMembershipsByIdentity (identityID : ID) : SM (list Membership) :=
  exec (q_read (λ d, order_by_int (λ m, ns (Membership_GrantedAt m))
    (select (λ m, bool_decide (Membership_IdentityID m = identityID)) (db_memberships d)))).

Definition DeleteMembership (id : ID) : SM () := exec (q_delete db_memberships id).

Definition UpdateMembershipRole (identityID beamhallID : ID) (role : MembershipRole)
    (grantedBy : ID) : SM () :=
  affected (exec (λ d,
    match select_one (membership_of identityID beamhallID) (db_memberships d) with
    | None => inr (0%Z, d)
    | Some m =>
        q_update db_memberships (Membership_ID m) (λ x,
          x <| Membership_Role := role |> <| Membership_GrantedBy := grantedBy |>) d
    end)).

(** * Beamhalls (beamhall.go) *)

Definition beamhall_row (w : Beamhall) : Beamhall :=
  w <| Beamhall_CreatedAt := col_time (Beamhall_CreatedAt w) |>
    <| Beamhall_UpdatedAt := col_time (Beamhall_UpdatedAt w) |>.

Definition CreateBeamhall (w : Beamhall) (sc : SecurityContext)
    : SM (Beamhall * SecurityContext) :=
  wid ← fill_id (Beamhall_ID w);
  scid ← fill_id (SC_ID sc);
  created ← fill_time (Beamhall_CreatedAt w);
  let sc := sc <| SC_ID := scid |> <| SC_BeamhallID := wid |> in
  let w := w <| Beamhall_ID := wid |> <| Beamhall_SecurityContextID := scid |>
             <| Beamhall_CreatedAt := created |> <| Beamhall_UpdatedAt := created |> in
  withTx (
    exec (q_insert db_beamhalls wid (beamhall_row w) (λ _, true)
      (λ x, bool_decide (Beamhall_Slug x = Beamhall_Slug w)));;
    exec (q_insert db_security_contexts scid sc (has db_beamhalls wid)
      (λ x, bool_decide (SC_BeamhallID x = wid))));;
  mret (w, sc).

Definition GetBeamhall (id : ID) : SM Beamhall :=
  exec (q_one (λ d, db_beamhalls d !! id)).
Definition GetBeamhallBySlug (slug : string) : SM Beamhall :=
  exec (q_one (λ d, select_one (λ w, bool_decide (Beamhall_Slug w = slug))
    (db_beamhalls d))).
Definition ListBeamhalls : SM (list Beamhall) :=
  exec (q_read (λ d, order_by Beamhall_Slug (rows (db_beamhalls d)))).

Definition UpdateBeamhall (w : Beamhall) : SM Beamhall :=
  at_ ← now;
  let w := w <| Beamhall_UpdatedAt := at_ |> in
  affected (exec (q_update db_beamhalls (Beamhall_ID w) (λ x,
    x <| Beamhall_DisplayName := Beamhall_DisplayName w |>
      <| Beamhall_Department := Beamhall_Department w |>
      <| Beamhall_Status := Beamhall_Status w |>
      <| Beamhall_NetworkPolicy := Beamhall_NetworkPolicy w |>
      <| Beamhall_Quota := Beamhall_Quota w |>
      <| Beamhall_LiveSlotLimit := Beamhall_LiveSlotLimit w |>
      <| Beamhall_UpdatedAt := col_time at_ |>)));;
  mret w.

Definition GetSecurityContext (beamhallID : ID) : SM SecurityContext :=
  exec (q_one (λ d, select_one (λ sc, bool_decide (SC_BeamhallID sc = beamhallID))
    (db_security_contexts d))).

Definition UpdateSecurityContext (sc : SecurityContext) : SM () :=
  affected (exec (q_update db_security_contexts (SC_ID sc) (λ x,
    sc <| SC_ID := SC_ID x |> <| SC_BeamhallID := SC_BeamhallID x |>))).

(** * Beams (beam.go) *)

(** beamFromRow of beamInsertParams *)
Definition beam_row (a : Beam) : Beam :=
  a <| Beam_ResumedAt := col_time (Beam_ResumedAt a) |>
    <| Beam_CreatedAt := col_time (Beam_CreatedAt a) |>
    <| Beam_UpdatedAt := col_time (Beam_UpdatedAt a) |>.

Definition fillBeam (a : Beam) : SM Beam :=
  id ← fill_id (Beam_ID a);
  created ← fill_time (Beam_CreatedAt a);
  let status := if decide (Beam_Status a = BeamStatusUnset) then BeamActive
                else Beam_Status a in
  mret (a <| Beam_ID := id |> <| Beam_CreatedAt := created |>
          <| Beam_Status := status |> <| Beam_UpdatedAt := created |>).

Definition active_in (beamhallID : ID) (a : Beam) : bool :=
  bool_decide (Beam_BeamhallID a = beamhallID ∧ Beam_Status a = BeamActive).
Definition live_in (beamhallID : ID) (a : Beam) : bool :=
  bool_decide (Beam_BeamhallID a = beamhallID ∧ Beam_Mode a = ModeLive
               ∧ Beam_Status a = BeamActive).
(** beams_beamhall_slug: UNIQUE (beamhall_id, slug) WHERE status = 'active' *)
Definition slug_clash (a x : Beam) : bool :=
  bool_decide (Beam_Status a = BeamActive ∧ Beam_Status x = BeamActive
    ∧ Beam_BeamhallID x = Beam_BeamhallID a ∧ Beam_Slug x = Beam_Slug a).

Definition InsertBeam (a : Beam) : query () :=
  q_insert db_beams (Beam_ID a) (beam_row a) (has db_beamhalls (Beam_BeamhallID a))
    (slug_clash a).

Definition CreateBeam (a : Beam) : SM Beam :=
  a ← fillBeam a;
  exec (InsertBeam a);;
  mret a.

Definition CountBeamsByBeamhall (beamhallID : ID) : SM Z :=
  exec (q_read (λ d, count (active_in beamhallID) (db_beams d))).
Definition CountLiveBeamsByBeamhall (beamhallID : ID) : SM Z :=
  exec (q_read (λ d, count (live_in beamhallID) (db_beams d))).

Definition CreateBeamWithQuota (a : Beam) (maxBeams : Z) : SM Beam :=
  a ← fillBeam a;
  withTx (
    n ← CountBeamsByBeamhall (Beam_BeamhallID a);
    if decide (maxBeams ≤ 0 ∨ maxBeams ≤ n)%Z then
      throw (ErrQuota (": " +:+ format_int n +:+ " of " +:+ format_int maxBeams
                       +:+ " beams in use"))
    else exec (InsertBeam a));;
  mret a.

Definition GetBeam (id : ID) : SM Beam := exec (q_one (λ d, db_beams d !! id)).
Definition GetBeamBySlug (beamhallID : ID) (slug : string) : SM Beam :=
  exec (q_one (λ d, select_one (λ a, active_in beamhallID a && bool_decide (Beam_Slug a = slug))
    (db_beams d))).
Definition ListBeamsByBeamhall (beamhallID : ID) : SM (list Beam) :=
  exec (q_read (λ d, order_by Beam_Slug (select (active_in beamhallID) (db_beams d)))).
Definition ListBeamsByState (state : BeamState) : SM (list Beam) :=
  exec (q_read (λ d, select (λ a, bool_decide (Beam_State a = state)) (db_beams d))).

Definition PromoteBeam (beamhallID beamID : ID) (liveSlotLimit : Z) : SM () :=
  withTx (
    n ← CountLiveBeamsByBeamhall beamhallID;
    if decide (liveSlotLimit ≤ n)%Z then
      throw (ErrQuota (": " +:+ format_int n +:+ " of " +:+ format_int liveSlotLimit
                       +:+ " live slots in use"))
    else
      at_ ← now;
      affected (exec (q_update db_beams beamID (λ x,
        x <| Beam_Mode := ModeLive |> <| Beam_UpdatedAt := col_time at_ |>)))).

(** The row after UPDATE beams SET ...: identity, beamhall, slug and creation
    metadata stay. *)
Definition updated_beam (a x : Beam) : Beam :=
  beam_row a <| Beam_ID := Beam_ID x |> <| Beam_BeamhallID := Beam_BeamhallID x |>
    <| Beam_Slug := Beam_Slug x |> <| Beam_CreatedBy := Beam_CreatedBy x |>
    <| Beam_CreatedAt := Beam_CreatedAt x |>.

Definition UpdateBeam (a : Beam) : SM Beam :=
  at_ ← now;
  let a := a <| Beam_UpdatedAt := at_ |> in
  let a := if decide (Beam_Status a = BeamStatusUnset)
           then a <| Beam_Status := BeamActive |> else a in
  affected (exec (λ d,
    match db_beams d !! Beam_ID a with
    | None => inr (0%Z, d)
    | Some x =>
        if exists_row (slug_clash (updated_beam a x)) (delete (Beam_ID a) (db_beams d))
        then inl Constraint
        else q_update db_beams (Beam_ID a) (updated_beam a) d
    end));;
  mret a.

(** * Builds (build.go) *)

Definition build_row (b : Build) : Build :=
  b <| Build_StartedAt := col_time (Build_StartedAt b) |>
    <| Build_FinishedAt := col_time (Build_FinishedAt b) |>.

Definition CreateBuild (b : Build) : SM Build :=
  id ← fill_id (Build_ID b);
  started ← fill_time (Build_StartedAt b);
  let b := b <| Build_ID := id |> <| Build_StartedAt := started |> in
  exec (q_insert db_builds id (build_row b) (has db_beams (Build_BeamID b)) no_clash);;
  mret b.

Definition GetBuild (id : ID) : SM Build := exec (q_one (λ d, db_builds d !! id)).
Definition ListBuildsByBeam (beamID : ID) : SM (list Build) :=
  exec (q_read (λ d, order_by_int_desc (λ b, ns (Build_StartedAt b))
    (select (λ b, bool_decide (Build_BeamID b = beamID)) (db_builds d)))).

Definition UpdateBuild (b : Build) : SM () :=
  affected (exec (q_update db_builds (Build_ID b) (λ x,
    x <| Build_Status := Build_Status b |> <| Build_ImageRef := Build_ImageRef b |>
      <| Build_ImageDigest := Build_ImageDigest b |> <| Build_SBOMRef := Build_SBOMRef b |>
      <| Build_CVEScanStatus := Build_CVEScanStatus b |>
      <| Build_LogStreamID := Build_LogStreamID b |>
      <| Build_FinishedAt := col_time (Build_FinishedAt b) |>))).

(** * Releases (release.go) *)

(** InsertRelease has no handle columns: they start empty. *)
Definition release_row (r : Release) : Release :=
  r <| Rel_Workload := MkWorkloadHandle EmptyString EmptyString |>
    <| Rel_CreatedAt := col_time (Rel_CreatedAt r) |>
    <| Rel_ActivatedAt := col_time (Rel_ActivatedAt r) |>.

Definition of_beam (beamID : ID) (r : Release) : bool :=
  bool_decide (Rel_BeamID r = beamID).
(** SELECT COALESCE(MAX(version), 0) + 1 *)
Definition NextReleaseVersion (beamID : ID) (d : DB) : Z :=
  match Rel_Version <$> select (of_beam beamID) (db_releases d) with
  | [] => 1
  | v :: vs => foldr Z.max v vs + 1
  end.

Definition CreateRelease (r : Release) : SM Release :=
  id ← fill_id (Rel_ID r);
  created ← fill_time (Rel_CreatedAt r);
  let r := r <| Rel_ID := id |> <| Rel_CreatedAt := created |> in
  withTx (
    v ← exec (q_read (NextReleaseVersion (Rel_BeamID r)));
    let r := r <| Rel_Version := v |> in
    exec (q_insert db_releases id (release_row r)
      (λ d, has db_beams (Rel_BeamID r) d && has db_builds (Rel_BuildID r) d)
      (λ x, bool_decide (Rel_BeamID x = Rel_BeamID r ∧ Rel_Version x = v)));;
    mret r).

Definition GetRelease (id : ID) : SM Release := exec (q_one (λ d, db_releases d !! id)).
Definition ListReleasesByBeam (beamID : ID) : SM (list Release) :=
  exec (q_read (λ d, order_by_int_desc Rel_Version
    (select (of_beam beamID) (db_releases d)))).
Definition ActivateRelease (id : ID) : SM () :=
  at_ ← now;
  affected (exec (q_update db_releases id (λ r,
    r <| Rel_Status := ReleaseActive |> <| Rel_ActivatedAt := col_time at_ |>))).
Definition UpdateReleaseStatus (id : ID) (status : ReleaseStatus) : SM () :=
  affected (exec (q_update db_releases id (λ r, r <| Rel_Status := status |>))).
Definition SetReleaseRoute (releaseID routeID : ID) : SM () :=
  affected (exec (q_update db_releases releaseID (λ r, r <| Rel_RouteID := routeID |>))).
Definition SetReleaseWorkload (releaseID : ID) (h : WorkloadHandle) : SM () :=
  affected (exec (q_update db_releases releaseID (λ r, r <| Rel_Workload := h |>))).
Definition SetReleaseAgentTools (releaseID : ID) (on : bool) : SM () :=
  withTx (
    row ← GetRelease releaseID;
    let cfg := Rel_ConfigSnapshot row in
    let cfg := if on then <["agent_tools" := "true"]> cfg
               else delete "agent_tools" cfg in
    affected (exec (q_update db_releases releaseID (λ r,
      r <| Rel_ConfigSnapshot := cfg |>)))).

(** * Routes (route.go) *)

Definition route_row (r : Route) : Route :=
  r <| Route_CreatedAt := col_time (Route_CreatedAt r) |>
    <| Route_RetiredAt := col_time (Route_RetiredAt r) |>.
(** routes_active_hostname: UNIQUE (hostname) WHERE status = 'active' *)
Definition serves (hostname : string) (r : Route) : bool :=
  bool_decide (Route_Status r = RouteActive ∧ Route_Hostname r = hostname).
Definition hostname_clash (r x : Route) : bool :=
  bool_decide (Route_Status r = RouteActive ∧ Route_Status x = RouteActive
               ∧ Route_Hostname x = Route_Hostname r).

Definition InsertRoute (r : Route) : query () :=
  q_insert db_routes (Route_ID r) (route_row r) (has db_beams (Route_BeamID r))
    (hostname_clash r).
Definition q_retire_route (at_ : time) (id : ID) : query Z :=
  q_update db_routes id (λ r,
    r <| Route_Status := RouteRetired |> <| Route_RetiredAt := col_time at_ |>).

Definition CreateRoute (r : Route) : SM Route :=
  id ← fill_id (Route_ID r);
  created ← fill_time (Route_CreatedAt r);
  let r := r <| Route_ID := id |> <| Route_CreatedAt := created |> in
  exec (InsertRoute r);;
  mret r.

Definition GetRoute (id : ID) : SM Route := exec (q_one (λ d, db_routes d !! id)).
Definition GetActiveRouteByHostname (hostname : string) : SM Route :=
  exec (q_one (λ d, select_one (serves hostname) (db_routes d))).
Definition ActiveRoutes : SM (list Route) :=
  exec (q_read (λ d, order_by Route_Hostname
    (select (λ r, bool_decide (Route_Status r = RouteActive)) (db_routes d)))).
Definition ListRoutesByBeam (beamID : ID) : SM (list Route) :=
  exec (q_read (λ d, order_by_int_desc (λ r, ns (Route_CreatedAt r))
    (select (λ r, bool_decide (Route_BeamID r = beamID)) (db_routes d)))).
Definition RetireRoute (id : ID) : SM () :=
  at_ ← now; affected (exec (q_retire_route at_ id)).

Definition SwapActiveRoute (oldRouteID : ID) (newRoute : Route) : SM Route :=
  id ← fill_id (Route_ID newRoute);
  created ← fill_time (Route_CreatedAt newRoute);
  let newRoute := newRoute <| Route_ID := id |> <| Route_CreatedAt := created |> in
  withTx (
    (if decide (oldRouteID = no_id) then mret tt
     else at_ ← now; affected (exec (q_retire_route at_ oldRouteID)));;
    exec (InsertRoute newRoute));;
  mret newRoute.

(** * Resources (resource.go) *)

Definition resource_row (r : Resource) : Resource :=
  r <| Res_CreatedAt := col_time (Res_CreatedAt r) |>
    <| Res_UpdatedAt := col_time (Res_UpdatedAt r) |>.
Definition fillResource (r : Resource) : SM Resource :=
  id ← fill_id (Res_ID r);
  created ← fill_time (Res_CreatedAt r);
  mret (r <| Res_ID := id |> <| Res_CreatedAt := created |> <| Res_UpdatedAt := created |>).
Definition InsertResource (r : Resource) : query () :=
  q_insert db_resources (Res_ID r) (resource_row r) (has db_beamhalls (Res_BeamhallID r))
    no_clash.
(** A live mirror does not count. *)
Definition counted (beamhallID : ID) (typ : ResourceType) (r : Resource) : bool :=
  bool_decide (Res_BeamhallID r = beamhallID ∧ Res_Type r = typ
               ∧ Res_Channel r ≠ ChannelLive).

Definition CreateResource (r : Resource) : SM Resource :=
  r ← fillResource r;
  exec (InsertResource r);;
  mret r.
Definition CountResourcesByType (beamhallID : ID) (typ : ResourceType) : SM Z :=
  exec (q_read (λ d, count (counted beamhallID typ) (db_resources d))).
Definition CreateResourceWithQuota (r : Resource) (maxCount : Z) : SM Resource :=
  r ← fillResource r;
  withTx (
    n ← CountResourcesByType (Res_BeamhallID r) (Res_Type r);
    if decide (maxCount ≤ 0 ∨ maxCount ≤ n)%Z then
      throw (ErrQuota (": " +:+ format_int n +:+ " of " +:+ format_int maxCount +:+ " "
        +:+ ResourceType_string (Res_Type r) +:+ " resources in use"))
    else exec (InsertResource r));;
  mret r.

Definition GetResource (id : ID) : SM Resource := exec (q_one (λ d, db_resources d !! id)).
Definition list_resources (p : Resource → bool) : SM (list Resource) :=
  exec (q_read (λ d, order_by_int (λ r, ns (Res_CreatedAt r)) (select p (db_resources d)))).
Definition ListResourcesByBeamhall (beamhallID : ID) : SM (list Resource) :=
  list_resources (λ r, bool_decide (Res_BeamhallID r = beamhallID)).
Definition ListResourcesByBeam (beamID : ID) : SM (list Resource) :=
  list_resources (λ r, bool_decide (Res_BeamID r = beamID)).
Definition ListResourcesByBeamAndChannel (beamID : ID) (ch : Channel) : SM (list Resource) :=
  list_resources (λ r, bool_decide (Res_BeamID r = beamID ∧ Res_Channel r = ch)).
Definition UpdateResource (r : Resource) : SM Resource :=
  at_ ← now;
  let r := r <| Res_UpdatedAt := at_ |> in
  affected (exec (q_update db_resources (Res_ID r) (λ x,
    x <| Res_Status := Res_Status r |>
      <| Res_ConnectionSecretRef := Res_ConnectionSecretRef r |>
      <| Res_Spec := Res_Spec r |> <| Res_BackingHandle := Res_BackingHandle r |>
      <| Res_UpdatedAt := col_time at_ |>)));;
  mret r.
Definition DeleteResource (id : ID) : SM () := exec (q_delete db_resources id).

(** * Secrets (secret.go) *)

Definition scoped (beamhallID beamID : ID) (key : string) (ch : Channel) (x : Secret)
    : bool :=
  bool_decide (Secret_BeamhallID x = beamhallID ∧ Secret_BeamID x = beamID
               ∧ Secret_Key x = key ∧ Secret_Channel x = ch).
Definition scope_of (sec x : Secret) : bool :=
  scoped (Secret_BeamhallID sec) (Secret_BeamID sec) (Secret_Key sec) (Secret_Channel sec) x.

(** INSERT ... ON CONFLICT (beamhall_id, beam_id, key, channel) DO UPDATE ...
    RETURNING *.  The secrets table refers to beamhalls; a clash of the primary
    key alone is an error. *)
Definition UpsertSecret (sec : Secret) : query Secret := λ d,
  match select_one (scope_of sec) (db_secrets d) with
  | Some x =>
      let y := x <| Secret_ValueRef := Secret_ValueRef sec |>
                 <| Secret_Version := (Secret_Version x + 1)%Z |>
                 <| Secret_CreatedBy := Secret_CreatedBy sec |>
                 <| Secret_CreatedAt := col_time (Secret_CreatedAt sec) |> in
      inr (y, d <| db_secrets := <[Secret_ID x := y]> (db_secrets d) |>)
  | None =>
      let y := sec <| Secret_Version := 1%Z |>
                   <| Secret_CreatedAt := col_time (Secret_CreatedAt sec) |> in
      match q_insert db_secrets (Secret_ID sec) y
              (has db_beamhalls (Secret_BeamhallID sec)) no_clash d with
      | inl e => inl e
      | inr (_, d) => inr (y, d)
      end
  end.

Definition PutSecret (sec : Secret) : SM Secret :=
  id ← fill_id (Secret_ID sec);
  created ← fill_time (Secret_CreatedAt sec);
  exec (UpsertSecret (sec <| Secret_ID := id |> <| Secret_CreatedAt := created |>)).

Definition GetSecret (beamhallID beamID : ID) (key : string) (ch : Channel) : SM Secret :=
  exec (q_one (λ d, select_one (scoped beamhallID beamID key ch) (db_secrets d))).
(** ORDER BY beam_id, key, channel: a stable sort by each key in turn. *)
Definition ListSecretsByBeamhall (beamhallID : ID) : SM (list Secret) :=
  exec (q_read (λ d,
    order_by Secret_BeamID (order_by Secret_Key (order_by (λ x, Channel_string (Secret_Channel x))
      (select (λ x, bool_decide (Secret_BeamhallID x = beamhallID)) (db_secrets d)))))).
Definition DeleteSecret (beamhallID beamID : ID) (key : string) (ch : Channel) : SM () :=
  exec (λ d, inr (tt, d <| db_secrets :=
    filter (λ kv, ¬ scoped beamhallID beamID key ch kv.2) (db_secrets d) |>)).

Definition PutSecretValue (ref ciphertext : string) : SM () :=
  exec (q_insert db_secret_values ref ciphertext (λ _, true) no_clash).
Definition GetSecretValue (ref : string) : SM string :=
  exec (q_one (λ d, db_secret_values d !! ref)).
Definition DeleteSecretValue (ref : string) : SM () :=
  exec (q_delete db_secret_values ref).

(** * Promotion requests (promotion.go) *)

Definition pending_for (beamID : ID) (r : PromotionRequest) : bool :=
  bool_decide (PR_BeamID r = beamID ∧ PR_Status r = PromotionPending).

Definition CreatePromotionRequest (r : PromotionRequest) : SM PromotionRequest :=
  id ← fill_id (PR_ID r);
  created ← fill_time (PR_CreatedAt r);
  let r := r <| PR_ID := id |> <| PR_CreatedAt := created |> in
  exec (q_insert db_promotions id
    (MkPromotionRequest id (PR_BeamhallID r) (PR_BeamID r) (PR_ReleaseID r)
       (PR_RequestedBy r) PromotionPending EmptyString (col_time created) no_id None)
    (λ d, has db_beamhalls (PR_BeamhallID r) d && has db_beams (PR_BeamID r) d)
    (pending_for (PR_BeamID r)));;
  mret r.
Definition GetPromotionRequest (id : ID) : SM PromotionRequest :=
  exec (q_one (λ d, db_promotions d !! id)).
Definition GetPendingPromotionByBeam (beamID : ID) : SM PromotionRequest :=
  exec (q_one (λ d, select_one (pending_for beamID) (db_promotions d))).
Definition ListPendingPromotionRequests (beamhallID : ID) : SM (list PromotionRequest) :=
  exec (q_read (λ d, order_by_int (λ r, ns (PR_CreatedAt r))
    (select (λ r, bool_decide (PR_BeamhallID r = beamhallID ∧ PR_Status r = PromotionPending))
       (db_promotions d)))).
Definition DecidePromotionRequest (id : ID) (status : PromotionStatus) (decidedBy : ID)
    (reason : string) : SM () :=
  at_ ← now;
  affected (exec (λ d,
    match db_promotions d !! id with
    | Some r =>
        if decide (PR_Status r = PromotionPending) then
          q_update db_promotions id (λ r,
            r <| PR_Status := status |> <| PR_Reason := reason |>
              <| PR_DecidedBy := decidedBy |> <| PR_DecidedAt := col_time at_ |>) d
        else inr (0%Z, d)
    | None => inr (0%Z, d)
    end)).

(** * Peer grants and relay keys (peers.go) *)

Definition GetBeamPeers (sourceBeamID : ID) : SM BeamPeers :=
  exec (q_one (λ d, db_beam_peers d !! sourceBeamID)).
(** ON CONFLICT (source_beam_id) DO UPDATE keeps beamhall_id. *)
Definition PutBeamPeers (bp : BeamPeers) : SM () :=
  at_ ← now;
  let row := bp <| BP_UpdatedAt := col_time at_ |> in
  exec (λ d,
    match db_beam_peers d !! BP_SourceBeamID bp with
    | Some old =>
        inr (tt, d <| db_beam_peers :=
          <[BP_SourceBeamID bp := row <| BP_BeamhallID := BP_BeamhallID old |>]>
            (db_beam_peers d) |>)
    | None =>
        q_insert db_beam_peers (BP_SourceBeamID bp) row
          (λ d, has db_beams (BP_SourceBeamID bp) d && has db_beamhalls (BP_BeamhallID bp) d)
          no_clash d
    end).
Definition ListBeamPeers : SM (list BeamPeers) :=
  exec (q_read (λ d, order_by BP_SourceBeamID (rows (db_beam_peers d)))).
Definition DeleteBeamPeers (sourceBeamID : ID) : SM () :=
  exec (q_delete db_beam_peers sourceBeamID).
(** ON CONFLICT (beam_id) DO NOTHING: created reports whether the row is new. *)
Definition InsertC2CKey (beamID : ID) (keyHash : string) : SM bool :=
  now;;
  n ← exec (λ d,
    match db_c2c_keys d !! beamID with
    | Some _ => inr (0%Z, d)
    | None =>
        match q_insert db_c2c_keys beamID keyHash (has db_beams beamID)
                (λ h, bool_decide (h = keyHash)) d with
        | inl e => inl e
        | inr (_, d) => inr (1%Z, d)
        end
    end);
  mret (bool_decide (0 < n)%Z).
Definition GetC2CKeyBeam (keyHash : string) : SM ID :=
  exec (q_one (λ d, fst <$> head (filter (λ kv, kv.2 = keyHash)
    (map_to_list (db_c2c_keys d))))).
Definition HasC2CKey (beamID : ID) : SM bool :=
  r ← attempt (exec (q_one (λ d, db_c2c_keys d !! beamID)));
  match r with
  | inr _ => mret true
  | inl e => if is_not_found e then mret false else throw e
  end.
Definition DeleteC2CKey (beamID : ID) : SM () := exec (q_delete db_c2c_keys beamID).

(** * Branding (branding.go) *)

(** One row per scope: INSERT ... ON CONFLICT (beamhall_id) DO UPDATE. *)
Definition GetBranding (beamhallID : ID) : SM Branding :=
  exec (q_one (λ d, db_branding d !! beamhallID)).
Definition PutBranding (beamhallID : ID) (b : Branding) : SM () :=
  now;;
  exec (λ d, inr (tt, d <| db_branding := <[beamhallID := b]> (db_branding d) |>)).
Definition DeleteBranding (beamhallID : ID) : SM () := exec (q_delete db_branding beamhallID).
Definition GetBrandingLogo (beamhallID : ID) : SM BrandingLogo :=
  exec (q_one (λ d, db_branding_logos d !! beamhallID)).
Definition GetBrandingLogoMeta (beamhallID : ID) : SM BrandingLogo :=
  exec (q_one (λ d, (λ l, l <| Logo_Bytes := EmptyString |>)
    <$> (db_branding_logos d !! beamhallID))).
Definition PutBrandingLogo (beamhallID : ID) (l : BrandingLogo) : SM () :=
  at_ ← now;
  exec (λ d, inr (tt, d <| db_branding_logos :=
    <[beamhallID := l <| Logo_UpdatedAt := col_time at_ |>]> (db_branding_logos d) |>)).
Definition DeleteBrandingLogo (beamhallID : ID) : SM () :=
  exec (q_delete db_branding_logos beamhallID).
Definition ClearBrandingScope (beamhallID : ID) : SM () :=
  withTx (
    exec (q_delete db_branding beamhallID);;
    exec (q_delete db_branding_logos beamhallID)).

(** * Audiences (audience.go) *)

Definition GetBeamAudience (beamID : ID) : SM BeamAudience :=
  exec (q_one (λ d, db_audiences d !! beamID)).
(** ON CONFLICT (beam_id) DO UPDATE changes audience_json and updated_at only. *)
Definition UpsertBeamAudience (ba : BeamAudience) : query () := λ d,
  match db_audiences d !! BA_BeamID ba with
  | Some old =>
      inr (tt, d <| db_audiences := <[BA_BeamID ba :=
        old <| BA_Audience := BA_Audience ba |> <| BA_UpdatedAt := BA_UpdatedAt ba |>]>
          (db_audiences d) |>)
  | None =>
      q_insert db_audiences (BA_BeamID ba) ba
        (λ d, has db_beams (BA_BeamID ba) d && has db_beamhalls (BA_BeamhallID ba) d)
        no_clash d
  end.
Definition PutBeamAudience (ba : BeamAudience) : SM () :=
  at_ ← now;
  exec (UpsertBeamAudience
    (ba <| BA_PublishedAt := col_time at_ |> <| BA_UpdatedAt := col_time at_ |>)).
Definition ListBeamAudiences : SM (list BeamAudience) :=
  exec (q_read (λ d, order_by_int (λ ba, ns (BA_PublishedAt ba)) (rows (db_audiences d)))).
Definition ListBeamAudiencesByBeamhall (beamhallID : ID) : SM (list BeamAudience) :=
  exec (q_read (λ d, order_by_int (λ ba, ns (BA_PublishedAt ba))
    (select (λ ba, bool_decide (BA_BeamhallID ba = beamhallID)) (db_audiences d)))).
Definition DeleteBeamAudience (beamID : ID) : SM () := exec (q_delete db_audiences beamID).

(** * Sensitive administration requests (admin_request.go) *)

Definition CreateAdminActionRequest (r : AdminActionRequest) : SM AdminActionRequest :=
  id ← fill_id (AAR_ID r);
  created ← fill_time (AAR_CreatedAt r);
  let r := r <| AAR_ID := id |> <| AAR_CreatedAt := created |> in
  exec (q_insert db_admin_actions id
    (MkAdminActionRequest id (AAR_ActionType r) (AAR_Summary r) (AAR_PayloadCipher r)
       (AAR_RequestedBy r) AdminActionPending EmptyString EmptyString (col_time created)
       no_id None) (λ _, true) no_clash);;
  mret r.
Definition GetAdminActionRequest (id : ID) : SM AdminActionRequest :=
  exec (q_one (λ d, db_admin_actions d !! id)).
Definition ListPendingAdminActionRequests : SM (list AdminActionRequest) :=
  exec (q_read (λ d, order_by_int (λ r, ns (AAR_CreatedAt r))
    (select (λ r, bool_decide (AAR_Status r = AdminActionPending)) (db_admin_actions d)))).
Definition DecideAdminActionRequest (id : ID) (status : AdminActionStatus) (decidedBy : ID)
    (reason result : string) : SM () :=
  at_ ← now;
  affected (exec (λ d,
    match db_admin_actions d !! id with
    | Some r =>
        if decide (AAR_Status r = AdminActionPending) then
          q_update db_admin_actions id (λ r,
            r <| AAR_Status := status |> <| AAR_Reason := reason |> <| AAR_Result := result |>
              <| AAR_DecidedBy := decidedBy |> <| AAR_DecidedAt := col_time at_ |>) d
        else inr (0%Z, d)
    | None => inr (0%Z, d)
    end)).

(** * Control keys (controlkey.go) *)

Definition GetControlKey (kind : string) : SM (option string) :=
  r ← attempt (exec (q_one (λ d, db_control_keys d !! kind)));
  match r with
  | inr sealed => mret (Some sealed)
  | inl e => if is_not_found e then mret None else throw e
  end.
Definition PutControlKey (kind sealed : string) : SM () :=
  now;;
  exec (q_insert db_control_keys kind sealed (λ _, true) no_clash).

(** * Armed pauses (pause.go) *)

Definition Pause_Load : SM (list (ID * time)) :=
  exec (q_read (λ d, map_to_list (db_armed_pauses d))).
Definition Pause_Save (beamID : ID) (deadline : time) : SM () :=
  exec (λ d, inr (tt, d <| db_armed_pauses :=
    <[beamID := col_time deadline]> (db_armed_pauses d) |>)).
Definition Pause_Delete (beamID : ID) : SM () := exec (q_delete db_armed_pauses beamID).
End ops.
