(* ===== verification/Fixtures.v ===== *)
(** A small appliance the witnesses evaluate the model on: an environment whose
    statements never fail, one beamhall with its security context, an administrator,
    a builder and a running preview beam. *)
From S2P Require Import Prelude Domain Store.

(** No statement fails; time advances a nanosecond per step (and wraps, to stay in
    range); IDs are numbered. *)
#[export] Instance Quiet : Env := {|
  clock n := 1700000000 * 10 ^ 9 + Z.of_nat n `mod` 10 ^ 9;
  fresh_id n := "ID" +:+ pretty n;
  fault _ := None;
  constraint_text _ := "constraint failed" |}%Z.

Lemma Quiet_storable n : storable (Some (@clock Quiet n)).
Proof.
  simpl. pose proof (Z.mod_pos_bound (Z.of_nat n) (10 ^ 9)). unfold int64. lia.
Qed.

(** [Quiet] except that the statement at step [n] fails. *)
Definition FailAt (n : nat) : Env := {|
  clock := @clock Quiet;
  fresh_id := @fresh_id Quiet;
  fault k := if decide (k = n) then Some "disk I/O error" else None;
  constraint_text := @constraint_text Quiet |}.

Definition T0 : time := Some 1600000000000000000%Z.

Definition Hall1 : Beamhall :=
  MkBeamhall "H1" "sales" "Sales" "Sales" BeamhallActive "SC1"
    (MkNetworkPolicy EgressDenyAll []) (MkResourceQuota 5 2 3 0 0 0) 2 "root" T0 T0.
Definition Context1 : SecurityContext :=
  MkSecurityContext "SC1" "H1" RuntimeRunsc true ["ALL"] [] "default" "beamhall"
    true true ["/tmp"] (MkResourceLimits 100000 268435456 256) TemplateWebApp.
Definition Ada : Identity :=
  MkIdentity "ada" "sub-ada" "ada@example.com" "Ada" "https://idp" IdentityActive T0.
Definition Bob : Identity :=
  MkIdentity "bob" "sub-bob" "bob@example.com" "Bob" "https://idp" IdentityActive T0.
Definition Beam1 : Beam :=
  MkBeam "B1" "H1" "crm" "CRM" EmptyString EmptyString ModePreview StateRunning "R1" no_id no_id
    StateNone TemplateWebApp 0%Z T0 "x1.example.com" EmptyString no_id BeamActive "bob" T0 T0.
Definition Build1 : Build :=
  MkBuild "BU1" "B1" EmptyString SourceImageRef EmptyString BuildSucceeded "registry/crm"
    "sha256:1" EmptyString EmptyString no_id "bob" T0 None.
Definition Release1 : Release :=
  MkRelease "R1" "B1" "BU1" 1 ChannelPreview {["pull_ref" := "sha256:1"]} [] Context1
    "RT1" (MkWorkloadHandle "docker" "c1") ReleaseActive T0 T0.
Definition Route1 : Route :=
  MkRoute "RT1" "B1" "R1" RoutePreview "x1.example.com" EmptyString "10.0.0.2:8080"
    EmptyString RouteActive T0 None.

Definition DB1 : DB :=
  empty_DB
    <| db_beamhalls := {["H1" := Hall1]} |>
    <| db_security_contexts := {["SC1" := Context1]} |>
    <| db_identities := {["ada" := Ada; "bob" := Bob]} |>
    <| db_memberships := {["M1" := MkMembership "M1" "ada" "H1" RoleBeamhallAdmin "root" T0;
                           "M2" := MkMembership "M2" "bob" "H1" RoleBuilder "root" T0]} |>
    <| db_beams := {["B1" := Beam1]} |>
    <| db_builds := {["BU1" := Build1]} |>
    <| db_releases := {["R1" := Release1]} |>
    <| db_routes := {["RT1" := Route1]} |>.
Definition Store1 : Store := MkStore 0 DB1.
