(* ===== verification/StoreInv.v ===== *)
(** What the store guarantees whatever fails: the primary keys and unique indexes of
    the schema hold in every reachable database, quota gates are exact, a
    transaction that fails leaves no trace. *)
From S2P Require Import Prelude Domain Store StoreOps Fixtures.

(** * Table constraints *)

Section table_ok.
Context {A : Type} (key : A → ID) (clash : A → A → Prop).

(** Rows stand under their primary key, and no two of them collide in the unique
    index [clash]. *)
Record table_ok (t : gmap ID A) : Prop := MkTableOk {
  table_keyed : ∀ id x, t !! id = Some x → key x = id;
  table_unique : ∀ i j x y, t !! i = Some x → t !! j = Some y → clash x y → i = j }.

Lemma table_ok_empty : table_ok ∅.
Proof. split; [intros id x|intros i j x y]; by rewrite lookup_empty. Qed.

Lemma table_ok_subseteq t t' : t' ⊆ t → table_ok t → table_ok t'.
Proof.
  intros Hsub [Hk Hu]. split; [intros id x Hx|intros i j x y Hx Hy].
  - apply Hk. by eapply lookup_weaken.
  - eapply Hu; by eapply lookup_weaken.
Qed.

Lemma table_ok_put t id x :
  key x = id →
  (∀ j y, t !! j = Some y → j ≠ id → clash x y ∨ clash y x → False) →
  table_ok t → table_ok (<[id := x]> t).
Proof.
  intros Hkey Hfree [Hk Hu]. split.
  - intros i y. rewrite lookup_insert_Some. intros [[<- <-]|[? ?]]; [done|by apply Hk].
  - intros i j y z. rewrite !lookup_insert_Some.
    intros [[<- <-]|[Hi Hy]] [[<- <-]|[Hj Hz]] Hc; [done| | |by eapply Hu].
    + exfalso. eapply (Hfree j z); eauto.
    + exfalso. eapply (Hfree i y); eauto.
Qed.

(** A row replaced by one that collides with no more than it did. *)
Lemma table_ok_update t id x y :
  t !! id = Some x → key y = key x →
  (∀ z, clash y z → clash x z) → (∀ z, clash z y → clash z x) →
  table_ok t → table_ok (<[id := y]> t).
Proof.
  intros Hx Hkey H1 H2 Hok. apply table_ok_put; [|intros j z Hz Hne [Hc|Hc]|done].
  - rewrite Hkey. by eapply table_keyed.
  - apply Hne. symmetry. eapply table_unique; [done|exact Hx|exact Hz|auto].
  - apply Hne. eapply table_unique; [done|exact Hz|exact Hx|auto].
Qed.
End table_ok.

Definition no_index {A} (x y : A) : Prop := False.

Record db_ok (d : DB) : Prop := MkDBOk {
  ok_identities : table_ok Identity_ID (λ x y,
    Identity_IdPIssuer x = Identity_IdPIssuer y
    ∧ Identity_ExternalSubject x = Identity_ExternalSubject y) (db_identities d);
  ok_memberships : table_ok Membership_ID (λ x y,
    Membership_IdentityID x = Membership_IdentityID y
    ∧ Membership_BeamhallID x = Membership_BeamhallID y) (db_memberships d);
  ok_beamhalls : table_ok Beamhall_ID (λ x y, Beamhall_Slug x = Beamhall_Slug y)
    (db_beamhalls d);
  ok_security_contexts : table_ok SC_ID (λ x y, SC_BeamhallID x = SC_BeamhallID y)
    (db_security_contexts d);
  ok_beams : table_ok Beam_ID (λ x y, Beam_Status x = BeamActive ∧ Beam_Status y = BeamActive
    ∧ Beam_BeamhallID x = Beam_BeamhallID y ∧ Beam_Slug x = Beam_Slug y) (db_beams d);
  ok_builds : table_ok Build_ID no_index (db_builds d);
  ok_releases : table_ok Rel_ID (λ x y, Rel_BeamID x = Rel_BeamID y
    ∧ Rel_Version x = Rel_Version y) (db_releases d);
  ok_routes : table_ok Route_ID (λ x y, Route_Status x = RouteActive
    ∧ Route_Status y = RouteActive ∧ Route_Hostname x = Route_Hostname y) (db_routes d);
  ok_resources : table_ok Res_ID no_index (db_resources d);
  ok_secrets : table_ok Secret_ID (λ x y, Secret_BeamhallID x = Secret_BeamhallID y
    ∧ Secret_BeamID x = Secret_BeamID y ∧ Secret_Key x = Secret_Key y
    ∧ Secret_Channel x = Secret_Channel y) (db_secrets d);
  ok_promotions : table_ok PR_ID (λ x y, PR_BeamID x = PR_BeamID y
    ∧ PR_Status x = PromotionPending ∧ PR_Status y = PromotionPending) (db_promotions d);
  ok_audiences : table_ok BA_BeamID no_index (db_audiences d);
  ok_admin_actions : table_ok AAR_ID no_index (db_admin_actions d) }.

Lemma db_ok_empty : db_ok empty_DB.
Proof. split; apply table_ok_empty. Qed.

(** * Every operation that writes *)

Inductive Op :=
  | OpCreateIdentity (x : Identity)
  | OpUpdateIdentity (x : Identity)
  | OpDeleteIdentity (id : ID)
  | OpCreateMembership (x : Membership)
  | OpDeleteMembership (id : ID)
  | OpUpdateMembershipRole (identityID beamhallID : ID) (role : MembershipRole) (by_ : ID)
  | OpCreateBeamhall (x : Beamhall) (sc : SecurityContext)
  | OpUpdateBeamhall (x : Beamhall)
  | OpUpdateSecurityContext (x : SecurityContext)
  | OpCreateBeam (x : Beam)
  | OpCreateBeamWithQuota (x : Beam) (maxBeams : Z)
  | OpPromoteBeam (beamhallID beamID : ID) (limit : Z)
  | OpUpdateBeam (x : Beam)
  | OpCreateBuild (x : Build)
  | OpUpdateBuild (x : Build)
  | OpCreateRelease (x : Release)
  | OpActivateRelease (id : ID)
  | OpUpdateReleaseStatus (id : ID) (status : ReleaseStatus)
  | OpSetReleaseRoute (id routeID : ID)
  | OpSetReleaseWorkload (id : ID) (h : WorkloadHandle)
  | OpSetReleaseAgentTools (id : ID) (on : bool)
  | OpCreateRoute (x : Route)
  | OpRetireRoute (id : ID)
  | OpSwapActiveRoute (old : ID) (x : Route)
  | OpCreateResource (x : Resource)
  | OpCreateResourceWithQuota (x : Resource) (maxCount : Z)
  | OpUpdateResource (x : Resource)
  | OpDeleteResource (id : ID)
  | OpPutSecret (x : Secret)
  | OpDeleteSecret (beamhallID beamID : ID) (key : string) (ch : Channel)
  | OpPutSecretValue (ref ciphertext : string)
  | OpDeleteSecretValue (ref : string)
  | OpCreatePromotionRequest (x : PromotionRequest)
  | OpDecidePromotionRequest (id : ID) (status : PromotionStatus) (by_ : ID) (reason : string)
  | OpPutBeamPeers (x : BeamPeers)
  | OpDeleteBeamPeers (id : ID)
  | OpInsertC2CKey (id : ID) (hash : string)
  | OpDeleteC2CKey (id : ID)
  | OpPutBeamAudience (x : BeamAudience)
  | OpDeleteBeamAudience (id : ID)
  | OpCreateAdminActionRequest (x : AdminActionRequest)
  | OpDecideAdminActionRequest (id : ID) (status : AdminActionStatus) (by_ : ID)
      (reason result : string)
  | OpPutBranding (id : ID) (b : Branding)
  | OpDeleteBranding (id : ID)
  | OpPutBrandingLogo (id : ID) (l : BrandingLogo)
  | OpDeleteBrandingLogo (id : ID)
  | OpClearBrandingScope (id : ID)
  | OpPutControlKey (kind sealed : string)
  | OpSavePause (id : ID) (deadline : time)
  | OpDeletePause (id : ID).

Section run.
Context `{!Env}.

(** The operation, its result dropped. *)
Definition run_op (o : Op) : SM () :=
  match o with
  | OpCreateIdentity x => logged (CreateIdentity x)
  | OpUpdateIdentity x => logged (UpdateIdentity x)
  | OpDeleteIdentity id => logged (DeleteIdentity id)
  | OpCreateMembership x => logged (CreateMembership x)
  | OpDeleteMembership id => logged (DeleteMembership id)
  | OpUpdateMembershipRole i b r g => logged (UpdateMembershipRole i b r g)
  | OpCreateBeamhall x sc => logged (CreateBeamhall x sc)
  | OpUpdateBeamhall x => logged (UpdateBeamhall x)
  | OpUpdateSecurityContext x => logged (UpdateSecurityContext x)
  | OpCreateBeam x => logged (CreateBeam x)
  | OpCreateBeamWithQuota x m => logged (CreateBeamWithQuota x m)
  | OpPromoteBeam b i l => logged (PromoteBeam b i l)
  | OpUpdateBeam x => logged (UpdateBeam x)
  | OpCreateBuild x => logged (CreateBuild x)
  | OpUpdateBuild x => logged (UpdateBuild x)
  | OpCreateRelease x => logged (CreateRelease x)
  | OpActivateRelease id => logged (ActivateRelease id)
  | OpUpdateReleaseStatus id st => logged (UpdateReleaseStatus id st)
  | OpSetReleaseRoute id r => logged (SetReleaseRoute id r)
  | OpSetReleaseWorkload id h => logged (SetReleaseWorkload id h)
  | OpSetReleaseAgentTools id on => logged (SetReleaseAgentTools id on)
  | OpCreateRoute x => logged (CreateRoute x)
  | OpRetireRoute id => logged (RetireRoute id)
  | OpSwapActiveRoute old x => logged (SwapActiveRoute old x)
  | OpCreateResource x => logged (CreateResource x)
  | OpCreateResourceWithQuota x m => logged (CreateResourceWithQuota x m)
  | OpUpdateResource x => logged (UpdateResource x)
  | OpDeleteResource id => logged (DeleteResource id)
  | OpPutSecret x => logged (PutSecret x)
  | OpDeleteSecret h b k c => logged (DeleteSecret h b k c)
  | OpPutSecretValue r v => logged (PutSecretValue r v)
  | OpDeleteSecretValue r => logged (DeleteSecretValue r)
  | OpCreatePromotionRequest x => logged (CreatePromotionRequest x)
  | OpDecidePromotionRequest id st g r => logged (DecidePromotionRequest id st g r)
  | OpPutBeamPeers x => logged (PutBeamPeers x)
  | OpDeleteBeamPeers id => logged (DeleteBeamPeers id)
  | OpInsertC2CKey id h => logged (InsertC2CKey id h)
  | OpDeleteC2CKey id => logged (DeleteC2CKey id)
  | OpPutBeamAudience x => logged (PutBeamAudience x)
  | OpDeleteBeamAudience id => logged (DeleteBeamAudience id)
  | OpCreateAdminActionRequest x => logged (CreateAdminActionRequest x)
  | OpDecideAdminActionRequest id st g r t => logged (DecideAdminActionRequest id st g r t)
  | OpPutBranding id b => logged (PutBranding id b)
  | OpDeleteBranding id => logged (DeleteBranding id)
  | OpPutBrandingLogo id l => logged (PutBrandingLogo id l)
  | OpDeleteBrandingLogo id => logged (DeleteBrandingLogo id)
  | OpClearBrandingScope id => logged (ClearBrandingScope id)
  | OpPutControlKey k v => logged (PutControlKey k v)
  | OpSavePause id t => logged (Pause_Save id t)
  | OpDeletePause id => logged (Pause_Delete id)
  end.
Definition run_ops (ops : list Op) : SM () := for_each ops run_op.
End run.

(** * Preservation *)

#[export] Hint Unfold CreateIdentity UpdateIdentity DeleteIdentity CreateMembership
  DeleteMembership UpdateMembershipRole CreateBeamhall UpdateBeamhall
  UpdateSecurityContext fillBeam CreateBeam CreateBeamWithQuota CountBeamsByBeamhall
  CountLiveBeamsByBeamhall PromoteBeam UpdateBeam InsertBeam CreateBuild UpdateBuild
  CreateRelease ActivateRelease UpdateReleaseStatus SetReleaseRoute SetReleaseWorkload
  SetReleaseAgentTools GetRelease CreateRoute InsertRoute RetireRoute q_retire_route
  SwapActiveRoute fillResource CreateResource CreateResourceWithQuota InsertResource
  CountResourcesByType UpdateResource DeleteResource PutSecret DeleteSecret
  PutSecretValue DeleteSecretValue CreatePromotionRequest DecidePromotionRequest
  PutBeamPeers DeleteBeamPeers InsertC2CKey DeleteC2CKey Pause_Save Pause_Delete
  PutBeamAudience DeleteBeamAudience CreateAdminActionRequest
  DecideAdminActionRequest PutControlKey PutBranding DeleteBranding PutBrandingLogo
  DeleteBrandingLogo ClearBrandingScope : store_ops.

Section queries.
Context {A : Type} (table : DB → gmap ID A) `{!Setter table}.

Lemma q_insert_inv id row ok clash d a d' :
  q_insert table id row ok clash d = inr (a, d') →
  table d !! id = None ∧ ok d = true ∧ (∀ j y, table d !! j = Some y → ¬ clash y)
  ∧ d' = d <| table := <[id := row]> (table d) |>.
Proof.
  unfold q_insert. case_decide as Hc; [|done]. destruct Hc as (? & ? & Hx).
  intros [= _ <-]. rewrite exists_row_false in Hx. auto.
Qed.

Lemma q_update_inv id f d n d' :
  q_update table id f d = inr (n, d') →
  (table d !! id = None ∧ d' = d ∧ n = 0%Z)
  ∨ ∃ x, table d !! id = Some x ∧ d' = d <| table := <[id := f x]> (table d) |> ∧ n = 1%Z.
Proof. unfold q_update. destruct (table d !! id) eqn:E; intros [= <- <-]; eauto. Qed.
End queries.

(** Discharges [q_frames (keeping db_ok)] of an INSERT, an UPDATE, a DELETE, or a
    statement that cases into them. *)
Ltac keep_tables Hd := destruct Hd; split; simpl; try assumption.
Ltac insert_keeps Hq Hd :=
  let Hclash := fresh "Hclash" in
  apply q_insert_inv in Hq as (_ & _ & Hclash & ->);
  keep_tables Hd; apply table_ok_put; [done| |assumption];
  let j := fresh in let y := fresh in let Hy := fresh in let Hc := fresh in
  intros j y Hy _ Hc;
  solve [by destruct Hc
        |apply (Hclash j y Hy); apply bool_decide_pack; naive_solver].
Ltac update_keeps Hq Hd :=
  let z := fresh "z" in let Hz := fresh "Hz" in
  apply q_update_inv in Hq as [(_ & -> & _)|(z & Hz & -> & _)]; [exact Hd|];
  keep_tables Hd; eapply table_ok_update; [exact Hz|done|naive_solver..|done].
Ltac delete_keeps Hq Hd :=
  injection Hq as _ <-; keep_tables Hd;
  eapply table_ok_subseteq; [first [apply delete_subseteq|apply map_filter_subseteq]|done].
Ltac statement_keeps :=
  let d := fresh "d" in let d' := fresh "d'" in
  let Hq := fresh "Hq" in let Hd := fresh "Hd" in
  intros d ? d' Hq Hd; revert Hq;
  repeat (case_match; try (intros [= _ <-]; exact Hd)); try done; intros Hq;
  first [insert_keeps Hq Hd|update_keeps Hq Hd|delete_keeps Hq Hd
        |solve [apply q_insert_inv in Hq as (_ & _ & _ & ->); keep_tables Hd]
        |solve [injection Hq as _ <-; keep_tables Hd]
        |injection Hq as _ <-;
         lazymatch goal with
         | Hi : q_insert _ _ _ _ _ _ = inr _ |- _ =>
             apply q_insert_inv in Hi as (_ & _ & _ & ->); keep_tables Hd
         end].

Section preserve.
Context `{!Env}.

Lemma updated_beam_keeps a :
  q_frames (keeping db_ok) (λ d,
    match db_beams d !! Beam_ID a with
    | None => inr (0%Z, d)
    | Some x =>
        if exists_row (slug_clash (updated_beam a x)) (delete (Beam_ID a) (db_beams d))
        then inl Constraint
        else q_update db_beams (Beam_ID a) (updated_beam a) d
    end).
Proof.
  intros d n d' Hq Hd. destruct (db_beams d !! Beam_ID a) as [x|] eqn:Hx.
  2: { by injection Hq as _ <-. }
  destruct (exists_row _ _) eqn:He; [done|].
  rewrite exists_row_false in He.
  apply q_update_inv in Hq as [(_ & -> & _)|(z & Hz & -> & _)]; [done|].
  rewrite Hx in Hz. injection Hz as <-. keep_tables Hd. apply table_ok_put; [|intros j y Hy Hne Hc|done].
  - change (Beam_ID x = Beam_ID a). by eapply table_keyed.
  - apply (He j y); [by rewrite lookup_delete_ne|].
    apply bool_decide_pack. naive_solver.
Qed.

Lemma UpsertSecret_keeps sec : q_frames (keeping db_ok) (UpsertSecret sec).
Proof.
  intros d y d' Hq Hd. unfold UpsertSecret in Hq.
  destruct (select_one _ _) as [x|] eqn:Hx.
  - injection Hq as _ <-. apply select_one_Some in Hx as (Hp & id & Hx).
    pose proof (table_keyed _ _ _ (ok_secrets d Hd) id x Hx) as <-. keep_tables Hd.
    eapply table_ok_update; [exact Hx|done|naive_solver..|done].
  - destruct (q_insert _ _ _ _ _ _) as [|[[] d2]] eqn:E; [done|].
    injection Hq as _ <-. apply q_insert_inv in E as (_ & _ & _ & ->).
    rewrite select_one_None in Hx. keep_tables Hd.
    apply table_ok_put; [done| |done].
    intros j y' Hy _ Hc. apply (Hx j y' Hy). apply bool_decide_pack. naive_solver.
Qed.

Lemma UpsertBeamAudience_keeps ba : q_frames (keeping db_ok) (UpsertBeamAudience ba).
Proof.
  intros d y d' Hq Hd. unfold UpsertBeamAudience in Hq.
  destruct (db_audiences d !! _) as [old|] eqn:Hold.
  - injection Hq as _ <-. keep_tables Hd.
    eapply table_ok_update; [exact Hold|done|naive_solver..|done].
  - apply q_insert_inv in Hq as (_ & _ & _ & ->). keep_tables Hd.
    apply table_ok_put; [done|intros j y' _ _ [[]|[]]|done].
Qed.

Lemma run_op_keeps o : frames (db_rel (keeping db_ok)) (run_op o).
Proof.
  destruct o; simpl; autounfold with store_ops; solve_frame.
  all: first [apply updated_beam_keeps|apply UpsertSecret_keeps|apply UpsertBeamAudience_keeps
             |statement_keeps].
Qed.
End preserve.


(** * Quotas and atomicity *)

Section quotas.
Context `{!Env}.

Lemma count_le {A} (p : A → bool) (t : gmap ID A) id x :
  t !! id = None → (count p (<[id := x]> t) ≤ count p t + 1)%Z.
Proof. intros Hn. rewrite count_insert_fresh by done. case_match; lia. Qed.

Lemma count_update_le {A} (p : A → bool) (t : gmap ID A) id x y :
  t !! id = Some x → (count p (<[id := y]> t) ≤ count p t + 1)%Z.
Proof. intros Hx. rewrite (count_update id x) by done. repeat case_match; lia. Qed.
End quotas.

(** Create_beam's gate is exact: CreateBeamWithQuota inserts only below the
    quota (so never with an unset, non-positive one), the beamhall's active beams
    never exceed it afterwards, and when it returns an error no table has changed. *)
Theorem CreateBeamWithQuota_exact `{!Env} (a : Beam) (maxBeams : Z) (s : Store) :
  wp (CreateBeamWithQuota a maxBeams) (λ r s',
    match r with
    | inl _ => st_db s' = st_db s
    | inr b =>
        (count (active_in (Beam_BeamhallID a)) (db_beams (st_db s)) < maxBeams)%Z
        ∧ (count (active_in (Beam_BeamhallID a)) (db_beams (st_db s')) ≤ maxBeams)%Z
        ∧ db_beams (st_db s) !! Beam_ID b = None
        ∧ st_db s' = st_db s <| db_beams :=
            <[Beam_ID b := beam_row b]> (db_beams (st_db s)) |>
    end) s.
Proof.
  unfold CreateBeamWithQuota, fillBeam.
  do 2 apply wp_bind. apply wp_fill_id. intros i s1 E1.
  apply wp_bind, wp_fill_time. intros t s2 E2. apply wp_ret.
  apply wp_bind, wp_withTx; [congruence|]. intros s3 E3.
  apply wp_bind. unfold CountBeamsByBeamhall. apply wp_exec; [done|].
  intros n s4 [= Hn E4]. case_decide as Hq; [done|]. apply wp_exec; [done|].
  intros [] s5 Hi s6 E6. apply wp_ret. unfold InsertBeam in Hi.
  apply q_insert_inv in Hi as (Hfree & _ & _ & Hdb). simpl in *.
  rewrite E6, Hdb, <-E4, E3, E2, E1. simpl. rewrite <-E4, E3, E2, E1 in Hfree.
  rewrite E3, E2, E1 in Hn.
  pose proof (count_le (active_in (Beam_BeamhallID a)) _ _
    (beam_row (a <| Beam_ID := i |> <| Beam_CreatedAt := t |>)) Hfree) as Hle.
  repeat split; [lia| |done].
  etrans; [by apply count_le|]. simpl in *. lia.
Qed.

(** Promote's slot gate is exact: PromoteBeam flips the beam to live only while
    the beamhall has a free live slot, the beamhall's live beams never exceed the
    limit afterwards, the beam exists and only its mode and UpdatedAt change; on an
    error no table has changed. *)
Theorem PromoteBeam_exact `{!Env} (beamhallID beamID : ID) (limit : Z) (s : Store) :
  wp (PromoteBeam beamhallID beamID limit) (λ r s',
    match r with
    | inl _ => st_db s' = st_db s
    | inr _ =>
        (count (live_in beamhallID) (db_beams (st_db s)) < limit)%Z
        ∧ (count (live_in beamhallID) (db_beams (st_db s')) ≤ limit)%Z
        ∧ ∃ x at_, db_beams (st_db s) !! beamID = Some x
          ∧ st_db s' = st_db s <| db_beams :=
              <[beamID := x <| Beam_Mode := ModeLive |> <| Beam_UpdatedAt := at_ |>]>
                (db_beams (st_db s)) |>
    end) s.
Proof.
  unfold PromoteBeam. apply wp_withTx; [done|]. intros s1 E1.
  apply wp_bind. unfold CountLiveBeamsByBeamhall. apply wp_exec; [done|].
  intros n s2 [= Hn E2]. case_decide as Hq; [done|].
  apply wp_bind, wp_now. intros t s3 E3.
  apply wp_affected, wp_exec; [done|]. intros m s4 Hu.
  apply q_update_inv in Hu as [(_ & _ & ->)|(x & Hx & Hdb & ->)]; [done|].
  simpl. intros s5 E5. rewrite E3, <-E2, E1 in Hx, Hdb. rewrite E1 in Hn.
  rewrite E5, Hdb. simpl. repeat split; [lia| |eauto].
  etrans; [by eapply count_update_le|lia].
Qed.

(** The hostname of [r] is served by [r] alone, and the route [old] is retired. *)
Definition taken_over (old : ID) (r : Route) (d : DB) : Prop :=
  db_routes d !! Route_ID r = Some (route_row r)
  ∧ (∀ id x, db_routes d !! id = Some x → serves (Route_Hostname r) x → id = Route_ID r)
  ∧ (old ≠ no_id → ∃ x, db_routes d !! old = Some x ∧ Route_Status x = RouteRetired).

Lemma InsertRoute_takes_over old r d d' :
  Route_Status r = RouteActive →
  (old ≠ no_id → ∃ x, db_routes d !! old = Some x ∧ Route_Status x = RouteRetired) →
  InsertRoute r d = inr (tt, d') → taken_over old r d'.
Proof.
  intros Hactive Hold Hi. apply q_insert_inv in Hi as (Hfree & _ & Hclash & ->).
  split; [apply lookup_insert_eq|split].
  - intros id x. simpl. rewrite lookup_insert_Some. intros [[<- _]|[_ Hx]]; [done|].
    intros Hs. exfalso. apply (Hclash id x Hx).
    apply bool_decide_unpack in Hs as []. by apply bool_decide_pack.
  - intros Hne. destruct (Hold Hne) as (x & Hx & Hst). exists x. split; [|done].
    simpl. rewrite lookup_insert_ne; [done|]. intros <-. by rewrite Hx in Hfree.
Qed.

Lemma SwapActiveRoute_swaps `{!Env} (old : ID) (r : Route) (s : Store)
    (Hactive : Route_Status r = RouteActive) :
  wp (SwapActiveRoute old r) (λ res s',
    match res with
    | inl _ => st_db s' = st_db s
    | inr r' => ∃ id created, r' = r <| Route_ID := id |> <| Route_CreatedAt := created |>
                ∧ taken_over old r' (st_db s')
    end) s.
Proof.
  unfold SwapActiveRoute. apply wp_bind, wp_fill_id. intros i s1 E1.
  apply wp_bind, wp_fill_time. intros t s2 E2.
  apply wp_bind, wp_withTx; [congruence|]. intros s3 E3. apply wp_bind.
  case_decide as Hold; [apply wp_ret|apply wp_bind, wp_now; intros t' s4 E4; apply wp_affected].
  - apply wp_exec; [done|]. intros [] s5 Hi s6 E6. apply wp_ret. exists i, t. split; [done|].
    rewrite E6. by eapply InsertRoute_takes_over.
  - apply wp_exec; [done|]. intros m s5 Hu.
    apply q_update_inv in Hu as [(_ & _ & ->)|(x & Hx & Hdb & ->)]; [done|].
    simpl. apply wp_exec; [done|]. intros [] s7 Hi s6 E6. apply wp_ret. exists i, t. split; [done|].
    rewrite E6. eapply InsertRoute_takes_over; [done| |done]. intros _.
    rewrite Hdb. simpl. rewrite lookup_insert_eq. eauto.
Qed.

(** SwapActiveRoute is atomic: on success the new route is the one and only
    active route of its hostname and the old one is retired; on an error every table
    is as before, so the hostname never loses its route. *)
Theorem SwapActiveRoute_atomic `{!Env} (old : ID) (r : Route) (s : Store)
    (Hactive : Route_Status r = RouteActive) :
  wp (SwapActiveRoute old r) (λ res s',
    match res with
    | inl _ => st_db s' = st_db s
    | inr r' => Route_Hostname r' = Route_Hostname r ∧ taken_over old r' (st_db s')
    end) s.
Proof.
  eapply wp_mono; [by apply SwapActiveRoute_swaps|]. intros [e|r'] s' Hs; [done|].
  by destruct Hs as (id & created & -> & Ht).
Qed.

(** Route1 gives way to a new route of its hostname. *)
Definition Route2 : Route :=
  Route1 <| Route_ID := no_id |> <| Route_BackendAddr := "10.0.0.3:8080" |>.
Lemma SwapActiveRoute_atomic_witness :
  is_inl (fst (SwapActiveRoute "RT1" Route2 Store1)) = false
  ∧ wp (SwapActiveRoute "RT1" Route2) (λ res s',
      match res with
      | inl _ => st_db s' = st_db Store1
      | inr r' => Route_Hostname r' = Route_Hostname Route2 ∧ taken_over "RT1" r' (st_db s')
      end) Store1.
Proof.
  split; [vm_compute; reflexivity|].
  apply (SwapActiveRoute_atomic "RT1" Route2 Store1). reflexivity.
Defined.
