(* ===== verification/AuditLog.v ===== *)
(** The hash-chained audit log: internal/audit (log.go, verify.go, prune.go,
    export.go) over the audit operations of internal/store/audit.go. *)
From Stdlib Require Import NArith.
From S2P Require Import Prelude GoStrings Sha256 Domain Store.

(** * The canonical encoding and the hash (log.go) *)

(** binary.PutUvarint; [fuel] bounds the number of bytes. *)
Fixpoint uvarint_fuel (fuel : nat) (n : N) : string :=
  match fuel with
  | 0 => EmptyString
  | S fuel =>
      if decide (n < 128)%N then String (Ascii.ascii_of_N n) EmptyString
      else String (Ascii.ascii_of_N (128 + n `mod` 128)) (uvarint_fuel fuel (n / 128))
  end.
Definition uvarint (n : N) : string := uvarint_fuel (S (S (N.to_nat (N.log2 n)))) n.

(** put *)
Definition encode_field (field : string) : string :=
  uvarint (N.of_nat (String.length field)) +:+ field.
Definition encode_fields (l : list string) : string :=
  foldr (λ f acc, encode_field f +:+ acc) EmptyString l.

Definition encodingVersion : string := "beamhall-audit-v1".

Definition event_fields (ev : AuditEvent) : list string :=
  [encodingVersion; Ev_ID ev; format_int (UnixNano (Ev_At ev)); Ev_ActorID ev;
   Ev_ActorTokenJTI ev; Ev_BeamhallID ev; Ev_BeamID ev; Ev_Action ev;
   AuditDecision_string (Ev_Decision ev); Ev_Reason ev; Ev_RequestDigest ev;
   Ev_ResultStatus ev; Ev_SourceIP ev; Ev_PrevHash ev].
Definition audit_encoding (ev : AuditEvent) : string := encode_fields (event_fields ev).

Definition eventHash (ev : AuditEvent) : string := hex_encode (sha256 (audit_encoding ev)).

(** * The store's audit operations (internal/store/audit.go) *)

Definition max_seq (l : list AuditRecord) : Z :=
  foldr (λ r m, Z.max (Rec_Seq r) m) 0%Z l.
Definition q_last_audit (d : DB) : option AuditRecord := last (db_audit d).
(** ORDER BY through_seq DESC LIMIT 1 *)
Definition q_latest_checkpoint (d : DB) : option AuditCheckpoint :=
  foldl (λ acc cp,
    match acc with
    | Some best => if decide (CP_ThroughSeq cp > CP_ThroughSeq best)%Z then Some cp else acc
    | None => Some cp
    end) None (db_checkpoints d).
(** INSERT ... RETURNING seq.  An AUTOINCREMENT key is one more than the largest ever
    used (sqlite_sequence) or present. *)
Definition q_append_audit (ev : AuditEvent) : query Z := λ d,
  if existsb (λ r, bool_decide (Ev_ID (Rec_Event r) = Ev_ID ev)) (db_audit d)
  then inl Constraint
  else
    let seq := (Z.max (db_audit_seq d) (max_seq (db_audit d)) + 1)%Z in
    let ev := ev <| Ev_At := col_time (Ev_At ev) |> in
    inr (seq, d <| db_audit := db_audit d ++ [MkAuditRecord seq ev] |>
                <| db_audit_seq := seq |>).
Definition q_list_audit (p : AuditRecord → bool) (limit : nat) (d : DB) : list AuditRecord :=
  take limit (filter p (db_audit d)).
Definition after (seq : Z) (r : AuditRecord) : bool := bool_decide (seq < Rec_Seq r)%Z.

Section audit.
Context `{!Env}.

Definition fillAuditEvent (ev : AuditEvent) : SM AuditEvent :=
  id ← fill_id (Ev_ID ev);
  at_ ← fill_time (Ev_At ev);
  mret (ev <| Ev_ID := id |> <| Ev_At := at_ |>).

(** prev in AuditChainAppend: the head's hash, the last prune's anchor on an empty
    table, EmptyString at genesis. *)
Definition prev_hash : SM string :=
  row ← exec (q_read q_last_audit);
  match row with
  | Some row => mret (Ev_Hash (Rec_Event row))
  | None =>
      cp ← exec (q_read q_latest_checkpoint);
      match cp with
      | Some cp => mret (CP_AnchorHash cp)
      | None => mret EmptyString
      end
  end.

Definition AuditChainAppend (ev : AuditEvent) (seal : string → AuditEvent → AuditEvent)
    : SM (AuditEvent * Z) :=
  ev ← fillAuditEvent ev;
  withTx (
    prev ← prev_hash;
    let ev := seal prev ev in
    seq ← exec (q_append_audit ev);
    mret (ev, seq)).

Definition LastAuditEvent : SM (option AuditRecord) := exec (q_read q_last_audit).
Definition ListAuditEvents (afterSeq : Z) (limit : nat) : SM (list AuditRecord) :=
  exec (q_read (q_list_audit (after afterSeq) limit)).
Definition ListAuditEventsByBeamhall (beamhallID : ID) (afterSeq : Z) (limit : nat)
    : SM (list AuditRecord) :=
  exec (q_read (q_list_audit (λ r, after afterSeq r
    && bool_decide (Ev_BeamhallID (Rec_Event r) = beamhallID)) limit)).
Definition LatestAuditCheckpoint : SM (option AuditCheckpoint) :=
  exec (q_read q_latest_checkpoint).
Definition MaxAuditSeq : SM Z := exec (q_read (λ d, max_seq (db_audit d))).
(** COALESCE(MAX(seq), 0) over at < ns(cutoff) *)
Definition AuditCutSeqByAge (cutoff : time) : SM Z :=
  exec (q_read (λ d,
    max_seq (filter (λ r, (ns (Ev_At (Rec_Event r)) < ns cutoff)%Z) (db_audit d)))).

Definition PruneAuditThrough (throughSeq : Z) (by_ : ID) : SM Z :=
  withTx (
    anchor ← exec (q_one (λ d, Ev_Hash ∘ Rec_Event
      <$> head (filter (λ r, Rec_Seq r = throughSeq) (db_audit d))));
    n ← exec (λ d,
      inr (Z.of_nat (length (filter (λ r, (Rec_Seq r ≤ throughSeq)%Z) (db_audit d))),
           d <| db_audit := filter (λ r, ¬ (Rec_Seq r ≤ throughSeq)%Z) (db_audit d) |>));
    at_ ← now;
    exec (λ d, inr (tt, d <| db_checkpoints := db_checkpoints d
      ++ [MkAuditCheckpoint throughSeq anchor n (col_time at_) by_] |>));;
    mret n).

(** * The log (log.go) *)

Definition seal_event (prevHash : string) (ev : AuditEvent) : AuditEvent :=
  let ev := ev <| Ev_PrevHash := prevHash |> in
  ev <| Ev_Hash := eventHash ev |>.

Definition Append (ev : AuditEvent) : SM Z :=
  r ← AuditChainAppend ev seal_event; mret r.2.

(** * Verification (verify.go) *)

Definition verifyBatch : nat := 512.

Record Issue := MkIssue {
  Issue_Seq : Z;
  Issue_Reason : string }.

(** %.12q: the first twelve characters, quoted. *)
Definition quoted12 (s : string) : string := quoted (String.substring 0 12 s).

(** The body of the loop over one record. *)
Definition verify_record (prevSeq : Z) (prevHash : string) (r : AuditRecord) : list Issue :=
  let ev := Rec_Event r in
  (if decide (Rec_Seq r ≠ prevSeq + 1)%Z then
     [MkIssue (Rec_Seq r) ("seq gap: expected " +:+ format_int (prevSeq + 1)
                           +:+ " (rows deleted?)")]
   else []) ++
  (if decide (Ev_PrevHash ev ≠ prevHash) then
     [MkIssue (Rec_Seq r) ("chain break: prev_hash " +:+ quoted12 (Ev_PrevHash ev)
        +:+ " does not match previous hash " +:+ quoted12 prevHash)]
   else []) ++
  (if decide (eventHash ev ≠ Ev_Hash ev) then
     [MkIssue (Rec_Seq r) "hash mismatch: event content was altered"]
   else []).

(** One batch: the issues, and prevSeq and prevHash after it. *)
Fixpoint verify_batch (recs : list AuditRecord) (prevSeq : Z) (prevHash : string)
    : list Issue * Z * string :=
  match recs with
  | [] => ([], prevSeq, prevHash)
  | r :: recs =>
      let '(rest, s, h) := verify_batch recs (Rec_Seq r) (Ev_Hash (Rec_Event r)) in
      (verify_record prevSeq prevHash r ++ rest, s, h)
  end.

(** The outer loop; [None] only when [fuel] batches were not enough. *)
Fixpoint verify_loop (fuel : nat) (issues : list Issue) (prevSeq : Z) (prevHash : string)
    : SM (option (list Issue)) :=
  match fuel with
  | 0 => mret None
  | S fuel =>
      recs ← ListAuditEvents prevSeq verifyBatch;
      match recs with
      | [] => mret (Some issues)
      | _ =>
          let '(more, prevSeq, prevHash) := verify_batch recs prevSeq prevHash in
          verify_loop fuel (issues ++ more) prevSeq prevHash
      end
  end.

Definition Verify (fuel : nat) : SM (option (list Issue)) :=
  cp ← LatestAuditCheckpoint;
  let '(prevSeq, prevHash) :=
    match cp with
    | Some cp => (CP_ThroughSeq cp, CP_AnchorHash cp)
    | None => (0%Z, EmptyString)
    end in
  verify_loop fuel [] prevSeq prevHash.

(** * Retention (prune.go) *)

Record RetentionPolicy := MkRetentionPolicy {
  MaxAge : duration;
  KeepLast : Z }.

Definition resolveCut (policy : RetentionPolicy) (now : time) : SM (Z * Z) :=
  if decide (MaxAge policy ≤ 0 ∧ KeepLast policy ≤ 0)%Z then mret (0, 0)%Z
  else
    maxSeq ← MaxAuditSeq;
    cp ← LatestAuditCheckpoint;
    let floor := match cp with Some cp => CP_ThroughSeq cp | None => 0%Z end in
    let cut := maxSeq in
    let cut := if decide (0 < KeepLast policy ∧ maxSeq - KeepLast policy < cut)%Z
               then (maxSeq - KeepLast policy)%Z else cut in
    cut ← (if decide (0 < MaxAge policy)%Z then
             byAge ← AuditCutSeqByAge (time_add now (- MaxAge policy)%Z);
             mret (if decide (byAge < cut)%Z then byAge else cut)
           else mret cut);
    mret (cut, floor).

Definition Prune (policy : RetentionPolicy) (by_ : ID) (now : time) : SM Z :=
  '(cut, floor) ← resolveCut policy now;
  if decide (cut ≤ floor)%Z then mret 0%Z else PruneAuditThrough cut by_.

Definition WouldPrune (policy : RetentionPolicy) (now : time) : SM Z :=
  '(cut, floor) ← resolveCut policy now;
  if decide (cut ≤ floor)%Z then mret 0%Z else mret (cut - floor)%Z.

(** * Export (export.go) *)

Record ExportRecord := MkExportRecord {
  Exp_Seq : Z;
  Exp_ID : string;
  Exp_At : Z;
  Exp_ActorID : string;
  Exp_ActorTokenJTI : string;
  Exp_BeamhallID : string;
  Exp_BeamID : string;
  Exp_Action : string;
  Exp_Decision : string;
  Exp_Reason : string;
  Exp_RequestDigest : string;
  Exp_ResultStatus : string;
  Exp_SourceIP : string;
  Exp_PrevHash : string;
  Exp_Hash : string }.

Definition export_record (r : AuditRecord) : ExportRecord :=
  let ev := Rec_Event r in
  MkExportRecord (Rec_Seq r) (Ev_ID ev) (UnixNano (Ev_At ev)) (Ev_ActorID ev)
    (Ev_ActorTokenJTI ev) (Ev_BeamhallID ev) (Ev_BeamID ev) (Ev_Action ev)
    (AuditDecision_string (Ev_Decision ev)) (Ev_Reason ev) (Ev_RequestDigest ev)
    (Ev_ResultStatus ev) (Ev_SourceIP ev) (Ev_PrevHash ev) (Ev_Hash ev).

(** The writer: which record it fails on.  A call of Export ends with the lines it
    wrote, the cursor it returns, and its error if any. *)
Record Exported := MkExported {
  Ex_Lines : list ExportRecord;
  Ex_Cursor : Z;
  Ex_Err : option error }.

Fixpoint export_batch (w : ExportRecord → option error) (recs : list AuditRecord)
    (x : Exported) : Exported :=
  match recs with
  | [] => x
  | r :: recs =>
      let out := export_record r in
      match w out with
      | Some err => MkExported (Ex_Lines x) (Ex_Cursor x) (Some err)
      | None =>
          export_batch w recs
            (MkExported (Ex_Lines x ++ [out]) (Rec_Seq r) None)
      end
  end.

Fixpoint export_loop (fuel : nat) (w : ExportRecord → option error) (x : Exported)
    : SM (option Exported) :=
  match fuel with
  | 0 => mret None
  | S fuel =>
      recs ← attempt (ListAuditEvents (Ex_Cursor x) verifyBatch);
      match recs with
      | inl err => mret (Some (MkExported (Ex_Lines x) (Ex_Cursor x) (Some err)))
      | inr [] => mret (Some x)
      | inr recs =>
          let x := export_batch w recs x in
          match Ex_Err x with
          | Some _ => mret (Some x)
          | None => export_loop fuel w x
          end
      end
  end.

Definition Export (fuel : nat) (w : ExportRecord → option error) (afterSeq : Z)
    : SM (option Exported) :=
  export_loop fuel w (MkExported [] afterSeq None).
End audit.

(** * The canonical encoding of an audit event determines the event: lengths are
    self-delimiting, so no choice of field contents moves a field boundary. *)

Lemma ascii_of_N_inj n m : (n < 256)%N → (m < 256)%N →
  Ascii.ascii_of_N n = Ascii.ascii_of_N m → n = m.
Proof.
  intros Hn Hm H. rewrite <-(Ascii.N_ascii_embedding n), <-(Ascii.N_ascii_embedding m) by done.
  by rewrite H.
Qed.

Lemma div_128_lt f n : (n < 2 ^ N.of_nat (S f))%N → (n / 128 < 2 ^ N.of_nat f)%N.
Proof.
  rewrite Nat2N.inj_succ, N.pow_succ_r'. intros H. apply N.Div0.div_lt_upper_bound. lia.
Qed.

Lemma uvarint_fuel_S fuel n :
  uvarint_fuel (S fuel) n =
    if decide (n < 128)%N then String (Ascii.ascii_of_N n) EmptyString
    else String (Ascii.ascii_of_N (128 + n `mod` 128)) (uvarint_fuel fuel (n / 128)).
Proof. done. Qed.

Lemma uvarint_fuel_inj f1 : ∀ f2 n1 n2 s1 s2,
  (n1 < 2 ^ N.of_nat f1)%N → (n2 < 2 ^ N.of_nat f2)%N →
  uvarint_fuel (S f1) n1 +:+ s1 = uvarint_fuel (S f2) n2 +:+ s2 → n1 = n2 ∧ s1 = s2.
Proof.
  induction f1 as [|f1 IH]; intros f2 n1 n2 s1 s2 H1 H2.
  all: pose proof (N.mod_lt n1 128 ltac:(done)); pose proof (N.mod_lt n2 128 ltac:(done)).
  all: pose proof (N.le_0_l (n1 mod 128)); pose proof (N.le_0_l (n2 mod 128)).
  all: rewrite (uvarint_fuel_S _ n1), (uvarint_fuel_S _ n2); repeat case_decide; rewrite ?string_app_cons, ?string_app_nil.
  all: intros [= Hc Hs]; apply ascii_of_N_inj in Hc; [|lia..].
  all: try (exfalso; lia).
  all: try (split; [lia|exact Hs]).
  all: try (change (2 ^ N.of_nat 0)%N with 1%N in H1; exfalso; lia).
  destruct f2 as [|f2]; [change (2 ^ N.of_nat 0)%N with 1%N in H2; exfalso; lia|].
  destruct (IH f2 (n1 / 128) (n2 / 128) s1 s2)%N as [Hd ->]; [by apply div_128_lt..|done|].
  split; [|done]. rewrite (N.div_mod n1 128), (N.div_mod n2 128), Hd by done. lia.
Qed.

Lemma uvarint_bound n : (n < 2 ^ N.of_nat (S (N.to_nat (N.log2 n))))%N.
Proof.
  rewrite Nat2N.inj_succ, N2Nat.id. destruct (decide (n = 0)%N) as [->|Hn]; [done|].
  apply N.log2_spec. lia.
Qed.

Lemma encode_field_inj f1 f2 r1 r2 :
  encode_field f1 +:+ r1 = encode_field f2 +:+ r2 → f1 = f2 ∧ r1 = r2.
Proof.
  unfold encode_field, uvarint. rewrite !string_app_assoc. intros H.
  apply uvarint_fuel_inj in H as [Hl H]; [|apply uvarint_bound..].
  apply string_app_inj in H; [done|lia].
Qed.

Lemma encode_fields_inj l1 : ∀ l2, length l1 = length l2 →
  encode_fields l1 = encode_fields l2 → l1 = l2.
Proof.
  induction l1 as [|f1 l1 IH]; intros [|f2 l2] Hl H; [done..|].
  apply encode_field_inj in H as [-> H]. f_equal. apply IH; [|done]. simpl in Hl. lia.
Qed.

(** What the hash covers: everything but Hash, the time as UnixNano. *)
Definition content (ev : AuditEvent) : AuditEvent :=
  ev <| Ev_Hash := EmptyString |> <| Ev_At := Some (UnixNano (Ev_At ev)) |>.

Lemma decision_string_inj d1 d2 : AuditDecision_string d1 = AuditDecision_string d2 → d1 = d2.
Proof. by destruct d1, d2. Qed.

(** The canonical encoding is injective: two events have the same encoding
    exactly when they agree on every field the hash covers, whatever bytes the fields
    hold. *)
Theorem audit_encoding_injective (e1 e2 : AuditEvent) :
  audit_encoding e1 = audit_encoding e2 ↔ content e1 = content e2.
Proof.
  split.
  - intros H%encode_fields_inj; [|done]. unfold event_fields in H.
    injection H as H1 Ht H2 H3 H4 H5 H6 Hd%decision_string_inj H7 H8 H9 H10 H11.
    unfold format_int in Ht. apply (inj pretty) in Ht.
    unfold content. destruct e1, e2. simpl in *. congruence.
  - intros H. unfold audit_encoding. f_equal. unfold content in H.
    destruct e1, e2. simpl in *. unfold event_fields. simpl. congruence.
Qed.

(** * Hexadecimal *)


(** Equal hashes mean equal contents, or a collision is at hand. *)
Lemma eventHash_binds e1 e2 :
  eventHash e1 = eventHash e2 → content e1 = content e2 ∨ sha256_collision.
Proof.
  intros H%hex_encode_inj.
  destruct (decide (audit_encoding e1 = audit_encoding e2)) as [He|He].
  - left. by apply audit_encoding_injective.
  - right. by exists (audit_encoding e1), (audit_encoding e2).
Qed.
