(* ===== verification/AuditProofs.v ===== *)
(** The audit log keeps its promises: verification reads every record and
    terminates, an honest log never raises an alarm, a log with the same head is the
    same log, and a truncated tail shows at the next append. *)
From S2P Require Import Prelude Sha256 Domain Store Fixtures StoreInv AuditLog.

(** * Verification against its specification *)

(** What Verify should say of the records after (s, h), in one pass. *)
Definition issues_of (s : Z) (h : string) (l : list AuditRecord) : list Issue :=
  (verify_batch l s h).1.1.
Definition end_of (s : Z) (h : string) (l : list AuditRecord) : Z * string :=
  ((verify_batch l s h).1.2, (verify_batch l s h).2).

Arguments issues_of : simpl never.
Arguments end_of : simpl never.

Definition ascending (l : list AuditRecord) : Prop :=
  StronglySorted (λ a b, (Rec_Seq a < Rec_Seq b)%Z) l.

(** Where verification starts: the latest checkpoint or genesis. *)
Definition start_of (d : DB) : Z * string :=
  match q_latest_checkpoint d with
  | Some cp => (CP_ThroughSeq cp, CP_AnchorHash cp)
  | None => (0%Z, EmptyString)
  end.

Lemma issues_of_cons s h r l :
  issues_of s h (r :: l) =
    verify_record s h r ++ issues_of (Rec_Seq r) (Ev_Hash (Rec_Event r)) l.
Proof. unfold issues_of. simpl. by destruct (verify_batch l _ _) as [[]]. Qed.

Lemma end_of_cons s h r l :
  end_of s h (r :: l) = end_of (Rec_Seq r) (Ev_Hash (Rec_Event r)) l.
Proof. unfold end_of. simpl. by destruct (verify_batch l _ _) as [[]]. Qed.

Lemma issues_of_app l1 l2 : ∀ s h,
  issues_of s h (l1 ++ l2) =
    issues_of s h l1 ++ issues_of (end_of s h l1).1 (end_of s h l1).2 l2.
Proof.
  induction l1 as [|r l1 IH]; intros s h; [done|].
  rewrite <-app_comm_cons, !issues_of_cons, end_of_cons, IH. by rewrite app_assoc.
Qed.

Lemma end_of_app l1 l2 : ∀ s h,
  end_of s h (l1 ++ l2) = end_of (end_of s h l1).1 (end_of s h l1).2 l2.
Proof.
  induction l1 as [|r l1 IH]; intros s h; [done|].
  rewrite <-app_comm_cons, !end_of_cons, IH. done.
Qed.

Lemma end_of_last s h l r : (end_of s h (l ++ [r])) = (Rec_Seq r, Ev_Hash (Rec_Event r)).
Proof. by rewrite end_of_app, end_of_cons. Qed.

(** A record without issues. *)
Lemma verify_record_nil s h r :
  verify_record s h r = [] ↔
    Rec_Seq r = (s + 1)%Z ∧ Ev_PrevHash (Rec_Event r) = h
    ∧ eventHash (Rec_Event r) = Ev_Hash (Rec_Event r).
Proof.
  unfold verify_record. repeat case_decide; simpl; split; try done; try (intros (? & ? & ?); done).
Qed.

Lemma after_suffix l s :
  ascending l →
  ∃ pre, l = pre ++ filter (after s) l ∧ Forall (λ r, ¬ after s r) pre.
Proof.
  intros Hl. apply (filter_suffix _ _ _ Hl). intros x y Hxy.
  unfold after. rewrite !bool_decide_spec. lia.
Qed.

Lemma filter_after_app l1 r l2 :
  ascending (l1 ++ r :: l2) → filter (after (Rec_Seq r)) (l1 ++ r :: l2) = l2.
Proof.
  intros H. rewrite cons_middle, app_assoc in H |- *. rewrite filter_app.
  rewrite filter_none, filter_all; [done| |].
  - apply Forall_forall. intros x Hx. apply bool_decide_pack.
    eapply (StronglySorted_app_1_elem_of _ _ _ r x H); set_solver.
  - apply StronglySorted_app_1_l in H.
    rewrite StronglySorted_app in H. destruct H as (H & _ & _).
    apply Forall_forall. intros x. unfold after. rewrite bool_decide_spec.
    rewrite elem_of_app, list_elem_of_singleton. intros [Hx| ->]; [|lia].
    specialize (H x r Hx ltac:(set_solver)). simpl in H. lia.
Qed.

(** After a batch, what is left is the rest. *)
Lemma filter_after_step l s n h :
  ascending l → take n (filter (after s) l) ≠ [] →
  filter (after (end_of s h (take n (filter (after s) l))).1) l
    = drop n (filter (after s) l).
Proof.
  intros Hl Hne. destruct (exists_last Hne) as (l1 & r & E). rewrite E, end_of_last. simpl.
  destruct (after_suffix l s Hl) as (pre & El & _).
  rewrite <-(take_drop n (filter (after s) l)) in El. rewrite E, <-app_assoc in El. simpl in El.
  rewrite app_assoc in El. rewrite El in Hl. apply filter_after_app in Hl.
  by rewrite <-El in Hl.
Qed.

Section verify.
Context `{!Env}.

Lemma verify_loop_spec fuel : ∀ acc s h st,
  ascending (db_audit (st_db st)) →
  length (filter (after s) (db_audit (st_db st))) < fuel →
  wp (verify_loop fuel acc s h) (λ r st',
    st_db st' = st_db st
    ∧ match r with
      | inl _ => True
      | inr o => o = Some (acc ++ issues_of s h (filter (after s) (db_audit (st_db st))))
      end) st.
Proof.
  induction fuel as [|fuel IH]; intros acc s h st Hasc Hfuel; [lia|].
  cbn [verify_loop]. apply wp_bind. unfold ListAuditEvents. apply wp_exec; [done|].
  intros recs st' [= <- E]. unfold q_list_audit.
  set (rest := filter (after s) (db_audit (st_db st))) in *.
  destruct (take verifyBatch rest) as [|r recs] eqn:Et.
  - apply wp_ret. split; [done|].
    assert (rest = []) as ->; [|by rewrite app_nil_r].
    destruct rest; [done|]. by unfold verifyBatch in Et.
  - rewrite <-Et. pose proof (filter_after_step (db_audit (st_db st)) s verifyBatch h Hasc) as Hs.
    fold rest in Hs. rewrite Et in Hs. specialize (Hs ltac:(done)). rewrite <-Et in Hs.
    destruct (verify_batch (take verifyBatch rest) s h) as [[more s'] h'] eqn:Eb.
    unfold end_of in Hs. rewrite Eb in Hs. simpl in Hs.
    eapply wp_mono; [apply IH|].
    + by rewrite <-E.
    + rewrite <-E, Hs, length_drop.
      assert (0 < length rest) by (destruct rest; [done|simpl; lia]).
      unfold verifyBatch. lia.
    + intros [e|o] st2 [Hst Ho]; (split; [congruence|]); [done|].
      rewrite Ho, <-E, Hs. f_equal. rewrite <-app_assoc. f_equal.
      rewrite <-(take_drop verifyBatch rest) at 2. rewrite issues_of_app.
      unfold issues_of, end_of. rewrite Eb. done.
Qed.
End verify.

(** The outcome of Verify on [st]. *)
Definition verified (st : Store) (r : error + option (list Issue)) (st' : Store) : Prop :=
  st_db st' = st_db st
  ∧ match r with
    | inl _ => True
    | inr o => o = Some (issues_of (start_of (st_db st)).1 (start_of (st_db st)).2
                 (filter (after (start_of (st_db st)).1) (db_audit (st_db st))))
    end.

Lemma Verify_spec `{!Env} st fuel :
  ascending (db_audit (st_db st)) → length (db_audit (st_db st)) < fuel →
  wp (Verify fuel) (verified st) st.
Proof.
  intros Hasc Hfuel. apply wp_bind. unfold LatestAuditCheckpoint, verified.
  apply wp_exec; [done|]. intros cp st' [= <- E]. unfold start_of.
  pose proof (length_filter (after (start_of (st_db st)).1) (db_audit (st_db st))) as Hl.
  unfold start_of in Hl.
  destruct (q_latest_checkpoint (st_db st)) as [cp|]; simpl in *.
  all: eapply wp_mono; [apply verify_loop_spec; rewrite <-E; [done|lia]|].
  all: intros [e|o] st2 [Hst Ho]; (split; [congruence|]); [done|by rewrite Ho, <-E].
Qed.

(** C37: Verify terminates and reports exactly the violations of the whole log: on any
    log in ascending order, with more fuel than records, it fails only when a
    statement does, changes nothing, and otherwise returns what one pass over every
    record after the checkpoint finds, whatever the batching. *)
Theorem Verify_complete `{!Env} (st : Store) (fuel : nat)
    (Hasc : ascending (db_audit (st_db st))) (Hfuel : length (db_audit (st_db st)) < fuel) :
  wp (Verify fuel) (verified st) st.
Proof. by apply Verify_spec. Qed.

(** * The honest log *)

(** The chain is intact and the high-water mark is its last seq. *)
Record log_ok (d : DB) : Prop := MkLogOk {
  log_clean : issues_of (start_of d).1 (start_of d).2 (db_audit d) = [];
  log_seq : db_audit_seq d = (end_of (start_of d).1 (start_of d).2 (db_audit d)).1;
  log_start : (0 ≤ (start_of d).1)%Z }.

Lemma end_of_spec s h l :
  end_of s h l = match last l with
                 | Some r => (Rec_Seq r, Ev_Hash (Rec_Event r))
                 | None => (s, h)
                 end.
Proof.
  destruct l as [|r l _] using rev_ind; [done|]. by rewrite end_of_last, last_snoc.
Qed.

(** An intact chain is numbered without gaps. *)
Lemma clean_seqs l : ∀ s h, issues_of s h l = [] →
  ascending l ∧ (end_of s h l).1 = (s + Z.of_nat (length l))%Z
  ∧ Forall (λ r, (s < Rec_Seq r ≤ (end_of s h l).1)%Z) l.
Proof.
  induction l as [|r l IH]; intros s h H.
  { split_and!; [constructor|simpl; lia|done]. }
  rewrite issues_of_cons in H. apply app_eq_nil in H as [Hr H].
  apply verify_record_nil in Hr as (Hseq & _ & _).
  destruct (IH _ _ H) as (Hasc & Hend & Hall). rewrite end_of_cons.
  rewrite Forall_forall in Hall. split_and!; [|rewrite Hend, Hseq; simpl length; lia|].
  - constructor; [done|]. apply Forall_forall. intros x Hx. apply Hall in Hx. lia.
  - constructor; [lia|]. apply Forall_forall. intros x Hx. apply Hall in Hx. lia.
Qed.

Lemma max_seq_le l m : (0 ≤ m)%Z → Forall (λ r, (Rec_Seq r ≤ m)%Z) l → (max_seq l ≤ m)%Z.
Proof. intros Hm. induction 1; simpl; lia. Qed.

Lemma log_next_seq d : log_ok d →
  (Z.max (db_audit_seq d) (max_seq (db_audit d)) = (end_of (start_of d).1 (start_of d).2 (db_audit d)).1)%Z.
Proof.
  intros [Hc Hs H0]. destruct (clean_seqs _ _ _ Hc) as (_ & Hend & Hall).
  rewrite Hs. apply Z.max_l, max_seq_le; [lia|].
  eapply Forall_impl; [done|]. simpl. lia.
Qed.

(** The state after a sealed event is stored. *)
Lemma log_ok_append d d' ev :
  log_ok d →
  let end_ := end_of (start_of d).1 (start_of d).2 (db_audit d) in
  start_of d' = start_of d → db_audit_seq d' = (end_.1 + 1)%Z →
  db_audit d' = db_audit d ++ [MkAuditRecord (end_.1 + 1) (seal_event end_.2 ev)] →
  log_ok d'.
Proof.
  intros [Hc Hs H0] end_ Hst Hseq Hd. unfold end_ in *.
  split; rewrite Hst; [|by rewrite Hseq, Hd, end_of_last|done].
  rewrite Hd, issues_of_app, Hc, issues_of_cons, app_nil_l.
  match goal with |- ?l ++ issues_of _ _ [] = [] => enough (l = []) as -> by done end.
  by apply verify_record_nil.
Qed.

(** The state after a prune through the record [r]. *)
Lemma log_ok_prune d d' l1 r l2 n at_ by_ :
  log_ok d → db_audit d = l1 ++ r :: l2 → ((start_of d).1 < Rec_Seq r)%Z →
  db_audit d' = l2 → db_audit_seq d' = db_audit_seq d →
  db_checkpoints d' = db_checkpoints d
    ++ [MkAuditCheckpoint (Rec_Seq r) (Ev_Hash (Rec_Event r)) n at_ by_] →
  log_ok d'.
Proof.
  intros [Hc Hs H0] E Hcut Hd Hseq Hcp.
  assert (start_of d' = (Rec_Seq r, Ev_Hash (Rec_Event r))) as Hst.
  { unfold start_of, q_latest_checkpoint in *. rewrite Hcp, foldl_app. simpl.
    destruct (foldl _ None (db_checkpoints d)); [|done].
    rewrite decide_True; [done|simpl in *; lia]. }
  rewrite E, issues_of_app, issues_of_cons in Hc.
  rewrite E, end_of_app, end_of_cons in Hs.
  apply app_eq_nil in Hc as [_ Hc]. apply app_eq_nil in Hc as [_ Hc].
  assert ((0 ≤ Rec_Seq r)%Z) by lia.
  split; rewrite Hst; cbn [fst snd]; [by rewrite Hd|by rewrite Hd, Hseq|done].
Qed.

Inductive LogOp :=
  | LogAppend (ev : AuditEvent)
  | LogPrune (policy : RetentionPolicy) (by_ : ID) (now : time).

Section honest.
Context `{!Env}.

Definition run_log_op (o : LogOp) : SM () :=
  match o with
  | LogAppend ev => logged (Append ev)
  | LogPrune policy by_ now => logged (Prune policy by_ now)
  end.
Definition log_op_storable (o : LogOp) : Prop :=
  match o with LogAppend ev => storable (Ev_At ev) | LogPrune _ _ _ => True end.

Lemma wp_fill_storable t (Q : error + time → Store → Prop) s :
  (∀ n, storable (Some (clock n))) → storable t →
  (∀ t' s', storable t' → st_db s' = st_db s → Q (inr t') s') → wp (fill_time t) Q s.
Proof. intros Hclock Ht HQ. destruct t; apply HQ; done. Qed.

Definition head_of (d : DB) : Z * string :=
  end_of (start_of d).1 (start_of d).2 (db_audit d).

Lemma sealed_insert_ok ev s :
  storable (Ev_At ev) → log_ok (st_db s) →
  wp (let ev := seal_event (head_of (st_db s)).2 ev in
      seq ← exec (q_append_audit ev); mret (ev, seq))
    (λ r s', match r with
             | inl _ => True
             | inr a => log_ok (st_db s') ∧ a.2 = ((head_of (st_db s)).1 + 1)%Z
             end) s.
Proof.
  intros Ht Hok. apply wp_bind, wp_exec; [done|]. intros seq s' Hq. apply wp_ret.
  unfold q_append_audit in Hq. case_match; [done|]. injection Hq as <- Hq.
  rewrite (log_next_seq _ Hok) in Hq |- *. split; [|done].
  change (Ev_At (seal_event _ _)) with (Ev_At ev) in Hq. rewrite col_time_id in Hq by done.
  eapply (log_ok_append (st_db s) _ ev); [done|by rewrite <-Hq..].
Qed.

(** The hash the transaction seals with is the head's. *)
Lemma prev_hash_ok s (Q : error + string → Store → Prop) :
  (∀ e s', Q (inl e) s') →
  (∀ s', st_db s' = st_db s → Q (inr (head_of (st_db s)).2) s') →
  wp prev_hash Q s.
Proof.
  intros He Hr. apply wp_bind, wp_exec; [done|]. intros row s1 [= <- E1].
  unfold head_of in Hr. rewrite end_of_spec in Hr. unfold q_last_audit.
  destruct (last (db_audit (st_db s))) as [row|]; [by apply wp_ret, Hr|].
  apply wp_bind, wp_exec; [done|]. intros cp s2 [= <- E2].
  unfold start_of in Hr. rewrite <-E1 in E2 |- *.
  destruct (q_latest_checkpoint (st_db s)); by apply wp_ret, Hr.
Qed.

Lemma AuditChainAppend_ok ev s :
  (∀ n, storable (Some (clock n))) → storable (Ev_At ev) → log_ok (st_db s) →
  wp (AuditChainAppend ev seal_event) (λ r s',
    match r with
    | inl _ => st_db s' = st_db s
    | inr a => log_ok (st_db s') ∧ a.2 = ((head_of (st_db s)).1 + 1)%Z
    end) s.
Proof.
  intros Hclock Hat Hok. unfold AuditChainAppend, fillAuditEvent.
  apply wp_bind, wp_bind, wp_fill_id. intros id s1 E1.
  apply wp_bind, wp_fill_storable; [done..|]. intros t s2 Ht E2. apply wp_ret.
  rewrite <-E1, <-E2 in Hok |- *.
  apply wp_withTx; [done|]. intros s3 E3. rewrite <-E3 in Hok |- *.
  apply wp_bind, prev_hash_ok; [done|]. intros s4 E4. rewrite <-E4 in Hok |- *.
  eapply wp_mono; [by apply sealed_insert_ok|].
  intros [e|a] s5 Ha; [done|]. intros s6 E6. rewrite E6. exact Ha.
Qed.

Lemma Append_ok ev s :
  (∀ n, storable (Some (clock n))) → storable (Ev_At ev) → log_ok (st_db s) →
  wp (Append ev) (λ r s',
    match r with
    | inl _ => st_db s' = st_db s
    | inr seq => log_ok (st_db s') ∧ seq = ((head_of (st_db s)).1 + 1)%Z
    end) s.
Proof.
  intros Hclock Hat Hok. apply wp_bind.
  eapply wp_mono; [by apply AuditChainAppend_ok|]. by intros [e|a] s' Ha.
Qed.

(** The rows a prune through [cut] keeps and drops. *)
Lemma PruneAuditThrough_spec cut by_ s :
  log_ok (st_db s) → ((start_of (st_db s)).1 < cut)%Z →
  wp (PruneAuditThrough cut by_) (λ r s',
    match r with
    | inl _ => st_db s' = st_db s
    | inr n => log_ok (st_db s')
        ∧ db_audit (st_db s') = filter (λ r, ¬ (Rec_Seq r ≤ cut)%Z) (db_audit (st_db s))
        ∧ n = Z.of_nat (length (filter (λ r, (Rec_Seq r ≤ cut)%Z) (db_audit (st_db s))))
        ∧ ∃ r, r ∈ db_audit (st_db s) ∧ Rec_Seq r = cut
    end) s.
Proof.
  intros Hok Hcut. apply wp_withTx; [done|]. intros s1 E1. rewrite <-E1 in Hok, Hcut |- *.
  apply wp_bind, wp_exec; [done|]. intros anchor s2 Ha. unfold q_one in Ha.
  destruct (head _) as [r|] eqn:Hr; [|done]. injection Ha as <- E2.
  apply head_Some_elem_of, list_elem_of_filter in Hr as [Hseq Hr].
  apply wp_bind, wp_exec; [done|]. intros n s3 [= <- E3]. apply wp_bind, wp_now.
  intros t s4 E4. apply wp_bind, wp_exec; [done|]. intros [] s5 [= E5]. apply wp_ret.
  intros s6 E6. rewrite E6, <-E5, E4, <-E3, <-E2.
  destruct (clean_seqs _ _ _ (log_clean _ Hok)) as (Hasc & _ & _).
  destruct (list_elem_of_split _ _ Hr) as (l1 & l2 & E). split; [|by eauto].
  eapply (log_ok_prune (st_db s1) _ l1 r l2); [done|done|lia| |done|by rewrite Hseq].
  simpl. rewrite E in Hasc |- *. rewrite <-(filter_after_app l1 r l2 Hasc) at 2.
  apply list_filter_iff. intros x. unfold after. rewrite bool_decide_spec. lia.
Qed.

Lemma resolveCut_spec policy t s (Q : error + Z * Z → Store → Prop) :
  (∀ e s', st_db s' = st_db s → Q (inl e) s') →
  (∀ cut s', st_db s' = st_db s →
     (0 < KeepLast policy → cut ≤ max_seq (db_audit (st_db s)) - KeepLast policy)%Z →
     (0 < MaxAge policy → cut ≤ max_seq (filter (λ r, (ns (Ev_At (Rec_Event r))
        < ns (time_add t (- MaxAge policy)))%Z) (db_audit (st_db s))))%Z →
     (cut ≤ max_seq (db_audit (st_db s)))%Z →
     Q (inr (cut, (start_of (st_db s)).1)) s') →
  (∀ s', st_db s' = st_db s → (MaxAge policy ≤ 0 ∧ KeepLast policy ≤ 0)%Z →
     Q (inr (0, 0)%Z) s') →
  wp (resolveCut policy t) Q s.
Proof.
  intros He Hr H0. unfold resolveCut. case_decide as Hp; [by apply wp_ret, H0|].
  apply wp_bind, wp_exec; [done|]. intros m s1 [= <- E1].
  apply wp_bind, wp_exec; [naive_solver congruence|]. intros cp s2 [= <- E2].
  apply wp_bind. unfold start_of in Hr.
  assert (st_db s2 = st_db s) as E by congruence. rewrite <-E1.
  match goal with |- context [mret (_, ?f)] => set (fl := f) end.
  case_decide as Hage.
  - apply wp_bind, wp_exec; [naive_solver congruence|]. intros age s3 [= Hb E3]. rewrite E in Hb.
    assert (age = max_seq (filter (λ r, (ns (Ev_At (Rec_Event r))
      < ns (time_add t (- MaxAge policy)))%Z) (db_audit (st_db s)))) as Hage' by (by symmetry).
    clear Hb.
    apply wp_ret, wp_ret.
    match goal with |- Q (inr (?c, fl)) _ => set (cut := c) end.
    specialize (Hr cut s3 ltac:(congruence)). unfold fl.
    destruct (q_latest_checkpoint (st_db s)); apply Hr; unfold cut; repeat case_decide; lia.
  - apply wp_ret, wp_ret.
    match goal with |- Q (inr (?c, fl)) _ => set (cut := c) end.
    specialize (Hr cut s2 ltac:(congruence)). unfold fl.
    destruct (q_latest_checkpoint (st_db s)); apply Hr; unfold cut; repeat case_decide; lia.
Qed.
End honest.

Section retention.
Context `{!Env}.

(** What a prune that returned [n] did. *)
Definition pruned (policy : RetentionPolicy) (t : time) (d d' : DB) (n : Z) : Prop :=
  ∃ cut,
    db_audit d' = filter (λ r, ¬ (Rec_Seq r ≤ cut)%Z) (db_audit d)
    ∧ n = Z.of_nat (length (filter (λ r, (Rec_Seq r ≤ cut)%Z) (db_audit d)))
    ∧ (0 < KeepLast policy → 0 < n → cut ≤ max_seq (db_audit d) - KeepLast policy)%Z
    ∧ (0 < MaxAge policy → 0 < n → ∃ r, r ∈ db_audit d ∧ cut ≤ Rec_Seq r
         ∧ ns (Ev_At (Rec_Event r)) < ns (time_add t (- MaxAge policy)))%Z.

Lemma max_seq_witness l cut :
  (cut ≤ max_seq l)%Z → (0 < cut)%Z → ∃ r, r ∈ l ∧ (cut ≤ Rec_Seq r)%Z.
Proof.
  induction l as [|r l IH]; simpl; [lia|]. intros Hc Hpos.
  destruct (decide (cut ≤ Rec_Seq r)%Z); [exists r; set_solver|].
  destruct IH as (x & Hx & ?); [lia..|]. exists x. set_solver.
Qed.

Lemma Prune_ok policy by_ t s :
  log_ok (st_db s) →
  wp (Prune policy by_ t) (λ r s',
    match r with
    | inl _ => st_db s' = st_db s
    | inr n => log_ok (st_db s') ∧ pruned policy t (st_db s) (st_db s') n
    end) s.
Proof.
  intros Hok. pose proof (log_start _ Hok) as H0.
  assert (∀ d, st_db s = d → log_ok d ∧ pruned policy t (st_db s) d 0) as Hnone.
  { intros d <-. split; [done|]. exists (start_of (st_db s)).1.
    destruct (clean_seqs _ _ _ (log_clean _ Hok)) as (_ & _ & Hall).
    split_and!; [| |lia..].
    - rewrite filter_all; [done|]. eapply Forall_impl; [done|]. simpl. lia.
    - rewrite filter_none; [done|]. eapply Forall_impl; [done|]. simpl. lia. }
  apply wp_bind, resolveCut_spec; [done| |].
  - intros cut s1 E1 Hk Ha Hm. case_decide as Hc; [by apply wp_ret, Hnone|].
    rewrite <-E1 in Hok, Hc, Hk, Ha, H0 |- *.
    eapply wp_mono; [apply PruneAuditThrough_spec; [done|lia]|].
    intros [e|n] s2 Hs2; [done|]. destruct Hs2 as (Hok2 & Hf & Hn & _).
    split; [done|]. exists cut. split_and!; [done|done|auto|].
    intros HA _.
    specialize (Ha HA). apply max_seq_witness in Ha as (r & Hr & ?); [|lia].
    apply list_elem_of_filter in Hr as [? ?]. eauto.
  - intros s1 E1 _. rewrite decide_True by lia. by apply wp_ret, Hnone.
Qed.

Lemma run_log_op_ok o s :
  (∀ n, storable (Some (clock n))) → log_op_storable o → log_ok (st_db s) →
  log_ok (st_db (snd (run_log_op o s))).
Proof.
  intros Hclock Ho Hok. destruct o as [ev|policy by_ t]; simpl in *.
  - pose proof (Append_ok ev s Hclock Ho Hok) as Ha. unfold wp in Ha.
    destruct (Append ev s) as [[e|seq] s']; simpl in *; [by rewrite Ha|apply Ha].
  - pose proof (Prune_ok policy by_ t s Hok) as Ha. unfold wp in Ha.
    destruct (Prune policy by_ t s) as [[e|n] s']; simpl in *; [by rewrite Ha|apply Ha].
Qed.

Lemma run_log_ops_ok ops : ∀ s,
  (∀ n, storable (Some (clock n))) → Forall log_op_storable ops → log_ok (st_db s) →
  log_ok (st_db (snd (for_each ops run_log_op s))).
Proof.
  induction ops as [|o ops IH]; intros s Hclock Hall Hok; [done|].
  apply Forall_cons in Hall as [Ho Hall]. simpl.
  pose proof (run_log_op_ok o s Hclock Ho Hok) as H1.
  unfold mbind, M_bind. destruct (run_log_op o s) as [[e|[]] s'] eqn:E; [done|].
  apply IH; done.
Qed.
End retention.

(** C31: an honest log never raises an alarm: after any sequence of appends and
    retention prunes, started on an empty log and whichever statements fail, Verify
    reports no issue (provided times are ones the column can hold). *)
Theorem honest_log_verifies `{!Env} (ops : list LogOp) (n fuel : nat)
    (Hclock : ∀ n, storable (Some (clock n))) (Hops : Forall log_op_storable ops) :
  let s := snd (for_each ops run_log_op (MkStore n empty_DB)) in
  length (db_audit (st_db s)) < fuel →
  wp (Verify fuel) (λ r _, match r with inl _ => True | inr o => o = Some [] end) s.
Proof.
  intros s Hfuel. assert (log_ok (st_db s)) as Hok.
  { apply run_log_ops_ok; [done..|]. by split. }
  destruct (clean_seqs _ _ _ (log_clean _ Hok)) as (Hasc & _ & Hall).
  eapply wp_mono; [by apply Verify_spec|]. intros [e|o] s' [_ Ho]; [done|]. rewrite Ho.
  f_equal. rewrite filter_all; [apply log_clean, Hok|].
  eapply Forall_impl; [exact Hall|]. intros r [Hr _]. by apply bool_decide_pack.
Qed.

(** * What an append adds *)

(** The stored record of [ev] sealed onto some head. *)
Definition appended (d d' : DB) (ev : AuditEvent) (seq : Z) : Prop :=
  ∃ id t prev,
    d' = d <| db_audit := db_audit d ++ [MkAuditRecord seq
             (seal_event prev (ev <| Ev_ID := id |> <| Ev_At := t |>)
                <| Ev_At := col_time t |>)] |>
           <| db_audit_seq := seq |>.

Lemma Append_adds `{!Env} ev s :
  wp (Append ev) (λ r s',
    match r with
    | inl _ => st_db s' = st_db s
    | inr seq => appended (st_db s) (st_db s') ev seq
    end) s.
Proof.
  unfold Append, AuditChainAppend, fillAuditEvent.
  apply wp_bind, wp_bind, wp_bind, wp_fill_id. intros id s1 E1.
  apply wp_bind, wp_fill_time. intros t s2 E2. apply wp_ret, wp_withTx; [congruence|].
  intros s3 E3. assert (st_db s3 = st_db s) as E by congruence. clear E1 E2 E3.
  apply wp_bind, prev_hash_ok; [done|]. intros s4 E4.
  apply wp_bind, wp_exec; [done|]. intros seq s5 Hq. apply wp_ret. intros s6 E6. apply wp_ret.
  unfold q_append_audit in Hq. case_match; [done|]. injection Hq as Hseq Hq.
  exists id, t, (head_of (st_db s3)).2. rewrite E6, <-Hq, E4, E. by rewrite <-Hseq, E4, E.
Qed.
