(* ===== verification/AuditTamper.v ===== *)
(** Tamper evidence, retention and export of the audit log. *)
From S2P Require Import Prelude Sha256 Domain Store Fixtures StoreInv AuditLog AuditProofs.

(** * Tampering *)

Lemma clean_length_end l1 l2 s1 h1 h2 :
  issues_of s1 h1 l1 = [] → issues_of s1 h2 l2 = [] →
  (end_of s1 h1 l1).1 = (end_of s1 h2 l2).1 → length l1 = length l2.
Proof.
  intros H1 H2 E. apply clean_seqs in H1 as (_ & E1 & _). apply clean_seqs in H2 as (_ & E2 & _).
  lia.
Qed.

Lemma clean_same_seqs l1 : ∀ l2 s h1 h2,
  issues_of s h1 l1 = [] → issues_of s h2 l2 = [] → length l1 = length l2 →
  Rec_Seq <$> l1 = Rec_Seq <$> l2.
Proof.
  induction l1 as [|r1 l1 IH]; intros [|r2 l2] s h h' H1 H2 Hl; [done..|].
  rewrite issues_of_cons in H1, H2. apply app_eq_nil in H1 as [H1 H1'], H2 as [H2 H2'].
  apply verify_record_nil in H1 as (E1 & _ & _), H2 as (E2 & _ & _).
  simpl. rewrite E1 in H1' |- *. rewrite E2 in H2' |- *. f_equal. eapply IH; [done..|].
  simpl in Hl. lia.
Qed.

(** From the head backwards: equal hashes pin the contents, and with them the
    previous hash. *)
Lemma same_head_same_log l1 : ∀ l2 s h,
  length l1 = length l2 →
  issues_of s h l1 = [] → issues_of s h l2 = [] →
  (end_of s h l1).2 = (end_of s h l2).2 →
  content ∘ Rec_Event <$> l1 = content ∘ Rec_Event <$> l2 ∨ sha256_collision.
Proof.
  induction l1 as [|r1 l1 IH] using rev_ind; intros l2 s h Hl H1 H2 Hend.
  { destruct l2; [by left|done]. }
  destruct l2 as [|r2 l2 _] using rev_ind; [rewrite length_app in Hl; simpl in Hl; lia|].
  rewrite !length_app in Hl. simpl in Hl.
  rewrite !end_of_last in Hend. simpl in Hend.
  rewrite issues_of_app in H1, H2. apply app_eq_nil in H1 as [H1 Hr1], H2 as [H2 Hr2].
  rewrite issues_of_cons in Hr1, Hr2.
  apply app_eq_nil in Hr1 as [(_ & Hp1 & Hh1)%verify_record_nil _].
  apply app_eq_nil in Hr2 as [(_ & Hp2 & Hh2)%verify_record_nil _].
  destruct (eventHash_binds (Rec_Event r1) (Rec_Event r2)) as [Hc|]; [congruence| |by right].
  assert (Ev_PrevHash (Rec_Event r1) = Ev_PrevHash (Rec_Event r2)) as Hp.
  { apply (f_equal Ev_PrevHash) in Hc. exact Hc. }
  destruct (IH l2 s h) as [E|]; [lia|done|done|congruence| |by right].
  left. rewrite !fmap_app, E. simpl. by rewrite Hc.
Qed.


(** A truncated tail shows at the next append: if the newest rows of an intact
    log are deleted, the first event appended afterwards carries a seq that Verify
    reports as a gap. *)
Theorem truncation_exposed `{!Env} (d : DB) (k : nat) (ev : AuditEvent) (n : nat)
    (Hok : log_ok d) (Hk : k < length (db_audit d)) :
  let s := MkStore n (d <| db_audit := take k (db_audit d) |>) in
  wp (Append ev) (λ r s',
    match r with
    | inl _ => st_db s' = st_db s
    | inr seq => ∃ i, In i (issues_of (start_of (st_db s')).1 (start_of (st_db s')).2
                                (db_audit (st_db s')))
                 ∧ Issue_Seq i = seq
                 ∧ Issue_Reason i = "seq gap: expected "
                     +:+ format_int ((start_of d).1 + Z.of_nat k + 1) +:+ " (rows deleted?)"
    end) s.
Proof.
  intros s. destruct (clean_seqs _ _ _ (log_clean _ Hok)) as (_ & Hend & Hall).
  assert (issues_of (start_of d).1 (start_of d).2 (take k (db_audit d)) = []) as Hc.
  { pose proof (log_clean _ Hok) as Hc. rewrite <-(take_drop k (db_audit d)) in Hc.
    rewrite issues_of_app in Hc. by apply app_eq_nil in Hc as [? _]. }
  destruct (clean_seqs _ _ _ Hc) as (_ & Hend' & _). rewrite length_take_le in Hend' by lia.
  unfold Append, AuditChainAppend, fillAuditEvent.
  apply wp_bind, wp_bind, wp_bind, wp_fill_id. intros id s1 E1.
  apply wp_bind, wp_fill_time. intros t s2 E2. apply wp_ret, wp_withTx; [intros; congruence|].
  intros s3 E3. assert (st_db s3 = st_db s) as E by congruence. clear E1 E2 E3.
  apply wp_bind, prev_hash_ok; [done|]. intros s4 E4. rewrite E.
  apply wp_bind, wp_exec; [done|]. intros seq s5 Hq. apply wp_ret. intros s6 E6. apply wp_ret.
  unfold q_append_audit in Hq. case_match; [done|]. injection Hq as Hseq Hq.
  rewrite E4, E in Hq, Hseq. clear E4 E. rewrite E6, <-Hq. clear E6 Hq.
  change (start_of _) with (start_of d).
  set (row := seal_event (head_of (st_db s)).2 (ev <| Ev_ID := id |> <| Ev_At := t |>)
    <| Ev_At := col_time t |>).
  change (∃ i, In i (issues_of (start_of d).1 (start_of d).2
                       (take k (db_audit d) ++ [MkAuditRecord
                          (Z.max (db_audit_seq d) (max_seq (take k (db_audit d))) + 1) row]))
            ∧ Issue_Seq i = seq ∧ Issue_Reason i = "seq gap: expected "
                +:+ format_int ((start_of d).1 + Z.of_nat k + 1) +:+ " (rows deleted?)").
  change (Z.max (db_audit_seq d) (max_seq (take k (db_audit d))) + 1 = seq)%Z in Hseq.
  rewrite Hseq, issues_of_app, Hc, issues_of_cons. unfold verify_record at 1. cbn [Rec_Seq].
  rewrite Hend', decide_True by (rewrite (log_seq _ Hok) in Hseq; lia).
  eexists. split; [by left|done].
Qed.

(** * Retention *)

(** Prune removes a prefix of the log only, counts it right, keeps the survivors
    verifiable, never removes any of the KeepLast newest events (by seq), removes
    nothing under MaxAge unless an event at least as new in seq is older than the
    cutoff, and on an error removes nothing. *)
Theorem Prune_policy `{!Env} (policy : RetentionPolicy) (by_ : ID) (t : time) (s : Store)
    (Hok : log_ok (st_db s)) :
  wp (Prune policy by_ t) (λ r s',
    match r with
    | inl _ => st_db s' = st_db s
    | inr n => log_ok (st_db s') ∧ pruned policy t (st_db s) (st_db s') n
    end) s.
Proof. by apply Prune_ok. Qed.

(** * Export *)

Section export.
Context `{!Env} (w : ExportRecord → option error).

Definition cursor_after (c : Z) (l : list AuditRecord) : Z :=
  match last l with Some r => Rec_Seq r | None => c end.

(** The lines of a run are those of a prefix; without an error, of everything. *)
Definition exported_prefix (x0 x : Exported) (recs : list AuditRecord) : Prop :=
  ∃ pre post, recs = pre ++ post
    ∧ Ex_Lines x = Ex_Lines x0 ++ (export_record <$> pre)
    ∧ Ex_Cursor x = cursor_after (Ex_Cursor x0) pre
    ∧ (Ex_Err x = None → post = []).

Lemma cursor_after_app c l1 l2 :
  cursor_after c (l1 ++ l2) = cursor_after (cursor_after c l1) l2.
Proof.
  unfold cursor_after. destruct l2 as [|r l2 _] using rev_ind.
  - by rewrite app_nil_r.
  - by rewrite app_assoc, !last_snoc.
Qed.

Lemma export_batch_spec recs : ∀ x, Ex_Err x = None →
  exported_prefix x (export_batch w recs x) recs.
Proof.
  induction recs as [|r recs IH]; intros x Hx; simpl.
  { exists [], []. split_and!; simpl; by rewrite ?app_nil_r. }
  destruct (w (export_record r)) as [err|].
  { exists [], (r :: recs). split_and!; simpl; by rewrite ?app_nil_r. }
  destruct (IH (MkExported (Ex_Lines x ++ [export_record r]) (Rec_Seq r) None) eq_refl)
    as (pre & post & -> & Hl & Hc & He).
  exists (r :: pre), post. split_and!; [done| |  |done].
  - rewrite Hl. simpl. by rewrite <-app_assoc.
  - rewrite Hc, (cursor_after_app _ [r] pre). done.
Qed.

Lemma filter_after_cursor l c pre post :
  ascending l → filter (after c) l = pre ++ post →
  filter (after (cursor_after c pre)) l = post.
Proof.
  intros Hl E. unfold cursor_after. destruct pre as [|r pre _] using rev_ind; [done|].
  rewrite last_snoc. destruct (after_suffix l c Hl) as (l0 & El & _).
  rewrite E, <-app_assoc, app_assoc in El. rewrite El in Hl.
  rewrite El. by apply filter_after_app.
Qed.

Lemma export_loop_spec fuel : ∀ x st,
  ascending (db_audit (st_db st)) → Ex_Err x = None →
  length (filter (after (Ex_Cursor x)) (db_audit (st_db st))) < fuel →
  wp (export_loop fuel w x) (λ r st', st_db st' = st_db st
    ∧ ∃ x', r = inr (Some x')
      ∧ exported_prefix x x' (filter (after (Ex_Cursor x)) (db_audit (st_db st)))) st.
Proof.
  induction fuel as [|fuel IH]; intros x st Hasc Hx Hfuel; [lia|].
  cbn [export_loop]. apply wp_bind, wp_attempt. unfold ListAuditEvents.
  apply wp_exec.
  { intros e st' E. apply wp_ret. split; [done|]. eexists. split; [done|].
    exists [], (filter (after (Ex_Cursor x)) (db_audit (st_db st))).
    split_and!; simpl; by rewrite ?app_nil_r. }
  intros recs st' [= <- E]. unfold q_list_audit.
  set (rest := filter (after (Ex_Cursor x)) (db_audit (st_db st))) in *.
  destruct (take verifyBatch rest) as [|r recs] eqn:Et.
  { apply wp_ret. split; [done|]. exists x. split; [done|]. exists [], [].
    assert (rest = []) as -> by (by destruct rest). split_and!; simpl; by rewrite ?app_nil_r. }
  rewrite <-Et.
  destruct (export_batch_spec (take verifyBatch rest) x Hx) as (pre & post & Ep & Hl & Hc & He).
  destruct (Ex_Err (export_batch w _ x)) as [err|] eqn:Eerr.
  { apply wp_ret. split; [done|]. eexists. split; [done|].
    exists pre, (post ++ drop verifyBatch rest). rewrite app_assoc, <-Ep, take_drop.
    split_and!; [done..|]. by rewrite Eerr. }
  rewrite (He eq_refl), app_nil_r in Ep. subst pre.
  assert (filter (after (Ex_Cursor (export_batch w (take verifyBatch rest) x)))
            (db_audit (st_db st)) = drop verifyBatch rest) as Hdrop.
  { rewrite Hc. apply filter_after_cursor; [done|]. by rewrite take_drop. }
  eapply wp_mono; [apply IH|].
  - by rewrite <-E.
  - done.
  - rewrite <-E, Hdrop, length_drop.
    assert (0 < length rest) by (destruct rest; [done|simpl; lia]). unfold verifyBatch. lia.
  - intros o st2 [Hst (x' & -> & pre & post' & Ep & Hl' & Hc' & He')].
    split; [congruence|]. exists x'. split; [done|]. rewrite <-E, Hdrop in Ep.
    exists (take verifyBatch rest ++ pre), post'. rewrite <-app_assoc, <-Ep, take_drop.
    split_and!; [done| | |done].
    + by rewrite Hl', Hl, fmap_app, app_assoc.
    + by rewrite Hc', Hc, cursor_after_app.
Qed.
End export.

(** Export is a resumable cursor: it terminates, the lines it wrote are those of
    the oldest events after the given seq, in order and without a hole, up to where a
    statement or the writer failed (all of them otherwise), and the cursor it returns
    leaves exactly the events not yet written for the next call. *)
Theorem Export_resumes `{!Env} (w : ExportRecord → option error) (afterSeq : Z) (fuel : nat)
    (st : Store) (Hasc : ascending (db_audit (st_db st)))
    (Hfuel : length (db_audit (st_db st)) < fuel) :
  wp (Export fuel w afterSeq) (λ r st', st_db st' = st_db st
    ∧ ∃ x pre post, r = inr (Some x)
      ∧ filter (after afterSeq) (db_audit (st_db st)) = pre ++ post
      ∧ Ex_Lines x = export_record <$> pre
      ∧ filter (after (Ex_Cursor x)) (db_audit (st_db st)) = post
      ∧ (Ex_Err x = None → post = [])) st.
Proof.
  pose proof (length_filter (after afterSeq) (db_audit (st_db st))).
  eapply wp_mono; [apply export_loop_spec; [done|done|simpl; lia]|].
  intros o st' [Hst (x & -> & pre & post & E & Hl & Hc & He)]. split; [done|].
  exists x, pre, post. split_and!; [done|done|done| |done].
  rewrite Hc. simpl. by apply filter_after_cursor.
Qed.

(** * The log at work *)

Definition TestEvent (id : ID) (at_ : time) : AuditEvent :=
  MkAuditEvent id at_ "ada" "jti" "H1" "B1" "deploy_beam" DecisionAllow "builder"
    EmptyString "ok" "10.0.0.9" EmptyString EmptyString.
Definition TestOps : list LogOp :=
  [LogAppend (TestEvent "E1" T0); LogAppend (TestEvent no_id None);
   LogPrune (MkRetentionPolicy 0%Z 1%Z) "root" T0; LogAppend (TestEvent "E3" T0)].
Definition TestLog (ops : list LogOp) : Store :=
  snd (for_each ops run_log_op (MkStore 0 empty_DB)).

Lemma TestOps_storable : Forall log_op_storable TestOps.
Proof. repeat constructor; done. Qed.

Lemma TestLog_ok ops : Forall log_op_storable ops → log_ok (st_db (TestLog ops)).
Proof.
  intros Hops. apply run_log_ops_ok; [apply Quiet_storable|done|by split].
Qed.

Lemma Verify_complete_witness :
  length (db_audit (st_db (TestLog TestOps))) = 2
  ∧ wp (Verify 3) (verified (TestLog TestOps)) (TestLog TestOps).
Proof.
  split; [vm_compute; reflexivity|].
  apply (Verify_complete (TestLog TestOps) 3).
  - apply (clean_seqs _ _ _ (log_clean _ (TestLog_ok _ TestOps_storable))).
  - vm_compute. repeat constructor.
Defined.

Lemma honest_log_verifies_witness :
  fst (Verify 3 (TestLog TestOps)) = inr (Some [])
  ∧ wp (Verify 3) (λ r _, match r with inl _ => True | inr o => o = Some [] end)
      (TestLog TestOps).
Proof.
  split; [vm_compute; reflexivity|].
  apply (honest_log_verifies TestOps 0 3); [apply Quiet_storable|apply TestOps_storable|].
  vm_compute. repeat constructor.
Defined.


(** An edit of a stored event is seen. *)
Example edit_detected :
  let d := st_db (TestLog TestOps) in
  let edit r := MkAuditRecord (Rec_Seq r) (Rec_Event r <| Ev_Decision := DecisionDeny |>) in
  length (issues_of (start_of d).1 (start_of d).2 (edit <$> db_audit d)) = 2.
Proof. vm_compute. reflexivity. Qed.

Lemma truncation_exposed_witness :
  let d := st_db (TestLog TestOps) in
  let s := MkStore 0 (d <| db_audit := take 1 (db_audit d) |>) in
  fst (Append (TestEvent "E4" T0) s) = inr 4%Z
  ∧ wp (Append (TestEvent "E4" T0)) (λ r s',
      match r with
      | inl _ => st_db s' = st_db s
      | inr seq => ∃ i, In i (issues_of (start_of (st_db s')).1 (start_of (st_db s')).2
                                 (db_audit (st_db s')))
                   ∧ Issue_Seq i = seq
                   ∧ Issue_Reason i = "seq gap: expected "
                       +:+ format_int ((start_of d).1 + Z.of_nat 1 + 1) +:+ " (rows deleted?)"
      end) s.
Proof.
  split; [vm_compute; reflexivity|].
  apply (truncation_exposed (st_db (TestLog TestOps)) 1 (TestEvent "E4" T0) 0).
  - apply TestLog_ok, TestOps_storable.
  - vm_compute. repeat constructor.
Defined.

Lemma Prune_policy_witness :
  let s := TestLog TestOps in
  fst (Prune (MkRetentionPolicy 0%Z 1%Z) "root" T0 s) = inr 1%Z
  ∧ wp (Prune (MkRetentionPolicy 0%Z 1%Z) "root" T0) (λ r s',
      match r with
      | inl _ => st_db s' = st_db s
      | inr n => log_ok (st_db s') ∧ pruned (MkRetentionPolicy 0%Z 1%Z) T0 (st_db s) (st_db s') n
      end) s.
Proof.
  split; [vm_compute; reflexivity|].
  apply (Prune_policy (MkRetentionPolicy 0%Z 1%Z) "root" T0 (TestLog TestOps)).
  apply TestLog_ok, TestOps_storable.
Defined.

Lemma Export_resumes_witness :
  let st := TestLog TestOps in
  length (db_audit (st_db st)) = 2
  ∧ wp (Export 3 (λ _, None) 2) (λ r st', st_db st' = st_db st
      ∧ ∃ x pre post, r = inr (Some x)
        ∧ filter (after 2) (db_audit (st_db st)) = pre ++ post
        ∧ Ex_Lines x = export_record <$> pre
        ∧ filter (after (Ex_Cursor x)) (db_audit (st_db st)) = post
        ∧ (Ex_Err x = None → post = [])) st.
Proof.
  split; [vm_compute; reflexivity|].
  apply (Export_resumes (λ _, None) 2 3 (TestLog TestOps)).
  - apply (clean_seqs _ _ _ (log_clean _ (TestLog_ok _ TestOps_storable))).
  - vm_compute. repeat constructor.
Defined.

(** Two events whose clock readings and commits are in opposite orders: the clock is
    read before the transaction (fillAuditEvent). *)
Definition CrossedOps : list LogOp :=
  [LogAppend (TestEvent "E1" (Some 100%Z)); LogAppend (TestEvent "E2" (Some 10%Z))].
Definition AgePolicy : RetentionPolicy := MkRetentionPolicy 50%Z 0%Z.

(** Age-based retention can remove an event younger than MaxAge: with events whose
    times are not in seq order (appended concurrently, or after the clock stepped
    back), Prune cuts at the newest event older than the cutoff and takes every
    earlier seq with it, although the policy says an event younger than MaxAge is
    kept. *)
Theorem prune_drops_a_young_event :
  let s := TestLog CrossedOps in
  let t := 120%Z in
  ∃ r, log_ok (st_db s) ∧ r ∈ db_audit (st_db s)
    ∧ (t - UnixNano (Ev_At (Rec_Event r)) < MaxAge AgePolicy)%Z
    ∧ wp (Prune AgePolicy "root" (Some t)) (λ res s',
        is_inl res = false ∧ r ∉ db_audit (st_db s')) s.
Proof.
  intros s t. destruct (db_audit (st_db s)) as [|r l] eqn:E; [by vm_compute in E|].
  exists r. split_and!.
  - apply TestLog_ok. repeat constructor; done.
  - left.
  - vm_compute in E. injection E as <- _. vm_compute. reflexivity.
  - split; [vm_compute; reflexivity|].
    assert (db_audit (st_db (snd (Prune AgePolicy "root" (Some t) s))) = []) as ->
      by (vm_compute; reflexivity).
    apply not_elem_of_nil.
Qed.
