(* ===== verification/Policy.v ===== *)
(** The policy enforcement point (internal/policy): the forbidden list, the role
    matrix, Authorize with its audit of every decision, and the quota gates. *)
From S2P Require Import Prelude Domain Store StoreOps AuditLog.

Inductive Action :=
  | ActionReadBeamhall
  | ActionShowLogs
  | ActionShowMetrics
  | ActionCreateBeam
  | ActionDeployBeam
  | ActionCreateDatabase
  | ActionSetSecret
  | ActionPausePreview
  | ActionResumePreview
  | ActionRollback
  | ActionPromoteToLive
  | ActionRequestPromote
  | ActionArchiveBeam
  | ActionDestroyBeam
  | ActionProvisionAuth
  | ActionShowAuth
  | ActionProvisionEmail
  | ActionShowEmail
  | ActionProvisionObjectStore
  | ActionShowObjectStore
  | ActionShowBranding
  | ActionUseBeamTools
  | ActionUpdateBeam
  | ActionShowBeamPeers
  | ActionGetSecret
  | ActionMutateSecurityContext
  | ActionMutateQuota
  | ActionMutateEgress
  | ActionRawRuntimeAccess
  | ActionSupplyDockerfile
  | ActionOther (s : string).
#[export] Instance Action_eq_dec : EqDecision Action.
Proof. solve_decision. Defined.
Definition Action_string (a : Action) : string :=
  match a with
  | ActionReadBeamhall => "read_beamhall"
  | ActionShowLogs => "show_logs"
  | ActionShowMetrics => "show_metrics"
  | ActionCreateBeam => "create_beam"
  | ActionDeployBeam => "deploy_beam"
  | ActionCreateDatabase => "create_database"
  | ActionSetSecret => "set_secret"
  | ActionPausePreview => "pause_preview"
  | ActionResumePreview => "resume_preview"
  | ActionRollback => "rollback"
  | ActionPromoteToLive => "promote_to_live"
  | ActionRequestPromote => "request_promotion"
  | ActionArchiveBeam => "archive_beam"
  | ActionDestroyBeam => "destroy_beam"
  | ActionProvisionAuth => "provision_auth"
  | ActionShowAuth => "show_auth"
  | ActionProvisionEmail => "provision_email"
  | ActionShowEmail => "show_email"
  | ActionProvisionObjectStore => "provision_object_store"
  | ActionShowObjectStore => "show_object_store"
  | ActionShowBranding => "show_branding"
  | ActionUseBeamTools => "try_beam_tool"
  | ActionUpdateBeam => "update_beam"
  | ActionShowBeamPeers => "show_beam_peers"
  | ActionGetSecret => "get_secret"
  | ActionMutateSecurityContext => "mutate_security_context"
  | ActionMutateQuota => "mutate_quota"
  | ActionMutateEgress => "mutate_egress"
  | ActionRawRuntimeAccess => "raw_runtime_access"
  | ActionSupplyDockerfile => "supply_dockerfile"
  | ActionOther s => s
  end.

Definition forbidden (a : Action) : bool :=
  match a with
  | ActionGetSecret | ActionMutateSecurityContext | ActionMutateQuota
  | ActionMutateEgress | ActionRawRuntimeAccess | ActionSupplyDockerfile => true
  | _ => false
  end.

Definition matrix (r : MembershipRole) (a : Action) : bool :=
  match r with
  | RoleViewer =>
      match a with
      | ActionReadBeamhall | ActionShowLogs | ActionShowMetrics | ActionShowAuth
      | ActionShowEmail | ActionShowObjectStore | ActionShowBranding
      | ActionShowBeamPeers => true
      | _ => false
      end
  | RoleBuilder =>
      match a with
      | ActionReadBeamhall | ActionShowLogs | ActionShowMetrics | ActionCreateBeam
      | ActionDeployBeam | ActionCreateDatabase | ActionSetSecret | ActionPausePreview
      | ActionResumePreview | ActionRollback | ActionArchiveBeam | ActionRequestPromote
      | ActionProvisionAuth | ActionShowAuth | ActionProvisionEmail | ActionShowEmail
      | ActionProvisionObjectStore | ActionShowObjectStore | ActionShowBranding
      | ActionUseBeamTools | ActionUpdateBeam | ActionShowBeamPeers => true
      | _ => false
      end
  | RoleBeamhallAdmin =>
      match a with
      | ActionReadBeamhall | ActionShowLogs | ActionShowMetrics | ActionCreateBeam
      | ActionDeployBeam | ActionCreateDatabase | ActionSetSecret | ActionPausePreview
      | ActionResumePreview | ActionRollback | ActionArchiveBeam | ActionPromoteToLive
      | ActionRequestPromote | ActionDestroyBeam | ActionProvisionAuth | ActionShowAuth
      | ActionProvisionEmail | ActionShowEmail | ActionProvisionObjectStore
      | ActionShowObjectStore | ActionShowBranding | ActionUseBeamTools
      | ActionUpdateBeam | ActionShowBeamPeers => true
      | _ => false
      end
  end.

Record Request := MkRequest {
  Req_Actor : ID;
  Req_ActorTokenJTI : string;
  Req_ITAdmin : bool;
  Req_BeamhallID : ID;
  Req_BeamID : ID;
  Req_Action : Action;
  Req_SourceIP : string;
  Req_RequestDigest : string}.

(** The event decide appends. *)
Definition decision_event (req : Request) (allow : bool) (reason : string) : AuditEvent :=
  MkAuditEvent no_id None (Req_Actor req) (Req_ActorTokenJTI req) (Req_BeamhallID req)
    (Req_BeamID req) (Action_string (Req_Action req))
    (if allow then DecisionAllow else DecisionDeny) reason (Req_RequestDigest req)
    EmptyString (Req_SourceIP req) EmptyString EmptyString.

Section policy.
Context `{!Env}.

(** The closure decide of Authorize. *)
Definition decision (req : Request) (allow : bool) (reason : string) : SM () :=
  r ← attempt (Append (decision_event req allow reason));
  match r with
  | inl err =>
      throw (ErrDenial (Action_string (Req_Action req))
               ("audit log unavailable: " +:+ Error err))
  | inr _ =>
      if allow then mret tt
      else throw (ErrDenial (Action_string (Req_Action req)) reason)
  end.

Definition Authorize (req : Request) : SM () :=
  if forbidden (Req_Action req) then
    decision req false
      "forbidden for every role: the backplane has no such capability on the agent path"
  else
  ident ← attempt (GetIdentity (Req_Actor req));
  match ident with
  | inl err =>
      if is_not_found err then decision req false "unknown identity"
      else decision req false ("identity lookup failed: " +:+ Error err)
  | inr ident =>
  if decide (Identity_Status ident ≠ IdentityActive) then
    decision req false ("identity is " +:+ IdentityStatus_string (Identity_Status ident))
  else
  bh ← attempt (GetBeamhall (Req_BeamhallID req));
  match bh with
  | inl err =>
      if is_not_found err then decision req false "unknown beamhall"
      else decision req false ("beamhall lookup failed: " +:+ Error err)
  | inr bh =>
  if decide (Beamhall_Status bh ≠ BeamhallActive) then
    decision req false ("beamhall is " +:+ BeamhallStatus_string (Beamhall_Status bh))
  else if Req_ITAdmin req then decision req true "it_admin"
  else
  m ← attempt (GetMembership (Req_Actor req) (Req_BeamhallID req));
  match m with
  | inl err =>
      if is_not_found err then decision req false "no membership in this beamhall"
      else decision req false ("membership lookup failed: " +:+ Error err)
  | inr m =>
  if matrix (Membership_Role m) (Req_Action req) then
    decision req true (MembershipRole_string (Membership_Role m))
  else
    decision req false ("role " +:+ quoted (MembershipRole_string (Membership_Role m))
      +:+ " does not grant " +:+ quoted (Action_string (Req_Action req)))
  end end end.

(** * Quotas (quota.go) *)

Definition CheckBeamQuota (bh : Beamhall) : SM () :=
  n ← CountBeamsByBeamhall (Beamhall_ID bh);
  let max := MaxBeams (Beamhall_Quota bh) in
  if decide (max ≤ 0 ∨ max ≤ n)%Z then
    throw (ErrQuotaLimit "max_beams" n max
             "destroy an unused beam or ask IT to raise the quota")
  else mret tt.

Definition CheckDatabaseQuota (bh : Beamhall) : SM () :=
  n ← CountResourcesByType (Beamhall_ID bh) ResourceDatabase;
  let max := MaxDBCount (Beamhall_Quota bh) in
  if decide (max ≤ 0 ∨ max ≤ n)%Z then
    throw (ErrQuotaLimit "max_db_count" n max
             "drop an unused database or ask IT to raise the quota")
  else mret tt.
End policy.

Definition EffectiveLiveSlotLimit (bh : Beamhall) : Z :=
  let l := Beamhall_LiveSlotLimit bh in
  let q := MaxLiveSlots (Beamhall_Quota bh) in
  if decide (l ≤ 0 ∨ q ≤ 0)%Z then 0 else if decide (q < l)%Z then q else l.
