(* ===== verification/PolicyProofs.v ===== *)
(** What the policy enforcement point guarantees: who is allowed, that every decision
    is on the record, and how the roles nest. *)
From S2P Require Import Prelude Domain Store StoreOps Fixtures StoreInv AuditLog AuditProofs.
From S2P Require Import Policy.

(** The decision as a function of the tables. *)
Definition allowed (d : DB) (req : Request) : bool :=
  negb (forbidden (Req_Action req))
  && match db_identities d !! Req_Actor req with
     | Some i => bool_decide (Identity_Status i = IdentityActive)
     | None => false
     end
  && match db_beamhalls d !! Req_BeamhallID req with
     | Some bh => bool_decide (Beamhall_Status bh = BeamhallActive)
     | None => false
     end
  && (Req_ITAdmin req
      || match select_one (membership_of (Req_Actor req) (Req_BeamhallID req))
                 (db_memberships d) with
         | Some m => matrix (Membership_Role m) (Req_Action req)
         | None => false
         end).

(** The trail a decision leaves: one event, or none when the log is unavailable (and
    then the answer is no). *)
Definition decided (d d' : DB) (req : Request) (r : error + ()) : Prop :=
  match r with
  | inr _ => ∃ reason seq, appended d d' (decision_event req true reason) seq
  | inl e =>
      (∃ why, e = ErrDenial (Action_string (Req_Action req)) why)
      ∧ (d' = d ∨ ∃ reason seq, appended d d' (decision_event req false reason) seq)
  end.

Section policy.
Context `{!Env}.

Lemma decision_spec req allow reason s (Q : error + () → Store → Prop) :
  (∀ r s', decided (st_db s) (st_db s') req r → (is_inl r = false → allow = true) → Q r s') →
  wp (decision req allow reason) Q s.
Proof.
  intros HQ. unfold decision. apply wp_bind, wp_attempt.
  eapply wp_mono; [apply Append_adds|]. intros [e|seq] s' Hs'.
  - apply wp_throw, HQ; [|done]. split; [eauto|by left].
  - destruct allow; [apply wp_ret|apply wp_throw]; apply HQ; [|done| |done].
    + by exists reason, seq.
    + split; [eauto|right; eauto].
Qed.

Lemma attempt_exec_one {A} (f : DB → option A) s (Q : error + (error + A) → Store → Prop) :
  (∀ e s', st_db s' = st_db s → Q (inr (inl e)) s') →
  (∀ a s', st_db s' = st_db s → f (st_db s) = Some a → Q (inr (inr a)) s') →
  wp (attempt (exec (q_one f))) Q s.
Proof.
  intros He Ha. apply wp_attempt, wp_exec; [done|]. intros a s' Hq. unfold q_one in Hq.
  destruct (f (st_db s)) eqn:E; [|done]. injection Hq as -> Hs. by apply Ha.
Qed.

Lemma Authorize_spec req s :
  wp (Authorize req) (λ r s',
    decided (st_db s) (st_db s') req r
    ∧ (is_inl r = false → allowed (st_db s) req = true)) s.
Proof.
  unfold Authorize, allowed. destruct (forbidden (Req_Action req)).
  { apply decision_spec. intros r s' Hd Ha. split; [done|]. intros Hr. by apply Ha in Hr. }
  assert (∀ reason s1, st_db s1 = st_db s → ∀ b,
    wp (decision req false reason) (λ r s', decided (st_db s) (st_db s') req r
      ∧ (is_inl r = false → b = true)) s1) as Hno.
  { intros reason s1 E b. rewrite <-E. apply decision_spec. intros r s' Hd Ha.
    split; [done|]. intros Hr. by apply Ha in Hr. }
  apply wp_bind, attempt_exec_one; [intros e s1 E1; destruct (is_not_found e); by apply Hno|].
  intros i s1 E1 ->. case_decide as Hi; [by apply Hno|].
  apply wp_bind, attempt_exec_one.
  { intros e s2 E2. destruct (is_not_found e); apply Hno; congruence. }
  rewrite E1. intros bh s2 E2 ->. case_decide as Hb; [by apply Hno|].
  assert (∀ reason s3, st_db s3 = st_db s → ∀ b, b = true →
    wp (decision req true reason) (λ r s', decided (st_db s) (st_db s') req r
      ∧ (is_inl r = false → b = true)) s3) as Hyes.
  { intros reason s3 E b Hbt. rewrite <-E. by apply decision_spec. }
  rewrite !bool_decide_true by done.
  destruct (Req_ITAdmin req); [by apply Hyes|].
  apply wp_bind, attempt_exec_one.
  { intros e s3 E3. destruct (is_not_found e); apply Hno; congruence. }
  intros m s3 E3 Hm. rewrite E2 in Hm. rewrite Hm.
  destruct (matrix (Membership_Role m) (Req_Action req)); [apply Hyes|apply Hno];
  first [congruence|done].
Qed.
End policy.


(** Statements that do not fail. *)
Lemma wp_exec_ok `{!Env} {A} (q : query A) (Q : error + A → Store → Prop) s :
  (∀ n, fault n = None) →
  (∀ n s', st_db s' = match q (st_db s) with inl _ => st_db s | inr (_, d) => d end →
     Q match q (st_db s) with inl e => inl (mapErr n e) | inr (a, _) => inr a end s') →
  wp (exec q) Q s.
Proof.
  intros Hf HQ. unfold wp, exec. rewrite Hf. specialize (HQ (st_step s)). simpl.
  destruct (q (st_db s)) as [e|[a d]]; by apply HQ.
Qed.

Section total.
Context `{!Env} (Hfault : ∀ n, fault n = None).

(** The IDs the log holds are not the ones to come. *)
Definition fresh_for (d : DB) : Prop :=
  ∀ n r, r ∈ db_audit d → Ev_ID (Rec_Event r) ≠ fresh_id n.

Lemma wp_withTx_ok {A} (m : SM A) (Q : error + A → Store → Prop) s :
  (∀ s1, st_db s1 = st_db s →
     wp m (λ r s2, match r with
                   | inl _ => False
                   | inr a => ∀ s', st_db s' = st_db s2 → Q (inr a) s'
                   end) s1) →
  wp (withTx m) Q s.
Proof.
  intros Ha. unfold wp, withTx, exec, q_read in *. rewrite Hfault.
  match goal with |- context [m ?s1] => specialize (Ha s1 eq_refl) end.
  destruct (m _) as [[e|a] s2]; simpl in *; [done|]. rewrite Hfault. simpl. by apply Ha.
Qed.

Lemma Append_total ev s :
  Ev_ID ev = no_id → fresh_for (st_db s) →
  wp (Append ev) (λ r _, is_inl r = false) s.
Proof.
  intros Hid Hfresh. unfold Append, AuditChainAppend, fillAuditEvent. rewrite Hid.
  apply wp_bind, wp_bind, wp_bind. unfold fill_id. rewrite decide_True by done.
  unfold wp at 1. simpl.
  apply wp_bind, wp_fill_time. intros t s2 E2. apply wp_ret, wp_withTx_ok.
  intros s3 E3. apply wp_bind. unfold prev_hash. apply wp_bind, wp_exec_ok; [done|].
  intros n4 s4 E4. simpl in E4.
  assert (∀ s5 prev, st_db s5 = st_db s → wp (
      let ev := seal_event prev (ev <| Ev_ID := fresh_id (st_step s) |> <| Ev_At := t |>) in
      seq ← exec (q_append_audit ev); mret (ev, seq))
    (λ r s2, match r with inl _ => False | inr a => ∀ s' : Store, st_db s' = st_db s2 →
       wp (mret (M := M Store error) a.2) (λ (r : error + Z) _, is_inl r = false) s' end) s5)
    as Hlast.
  { intros s5 prev E5. apply wp_bind, wp_exec_ok; [done|]. intros n s6.
    unfold q_append_audit. rewrite E5. destruct (existsb _ _) eqn:Hex; [|by intros].
    apply existsb_exists in Hex as (r & Hr & Hb%bool_decide_eq_true).
    exfalso. apply list_elem_of_In in Hr. by apply (Hfresh (st_step s) r Hr). }
  simpl. destruct (q_last_audit (st_db s3)) as [row|].
  - apply wp_ret, Hlast. simpl in *. congruence.
  - apply wp_bind, wp_exec_ok; [done|]. intros n5 s5 E5. simpl in *.
    destruct (q_latest_checkpoint (st_db s4)); apply wp_ret, Hlast; congruence.
Qed.

Lemma decision_total req allow reason s :
  fresh_for (st_db s) →
  wp (decision req allow reason) (λ r _, is_inl r = negb allow) s.
Proof.
  intros Hfresh. apply wp_bind, wp_attempt. eapply wp_mono; [by apply Append_total|].
  intros [e|seq] s' Hr; [done|]. by destruct allow.
Qed.
End total.

(** Authorize is complete: when no statement fails and the log does not hold the
    IDs yet to be drawn, it allows exactly the requests the policy allows. *)
Theorem Authorize_complete `{!Env} (req : Request) (s : Store)
    (Hfault : ∀ n, fault n = None) (Hfresh : fresh_for (st_db s)) :
  wp (Authorize req) (λ r _, is_inl r = negb (allowed (st_db s) req)) s.
Proof.
  unfold Authorize, allowed. destruct (forbidden (Req_Action req)); [by apply decision_total|].
  apply wp_bind, wp_attempt, wp_exec_ok; [done|]. intros n s1. unfold q_one.
  destruct (db_identities (st_db s) !! Req_Actor req) as [i|]; intros E1;
    [|by rewrite <-E1 in Hfresh; apply decision_total].
  rewrite <-E1 in Hfresh. case_decide as Hi.
  { rewrite bool_decide_false by done. by apply decision_total. }
  rewrite (bool_decide_true _ Hi). apply wp_bind, wp_attempt, wp_exec_ok; [done|].
  intros n2 s2. unfold q_one. rewrite E1.
  destruct (db_beamhalls (st_db s) !! Req_BeamhallID req) as [bh|]; intros E2;
    [|by rewrite E1, <-E2 in Hfresh; apply decision_total].
  rewrite E1, <-E2 in Hfresh. case_decide as Hb.
  { rewrite bool_decide_false by done. by apply decision_total. }
  rewrite (bool_decide_true _ Hb).
  destruct (Req_ITAdmin req); [by apply decision_total|].
  apply wp_bind, wp_attempt, wp_exec_ok; [done|]. intros n3 s3. unfold q_one. rewrite E2.
  destruct (select_one _ _) as [m|]; intros E3; rewrite E2, <-E3 in Hfresh;
    [|by apply decision_total].
  simpl. destruct (matrix _ _); by apply decision_total.
Qed.

(** Roles are strictly additive (viewer within builder within beamhall_admin),
    what an administrator has over a builder is exactly promote_to_live and
    destroy_beam, no role grants a forbidden action or one outside the table, and a
    forbidden action is refused to an IT administrator too. *)
Theorem roles_additive (a : Action) :
  (matrix RoleViewer a = true → matrix RoleBuilder a = true)
  ∧ (matrix RoleBuilder a = true → matrix RoleBeamhallAdmin a = true)
  ∧ (matrix RoleBeamhallAdmin a = true ∧ matrix RoleBuilder a = false
     ↔ a = ActionPromoteToLive ∨ a = ActionDestroyBeam)
  ∧ (∀ r, forbidden a = true → matrix r a = false)
  ∧ (∀ d req, forbidden a = true → Req_Action req = a → allowed d req = false).
Proof.
  split_and!; [by destruct a|by destruct a|destruct a; naive_solver|by intros []; destruct a|].
  intros d req Ha <-. unfold allowed. by rewrite Ha.
Qed.

Definition TestRequest (a : Action) : Request :=
  MkRequest "bob" "jti" false "H1" "B1" a "10.0.0.9" EmptyString.
Lemma Store1_fresh : fresh_for (st_db Store1).
Proof. intros n r Hr. by apply not_elem_of_nil in Hr. Qed.

Lemma Authorize_complete_witness :
  is_inl (fst (Authorize (TestRequest ActionDeployBeam) Store1)) = false
  ∧ is_inl (fst (Authorize (TestRequest ActionPromoteToLive) Store1)) = true
  ∧ wp (Authorize (TestRequest ActionDeployBeam))
      (λ r _, is_inl r = negb (allowed DB1 (TestRequest ActionDeployBeam))) Store1.
Proof.
  split; [vm_compute; reflexivity|]. split; [vm_compute; reflexivity|].
  apply (Authorize_complete (TestRequest ActionDeployBeam) Store1); [reflexivity|].
  apply Store1_fresh.
Defined.
