(* ===== verification/Vault.v ===== *)
(** The write-only secret vault (internal/secret/secret.go) over the store.  The age
    library and the system's random source are parameters. *)
From S2P Require Import Prelude Domain Store StoreOps.

(** filippo.io/age with the vault's key: what sealing a plaintext gives at the n-th
    step (age draws a fresh file key each time), what opening a ciphertext gives; a
    failure says which of the library's calls it comes from. *)
Inductive AgeFailure :=
  | FailEncrypt (msg : string)
  | FailWrite (msg : string)
  | FailClose (msg : string).
Inductive AgeOpenFailure :=
  | FailDecrypt (msg : string)
  | FailRead (msg : string).
Class Age := {
  age_seal : nat → string → AgeFailure + string;
  age_open : string → AgeOpenFailure + string }.
(** What the vault relies on: a sealed plaintext opens to itself. *)
Class AgeLaws `{!Age} : Prop :=
  age_open_seal n plain ct : age_seal n plain = inr ct → age_open ct = inr plain.

(** crypto/rand.Read of [len] bytes at the n-th step. *)
Class Rand := rand_read : nat → nat → string + string.
Class RandLaws `{!Rand} : Prop :=
  rand_read_length n len b : rand_read n len = inr b → String.length b = len.

(** driver.SecretMount *)
Record SecretMount := MkSecretMount {
  SM_Key : string;
  SM_MountPath : string;
  SM_Value : string}.
#[export] Instance SecretMount_eq_dec : EqDecision SecretMount.
Proof. solve_decision. Defined.

Definition MountPath (key : string) : string := "/run/secrets/" +:+ key.

Definition refKey (ref : SecretRef) : string :=
  Ref_BeamhallID ref +:+ "/" +:+ Ref_BeamID ref +:+ "/"
  +:+ Channel_string (Ref_Channel ref) +:+ "/" +:+ Ref_Key ref.

Section vault.
Context `{!Env, !Age, !Rand}.

(** The number of the current step, for calls outside the database. *)
Definition step_no : SM nat := λ s, (inr (st_step s), s <| st_step := S (st_step s) |>).

Definition encrypt (plain : string) : SM string :=
  n ← step_no;
  match age_seal n plain with
  | inl (FailEncrypt e) => throw (ErrWrap "age encrypt: " (ErrExternal e))
  | inl (FailWrite e) => throw (ErrWrap "age write: " (ErrExternal e))
  | inl (FailClose e) => throw (ErrWrap "age close: " (ErrExternal e))
  | inr ct => mret ct
  end.

Definition decrypt (ct : string) : SM string :=
  match age_open ct with
  | inl (FailDecrypt e) => throw (ErrWrap "age decrypt: " (ErrExternal e))
  | inl (FailRead e) => throw (ErrWrap "age read: " (ErrExternal e))
  | inr plain => mret plain
  end.

Definition newRef : SM string :=
  n ← step_no;
  match rand_read n 16 with
  | inl e => throw (ErrWrap "generate secret ref: " (ErrExternal e))
  | inr b => mret (hex_encode b)
  end.

Definition get_secret (ref : SecretRef) : SM Secret :=
  GetSecret (Ref_BeamhallID ref) (Ref_BeamID ref) (Ref_Key ref) (Ref_Channel ref).

(** Vault.Set *)
Definition Vault_Set (ref : SecretRef) (value : string) (by_ : ID) : SM Secret :=
  ct ← encrypt value;
  prev ← attempt (get_secret ref);
  oldRef ← match prev with
           | inr prev => mret (Secret_ValueRef prev)
           | inl gerr => if is_not_found gerr then mret EmptyString else throw gerr
           end;
  blobRef ← newRef;
  PutSecretValue blobRef ct;;
  sec ← attempt (PutSecret (MkSecret no_id (Ref_BeamhallID ref) (Ref_BeamID ref)
                   (Ref_Channel ref) (Ref_Key ref) blobRef 0 by_ None));
  match sec with
  | inl err => logged (DeleteSecretValue blobRef);; throw err
  | inr sec =>
      (if decide (oldRef ≠ EmptyString ∧ oldRef ≠ blobRef)
       then logged (DeleteSecretValue oldRef) else mret tt);;
      mret sec
  end.

(** Vault.Delete *)
Definition Vault_Delete (ref : SecretRef) : SM () :=
  sec ← attempt (get_secret ref);
  match sec with
  | inr sec =>
      DeleteSecret (Ref_BeamhallID ref) (Ref_BeamID ref) (Ref_Key ref) (Ref_Channel ref);;
      DeleteSecretValue (Secret_ValueRef sec)
  | inl err => if is_not_found err then mret tt else throw err
  end.

(** Vault.Seal and Vault.Open *)
Definition Seal (plain : string) : SM string := encrypt plain.
Definition Open (ct : string) : SM string := decrypt ct.

(** Vault.value *)
Definition vault_value (ref : string) : SM string :=
  ct ← GetSecretValue ref; decrypt ct.

(** fmt.Errorf("<prefix>%w", err) of an error *)
Definition wrapping {W A} (prefix : string) : M W error A → M W error A :=
  map_error (ErrWrap prefix).

Definition inject_one (ref : SecretRef) : SM SecretMount :=
  wrapping ("inject secret " +:+ quoted (Ref_Key ref) +:+ ": ") (
    sec ← get_secret ref;
    val ← vault_value (Secret_ValueRef sec);
    mret (MkSecretMount (Ref_Key ref) (MountPath (Ref_Key ref)) val)).
(** Vault.Inject *)
Fixpoint Inject (refs : list SecretRef) : SM (list SecretMount) :=
  match refs with
  | [] => mret []
  | ref :: refs =>
      m ← inject_one ref;
      ms ← Inject refs;
      mret (m :: ms)
  end.

(** Vault.Reveal *)
Definition Reveal (ref : SecretRef) : SM string :=
  sec ← get_secret ref; vault_value (Secret_ValueRef sec).
End vault.
