(* ===== verification/VaultProofs.v ===== *)
(** What the vault guarantees: a value reads back as it was set, no other secret is
    disturbed, a failed call leaves every readable value as it was, and ciphertexts
    are neither dangling nor left behind. *)
From S2P Require Import Prelude Domain Store StoreOps Fixtures Vault.

(** * Secrets by reference *)

Definition ref_of (x : Secret) : SecretRef :=
  MkSecretRef (Secret_BeamhallID x) (Secret_BeamID x) (Secret_Key x) (Secret_Channel x).
Definition secret_at (ref : SecretRef) (d : DB) : option Secret :=
  select_one (scoped (Ref_BeamhallID ref) (Ref_BeamID ref) (Ref_Key ref) (Ref_Channel ref))
    (db_secrets d).
(** The plaintext the vault reads at a reference. *)
Definition plain_at `{!Age} (ref : SecretRef) (d : DB) : option string :=
  sec ← secret_at ref d;
  ct ← db_secret_values d !! Secret_ValueRef sec;
  match age_open ct with inr p => Some p | inl _ => None end.

(** At most one secret per reference, every secret has its ciphertext, and no two
    share one. *)
Record vault_ok (d : DB) : Prop := MkVaultOk {
  vault_keyed : ∀ id x, db_secrets d !! id = Some x → Secret_ID x = id;
  vault_scope : ∀ i j x y, db_secrets d !! i = Some x → db_secrets d !! j = Some y →
    ref_of x = ref_of y → i = j;
  vault_present : ∀ id x, db_secrets d !! id = Some x →
    is_Some (db_secret_values d !! Secret_ValueRef x);
  vault_private : ∀ i j x y, db_secrets d !! i = Some x → db_secrets d !! j = Some y →
    Secret_ValueRef x = Secret_ValueRef y → i = j }.
(** No ciphertext without a secret. *)
Definition no_orphans (d : DB) : Prop :=
  ∀ r, is_Some (db_secret_values d !! r) →
    ∃ id x, db_secrets d !! id = Some x ∧ Secret_ValueRef x = r.

Lemma scoped_ref ref x :
  scoped (Ref_BeamhallID ref) (Ref_BeamID ref) (Ref_Key ref) (Ref_Channel ref) x
  ↔ ref_of x = ref.
Proof.
  unfold scoped, ref_of. rewrite bool_decide_spec. destruct ref. naive_solver congruence.
Qed.

Lemma secret_at_Some d ref x :
  vault_ok d → secret_at ref d = Some x ↔ ref_of x = ref ∧ ∃ id, db_secrets d !! id = Some x.
Proof.
  intros Hok. split; [by intros [?%scoped_ref ?]%select_one_Some|].
  intros [Hr [id Hx]]. unfold secret_at. destruct (select_one _ _) as [y|] eqn:E.
  - apply select_one_Some in E as [Hy%scoped_ref [j Hj]].
    assert (j = id) as -> by (eapply (vault_scope d Hok); [done..|congruence]). congruence.
  - rewrite select_one_None in E. exfalso. eapply E; [done|]. by apply scoped_ref.
Qed.

Lemma secret_at_None d ref :
  secret_at ref d = None ↔ ∀ id x, db_secrets d !! id = Some x → ref_of x ≠ ref.
Proof.
  unfold secret_at. rewrite select_one_None. by setoid_rewrite scoped_ref.
Qed.

(** ** The statements the vault runs, on the tables *)
Section tables.
Context `{!Age}.
Implicit Types (d : DB) (ref : SecretRef).

Definition unreferenced (r : string) d : Prop :=
  ∀ id x, db_secrets d !! id = Some x → Secret_ValueRef x ≠ r.

Lemma plain_at_values ref d d' :
  db_secrets d' = db_secrets d →
  (∀ id x, db_secrets d !! id = Some x →
     db_secret_values d' !! Secret_ValueRef x = db_secret_values d !! Secret_ValueRef x) →
  plain_at ref d' = plain_at ref d.
Proof.
  intros Hs Hv. unfold plain_at, secret_at. rewrite Hs.
  destruct (select_one _ _) as [x|] eqn:E; [|done].
  apply select_one_Some in E as [_ [id Hx]]. simpl. by rewrite (Hv id x Hx).
Qed.

Lemma vault_ok_values d d' :
  db_secrets d' = db_secrets d →
  (∀ id x, db_secrets d !! id = Some x →
     db_secret_values d' !! Secret_ValueRef x = db_secret_values d !! Secret_ValueRef x) →
  vault_ok d → vault_ok d'.
Proof.
  intros Hs Hv [H1 H2 H3 H4]. split; rewrite ?Hs; [done..| |done].
  intros id x Hx. rewrite (Hv id x Hx). eauto.
Qed.

Lemma fresh_unreferenced r d : vault_ok d → db_secret_values d !! r = None → unreferenced r d.
Proof. intros Hok Hr id x Hx <-. destruct (vault_present d Hok id x Hx). congruence. Qed.

Lemma put_value_same r ct d id x :
  unreferenced r d → db_secrets d !! id = Some x →
  db_secret_values (d <| db_secret_values := <[r := ct]> (db_secret_values d) |>)
    !! Secret_ValueRef x = db_secret_values d !! Secret_ValueRef x.
Proof. intros Hr Hx. simpl. apply lookup_insert_ne. intros E. by apply (Hr id x). Qed.

Lemma delete_value_same r d id x :
  unreferenced r d → db_secrets d !! id = Some x →
  db_secret_values (d <| db_secret_values := delete r (db_secret_values d) |>)
    !! Secret_ValueRef x = db_secret_values d !! Secret_ValueRef x.
Proof. intros Hr Hx. simpl. apply lookup_delete_ne. intros E. by apply (Hr id x). Qed.

(** What UpsertSecret does, in terms of references. *)
Record upserted (sec y : Secret) d d' : Prop := MkUpserted {
  ups_values : db_secret_values d' = db_secret_values d;
  ups_at : secret_at (ref_of sec) d' = Some y;
  ups_ref : Secret_ValueRef y = Secret_ValueRef sec;
  ups_other : ∀ ref, ref ≠ ref_of sec → secret_at ref d' = secret_at ref d;
  ups_rows : ∀ id x, db_secrets d' !! id = Some x →
    x = y ∨ (db_secrets d !! id = Some x ∧ ref_of x ≠ ref_of sec) }.

Lemma secret_at_put d id y ref :
  vault_ok d → vault_ok (d <| db_secrets := <[id := y]> (db_secrets d) |>) →
  ref ≠ ref_of y → (∀ x, db_secrets d !! id = Some x → ref_of x = ref_of y) →
  secret_at ref (d <| db_secrets := <[id := y]> (db_secrets d) |>) = secret_at ref d.
Proof.
  intros Hok Hok' Hne Hold. apply option_eq. intros z.
  rewrite !secret_at_Some by done. simpl.
  split; intros (Hz & j & Hj); (split; [done|]); exists j.
  - apply lookup_insert_Some in Hj as [[<- <-]|[_ Hj]]; [done|exact Hj].
  - rewrite lookup_insert_ne; [done|]. intros ->. apply Hold in Hj. congruence.
Qed.

Lemma UpsertSecret_ok sec y d d' :
  vault_ok d → unreferenced (Secret_ValueRef sec) d →
  is_Some (db_secret_values d !! Secret_ValueRef sec) →
  UpsertSecret sec d = inr (y, d') → vault_ok d' ∧ upserted sec y d d'.
Proof.
  intros Hok Hfresh Hval Hq.
  assert (∃ id, d' = d <| db_secrets := <[id := y]> (db_secrets d) |> ∧ Secret_ID y = id
    ∧ ref_of y = ref_of sec ∧ Secret_ValueRef y = Secret_ValueRef sec
    ∧ (∀ x, db_secrets d !! id = Some x → ref_of x = ref_of sec)
    ∧ (∀ j x, db_secrets d !! j = Some x → ref_of x = ref_of sec → j = id))
    as (id & -> & Hid & Hry & Hvy & Hold & Honly).
  { unfold UpsertSecret in Hq.
    destruct (select_one _ _) as [x|] eqn:E; [|unfold q_insert in Hq; case_decide as Hc].
    - injection Hq as <- <-. assert (secret_at (ref_of sec) d = Some x) as Hx by done.
      apply secret_at_Some in Hx as [Hrx [id Hx]]; [|done].
      pose proof (vault_keyed d Hok id x Hx) as <-. exists (Secret_ID x).
      split_and!; try done.
      + intros z Hz. congruence.
      + intros j z Hz Hrz. eapply (vault_scope d Hok); [done..|congruence].
    - injection Hq as <- <-. exists (Secret_ID sec). destruct Hc as (Hnone & _).
      split_and!; try done; [intros z Hz; congruence|].
      intros j z Hz Hrz. apply (secret_at_None d (ref_of sec)) in Hz; [done|exact E].
    - done. }
  assert (vault_ok (d <| db_secrets := <[id := y]> (db_secrets d) |>)) as Hok'.
  { split; simpl.
    - intros i x. rewrite lookup_insert_Some.
      intros [[<- <-]|[_ Hx]]; [done|by apply (vault_keyed d Hok)].
    - intros i j x z. rewrite !lookup_insert_Some.
      intros [[<- <-]|[Hi Hx]] [[<- <-]|[Hj Hz]] E; [done|..].
      + symmetry. apply (Honly j z); [done|congruence].
      + apply (Honly i x); [done|congruence].
      + by eapply (vault_scope d Hok).
    - intros i x. rewrite lookup_insert_Some. intros [[<- <-]|[_ Hx]];
        [by rewrite Hvy|by apply (vault_present d Hok i)].
    - intros i j x z. rewrite !lookup_insert_Some.
      intros [[<- <-]|[Hi Hx]] [[<- <-]|[Hj Hz]] E; [done|..].
      + exfalso. apply (Hfresh j z); [done|congruence].
      + exfalso. apply (Hfresh i x); [done|congruence].
      + by eapply (vault_private d Hok). }
  split; [done|]. split; try done.
  - apply secret_at_Some; [done|]. split; [done|]. exists id. simpl. apply lookup_insert_eq.
  - intros ref Hne. apply secret_at_put; [done..|congruence|].
    intros x Hx. rewrite Hry. by apply Hold.
  - intros j x. simpl. rewrite lookup_insert_Some. intros [[_ <-]|[Hne Hx]]; [by left|right].
    split; [done|]. intros E. by apply Hne, eq_sym, (Honly j x).
Qed.

(** DELETE FROM secrets at a reference. *)
Lemma delete_secret_ok ref d :
  let d' := d <| db_secrets := filter (λ kv, ¬ scoped (Ref_BeamhallID ref) (Ref_BeamID ref)
                (Ref_Key ref) (Ref_Channel ref) kv.2) (db_secrets d) |> in
  vault_ok d → vault_ok d' ∧ secret_at ref d' = None
  ∧ (∀ ref', ref' ≠ ref → secret_at ref' d' = secret_at ref' d)
  ∧ (∀ id x, db_secrets d' !! id = Some x ↔ db_secrets d !! id = Some x ∧ ref_of x ≠ ref).
Proof.
  intros d' Hok.
  assert (∀ id x, db_secrets d' !! id = Some x ↔ db_secrets d !! id = Some x ∧ ref_of x ≠ ref)
    as Hrows.
  { intros id x. unfold d'. simpl. rewrite map_lookup_filter_Some. simpl.
    by rewrite scoped_ref. }
  assert (vault_ok d') as Hok'.
  { split.
    - intros id x [Hx _]%Hrows. by apply (vault_keyed d Hok).
    - intros i j x y [Hx _]%Hrows [Hy _]%Hrows. by apply (vault_scope d Hok i j).
    - intros id x [Hx _]%Hrows. by apply (vault_present d Hok id).
    - intros i j x y [Hx _]%Hrows [Hy _]%Hrows. by apply (vault_private d Hok i j). }
  split_and!; [done|..|done].
  - apply secret_at_None. by intros id x [_ ?]%Hrows.
  - intros ref' Hne. apply option_eq. intros z. rewrite !secret_at_Some by done.
    setoid_rewrite Hrows. naive_solver congruence.
Qed.
End tables.

(** * The operations *)

Definition put_value (r ct : string) (d : DB) : DB :=
  d <| db_secret_values := <[r := ct]> (db_secret_values d) |>.
Definition drop_value (r : string) (d : DB) : DB :=
  d <| db_secret_values := delete r (db_secret_values d) |>.

Lemma drop_put_value r ct d : db_secret_values d !! r = None → drop_value r (put_value r ct d) = d.
Proof.
  intros Hr. destruct d. unfold drop_value, put_value. simpl in *. f_equal.
  by apply delete_insert_id.
Qed.

Section operations.
Context `{!Env, !Age, !AgeLaws, !Rand}.

(** Some statement of the database fails. *)
Definition faulty : Prop := ∃ n msg, fault n = Some msg.

Lemma wp_encrypt plain (Q : error + string → Store → Prop) s :
  (∀ e s', st_db s' = st_db s → Q (inl e) s') →
  (∀ ct s', st_db s' = st_db s → age_open ct = inr plain → Q (inr ct) s') →
  wp (encrypt plain) Q s.
Proof.
  intros He Hok. unfold encrypt, step_no. apply wp_bind. unfold wp at 1. simpl.
  destruct (age_seal (st_step s) plain) as [[]|ct] eqn:E;
    [by apply wp_throw, He..|]. apply wp_ret, Hok; [done|by eapply age_open_seal].
Qed.

Lemma wp_newRef (Q : error + string → Store → Prop) s :
  (∀ e s', st_db s' = st_db s → Q (inl e) s') →
  (∀ n b s', st_db s' = st_db s → rand_read n 16 = inr b → Q (inr (hex_encode b)) s') →
  wp newRef Q s.
Proof.
  intros He Hok. unfold newRef, step_no. apply wp_bind. unfold wp at 1. simpl.
  destruct (rand_read (st_step s) 16) eqn:E; [by apply wp_throw, He|].
  by eapply wp_ret, Hok.
Qed.

Lemma wp_get_secret ref (Q : error + Secret → Store → Prop) s :
  (∀ e s', st_db s' = st_db s →
     secret_at ref (st_db s) = None ∧ is_not_found e = true
     ∨ faulty ∧ is_not_found e = false → Q (inl e) s') →
  (∀ x s', st_db s' = st_db s → secret_at ref (st_db s) = Some x → Q (inr x) s') →
  wp (get_secret ref) Q s.
Proof.
  intros He Hok. unfold wp, get_secret, GetSecret, exec, q_one.
  destruct (fault _) eqn:Ef; [apply He; [done|right; split; [by eexists _, _|done]]|]. simpl.
  destruct (select_one _ _) eqn:E; [by apply Hok|apply He; auto].
Qed.

Lemma wp_drop_value r (Q : error + () → Store → Prop) s :
  (∀ s', st_db s' = st_db s → faulty → Q (inr tt) s') →
  (∀ s', st_db s' = drop_value r (st_db s) → Q (inr tt) s') →
  wp (logged (DeleteSecretValue r)) Q s.
Proof.
  intros He Hok. apply wp_logged. unfold DeleteSecretValue, wp, exec.
  destruct (fault (st_step s)) eqn:E; [apply He; [done|by eexists _, _]|by apply Hok].
Qed.

(** What Set leaves behind. *)
Definition Set_outcome (ref : SecretRef) (v : string) (d : DB) (r : error + Secret)
    (d' : DB) : Prop :=
  match r with
  | inl _ =>
      d' = d ∨ ∃ blob ct, db_secret_values d !! blob = None ∧ d' = put_value blob ct d ∧ faulty
  | inr y =>
      ∃ blob ct sec d1, db_secret_values d !! blob = None ∧ age_open ct = inr v
        ∧ (∃ n b, rand_read n 16 = inr b ∧ blob = hex_encode b)
        ∧ vault_ok d1 ∧ upserted sec y (put_value blob ct d) d1
        ∧ ref_of sec = ref ∧ Secret_ValueRef sec = blob
        ∧ (d' = d1 ∧ (faulty ∨ ∀ x, secret_at ref d = Some x → Secret_ValueRef x = EmptyString)
           ∨ ∃ x, secret_at ref d = Some x ∧ d' = drop_value (Secret_ValueRef x) d1)
  end.

Lemma put_value_ok r ct d : vault_ok d → db_secret_values d !! r = None → vault_ok (put_value r ct d).
Proof.
  intros Hok Hr. apply (vault_ok_values d); [done| |done]. intros id x Hx.
  apply (put_value_same r ct d id); [by apply fresh_unreferenced|done].
Qed.

Lemma Vault_Set_outcome ref v by_ s :
  vault_ok (st_db s) →
  wp (Vault_Set ref v by_) (λ r s', Set_outcome ref v (st_db s) r (st_db s')) s.
Proof.
  intros Hok. apply wp_bind, wp_encrypt; [by left|]. intros ct s1 E1 Hct.
  apply wp_bind, wp_attempt.
  assert (∀ oldRef s2, st_db s2 = st_db s →
    (∀ x, secret_at ref (st_db s) = Some x → Secret_ValueRef x = oldRef) →
    (oldRef ≠ EmptyString → ∃ x, secret_at ref (st_db s) = Some x ∧ Secret_ValueRef x = oldRef) →
    wp (blobRef ← newRef; PutSecretValue blobRef ct;;
        sec ← attempt (PutSecret (MkSecret no_id (Ref_BeamhallID ref) (Ref_BeamID ref)
                 (Ref_Channel ref) (Ref_Key ref) blobRef 0 by_ None));
        match sec with
        | inl err => logged (DeleteSecretValue blobRef);; throw err
        | inr sec =>
            (if decide (oldRef ≠ EmptyString ∧ oldRef ≠ blobRef)
             then logged (DeleteSecretValue oldRef) else mret tt);; mret sec
        end) (λ r s', Set_outcome ref v (st_db s) r (st_db s')) s2) as Hrest.
  { intros oldRef s2 E2 Hold Hold'. apply wp_bind, wp_newRef; [left; congruence|].
    intros n b s3 E3 Hb. apply wp_bind, wp_exec; [left; congruence|].
    intros [] s4 Hq. unfold q_insert in Hq. case_decide as Hins; [|done].
    assert (st_db s3 = st_db s) as E3' by congruence. rewrite E3' in Hq, Hins.
    set (blob := hex_encode b) in *. destruct Hins as (Hnone & _).
    assert (st_db s4 = put_value blob ct (st_db s)) as Hs4 by (by injection Hq).
    apply wp_bind, wp_attempt. unfold PutSecret.
    apply wp_bind, wp_fill_id. intros id s5 E5.
    apply wp_bind, wp_fill_time. intros t s6 E6.
    assert (st_db s6 = put_value blob ct (st_db s)) as Hs6 by congruence.
    apply wp_exec.
    - intros e s7 E7. apply wp_bind, wp_drop_value; intros s8 E8.
      + intros Hf. apply wp_throw. right. exists blob, ct. split_and!; [done|congruence|done].
      + apply wp_throw. left. rewrite E8, E7, Hs6. by apply drop_put_value.
    - intros y s7 Hu. rewrite Hs6 in Hu.
      apply UpsertSecret_ok in Hu as [Hok1 Hups].
      + assert (∃ sec, upserted sec y (put_value blob ct (st_db s)) (st_db s7)
          ∧ ref_of sec = ref ∧ Secret_ValueRef sec = blob) as (sec & Hups' & Hr & Hv).
        { eexists. split; [exact Hups|]. split; [by destruct ref|done]. }
        clear Hups. apply wp_bind. case_decide as Hgc.
        * destruct (Hold' (proj1 Hgc)) as (x & Hx & Hxr).
          apply wp_drop_value; intros s8 E8; [intros Hf|]; apply wp_ret;
            exists blob, ct, sec, (st_db s7); (split_and!; eauto).
          right. exists x. split; [done|congruence].
        * apply wp_ret, wp_ret. exists blob, ct, sec, (st_db s7). split_and!; eauto.
          left. split; [done|]. right. intros x Hx. rewrite (Hold x Hx). destruct (decide (oldRef = EmptyString)); [done|].
          destruct (Hold' n0) as (x' & Hx' & Hxr').
          destruct (decide (oldRef = blob)); [|naive_solver].
          exfalso. subst oldRef. apply secret_at_Some in Hx' as [_ [i Hi]]; [|done].
          eapply (fresh_unreferenced blob); [exact Hok|done|done|done].
      + by apply put_value_ok.
      + simpl. intros i x Hx. by apply (fresh_unreferenced blob (st_db s) Hok Hnone i x Hx).
      + simpl. rewrite lookup_insert_eq. eauto. }
  apply wp_get_secret.
  - intros e s2 E2 Hnone. apply wp_bind. destruct (is_not_found e).
    + apply wp_ret, Hrest; [congruence| |done].
      destruct Hnone as [[Hnone _]|[]]; [|done]. rewrite E1 in Hnone. by rewrite Hnone.
    + apply wp_throw. left. congruence.
  - intros x s2 E2 Hx. rewrite E1 in Hx. apply wp_bind, wp_ret, Hrest; [congruence|naive_solver|eauto].
Qed.

Definition drop_secret (ref : SecretRef) (d : DB) : DB :=
  d <| db_secrets := filter (λ kv, ¬ scoped (Ref_BeamhallID ref) (Ref_BeamID ref)
         (Ref_Key ref) (Ref_Channel ref) kv.2) (db_secrets d) |>.

(** What Delete leaves behind. *)
Definition Delete_outcome (ref : SecretRef) (d : DB) (r : error + ()) (d' : DB) : Prop :=
  match r with
  | inl _ => faulty ∧ (d' = d ∨ d' = drop_secret ref d)
  | inr _ =>
      secret_at ref d = None ∧ d' = d
      ∨ ∃ x, secret_at ref d = Some x ∧ d' = drop_value (Secret_ValueRef x) (drop_secret ref d)
  end.

Lemma exec_total {A} (q : query A) s (Q : error + A → Store → Prop) a d' :
  q (st_db s) = inr (a, d') →
  (∀ e s', st_db s' = st_db s → faulty → Q (inl e) s') →
  (∀ s', st_db s' = d' → Q (inr a) s') →
  wp (exec q) Q s.
Proof.
  intros Hq He Hok. unfold wp, exec. destruct (fault (st_step s)) eqn:E.
  - apply He; [done|by eexists _, _].
  - simpl. rewrite Hq. by apply Hok.
Qed.

Lemma Vault_Delete_outcome ref s :
  wp (Vault_Delete ref) (λ r s', Delete_outcome ref (st_db s) r (st_db s')) s.
Proof.
  apply wp_bind, wp_attempt, wp_get_secret.
  - intros e s1 E1 [[Hnone ->]|[Hf ->]]; [apply wp_ret; left; by split|].
    apply wp_throw. split; [done|by left].
  - intros x s1 E1 Hx. apply wp_bind. eapply exec_total; [done|..].
    + intros e s2 E2 Hf. split; [done|left; congruence].
    + intros s2 E2. eapply exec_total; [done|..].
      * intros e s3 E3 Hf. split; [done|right]. rewrite E3, E2, E1. done.
      * intros s3 E3. right. exists x. split; [done|]. rewrite E3, E2, E1. done.
Qed.
End operations.

Section outcomes.
Context `{!Env, !Age, !Rand}.

Lemma plain_at_put ref r ct d :
  vault_ok d → db_secret_values d !! r = None → plain_at ref (put_value r ct d) = plain_at ref d.
Proof.
  intros Hok Hr. apply plain_at_values; [done|]. intros id x Hx.
  apply (put_value_same r ct d id); [by apply fresh_unreferenced|done].
Qed.

Lemma drop_unreferenced_ok r d :
  vault_ok d → unreferenced r d →
  vault_ok (drop_value r d) ∧ ∀ ref, plain_at ref (drop_value r d) = plain_at ref d.
Proof.
  intros Hok Hr. split.
  - apply (vault_ok_values d); [done| |done]. intros. by eapply delete_value_same.
  - intros ref. apply plain_at_values; [done|]. intros. by eapply delete_value_same.
Qed.

(** A secret that was replaced or removed leaves its ciphertext unreferenced. *)
Lemma other_rows_unreferenced ref x d d' :
  vault_ok d → secret_at ref d = Some x →
  (∀ id z, db_secrets d' !! id = Some z →
     (db_secrets d !! id = Some z ∧ ref_of z ≠ ref)
     ∨ db_secret_values d !! Secret_ValueRef z = None) →
  unreferenced (Secret_ValueRef x) d'.
Proof.
  intros Hok Hx Hrows id z Hz E. apply secret_at_Some in Hx as [Hr [i Hi]]; [|done].
  destruct (Hrows id z Hz) as [[Hz' Hne]|Hnone].
  - assert (id = i) as -> by (by eapply (vault_private d Hok)). congruence.
  - destruct (vault_present d Hok i x Hi). congruence.
Qed.

Lemma Set_succeeded ref v d y d' :
  vault_ok d → Set_outcome ref v d (inr y) d' →
  vault_ok d' ∧ ∀ ref', plain_at ref' d' = if decide (ref' = ref) then Some v else plain_at ref' d.
Proof.
  intros Hok (blob & ct & sec & d1 & Hnone & Hct & _ & Hok1 & [Hv Hat Hyr Hoth Hrows] & <- & <- & Hd').
  assert (∀ ref', plain_at ref' d1 =
    if decide (ref' = ref_of sec) then Some v else plain_at ref' d) as Hplain.
  { intros ref'. case_decide as Hr.
    - subst. unfold plain_at. rewrite Hat, Hv. simpl. rewrite Hyr, lookup_insert_eq.
      simpl. by rewrite Hct.
    - rewrite <-(plain_at_put ref' (Secret_ValueRef sec) ct d) by done.
      unfold plain_at. by rewrite Hoth, Hv. }
  destruct Hd' as [[-> _]|(x & Hx & ->)]; [done|].
  destruct (drop_unreferenced_ok (Secret_ValueRef x) d1) as [Hok' Hp]; [done| |].
  - eapply other_rows_unreferenced; [exact Hok|exact Hx|]. intros id z Hz.
    destruct (Hrows id z Hz) as [->|?]; [right; by rewrite Hyr|by left].
  - split; [done|]. intros ref'. by rewrite Hp.
Qed.

Lemma drop_secret_ok ref d :
  vault_ok d →
  vault_ok (drop_secret ref d)
  ∧ (∀ ref', plain_at ref' (drop_secret ref d) = if decide (ref' = ref) then None else plain_at ref' d)
  ∧ ∀ x, secret_at ref d = Some x →
      vault_ok (drop_value (Secret_ValueRef x) (drop_secret ref d))
      ∧ ∀ ref', plain_at ref' (drop_value (Secret_ValueRef x) (drop_secret ref d))
          = if decide (ref' = ref) then None else plain_at ref' d.
Proof.
  intros Hok. pose proof (delete_secret_ok ref d Hok) as (Hok' & Hnone & Hoth & Hrows).
  assert (∀ ref', plain_at ref' (drop_secret ref d) =
    if decide (ref' = ref) then None else plain_at ref' d) as Hplain.
  { intros ref'. unfold plain_at. case_decide as Hr; [subst; unfold drop_secret; by rewrite Hnone|].
    unfold drop_secret. by rewrite Hoth. }
  split_and!; [done..|]. intros x Hx.
  destruct (drop_unreferenced_ok (Secret_ValueRef x) (drop_secret ref d)) as [Hok2 Hp].
  - done.
  - eapply other_rows_unreferenced; [exact Hok|exact Hx|]. intros id z Hz. left. by apply Hrows.
  - split; [done|]. intros ref'. by rewrite Hp.
Qed.
End outcomes.

(** The vault refines a map from references to plaintexts: Set inserts, Delete
    removes, no other reference ever changes, and a call that fails, at whichever
    statement, leaves every value readable as it was (a failed Delete may have
    removed its own).  The vault's invariant, one secret per reference and one
    private ciphertext per secret, is kept throughout. *)
Theorem vault_refines_map `{!Env, !Age, !AgeLaws, !Rand} (ref : SecretRef) (v : string)
    (by_ : ID) (s : Store) (Hok : vault_ok (st_db s)) :
  wp (Vault_Set ref v by_) (λ r s', vault_ok (st_db s') ∧
    ∀ ref', plain_at ref' (st_db s') =
      if decide (ref' = ref ∧ is_inl r = false) then Some v else plain_at ref' (st_db s)) s
  ∧ wp (Vault_Delete ref) (λ r s', vault_ok (st_db s') ∧
    (is_inl r = false → plain_at ref (st_db s') = None) ∧
    ∀ ref', plain_at ref' (st_db s') = plain_at ref' (st_db s)
      ∨ (ref' = ref ∧ plain_at ref' (st_db s') = None)) s.
Proof.
  split.
  - eapply wp_mono; [by apply Vault_Set_outcome|]. intros [e|y] s'; simpl.
    + intros [->|(blob & ct & Hb & -> & _)]; (split; [by try apply put_value_ok|]);
        intros ref'; rewrite decide_False by naive_solver; [done|].
      by apply plain_at_put.
    + intros Ho. apply Set_succeeded in Ho as [Hok' Hp]; [|done]. split; [done|].
      intros ref'. rewrite Hp. repeat case_decide; naive_solver.
  - eapply wp_mono; [apply Vault_Delete_outcome|].
    pose proof (drop_secret_ok ref (st_db s) Hok) as (Hok1 & Hp1 & Hdrop).
    intros [e|[]] s'; simpl.
    + intros [_ [->| ->]]; split_and!; try done; [by left|].
      intros ref'. rewrite Hp1. case_decide; [by right|by left].
    + intros [[Hnone ->]|(x & Hx & ->)].
      * split_and!; [done| |by left]. intros _. unfold plain_at. by rewrite Hnone.
      * destruct (Hdrop x Hx) as [Hok2 Hp2]. split_and!; [done| |].
        -- intros _. rewrite Hp2. by rewrite decide_True.
        -- intros ref'. rewrite Hp2. case_decide; [by right|by left].
Qed.

(** Every ciphertext is some secret's, and none stands under the empty reference. *)
Definition tidy (d : DB) : Prop := no_orphans d ∧ db_secret_values d !! EmptyString = None.

Section tidy.
Context `{!Env, !Age, !Rand, !RandLaws} (Hfault : ∀ n, fault n = None).

Lemma not_faulty : ¬ faulty.
Proof using Hfault. intros (n & m & E). by rewrite Hfault in E. Qed.

Lemma Set_tidy ref v d y d' :
  vault_ok d → tidy d → Set_outcome ref v d (inr y) d' → tidy d'.
Proof using All.
  intros Hok [Hno Hempty] (blob & ct & sec & d1 & Hnone & _ & (n & b & Hb & Hblob) & Hok1 &
    [Hv Hat Hyr Hoth Hrows] & <- & <- & Hd').
  assert (Secret_ValueRef sec ≠ EmptyString) as Hne.
  { rewrite Hblob. apply rand_read_length in Hb. by destruct b. }
  pose proof (proj1 (secret_at_Some d1 _ _ Hok1) Hat) as [_ [iy Hiy]].
  assert (∀ r x, is_Some (db_secret_values d1 !! r) → secret_at (ref_of sec) d = Some x →
    r ≠ Secret_ValueRef x → ∃ id z, db_secrets d1 !! id = Some z ∧ Secret_ValueRef z = r)
    as Hkeep.
  { intros r x Hr Hx Hrx. rewrite Hv in Hr. simpl in Hr. apply lookup_insert_is_Some in Hr as [<-|[_ Hr]]; [eauto|].
    destruct (Hno r Hr) as (i & z & Hz & <-).
    assert (ref_of z ≠ ref_of sec) as Hrz.
    { intros Hrz. assert (secret_at (ref_of sec) d = Some z) by (apply secret_at_Some; eauto).
      congruence. }
    assert (secret_at (ref_of z) d1 = Some z) as Hz1.
    { rewrite Hoth by done. by apply (secret_at_Some d); eauto. }
    apply secret_at_Some in Hz1 as [_ [j Hj]]; [eauto|done]. }
  destruct Hd' as [[-> [Hf|Hnoref]]|(x & Hx & ->)]; [by destruct not_faulty| |].
  - split; [|rewrite Hv; simpl; by rewrite lookup_insert_ne].
    intros r Hr. destruct (secret_at (ref_of sec) d) as [x|] eqn:Hx.
    + exfalso. specialize (Hnoref x eq_refl). apply secret_at_Some in Hx as [_ [i Hi]]; [|done].
      apply (vault_present d Hok) in Hi as [? Hi]. congruence.
    + rewrite Hv in Hr. simpl in Hr. apply lookup_insert_is_Some in Hr as [<-|[_ Hr]]; [eauto|].
      destruct (Hno r Hr) as (i & z & Hz & <-).
      assert (secret_at (ref_of z) d1 = Some z) as Hz1.
      { rewrite Hoth; [by apply (secret_at_Some d); eauto|].
        intros Hrz. by apply (proj1 (secret_at_None d _) Hx i z). }
      apply secret_at_Some in Hz1 as [_ [j Hj]]; [eauto|done].
  - split; simpl.
    + intros r Hr. simpl in Hr. apply lookup_delete_is_Some in Hr as [Hrx Hr].
      eapply Hkeep; eauto.
    + apply lookup_delete_None. right. rewrite Hv. simpl. by rewrite lookup_insert_ne.
Qed.

Lemma Delete_tidy ref d x :
  vault_ok d → tidy d → secret_at ref d = Some x →
  tidy (drop_value (Secret_ValueRef x) (drop_secret ref d)).
Proof using.
  intros Hok [Hno Hempty] Hx. split; simpl; [|apply lookup_delete_None; by right].
  intros r Hr. simpl in Hr. apply lookup_delete_is_Some in Hr as [Hrx Hr]. destruct (Hno r Hr) as (i & z & Hz & <-).
  exists i, z. split; [|done]. apply (delete_secret_ok ref d Hok). split; [done|].
  intros Hrz.
  assert (secret_at ref d = Some z) by (apply secret_at_Some; eauto). congruence.
Qed.
End tidy.

(** When no statement fails, Set and Delete leave no ciphertext behind: whatever
    they return, the stored ciphertexts stay exactly those of the current secrets. *)
Theorem vault_leaves_no_orphans `{!Env, !Age, !AgeLaws, !Rand, !RandLaws} (ref : SecretRef)
    (v : string) (by_ : ID) (s : Store) (Hfault : ∀ n, fault n = None)
    (Hok : vault_ok (st_db s)) (Htidy : tidy (st_db s)) :
  wp (Vault_Set ref v by_) (λ _ s', tidy (st_db s')) s
  ∧ wp (Vault_Delete ref) (λ _ s', tidy (st_db s')) s.
Proof.
  pose proof (not_faulty Hfault) as Hnf. split.
  - eapply wp_mono; [by apply Vault_Set_outcome|]. intros [e|y] s'; simpl.
    + intros [->|(? & ? & _ & _ & ?)]; done.
    + by apply Set_tidy.
  - eapply wp_mono; [apply Vault_Delete_outcome|]. intros [e|[]] s'; simpl; [naive_solver|].
    intros [[_ ->]|(x & Hx & ->)]; [done|by apply Delete_tidy].
Qed.

(** Inject only reads, and either returns the mounts of all references in order,
    each at /run/secrets/<key> with the reference's plaintext, or fails; without a
    failing statement it fails only if some reference cannot be read. *)
Theorem Inject_exact `{!Env, !Age, !Rand} (refs : list SecretRef) (s : Store) :
  wp (Inject refs) (λ r s', st_db s' = st_db s ∧
    match r with
    | inr mounts =>
        Forall2 (λ ref m, SM_Key m = Ref_Key ref ∧ SM_MountPath m = MountPath (Ref_Key ref)
                   ∧ plain_at ref (st_db s) = Some (SM_Value m)) refs mounts
    | inl _ => faulty ∨ Exists (λ ref, plain_at ref (st_db s) = None) refs
    end) s.
Proof.
  revert s. induction refs as [|ref refs IH]; intros s; [by apply wp_ret|].
  apply wp_bind. unfold inject_one. apply wp_map_error, wp_bind, wp_get_secret.
  { intros e s1 E1 [[Hnone _]|[Hf _]]; (split; [done|]); [right|by left].
    left. unfold plain_at. by rewrite Hnone. }
  intros x s1 E1 Hx. apply wp_bind. unfold vault_value. apply wp_bind.
  unfold wp at 1, GetSecretValue, exec, q_one.
  destruct (fault (st_step s1)) eqn:Ef; simpl; [split; [done|left; by eexists _, _]|].
  assert (plain_at ref (st_db s) = ct ← db_secret_values (st_db s1) !! Secret_ValueRef x;
    match age_open ct with inr p => Some p | inl _ => None end) as Hp.
  { unfold plain_at. rewrite Hx. simpl. by rewrite E1. }
  destruct (db_secret_values (st_db s1) !! Secret_ValueRef x) as [ct|]; simpl in *.
  2: { split; [done|]. right. by left. }
  unfold decrypt. destruct (age_open ct) as [[]|p].
  1,2: apply wp_throw; (split; [done|]); right; by left.
  apply wp_ret, wp_ret, wp_bind. eapply wp_mono; [apply IH|]. simpl. rewrite E1.
  intros [e|ms] s2 [E2 H2]; [split; [done|]|apply wp_ret; split; [done|]].
  - destruct H2; [by left|right; by right].
  - constructor; [by split_and!|done].
Qed.

(** * A concrete vault *)

(** A cipher that prepends a nonce, and a random source that repeats one. *)
Definition TestAge : Age := {|
  age_seal n p := inr (String (Ascii.ascii_of_nat n) p);
  age_open ct := match ct with
                 | String _ p => inr p
                 | EmptyString => inl (FailDecrypt "no header")
                 end |}.
Fixpoint repeat_byte (c : ascii) (n : nat) : string :=
  match n with O => EmptyString | S n => String c (repeat_byte c n) end.
Definition TestRand : Rand := λ n len, inr (repeat_byte (Ascii.ascii_of_nat n) len).
Lemma TestAge_laws : @AgeLaws TestAge.
Proof. intros n plain ct [= <-]. done. Qed.
Lemma TestRand_laws : @RandLaws TestRand.
Proof. intros n len b [= <-]. induction len; simpl; congruence. Qed.

Definition KeyRef : SecretRef := MkSecretRef "H1" "B1" "API_KEY" ChannelShared.
Lemma DB1_vault_ok : vault_ok DB1.
Proof.
  assert (db_secrets DB1 = ∅) as E by reflexivity.
  split; rewrite E; intros *; by rewrite lookup_empty.
Qed.
Lemma DB1_tidy : tidy DB1.
Proof.
  assert (db_secret_values DB1 = ∅) as E by reflexivity.
  split; [|done]. intros r. rewrite E, lookup_empty. by intros [? ?].
Qed.

Lemma vault_refines_map_witness :
  let _ := TestAge in let _ := TestRand in
  plain_at KeyRef (st_db (snd (Vault_Set KeyRef "s3cret" "bob" Store1))) = Some "s3cret"
  ∧ wp (Vault_Set KeyRef "s3cret" "bob") (λ r s', vault_ok (st_db s') ∧
      ∀ ref', plain_at ref' (st_db s') =
        if decide (ref' = KeyRef ∧ is_inl r = false) then Some "s3cret"
        else plain_at ref' DB1) Store1.
Proof.
  intros Hage Hrand. split; [vm_compute; reflexivity|].
  pose proof TestAge_laws. apply (vault_refines_map KeyRef "s3cret" "bob" Store1 DB1_vault_ok).
Defined.

Lemma vault_leaves_no_orphans_witness :
  let _ := TestAge in let _ := TestRand in
  wp (Vault_Set KeyRef "s3cret" "bob") (λ _ s', tidy (st_db s')) Store1
  ∧ wp (Vault_Delete KeyRef) (λ _ s', tidy (st_db s')) Store1.
Proof.
  intros Hage Hrand. pose proof TestAge_laws. pose proof TestRand_laws.
  apply (vault_leaves_no_orphans KeyRef "s3cret" "bob" Store1); [reflexivity|..].
  - apply DB1_vault_ok.
  - apply DB1_tidy.
Defined.
