(* ===== verification/Scrub.v ===== *)
(** Redaction of secret values from output (internal/secret/scrub.go, heuristics.go):
    known values, secret-shaped patterns, and the line-buffered writer. *)
From S2P Require Import Prelude Regexp Domain Store StoreOps Vault.

Definition Mask : string := "***REDACTED***".
Definition minScrubLen : nat := 4.
Definition maxScrubHold : nat := 8192.

(** bytes.ReplaceAll of a non-empty [old]: [skip] bytes belong to the occurrence just
    replaced. *)
Fixpoint replace_all_from (old new : string) (skip : nat) (s : string) : string :=
  match s with
  | EmptyString => EmptyString
  | String c s' =>
      match skip with
      | S skip => replace_all_from old new skip s'
      | O =>
          if String.prefix old s
          then new +:+ replace_all_from old new (String.length old - 1) s'
          else String c (replace_all_from old new 0 s')
      end
  end.
Definition ReplaceAll (s old new : string) : string := replace_all_from old new 0 s.

(** * Secret shapes (heuristics.go) *)

Definition b64url : re := Class_ (λ c, is_word c || one_of "-" c).
Definition upper_digit : re := Class_ (λ c, is_upper c || is_digit c).
Definition alnum : re := Class_ (λ c, is_upper c || is_lower c || is_digit c).

Definition pem_label : re :=
  Cats [Star true (Class_ (λ c, is_upper c || is_digit c || one_of " " c));
        Lit "PRIVATE KEY"; Opt (Lit " BLOCK"); Lit "-----"].
Definition heuristicPatterns : list re :=
  [ Cats [Lit "-----BEGIN "; pem_label; Star false Any; Lit "-----END "; pem_label];
    Cats [WordBoundary; Lit "eyJ"; AtLeast 6 b64url; Lit "."; AtLeast 6 b64url; Lit ".";
          Star true b64url];
    Cats [WordBoundary; Lit "AKIA"; Times 16 upper_digit; WordBoundary];
    Cats [WordBoundary; Lit "sk-"; AtLeast 16 b64url];
    Cats [WordBoundary; Lit "gh"; Class_ (one_of "pousr"); Lit "_"; AtLeast 20 alnum;
          WordBoundary];
    Cats [WordBoundary; Lit "xox"; Class_ (one_of "baprs"); Lit "-";
          AtLeast 10 (Class_ (λ c, is_upper c || is_lower c || is_digit c || one_of "-" c))];
    Cats [WordBoundary; Lit "AIza"; Times 35 b64url; WordBoundary];
    Cats [WordBoundary; Lit "AGE-SECRET-KEY-1"; AtLeast 40 upper_digit; WordBoundary];
    Cats [WordBoundary; Lit "glpat-"; AtLeast 20 b64url; WordBoundary];
    Cats [WordBoundary; Class_ is_lower;
          Star true (Class_ (λ c, is_lower c || is_digit c || one_of "+.-" c)); Lit "://";
          Plus (Class_ (λ c, negb (is_space c || one_of "/:@" c))); Lit ":";
          Plus (Class_ (λ c, negb (is_space c || one_of "/@" c))); Lit "@"] ].

Definition entropyCandidate : re :=
  AtLeast 28 (Class_ (λ c, is_upper c || is_lower c || is_digit c || one_of "+/_=-" c)).
Definition is_hex (c : ascii) : bool := is_digit c || in_range 97 102 c || in_range 65 70 c.
Definition pureHex : re := Cats [AtStart; Plus (Class_ is_hex); AtEnd].

(** freq[c] *)
Definition occurrences (c : ascii) (s : string) : N :=
  N.of_nat (length (filter (λ d, d = c) (String.list_ascii_of_string s))).
Definition all_ascii : list ascii := Ascii.ascii_of_nat <$> seq 0 256.
(** shannon(b) < entropyThreshold = 4.2.  With n bytes and frequencies f, the entropy
    is log2 n - (sum of f log2 f) / n; multiplied out, the comparison is one of
    integers (Go computes both sides in float64, which rounds). *)
Definition below_entropyThreshold (s : string) : bool :=
  let n := N.of_nat (String.length s) in
  let f := (λ c, occurrences c s) <$> all_ascii in
  (n ^ (5 * n) <? 2 ^ (21 * n) * foldr (λ f acc, (f ^ (5 * f) * acc)) 1 f)%N.

(** heuristicScrub *)
Definition redact_candidate (m : string) : string :=
  if MatchString pureHex m then m
  else if below_entropyThreshold m then m
  else Mask.
Definition heuristicScrub (b : string) : string :=
  ReplaceAllFunc entropyCandidate redact_candidate
    (foldl (λ b r, ReplaceAllFunc r (λ _, Mask) b) b heuristicPatterns).

(** * The scrubber (scrub.go) *)

Record Scrubber := MkScrubber {
  values : list string;
  heuristics : bool}.
#[export] Instance Eta_Scrubber : Eta Scrubber := λ x, MkScrubber (values x) (heuristics x).

Definition WithHeuristics (s : Scrubber) : Scrubber := s <| heuristics := true |>.

(** NewScrubber: the loop over the values, then the sort. *)
Definition keep_value (acc : list string) (v : string) : list string :=
  if decide (String.length v < minScrubLen ∨ v ∈ acc) then acc else acc ++ [v].
Definition NewScrubber (vs : list string) : Scrubber :=
  MkScrubber (stable_sort (λ a b, bool_decide (String.length b ≤ String.length a))
                (foldl keep_value [] vs)) false.

Definition Scrub (s : Scrubber) (b : string) : string :=
  let b := foldl (λ b v, ReplaceAll b v Mask) b (values s) in
  if heuristics s then heuristicScrub b else b.

(** ** The streaming writer *)

(** What the wrapped io.Writer received, and the partial line held back. *)
Record ScrubWriter := MkScrubWriter {
  sw_s : Scrubber;
  sw_w : list string;
  sw_buf : string}.
#[export] Instance Eta_ScrubWriter : Eta ScrubWriter := λ x,
  MkScrubWriter (sw_s x) (sw_w x) (sw_buf x).

(** The text up to and including the first newline, and the rest. *)
Fixpoint cut_line (s : string) : option (string * string) :=
  match s with
  | EmptyString => None
  | String c s =>
      if decide (c = newline) then Some (String c EmptyString, s)
      else match cut_line s with
           | Some (l, rest) => Some (String c l, rest)
           | None => None
           end
  end.

Section writer.
(** The wrapped writer: the error it returns for a chunk, given the chunks it took. *)
Context (sink : list string → string → option string).

Definition WM := M ScrubWriter error.

Definition w_write (chunk : string) : WM () := λ sw,
  match sink (sw_w sw) chunk with
  | Some e => (inl (ErrExternal e), sw)
  | None => (inr tt, sw <| sw_w := sw_w sw ++ [chunk] |>)
  end.

(** The loop of Write over the complete lines; a line is at least a byte, so the
    buffer's length bounds the rounds. *)
Fixpoint write_lines (fuel : nat) : WM () := λ sw,
  match fuel with
  | O => (inr tt, sw)
  | S fuel =>
      match cut_line (sw_buf sw) with
      | None => (inr tt, sw)
      | Some (line, rest) =>
          (w_write (Scrub (sw_s sw) line);;
           modify (λ sw, sw <| sw_buf := rest |>);;
           write_lines fuel) sw
      end
  end.

(** ScrubWriter.Write *)
Definition Write_ (p : string) : WM nat :=
  modify (λ sw, sw <| sw_buf := sw_buf sw +:+ p |>);;
  buf ← gets sw_buf;
  write_lines (String.length buf);;
  sw ← gets id;
  (if decide (maxScrubHold < String.length (sw_buf sw)) then
     w_write (Scrub (sw_s sw) (sw_buf sw));;
     modify (λ sw, sw <| sw_buf := EmptyString |>)
   else mret tt);;
  mret (String.length p).

(** ScrubWriter.Flush: the buffer is dropped even when the write fails. *)
Definition Flush : WM () :=
  sw ← gets id;
  if decide (String.length (sw_buf sw) = 0) then mret tt
  else
    err ← attempt (w_write (Scrub (sw_s sw) (sw_buf sw)));
    modify (λ sw, sw <| sw_buf := EmptyString |>);;
    match err with inl e => throw e | inr _ => mret tt end.
End writer.

(** * The scrubber of a beam *)
Section scrubber_for.
Context `{!Env, !Age}.

Fixpoint scrub_values (beamID : ID) (metas : list Secret) : SM (list string) :=
  match metas with
  | [] => mret []
  | m :: metas =>
      if decide (Secret_BeamID m ≠ no_id ∧ Secret_BeamID m ≠ beamID)
      then scrub_values beamID metas
      else
        val ← wrapping ("scrubber secret " +:+ quoted (Secret_Key m) +:+ ": ")
                (vault_value (Secret_ValueRef m));
        vals ← scrub_values beamID metas;
        mret (val :: vals)
  end.

(** Vault.ScrubberFor *)
Definition ScrubberFor (beamhallID beamID : ID) : SM Scrubber :=
  metas ← ListSecretsByBeamhall beamhallID;
  vals ← scrub_values beamID metas;
  mret (WithHeuristics (NewScrubber vals)).
End scrubber_for.

Example scrub_jwt : heuristicScrub "token=eyJhbGciOi.eyJzdWIiOi.sig done"
  = "token=***REDACTED*** done".
Proof. vm_compute. reflexivity. Qed.
Example scrub_userinfo : heuristicScrub "dial postgres://app:hunter2@db:5432/x"
  = "dial ***REDACTED***db:5432/x".
Proof. vm_compute. reflexivity. Qed.
Example scrub_keeps_digest :
  heuristicScrub "sha256:e3b0c44298fc1c149afbf4c8996fb92427ae41e4649b934ca495991b7852b855"
  = "sha256:e3b0c44298fc1c149afbf4c8996fb92427ae41e4649b934ca495991b7852b855".
Proof. vm_compute. reflexivity. Qed.
Example scrub_entropy : heuristicScrub "k=Zx9Qv3LmT7RbY1KdW5HpN8JsU2CgF6Ae ok" = "***REDACTED*** ok".
Proof. vm_compute. reflexivity. Qed.
