(* ===== verification/ScrubProofs.v ===== *)
(** What redaction guarantees: no known value survives it, and scrubbing a stream
    gives the scrubbed lines of the whole, however the stream is cut. *)
From S2P Require Import Prelude Regexp Domain Store StoreOps Vault Scrub.

(** * Occurrences *)

Definition star : ascii := "*"%char.
Definition starless (v : string) : Prop := all_bytes (λ c, negb (bool_decide (c = star))) v = true.

Inductive occurs (v : string) : string → Prop :=
  | occurs_here s : String.prefix v s = true → occurs v s
  | occurs_later c s : occurs v s → occurs v (String c s).

Lemma prefix_cons c v d s :
  String.prefix (String c v) (String d s) = true ↔ c = d ∧ String.prefix v s = true.
Proof. simpl. destruct (ascii_dec c d); naive_solver. Qed.

Lemma prefix_app v s : String.prefix v (v +:+ s) = true.
Proof. induction v as [|c v IH]; simpl; [by destruct s|]. by destruct (ascii_dec c c). Qed.

Lemma prefix_drop v s :
  String.prefix v s = true → ∃ rest, s = v +:+ rest.
Proof.
  revert s. induction v as [|c v IH]; intros s; [by exists s|].
  destruct s as [|d s]; [done|]. rewrite prefix_cons. intros [<- (rest & ->)%IH]. by exists rest.
Qed.

(** A value without a star that begins in [u] before a star lies in [u]. *)
Lemma prefix_before_star v u s :
  starless v → String.prefix v (u +:+ String star s) = true → String.prefix v u = true.
Proof.
  revert u. induction v as [|c v IH]; intros u Hv Hp; [by destruct u|].
  unfold starless in Hv. simpl in Hv. apply andb_true_iff in Hv as [Hc Hv].
  destruct u as [|d u]; simpl String.append in Hp; apply prefix_cons in Hp as [-> Hp].
  - by compute in Hc.
  - apply prefix_cons. split; [done|]. by apply IH.
Qed.

(** ** Masking: some segments replaced by the mask *)
Inductive masked : string → string → Prop :=
  | masked_nil : masked EmptyString EmptyString
  | masked_keep c s t : masked s t → masked (String c s) (String c t)
  | masked_mask seg s t : masked s t → masked (seg +:+ s) (Mask +:+ t).

Lemma masked_refl s : masked s s.
Proof. induction s; by constructor. Qed.

Lemma masked_app s t s' t' : masked s t → masked s' t' → masked (s +:+ s') (t +:+ t').
Proof.
  intros H Hs'. induction H as [|c s t H IH|seg s t H IH]; [done|by constructor|].
  rewrite (string_app_assoc seg), (string_app_assoc Mask). by constructor.
Qed.

(** A masking may be masked again: the masks of the first pass count as text. *)
Definition redacted : string → string → Prop := rtc masked.

Section value.
Context (v : string) (Hv : starless v) (Hmask : ¬ occurs v Mask).

Lemma masked_prefix w s t :
  starless w → masked s t → String.prefix w t = true → String.prefix w s = true.
Proof using.
  intros Hw Hm. revert w Hw. induction Hm as [|c s t Hm IH|seg s t Hm IH]; intros w Hw Hp; [done|..].
  - destruct w as [|d w]; [done|]. apply prefix_cons in Hp as [-> Hp].
    unfold starless in Hw. simpl in Hw. apply andb_true_iff in Hw as [_ Hw].
    apply prefix_cons. split; [done|]. by apply IH.
  - change Mask with (String star "**REDACTED***") in Hp.
    apply (prefix_before_star w EmptyString) in Hp; [|done]. destruct w; [|done].
    by destruct (seg +:+ s).
Qed.

(** The value occurs after a mask only if it occurs in what follows. *)
Lemma occurs_past_star u t :
  ¬ occurs v u → occurs v (u +:+ String star t) → occurs v t ∨ v = EmptyString.
Proof using Hv Hmask.
  intros Hu Ho. induction u as [|c u IH]; simpl in *.
  - inversion Ho as [? Hp|? ? Ho']; subst; [right|by left].
    apply (prefix_before_star v EmptyString) in Hp; [by destruct v|done].
  - inversion Ho as [? Hp|? ? Ho']; subst.
    + exfalso. apply Hu, occurs_here. by apply (prefix_before_star v (String c u) t).
    + apply IH; [|done]. intros H. by apply Hu, occurs_later.
Qed.

Lemma not_occurs_suffix a b : ¬ occurs v (a +:+ b) → ¬ occurs v b.
Proof using.
  intros H Hb. apply H. clear H. induction a; [done|]. by apply occurs_later.
Qed.

Lemma occurs_past_mask t : occurs v (Mask +:+ t) → occurs v t.
Proof using Hv Hmask.
  assert (v ≠ EmptyString) as Hne by (intros E; apply Hmask, occurs_here; by rewrite E).
  assert (∀ u t, ¬ occurs v u → occurs v (u +:+ String star t) → occurs v t) as Hstep
    by (intros u t' Hu Ho; by destruct (occurs_past_star u t' Hu Ho)).
  assert (∀ a b, Mask = a +:+ b → ¬ occurs v b) as Hsuf.
  { intros a b E. rewrite E in Hmask. by apply (not_occurs_suffix a). }
  assert (¬ occurs v EmptyString) as H0 by (by apply (Hsuf Mask)).
  assert (¬ occurs v "REDACTED") as HR.
  { intros Ho. apply Hmask. clear -Ho. do 3 apply occurs_later.
    change "REDACTED***" with ("REDACTED" +:+ "***").
    induction Ho as [s Hp|c s Ho IH]; [|simpl; by apply occurs_later].
    apply occurs_here. apply prefix_drop in Hp as (rest & ->).
    rewrite string_app_assoc. apply prefix_app. }
  change (Mask +:+ t) with (String star (String star (String star ("REDACTED" +:+
    String star (String star (String star t)))))).
  intros Ho. do 3 (apply (Hstep EmptyString) in Ho; [|done]).
  apply (Hstep "REDACTED") in Ho; [|done]. by do 2 (apply (Hstep EmptyString) in Ho; [|done]).
Qed.

(** Masking introduces no occurrence of the value. *)
Lemma masked_occurs s t : masked s t → occurs v t → occurs v s.
Proof using Hv Hmask.
  induction 1 as [|c s t Hm IH|seg s t Hm IH]; intros Ho; [done|..].
  - inversion Ho as [? Hp|? ? Ho']; subst; [|by apply occurs_later, IH].
    apply occurs_here. apply (masked_prefix v _ (String c t)); [done|by constructor|done].
  - apply occurs_past_mask, IH in Ho. clear -Ho. induction seg; [done|]. by apply occurs_later.
Qed.

Lemma redacted_occurs s t : redacted s t → occurs v t → occurs v s.
Proof using Hv Hmask. induction 1; eauto using masked_occurs. Qed.
End value.

(** * The passes mask *)

Fixpoint drop_bytes (n : nat) (s : string) : string :=
  match n, s with
  | S n, String _ s => drop_bytes n s
  | _, _ => s
  end.

Lemma drop_bytes_app a b : drop_bytes (String.length a) (a +:+ b) = b.
Proof. induction a as [|c a IH]; [by destruct b|]. by rewrite string_app_cons. Qed.
Lemma drop_bytes_length n s : String.length (drop_bytes n s) = String.length s - n.
Proof. revert s. induction n; intros [|c s]; simpl; auto. Qed.

Lemma replace_all_skip old new k s :
  replace_all_from old new k s = replace_all_from old new 0 (drop_bytes k s).
Proof. revert s. induction k as [|k IH]; intros [|c s]; simpl; [done..|by rewrite IH]. Qed.

Lemma ReplaceAll_cases old s :
  old ≠ EmptyString →
  (∃ rest, s = old +:+ rest ∧ ReplaceAll s old Mask = Mask +:+ ReplaceAll rest old Mask)
  ∨ (∃ c s', s = String c s' ∧ String.prefix old s = false
       ∧ ReplaceAll s old Mask = String c (ReplaceAll s' old Mask))
  ∨ s = EmptyString.
Proof.
  intros Hne. destruct s as [|c s]; [by right; right|]. destruct (String.prefix old (String c s)) eqn:E.
  - left. apply prefix_drop in E as (rest & Hs). exists rest. split; [done|].
    destruct old as [|d old]; [done|]. rewrite string_app_cons in Hs. injection Hs as -> ->.
    unfold ReplaceAll. cbn [replace_all_from]. rewrite <-string_app_cons, prefix_app.
    rewrite replace_all_skip. simpl String.length. rewrite Nat.sub_succ, Nat.sub_0_r.
    by rewrite drop_bytes_app.
  - right; left. exists c, s. split_and!; [done..|]. unfold ReplaceAll.
    cbn [replace_all_from]. by rewrite E.
Qed.

Lemma ReplaceAll_masked old s : old ≠ EmptyString → masked s (ReplaceAll s old Mask).
Proof.
  intros Hne. remember (String.length s) as n eqn:Hn. revert s Hn.
  induction n as [n IH] using lt_wf_ind. intros s ->.
  destruct (ReplaceAll_cases old s Hne) as [(rest & Hs & E)|[(c & s' & Hs & _ & E)|Hs]].
  - rewrite E, Hs at 1. apply masked_mask. eapply IH; [|done].
    rewrite Hs, string_length_app. destruct old; [done|]. simpl. lia.
  - rewrite E, Hs at 1. apply masked_keep. eapply IH; [|done]. rewrite Hs. simpl. lia.
  - rewrite Hs. constructor.
Qed.

(** After its own pass a value is gone. *)
Lemma ReplaceAll_absent v s :
  starless v → ¬ occurs v Mask → v ≠ EmptyString → ¬ occurs v (ReplaceAll s v Mask).
Proof.
  intros Hv Hm Hne. remember (String.length s) as n eqn:Hn. revert s Hn.
  induction n as [n IH] using lt_wf_ind. intros s ->.
  destruct (ReplaceAll_cases v s Hne) as [(rest & Hs & E)|[(c & s' & Hs & Hp & E)|Hs]].
  - rewrite E. intros Ho%occurs_past_mask; [|done..]. revert Ho. eapply IH; [|done].
    rewrite Hs, string_length_app. destruct v; [done|]. simpl. lia.
  - rewrite E. intros Ho. inversion Ho as [? Hp'|? ? Ho']; subst.
    + rewrite (masked_prefix v (String c s') (String c (ReplaceAll s' v Mask))) in Hp; try done.
      by apply masked_keep, ReplaceAll_masked.
    + revert Ho'. eapply IH; [|done]. simpl. lia.
  - rewrite Hs. simpl. intros Ho. inversion Ho as [? Hp|]; subst. by destruct v.
Qed.

Lemma substring_drop n s : String.substring 0 n s +:+ drop_bytes n s = s.
Proof.
  revert s. induction n as [|n IH]; intros [|c s]; try done.
  change (String c (String.substring 0 n s +:+ drop_bytes n s) = String c s). by rewrite IH.
Qed.

Lemma replace_skip r f prev k s :
  ∃ prev', replace_from r f prev k s = replace_from r f prev' 0 (drop_bytes k s).
Proof.
  revert prev s. induction k as [|k IH]; intros prev [|c s]; simpl; [by eexists..|apply IH].
Qed.

(** A regexp pass that leaves a match as it is or masks it. *)
Lemma ReplaceAllFunc_masked r f prev s :
  (∀ m, f m = m ∨ f m = Mask) → masked s (replace_from r f prev 0 s).
Proof.
  intros Hf. remember (String.length s) as n eqn:Hn. revert s prev Hn.
  induction n as [n IH] using lt_wf_ind. intros [|c s] prev ->; [constructor|].
  cbn [replace_from].
  assert (masked (String c s) (String c (replace_from r f (Some c) 0 s))) as Hkeep.
  { apply masked_keep. eapply IH; [|done]. simpl. lia. }
  destruct (match_at r (prev, String c s)) as [rest|]; [|done]. cbv zeta.
  case_decide as Hlt; [|done].
  set (n := String.length (String c s) - String.length rest) in *.
  destruct (replace_skip r f (Some c) (n - 1) s) as [prev' ->].
  assert (drop_bytes (n - 1) s = drop_bytes n (String c s)) as ->.
  { destruct n; [lia|]. simpl. by rewrite Nat.sub_0_r. }
  assert (masked (drop_bytes n (String c s))
            (replace_from r f prev' 0 (drop_bytes n (String c s)))) as Htail.
  { eapply IH; [|done]. rewrite drop_bytes_length. simpl. lia. }
  rewrite <-(substring_drop n (String c s)) at 1.
  destruct (Hf (String.substring 0 n (String c s))) as [E|E]; rewrite E;
    [apply masked_app; [apply masked_refl|done]|by apply masked_mask].
Qed.

Lemma heuristicScrub_redacted s : redacted s (heuristicScrub s).
Proof.
  unfold heuristicScrub. etrans; [|apply rtc_once, ReplaceAllFunc_masked].
  - generalize heuristicPatterns. intros l. revert s. induction l as [|r l IH]; intros s; [done|].
    simpl. etrans; [|apply IH]. apply rtc_once, ReplaceAllFunc_masked. by right.
  - intros m. unfold redact_candidate. destruct (MatchString _ _); [by left|].
    destruct (below_entropyThreshold m); [by left|by right].
Qed.

Lemma known_pass_redacted vs s :
  EmptyString ∉ vs → redacted s (foldl (λ b v, ReplaceAll b v Mask) s vs).
Proof.
  revert s. induction vs as [|v vs IH]; intros s Hne; [done|]. simpl.
  apply not_elem_of_cons in Hne as [Hv Hvs]. etrans; [|by apply IH].
  by apply rtc_once, ReplaceAll_masked.
Qed.

(** * The values kept *)

Lemma keep_values vs acc v :
  v ∈ foldl keep_value acc vs ↔ v ∈ acc ∨ (v ∈ vs ∧ minScrubLen ≤ String.length v).
Proof.
  revert acc. induction vs as [|w vs IH]; intros acc; simpl.
  - rewrite elem_of_nil. tauto.
  - rewrite IH, elem_of_cons. unfold keep_value. case_decide as Hw.
    + destruct Hw; naive_solver lia.
    + rewrite elem_of_app, list_elem_of_singleton.
      assert (minScrubLen ≤ String.length w) by (destruct (decide (String.length w < minScrubLen)); [naive_solver|lia]).
      naive_solver.
Qed.

Lemma NewScrubber_values vs v :
  v ∈ values (NewScrubber vs) ↔ v ∈ vs ∧ minScrubLen ≤ String.length v.
Proof.
  simpl. rewrite stable_sort_Permutation, keep_values, elem_of_nil. tauto.
Qed.

Lemma Scrub_hides (vs : list string) (v b : string) (h : bool)
    (Hin : v ∈ vs) (Hlen : minScrubLen ≤ String.length v) (Hstar : starless v)
    (Hmask : ¬ occurs v Mask) :
  ¬ occurs v (Scrub (NewScrubber vs <| heuristics := h |>) b).
Proof.
  assert (∀ l s, EmptyString ∉ l → v ∈ l →
    ¬ occurs v (foldl (λ b v, ReplaceAll b v Mask) s l)) as Hknown.
  { induction l as [|w l IH]; intros s Hne Hv; [by apply not_elem_of_nil in Hv|].
    apply not_elem_of_cons in Hne as [Hw Hl]. simpl.
    apply elem_of_cons in Hv as [<-|Hv]; [|by apply IH].
    intros Ho%(redacted_occurs v Hstar Hmask _ _ (known_pass_redacted l _ Hl)).
    by apply ReplaceAll_absent in Ho. }
  assert (¬ occurs v (foldl (λ b v, ReplaceAll b v Mask) b (values (NewScrubber vs)))) as Hk.
  { apply Hknown; [|by apply NewScrubber_values]. rewrite NewScrubber_values. simpl.
    unfold minScrubLen. intros [_ ?]. lia. }
  unfold Scrub. cbn [heuristics values upd Eta_Scrubber]. destruct h; [|done].
  intros Ho. by apply Hk, (redacted_occurs v Hstar Hmask _ _ (heuristicScrub_redacted _)).
Qed.

(** No secret value of four bytes or more survives scrubbing, with or without the
    heuristics, as long as it has no '*' and is not itself part of the mask: later
    passes and the pattern pass cannot bring it back. *)
Theorem Scrub_hides_known_values (vs : list string) (v b : string) (h : bool)
    (Hin : v ∈ vs) (Hlen : minScrubLen ≤ String.length v) (Hstar : starless v)
    (Hmask : ¬ occurs v Mask) :
  ¬ occurs v (Scrub (NewScrubber vs <| heuristics := h |>) b).
Proof. by apply Scrub_hides. Qed.

(** * The streaming writer *)

(** The lines of a text, newlines included, and its unterminated end. *)
Fixpoint complete_lines (s : string) : list string * string :=
  match s with
  | EmptyString => ([], EmptyString)
  | String c s =>
      let r := complete_lines s in
      if decide (c = newline) then (String c EmptyString :: r.1, r.2)
      else match r.1 with
           | [] => ([], String c r.2)
           | l :: ls => (String c l :: ls, r.2)
           end
  end.
Definition all_lines (s : string) : list string :=
  let r := complete_lines s in
  r.1 ++ (if decide (r.2 = EmptyString) then [] else [r.2]).

Lemma complete_lines_cut s :
  complete_lines s = match cut_line s with
                     | None => ([], s)
                     | Some (l, rest) => (l :: (complete_lines rest).1, (complete_lines rest).2)
                     end.
Proof.
  induction s as [|c s IH]; simpl; [done|]. case_decide as Hc; [done|].
  rewrite IH. by destruct (cut_line s) as [[l rest]|].
Qed.

Lemma complete_lines_app a b :
  complete_lines (a +:+ b) =
    ((complete_lines a).1 ++ (complete_lines ((complete_lines a).2 +:+ b)).1,
     (complete_lines ((complete_lines a).2 +:+ b)).2).
Proof.
  induction a as [|c a IH]; [apply surjective_pairing|].
  rewrite string_app_cons. cbn [complete_lines]. rewrite IH. case_decide as Hc; [done|].
  destruct (complete_lines a) as [[|l ls] t]; simpl; [|done].
  rewrite !decide_False by done.
  by destruct (complete_lines (t +:+ b)) as [[|? ?] ?].
Qed.

Lemma cut_line_length s l rest :
  cut_line s = Some (l, rest) → String.length rest < String.length s.
Proof.
  revert l. induction s as [|c s IH]; intros l; simpl; [done|].
  case_decide; [intros [= <- <-]; lia|].
  destruct (cut_line s) as [[l' rest']|]; [|done]. intros [= <- <-].
  specialize (IH l' eq_refl). lia.
Qed.

(** The tail of a prefix of the text is part of one line of it. *)
Lemma tail_in_line t b :
  (complete_lines t).1 = [] → t ≠ EmptyString →
  ∃ l ls, all_lines (t +:+ b) = l :: ls ∧ String.length t ≤ String.length l.
Proof.
  induction t as [|c t IH]; [done|]. intros Ht _. cbn [complete_lines] in Ht.
  case_decide as Hc; [done|].
  unfold all_lines. rewrite string_app_cons. cbn [complete_lines]. rewrite decide_False by done.
  destruct (complete_lines t).1 eqn:E; [|done].
  destruct (decide (t = EmptyString)) as [->|Hne].
  - destruct (complete_lines (EmptyString +:+ b)) as [[|l ls] r]; simpl.
    + eexists _, _. split; [done|simpl; lia].
    + eexists _, _. split; [done|simpl; lia].
  - destruct (IH eq_refl Hne) as (l & ls & Hl & Hlen). unfold all_lines in Hl.
    destruct (complete_lines (t +:+ b)) as [[|l' ls'] r]; simpl in *.
    + case_decide; [done|]. injection Hl as <- <-. eexists _, _. split; [done|simpl; lia].
    + injection Hl as <- <-. eexists _, _. split; [done|simpl; lia].
Qed.

Section writer.
Context (sink : list string → string → option string).
Context (Hsink : ∀ out chunk, sink out chunk = None).

Lemma w_write_ok chunk sw :
  w_write sink chunk sw = (inr tt, sw <| sw_w := sw_w sw ++ [chunk] |>).
Proof using Hsink. unfold w_write. by rewrite Hsink. Qed.

Lemma write_lines_ok fuel sw :
  String.length (sw_buf sw) ≤ fuel →
  write_lines sink fuel sw = (inr tt,
    sw <| sw_w := sw_w sw ++ (Scrub (sw_s sw) <$> (complete_lines (sw_buf sw)).1) |>
       <| sw_buf := (complete_lines (sw_buf sw)).2 |>).
Proof using Hsink.
  revert sw. induction fuel as [|fuel IH]; intros [sc w buf] Hlen; cbn in Hlen.
  - destruct buf; [|simpl in Hlen; lia]. simpl. by rewrite app_nil_r.
  - cbn [write_lines sw_buf]. rewrite complete_lines_cut.
    destruct (cut_line buf) as [[l rest]|] eqn:E; [|simpl; by rewrite app_nil_r].
    unfold mbind, M_bind. rewrite w_write_ok. cbn.
    apply cut_line_length in E. rewrite IH by (cbn; lia). cbn. by rewrite <-app_assoc.
Qed.

Definition held (text : string) (sw : ScrubWriter) (sc : Scrubber) : Prop :=
  sw = MkScrubWriter sc (Scrub sc <$> (complete_lines text).1) (complete_lines text).2.

Lemma Write_ok p text sw sc :
  held text sw sc → String.length (complete_lines (text +:+ p)).2 ≤ maxScrubHold →
  fst (Write_ sink p sw) = inr (String.length p) ∧ held (text +:+ p) (snd (Write_ sink p sw)) sc.
Proof using Hsink.
  unfold held. intros -> Hhold. rewrite complete_lines_app in Hhold. simpl in Hhold.
  unfold Write_, mbind, M_bind, modify, gets. cbn -[write_lines maxScrubHold].
  rewrite write_lines_ok by done. cbn -[maxScrubHold]. rewrite decide_False by lia. cbn.
  split; [done|]. rewrite (complete_lines_app text p). simpl. by rewrite fmap_app.
Qed.

Definition write_all (ps : list string) : WM () :=
  for_each ps (λ p, Write_ sink p;; mret tt);; Flush sink.

Lemma write_all_ok ps text sw sc :
  held text sw sc →
  Forall (λ l, String.length l ≤ maxScrubHold) (all_lines (foldl String.app text ps)) →
  write_all ps sw =
    (inr tt, MkScrubWriter sc (Scrub sc <$> all_lines (foldl String.app text ps)) EmptyString).
Proof using Hsink.
  unfold write_all. revert text sw. induction ps as [|p ps IH]; intros text sw Hheld Hlines.
  - simpl in *. rewrite Hheld. unfold Flush, gets, attempt, modify, all_lines, mbind, M_bind. cbn.
    destruct (complete_lines text).2 as [|c t] eqn:E; cbn.
    + by rewrite app_nil_r.
    + rewrite decide_False by lia. rewrite w_write_ok. cbn. by rewrite fmap_app.
  - assert (String.length (complete_lines (text +:+ p)).2 ≤ maxScrubHold) as Hhold.
    { assert (∀ ps t, ∃ q, foldl String.app t ps = t +:+ q) as Hfold.
      { clear. induction ps as [|q ps IH]; intros t; simpl.
        - exists EmptyString. by rewrite string_app_nil_r.
        - destruct (IH (t +:+ q)) as [q' ->]. exists (q +:+ q'). by rewrite string_app_assoc. }
      simpl in Hlines. destruct (Hfold ps (text +:+ p)) as [q Hq]. rewrite Hq in Hlines.
      set (t := (complete_lines (text +:+ p)).2) in *.
      destruct (decide (t = EmptyString)) as [E|Hne]; [rewrite E; simpl; lia|].
      assert ((complete_lines t).1 = []) as Ht.
      { pose proof (complete_lines_app (text +:+ p) EmptyString) as E. fold t in E.
        rewrite !string_app_nil_r in E. apply (f_equal fst) in E. simpl in E.
        apply (f_equal length) in E. rewrite length_app in E.
        destruct (complete_lines t).1; [done|simpl in E; lia]. }
      destruct (tail_in_line t q Ht Hne) as (l & ls & Hl & Hlen).
      assert (l ∈ all_lines ((text +:+ p) +:+ q)) as Hin.
      { unfold all_lines in *. rewrite complete_lines_app. fold t. simpl.
        rewrite <-app_assoc. apply elem_of_app. right. rewrite Hl. by left. }
      rewrite Forall_forall in Hlines. specialize (Hlines l Hin). simpl in Hlines. lia. }
    destruct (Write_ok p text sw sc Hheld Hhold) as [Hr Hheld'].
    simpl for_each. unfold mbind, M_bind in *. destruct (Write_ sink p sw) as [r sw'].
    simpl in Hr, Hheld'. subst r. apply (IH (text +:+ p)); done.
Qed.
End writer.

(** Scrubbing a stream is independent of how it is cut into writes: with a sink
    that accepts its input and no line beyond the hold bound, the wrapped writer
    receives exactly the scrubbed lines of the whole text, and nothing is held back
    after Flush. *)
Theorem ScrubWriter_chunking (sc : Scrubber) (ps : list string)
    (sink : list string → string → option string) (Hsink : ∀ out chunk, sink out chunk = None)
    (Hlines : Forall (λ l, String.length l ≤ maxScrubHold)
                (all_lines (foldl String.app EmptyString ps))) :
  (for_each ps (λ p, Write_ sink p;; mret tt);; Flush sink) (MkScrubWriter sc [] EmptyString)
  = (inr tt, MkScrubWriter sc (Scrub sc <$> all_lines (foldl String.app EmptyString ps))
               EmptyString).
Proof. by apply write_all_ok. Qed.

Lemma Scrub_hides_known_values_witness :
  ¬ occurs "hunter2" (Scrub (NewScrubber ["hunter2"; "ter2"] <| heuristics := true |>)
                        "pw=hunter2 and hunter2!").
Proof.
  apply (Scrub_hides_known_values ["hunter2"; "ter2"] "hunter2" "pw=hunter2 and hunter2!" true).
  - left.
  - compute. lia.
  - vm_compute. reflexivity.
  - intros H. repeat (inversion H as [? Hp|? ? H']; subst; [discriminate Hp|]; clear H; rename H' into H).
    inversion H as [? Hp|]; discriminate Hp.
Defined.

Lemma ScrubWriter_chunking_witness :
  let nl := String newline EmptyString in
  (for_each ["a hun"; "ter2" +:+ nl +:+ "ok"; " end"] (λ p, Write_ (λ _ _, None) p;; mret tt);;
   Flush (λ _ _, None)) (MkScrubWriter (NewScrubber ["hunter2"]) [] EmptyString)
  = (inr tt, MkScrubWriter (NewScrubber ["hunter2"])
               ["a " +:+ Mask +:+ nl; "ok end"] EmptyString).
Proof.
  intros nl. etrans; [apply (ScrubWriter_chunking (NewScrubber ["hunter2"])
    ["a hun"; "ter2" +:+ nl +:+ "ok"; " end"] (λ _ _, None)); [done|]|vm_compute; reflexivity].
  change (all_lines _) with ["a hunter2" +:+ nl; "ok end"].
  repeat constructor; apply Nat.leb_le; vm_compute; reflexivity.
Defined.
