(* ===== verification/Outside.v ===== *)
(** What the orchestrator drives but does not implement: the runtime driver
    (internal/driver), the managed-database, identity-provider, mail, object-store,
    build, egress, repository and app-tool seams.  Each is a class of calls on the
    state [X] of everything outside the backplane. *)
From S2P Require Import Prelude GoStrings Domain Vault.

(** A call outside: an error message or a result, and the state it leaves. *)
Definition ext (X A : Type) : Type := X → (string + A) * X.

(** * Driver data (driver.go) *)

Record Handle := MkHandle {
  DriverName : string;
  Ref : string}.
#[export] Instance Handle_eq_dec : EqDecision Handle.
Proof. solve_decision. Defined.

Record SecurityProfile := MkSecurityProfile {
  SP_RuntimeClass : string;
  SP_UsernsRemap : bool;
  SP_CapDrop : list string;
  SP_CapAdd : list string;
  SP_SeccompProfile : string;
  SP_AppArmorProfile : string;
  SP_NoNewPrivileges : bool;
  SP_ReadOnlyRootfs : bool;
  SP_Tmpfs : list string}.

Record DriverLimits := MkDriverLimits {
  DL_CPUQuota : Z;
  DL_MemBytes : Z;
  DL_PidsMax : Z}.

Record DriverNetwork := MkDriverNetwork {
  BeamhallNetwork : string;
  EgressDenyAll_ : bool;
  DN_EgressAllowlist : list string}.

Record ResourceBinding := MkResourceBinding {
  RB_Alias : string;
  RB_MountPath : string;
  RB_Value : string}.

Record DeploySpec := MkDeploySpec {
  DS_BeamID : string;
  DS_BeamhallID : string;
  DS_ImageDigest : string;
  DS_Command : list string;
  DS_Network : DriverNetwork;
  DS_Security : SecurityProfile;
  DS_Resources : DriverLimits;
  DS_Secrets : list SecretMount;
  DS_Bindings : list ResourceBinding;
  DS_Port : Z}.

Record LogOptions := MkLogOptions {
  Follow : bool;
  Since : time;
  TailN : Z;
  Streams : list string}.

Inductive WorkloadState :=
  | WorkloadRunning
  | WorkloadPaused
  | WorkloadExited
  | WorkloadFailed
  | WorkloadUnknown.
#[export] Instance WorkloadState_eq_dec : EqDecision WorkloadState.
Proof. solve_decision. Defined.
Definition WorkloadState_string (x : WorkloadState) : string :=
  match x with
  | WorkloadRunning => "running"
  | WorkloadPaused => "paused"
  | WorkloadExited => "exited"
  | WorkloadFailed => "failed"
  | WorkloadUnknown => "unknown"
  end.

Record Status := MkStatus {
  Status_State : WorkloadState;
  Status_ExitCode : option Z;
  Status_StartedAt : time;
  Status_Health : string;
  Status_BackendAddr : string}.

(** driver.NetworkFacts: ContainerIPs maps container names to addresses. *)
Record NetworkFacts := MkNetworkFacts {
  NF_Bridge : string;
  NF_Subnets : list string;
  NF_Gateway : string;
  NF_ContainerIPs : gmap string string}.
(** driver.BeamIDFromContainerName *)
Definition BeamIDFromContainerName (name : string) : option ID :=
  rest ← CutPrefix name "bh_";
  match LastIndexByte rest "-" with
  | None | Some 0 => None
  | Some i => Some (String.substring 0 i rest)
  end.
Example beam_of_container :
  BeamIDFromContainerName "bh_01JB2-9f3a" = Some "01JB2"
  ∧ BeamIDFromContainerName "bh_-9f3a" = None ∧ BeamIDFromContainerName "bh-postgres" = None.
Proof. vm_compute. done. Qed.

(** driver.RuntimeDriver, the calls the orchestrator makes.  Logs returns what reading
    the stream gives. *)
Class RuntimeDriver (X : Type) := {
  drv_Deploy : DeploySpec → ext X Handle;
  drv_Start : Handle → ext X ();
  drv_Pause : Handle → ext X ();
  drv_Resume : Handle → ext X ();
  drv_Stop : Handle → duration → ext X ();
  drv_Destroy : Handle → ext X ();
  drv_Logs : Handle → LogOptions → ext X string;
  drv_Status : Handle → ext X Status }.

(** * Facilities *)

(** resource.Request and resource.Provisioned *)
Record DBRequest := MkDBRequest {
  DBR_BeamhallSlug : string;
  DBR_BeamSlug : string;
  DBR_Name : string;
  DBR_Network : string}.
Record Provisioned := MkProvisioned {
  DSN : string;
  Database : string;
  Role : string}.
Class DatabaseProvisioner (X : Type) := {
  db_Provision : DBRequest → ext X Provisioned;
  db_Drop : Provisioned → ext X () }.

(** identityadmin.ClientSpec and identityadmin.Client *)
Record ClientSpec := MkClientSpec {
  CS_ClientID : string;
  CS_RedirectURIs : list string;
  CS_WebOrigins : list string;
  CS_AccessTokenTTLSeconds : Z;
  CS_ForbiddenAudience : string}.
Record IdPClient := MkIdPClient {
  Client_UUID : string;
  Client_ClientID : string;
  Client_Secret : string}.
Class IdentityProvider (X : Type) := {
  idp_CreateClient : ClientSpec → ext X IdPClient;
  idp_DeleteClient : string → ext X ();
  idp_SyncRedirectURIs : string → list string → list string → ext X ();
  idp_SetClientGroupRoles : string → list string → ext X () }.

(** identityadmin.NewUser, User, Group and DirectoryFederation *)
Record NewUser := MkNewUser {
  NU_Username : string;
  NU_Email : string;
  NU_FirstName : string;
  NU_LastName : string;
  NU_Enabled : bool}.
Record User := MkUser {
  User_ID : string;
  User_Username : string;
  User_Email : string;
  User_Enabled : bool}.
Record Group := MkGroup {
  Group_ID : string;
  Group_Name : string;
  Group_Path : string}.
Record DirectoryFederation := MkDirectoryFederation {
  DF_Name : string;
  DF_Vendor : string;
  DF_ConnectionURL : string;
  DF_UsersDN : string;
  DF_BindDN : string;
  DF_BindCredential : string}.
(** The calls of identityadmin.Provider that administer accounts and directories. *)
Class Directory (X : Type) := {
  idp_CreateUser : NewUser → ext X User;
  idp_ListUsers : string → Z → ext X (list User);
  idp_SetTemporaryPassword : string → string → ext X ();
  idp_SetUserEnabled : string → bool → ext X ();
  idp_DeleteUser : string → ext X ();
  idp_CreateGroup : string → ext X Group;
  idp_ListGroups : ext X (list Group);
  idp_AddUserToGroup : string → string → ext X ();
  idp_RemoveUserFromGroup : string → string → ext X ();
  idp_DeleteGroup : string → ext X ();
  idp_FederateDirectory : DirectoryFederation → ext X ();
  idp_UnfederateDirectory : string → ext X () }.

(** backup.Manifest and upgrade.Result *)
Record Manifest := MkManifest {
  Man_CreatedAt : string;
  Man_HasKey : bool;
  Man_HasRepos : bool}.
Record Staged := MkStaged {
  Staged_Version : string;
  Staged_Path : string;
  Staged_SHA256 : string;
  ApplyCmd : string;
  RollbackCmd : string}.
(** The appliance's file tree as the backup tools use it (internal/backup, os), and the
    stager of upgrades (internal/upgrade).  A directory that does not exist reads as
    [None]; an entry is a name and whether it is a directory. *)
Class Appliance (X : Type) := {
  os_MkdirAll : string → ext X ();
  os_Size : string → ext X Z;
  os_ReadDir : string → ext X (option (list (string * bool)));
  backup_Create : string → string → string → time → ext X ();
  backup_Verify : string → ext X Manifest;
  CurrentVersion : X → string;
  upgrade_Stage : string → string → ext X Staged }.

(** ** The brokers' data (internal/facility/mail, internal/facility/s3) *)

(** mail.Limits, ProvisionRequest, Credentials, ProviderConfig and Event *)
Record MailLimits := MkMailLimits {
  PerDay : Z;
  Burst : Z}.
Record MailRequest := MkMailRequest {
  MR_BeamID : string;
  MR_AllowedSenders : list string;
  MR_Limits : MailLimits}.
Record MailCredentials := MkMailCredentials {
  Mail_Username : string;
  Mail_Password : string}.
Record MailProvider := MkMailProvider {
  Smarthost : string;
  MP_Username : string;
  MP_Password : string;
  HeloName : string;
  DisableStartTLS : bool;
  InsecureSkipVerify : bool}.
Record MailEvent := MkMailEvent {
  ME_BeamID : string;
  ME_From : string;
  ME_To : list string;
  ME_Size : Z;
  ME_Subject : string;
  ME_MessageID : string;
  ME_Result : string;
  ME_Err : string}.
#[export] Instance Eta_MailEvent : Eta MailEvent := λ e, MkMailEvent (ME_BeamID e) (ME_From e)
  (ME_To e) (ME_Size e) (ME_Subject e) (ME_MessageID e) (ME_Result e) (ME_Err e).

(** s3.ProvisionRequest, Credentials, Registration, ProviderConfig and Event *)
Record S3Request := MkS3Request {
  S3_BeamID : string;
  S3_Channel : string;
  S3_Bucket : string;
  S3_MaxBytes : Z}.
Record S3Credentials := MkS3Credentials {
  AccessKey : string;
  SecretKey : string}.
Record S3Registration := MkS3Registration {
  S3R_BeamID : string;
  S3R_Channel : string;
  S3R_AccessKey : string;
  S3R_SecretKey : string;
  S3R_Bucket : string;
  S3R_MaxBytes : Z}.
Record S3Provider := MkS3Provider {
  Endpoint : string;
  S3P_Region : string;
  S3P_Bucket : string;
  S3P_AccessKey : string;
  S3P_SecretKey : string;
  ForcePathStyle : bool;
  UseSSL : bool}.
Record S3Event := MkS3Event {
  SE_BeamID : string;
  SE_Channel : string;
  SE_Op : string;
  SE_Bucket : string;
  SE_Key : string;
  SE_Size : Z;
  SE_Result : string;
  SE_Err : string}.
#[export] Instance Eta_S3Event : Eta S3Event := λ e, MkS3Event (SE_BeamID e) (SE_Channel e)
  (SE_Op e) (SE_Bucket e) (SE_Key e) (SE_Size e) (SE_Result e) (SE_Err e).

(** SeqEvent of either broker: an event and its number. *)
Record SeqEvent (E : Type) := MkSeqEvent {
  Seq : Z;
  SeqOf : E}.
Arguments MkSeqEvent {E} _ _.
Arguments Seq {E} _.
Arguments SeqOf {E} _.

(** EmailProvisioner and ObjectStoreProvisioner: the brokers behind their control channels,
    and the Attach of each to the bridge of a hall. *)
Class Brokers (X : Type) := {
  email_Provision : MailRequest → ext X MailCredentials;
  email_RegisterHashed : string → string → string → list string → MailLimits → ext X ();
  email_Deregister : string → ext X ();
  email_SetSenders : string → list string → ext X ();
  email_SetProvider : MailProvider → ext X ();
  email_PullEvents : Z → ext X (list (SeqEvent MailEvent) * Z);
  email_Status : ext X (bool * Z);
  email_CACert : ext X string;
  email_Attach : string → ext X ();
  obj_Provision : S3Request → ext X S3Credentials;
  obj_RegisterKey : S3Registration → ext X ();
  obj_Deregister : string → string → bool → ext X ();
  obj_SetProvider : S3Provider → ext X ();
  obj_SetQuota : string → string → Z → ext X ();
  obj_PullEvents : Z → ext X (list (SeqEvent S3Event) * Z);
  obj_Status : ext X (bool * Z);
  obj_Attach : string → ext X () }.

(** build.Result *)
Record BuildResult := MkBuildResult {
  BR_SourceSHA : string;
  BR_Builder : string;
  BR_ImageRef : string;
  BR_ImageDigest : string;
  BR_PullRef : string}.
(** What an assertion attests, as the token's claims (apptools.Signer.Mint). *)
Record Claims := MkClaims {
  Claim_iss : string;
  Claim_aud : string;
  Claim_sub : string;
  Claim_caller_type : string;
  Claim_email : string;
  Claim_groups : list string;
  Claim_channel : string;
  Claim_tool : string;
  Claim_jti : string;
  Claim_iat : Z;
  Claim_exp : Z}.
(** A request to a workload and its answer; [RespFails] is the error reading the body ends
    with, if it does not end with the body. *)
Record HTTPRequest := MkHTTPRequest {
  ReqMethod : string;
  ReqURL : string;
  ReqAssertion : string;
  ReqBody : string}.
Record HTTPResponse := MkHTTPResponse {
  RespStatusCode : Z;
  RespStatus : string;
  RespBody : string;
  RespFails : option string}.
(** apptools.Tool and apptools.Manifest; an input schema is raw JSON. *)
Record Tool := MkTool {
  Tool_Name : string;
  Tool_Description : string;
  Tool_InputSchema : string}.
#[export] Instance Eta_Tool : Eta Tool := λ t,
  MkTool (Tool_Name t) (Tool_Description t) (Tool_InputSchema t).
Record ToolManifest := MkToolManifest {
  TM_Version : Z;
  TM_Tools : list Tool}.
#[export] Instance Eta_ToolManifest : Eta ToolManifest := λ m,
  MkToolManifest (TM_Version m) (TM_Tools m).

(** The build pipeline, the egress reconciler, the repository retirer, the facts of a
    hall's network; the app-tool signer's key (the file mounted for a beam and signing
    claims with a deadline); the standard library's HTTP (parsing a URL, a round trip),
    json.Unmarshal into a manifest, and the rate limiters of golang.org/x/time/rate. *)
Class Platform (X : Type) := {
  BuildFromDir : string → string → string → ext X BuildResult;
  BuildFromCommit : string → string → string → ext X BuildResult;
  egress_sync : ext X ();
  repo_retire : string → string → ID → ext X ();
  net_facts : string → ext X NetworkFacts;
  BindingJSON : string → string;
  jwt_SignedString : Claims → ext X string;
  http_URL : string → option string;
  http_Do : HTTPRequest → ext X HTTPResponse;
  json_Manifest : string → string + ToolManifest;
  limiter_Allow : string → ID → X → bool * X }.
