(* ===== verification/EventRing.v ===== *)
(** The audit ring of a facility broker (internal/facility/mail/control.go and the same code in
    internal/facility/s3/control.go): events numbered as they are recorded, the newest kept,
    pulled by the backplane from a cursor. *)
From S2P Require Import Prelude Regexp GoStrings Outside.

Section ring.
Context {E : Type}.

(** ControlServer: the ring and the number the next event gets. *)
Record ControlServer := MkControlServer {
  cs_token : string;
  maxRing : Z;
  ring : list (SeqEvent E);
  cs_next : Z }.
#[export] Instance Eta_ControlServer : Eta ControlServer := λ c,
  MkControlServer (cs_token c) (maxRing c) (ring c) (cs_next c).

Definition NewControlServer (token : string) (max : Z) : ControlServer :=
  MkControlServer token (if decide (max ≤ 0)%Z then 8192 else max)%Z [] 1.

Definition Record_ (ev : E) (c : ControlServer) : ControlServer :=
  let r := ring c ++ [MkSeqEvent (cs_next c) ev] in
  let over := (Z.of_nat (length r) - maxRing c)%Z in
  c <| ring := if decide (0 < over)%Z then drop (Z.to_nat over) r else r |>
    <| cs_next := (cs_next c + 1)%Z |>.
Definition eventsAfter (after : Z) (c : ControlServer) : list (SeqEvent E) * Z :=
  (filter (λ se, (after < Seq se)%Z) (ring c), (cs_next c - 1)%Z).
End ring.
Arguments ControlServer E : clear implicits.

(** parseInt of the handlers: digits only, an overflow wraps. *)
Fixpoint parseInt_go (s : string) (n : Z) : Z :=
  match s with
  | EmptyString => n
  | String c s =>
      if is_digit c
      then parseInt_go s (wrap64 (n * 10 + Z.of_nat (Ascii.nat_of_ascii c - 48)))
      else 0%Z
  end.
Definition parseInt (s : string) : Z := parseInt_go s 0.

(** The bearer check in front of every handler. *)
Definition guard (token authorization : string) : bool :=
  negb (bool_decide (token = EmptyString)) && bool_decide (authorization = "Bearer " +:+ token).

(** * What a pull returns *)
Section pulls.
Context {E : Type}.
Implicit Types (c : ControlServer E) (log : list E).

(** Events numbered from [n]. *)
Fixpoint numbered (n : Z) log : list (SeqEvent E) :=
  match log with
  | [] => []
  | e :: log => MkSeqEvent n e :: numbered (n + 1) log
  end.
(** The ring holds the newest events of everything recorded since the broker started. *)
Record keeps c log : Prop := MkKeeps {
  k_max : (0 < maxRing c)%Z;
  k_next : cs_next c = (Z.of_nat (length log) + 1)%Z;
  k_ring : ∃ k, ring c = drop k (numbered 1 log)
            ∧ k = length log - Z.to_nat (maxRing c) }.

Lemma numbered_app n l1 l2 :
  numbered n (l1 ++ l2) = numbered n l1 ++ numbered (n + Z.of_nat (length l1)) l2.
Proof.
  revert n. induction l1 as [|e l1 IH]; intros n; simpl; [by rewrite Z.add_0_r|].
  rewrite IH. do 3 f_equal. lia.
Qed.
Lemma length_numbered n log : length (numbered n log) = length log.
Proof. revert n. induction log; intros n; simpl; auto. Qed.
Lemma drop_numbered n k log :
  drop k (numbered n log) = numbered (n + Z.of_nat k) (drop k log).
Proof.
  revert n log. induction k as [|k IH]; intros n log; [by rewrite !drop_0, Z.add_0_r|].
  destruct log as [|e log]; [done|]. simpl. rewrite IH. f_equal. lia.
Qed.
Lemma numbered_after n log k : (n ≤ k + 1)%Z →
  filter (λ se, (k < Seq se)%Z) (numbered n log) = numbered (k + 1) (drop (Z.to_nat (k + 1 - n)) log).
Proof.
  revert n. induction log as [|e log IH]; intros n Hn; [by rewrite drop_nil|].
  simpl. rewrite filter_cons. simpl. case_decide.
  - assert (n = k + 1)%Z as -> by lia. rewrite Z.sub_diag. simpl. f_equal.
    assert (∀ m l, (k < m)%Z → filter (λ se, (k < Seq se)%Z) (numbered m l) = numbered m l) as Hall.
    { intros m l. revert m. induction l as [|x l IHl]; intros m Hm; [done|]. simpl.
      rewrite filter_cons_True by done. f_equal. apply IHl. lia. }
    apply Hall. lia.
  - destruct (decide (n = k + 1)%Z) as [->|]; [lia|].
    rewrite IH by lia. replace (Z.to_nat (k + 1 - n)) with (S (Z.to_nat (k + 1 - (n + 1)))) by lia.
    done.
Qed.

Lemma keeps_new token max : keeps (NewControlServer token max) [].
Proof.
  split; simpl; [|done|by exists 0]. unfold NewControlServer. simpl. case_decide; lia.
Qed.
Lemma keeps_record c log e : keeps c log → keeps (Record_ e c) (log ++ [e]).
Proof.
  intros [Hm Hn (k & Hr & Hk)]. split; simpl; [done|rewrite Hn, length_app; simpl; lia|].
  rewrite Hr, length_app. simpl. rewrite numbered_app. simpl.
  replace (1 + Z.of_nat (length log))%Z with (cs_next c) by lia.
  assert (k ≤ length (numbered 1 log)) as Hle by (rewrite length_numbered; lia).
  rewrite <-drop_app_le by done. eexists. split; [|done].
  assert (length (drop k (numbered 1 log)) = length log - k) as Hlen.
  { by rewrite length_drop, length_numbered. }
  rewrite Hlen, length_app. simpl. case_decide.
  - rewrite drop_drop. f_equal. lia.
  - f_equal. lia.
Qed.

(** A pull from a cursor the broker has reached gives the events after it that are still
    kept, and the number of the newest. *)
Lemma pull_exact c log after : keeps c log → (0 ≤ after)%Z →
  let lost := (Z.of_nat (length log) - maxRing c)%Z in
  eventsAfter after c =
    (numbered (Z.max after lost + 1) (drop (Z.to_nat (Z.max after lost)) log), Z.of_nat (length log)).
Proof.
  intros [Hm Hn (k & Hr & Hk)] Ha lost. unfold eventsAfter. rewrite Hr, Hn. f_equal; [|lia].
  rewrite drop_numbered. destruct (decide (Z.of_nat k ≤ after)%Z) as [Hle|Hgt].
  - rewrite numbered_after by lia. rewrite drop_drop.
    replace (Z.max after lost) with after by lia. do 2 f_equal. lia.
  - assert (∀ m l, (after < m)%Z → filter (λ se, (after < Seq se)%Z) (numbered m l) = numbered m l) as Hall.
    { intros m l. revert m. induction l as [|x l IHl]; intros m Hlt; [done|]. simpl.
      rewrite filter_cons_True by done. f_equal. apply IHl. lia. }
    rewrite Hall by lia. replace (Z.max after lost) with (Z.of_nat k) by lia.
    f_equal; [lia|]. f_equal. lia.
Qed.

(** ** A broker that records and is pulled, in any order *)
Inductive RingStep :=
  | Recorded (e : E)
  | Pulled.
(** The broker, the backplane's cursor and what it has pulled. *)
Definition ring_step (st : RingStep) (s : ControlServer E * Z * list (SeqEvent E))
    : ControlServer E * Z * list (SeqEvent E) :=
  let '(c, cursor, got) := s in
  match st with
  | Recorded e => (Record_ e c, cursor, got)
  | Pulled => let '(events, next) := eventsAfter cursor c in (c, next, got ++ events)
  end.
Definition ring_run (steps : list RingStep) s := foldl (λ s st, ring_step st s) s steps.
Definition recorded_of (steps : list RingStep) : list E :=
  omap (λ st, match st with Recorded e => Some e | Pulled => None end) steps.
(** No more than [n] events are ever recorded between two pulls. *)
Fixpoint pulled_in_time (n : Z) (pending : Z) (steps : list RingStep) : Prop :=
  match steps with
  | [] => True
  | Recorded _ :: steps => (pending + 1 ≤ n)%Z ∧ pulled_in_time n (pending + 1) steps
  | Pulled :: steps => pulled_in_time n 0 steps
  end.

Definition ring_inv (log : list E) (pending : Z) (s : ControlServer E * Z * list (SeqEvent E)) : Prop :=
  let '(c, cursor, got) := s in
  keeps c log ∧ (0 ≤ cursor)%Z ∧ Z.of_nat (length log) = (cursor + pending)%Z
  ∧ (0 ≤ pending ≤ maxRing c)%Z ∧ got = numbered 1 (take (Z.to_nat cursor) log).
Lemma ring_inv_record log p c cursor got e :
  ring_inv log p (c, cursor, got) → (p + 1 ≤ maxRing c)%Z →
  ring_inv (log ++ [e]) (p + 1) (Record_ e c, cursor, got).
Proof.
  intros (Hk & Hc & Hl & Hp & Hg) Hle. split_and!; [by apply keeps_record|done| |lia|done|].
  - rewrite length_app. simpl. lia.
  - by rewrite take_app_le by lia.
Qed.
Lemma ring_inv_pull log p s : ring_inv log p s → ring_inv log 0 (ring_step Pulled s).
Proof.
  destruct s as [[c cursor] got]. intros (Hk & Hc & Hl & Hp & Hg).
  pose proof (pull_exact c log cursor Hk Hc) as [= Hf Hn]. simpl. rewrite Hf, Hn.
  replace (Z.max cursor (Z.of_nat (length log) - maxRing c)) with cursor by lia.
  split_and!; [done|lia|lia|lia|destruct Hk; lia|]. rewrite Nat2Z.id, firstn_all, Hg.
  rewrite <-(take_drop (Z.to_nat cursor) log) at 3. rewrite numbered_app, length_take.
  do 2 f_equal. lia.
Qed.
Lemma ring_run_inv steps log pending s :
  ring_inv log pending s → pulled_in_time (maxRing s.1.1) pending steps →
  ∃ pending', ring_inv (log ++ recorded_of steps) pending' (ring_run steps s).
Proof.
  revert log pending s. induction steps as [|[e|] steps IH]; intros log pending s Hinv Ht.
  - exists pending. unfold recorded_of. simpl. by rewrite app_nil_r.
  - destruct s as [[c cursor] got], Ht as [Hle Ht].
    destruct (IH (log ++ [e]) (pending + 1)%Z (Record_ e c, cursor, got)) as [p' Hi];
      [by apply ring_inv_record|done|].
    exists p'. by rewrite <-app_assoc in Hi.
  - apply (IH log 0%Z (ring_step Pulled s)); [by eapply ring_inv_pull|by destruct s as [[c cursor] got]].
Qed.

(** If the backplane pulls before the ring overflows, what it has pulled after its last pull
    is every event recorded, once each and in order. *)
Lemma pulls_complete (token : string) (max : Z) steps (c0 := NewControlServer token max) :
  pulled_in_time (maxRing c0) 0 steps →
  ∃ c, ring_run (steps ++ [Pulled]) (c0, 0%Z, []) =
    (c, Z.of_nat (length (recorded_of steps)), numbered 1 (recorded_of steps)).
Proof.
  intros Ht. assert (keeps c0 ([] : list E)) as Hk by apply keeps_new.
  destruct (ring_run_inv steps [] 0%Z (c0, 0%Z, [])) as [p Hi]; [|done|].
  { split_and!; try done. destruct Hk; lia. }
  apply ring_inv_pull in Hi. unfold ring_run in *. rewrite foldl_app. simpl.
  destruct (ring_step Pulled _) as [[c cursor] got]. destruct Hi as (_ & Hc & Hl & _ & Hg).
  exists c. simpl in *. rewrite Z.add_0_r in Hl. subst got cursor.
  by rewrite Nat2Z.id, firstn_all.
Qed.

(** A broker that restarted counts from 1 again.  A pull from a cursor it has not reached gives
    nothing and moves the cursor to its newest event: what it recorded since the restart is
    never pulled. *)
Lemma restart_skips c log cursor : keeps c log → (Z.of_nat (length log) ≤ cursor)%Z →
  eventsAfter cursor c = ([], Z.of_nat (length log))
  ∧ ∀ c' log' cursor', keeps c' log' → (Z.of_nat (length log) ≤ cursor')%Z →
      Forall (λ se, Z.of_nat (length log) < Seq se)%Z (eventsAfter cursor' c').1.
Proof.
  intros Hk Hc. split.
  - rewrite (pull_exact c log cursor Hk) by lia. f_equal. rewrite drop_ge by lia. done.
  - intros c' log' cursor' Hk' Hle. unfold eventsAfter. simpl. apply Forall_forall.
    intros se [Hlt _]%list_elem_of_filter. lia.
Qed.
End pulls.

Example parseInt_wraps :
  parseInt "42" = 42%Z ∧ parseInt "-1" = 0%Z ∧ parseInt "9223372036854775808" = (- 2 ^ 63)%Z.
Proof. vm_compute. done. Qed.
