(* ===== verification/S3.v ===== *)
(** The object-store broker's registry and control channel (internal/facility/s3/s3.go,
    control.go, client.go): one binding per beam and channel, found by access key to check a
    signature and by beam to reconcile it.  A binding is a heap object: both maps share it. *)
From S2P Require Import Prelude Regexp GoStrings GoHTTP Outside EventRing.

(** * What the broker reaches *)

(** gofakes3.Backend: the local disk, or an external store behind forward.go. *)
Inductive Backend :=
  | LocalBackend
  | ForwardBackend (cfg : S3Provider).
#[export] Instance S3Provider_eq_dec : EqDecision S3Provider.
Proof. solve_decision. Defined.
#[export] Instance Backend_eq_dec : EqDecision Backend.
Proof. solve_decision. Defined.

(** A request's body: the bytes that come and how they end ([None]: at their end), or a reader
    that strips aws-chunked framing from them. *)
Record Stream := MkStream {
  st_rest : string;
  st_fails : option string}.
Record chunkReader := MkChunkReader {
  cr_br : Stream;
  cr_remain : Z;
  cr_started : bool;
  cr_done : bool;
  cr_limit : Z;
  cr_total : Z}.
#[export] Instance Eta_chunkReader : Eta chunkReader := λ c,
  MkChunkReader (cr_br c) (cr_remain c) (cr_started c) (cr_done c) (cr_limit c) (cr_total c).
Inductive Body :=
  | Plain (s : Stream)
  | Dechunked (c : chunkReader).
(** http.Request, with what its URL's EscapedPath and Query return. *)
Record Request := MkRequest {
  rq_Method : string;
  rq_EscapedPath : string;
  rq_Query : gmap string (list string);
  rq_Host : string;
  rq_ContentLength : Z;
  rq_Header : Header;
  rq_Body : Body}.
#[export] Instance Eta_Request : Eta Request := λ r, MkRequest (rq_Method r) (rq_EscapedPath r)
  (rq_Query r) (rq_Host r) (rq_ContentLength r) (rq_Header r) (rq_Body r).

(** The clock, crypto/rand, the storage backends and the engine over one of them (gofakes3 and
    minio-go), and the file of the provider. *)
Class ObjectHost (X : Type) := {
  s3_now : X → Z;
  s3_rand : nat → ext X string;
  open_backend : Backend → ext X ();
  be_BucketExists : Backend → string → ext X bool;
  be_CreateBucket : Backend → string → ext X ();
  be_ForceDeleteBucket : Backend → string → ext X ();
  be_ListBucket : Backend → string → ext X (list Z);
  engine_ServeHTTP : Backend → Request → X → Z * X;
  is_already_exists : string → bool;
  s3_save_provider : S3Provider → X → X;
  s3_remove_provider : X → X;
  s3_load_provider : X → option (string + S3Provider) }.

(** registration *)
Record S3Binding := MkS3Binding {
  sb_beamID : string;
  sb_channel : string;
  sb_accessKey : string;
  sb_secret : string;
  sb_bucket : string;
  sb_maxBytes : Z}.
#[export] Instance Eta_S3Binding : Eta S3Binding := λ r, MkS3Binding (sb_beamID r) (sb_channel r)
  (sb_accessKey r) (sb_secret r) (sb_bucket r) (sb_maxBytes r).

Record S3Broker (X : Type) := MkS3Broker {
  s3_heap : gmap nat S3Binding;
  byKey : gmap string nat;
  byBeam : gmap string nat;
  backend : option Backend;
  s3_provider : option S3Provider;
  defaultMaxBytes : Z;
  stateDir : string;
  clockSkew : duration;
  s3_control : ControlServer S3Event;
  s3_out : X}.
Arguments MkS3Broker {X} _ _ _ _ _ _ _ _ _ _.
Arguments s3_heap {X} _.
Arguments byKey {X} _.
Arguments byBeam {X} _.
Arguments backend {X} _.
Arguments s3_provider {X} _.
Arguments defaultMaxBytes {X} _.
Arguments stateDir {X} _.
Arguments clockSkew {X} _.
Arguments s3_control {X} _.
Arguments s3_out {X} _.
#[export] Instance Eta_S3Broker X : Eta (S3Broker X) := λ b, MkS3Broker (s3_heap b) (byKey b)
  (byBeam b) (backend b) (s3_provider b) (defaultMaxBytes b) (stateDir b) (clockSkew b)
  (s3_control b) (s3_out b).

Inductive S3Error :=
  | S3ErrNotEnabled
  | S3ErrUnknownBeam
  | S3Err (msg : string).
Definition S3_Error (e : S3Error) : string :=
  match e with
  | S3ErrNotEnabled => "s3: object store not available"
  | S3ErrUnknownBeam => "s3: beam not registered for object storage"
  | S3Err msg => msg
  end.

Section s3.
Context {X : Type} `{!ObjectHost X}.
Notation World := (S3Broker X).
Notation SM := (M World S3Error).

Definition s3_outside {A} (f : ext X A) : SM (string + A) := λ w,
  let '(r, x) := f (s3_out w) in (inr r, w <| s3_out := x |>).
(** A call outside whose error is wrapped. *)
Definition s3_call {A} (wrap : string) (f : ext X A) : SM A :=
  r ← s3_outside f;
  match r with inl e => throw (S3Err (wrap +:+ e)) | inr a => mret a end.
Definition s3_emit (ev : S3Event) : SM () :=
  modify (λ w, w <| s3_control := Record_ ev (s3_control w) |>).

(** * s3.go *)

Definition setBackend (be : Backend) : SM () := modify (λ w, w <| backend := Some be |>).
(** New with its options, and the control server over it: with a state directory the broker
    comes up on the local disk, if it can be opened. *)
Definition S3_New (dir token : string) (maxBytes : Z) (skew : duration) (x : X) : World :=
  let w := MkS3Broker ∅ ∅ ∅ None None (if decide (0 < maxBytes)%Z then maxBytes else 0%Z) dir
             (if decide (0 < skew)%Z then skew else 15 * 60 * 10 ^ 9)%Z
             (NewControlServer token 0) x in
  if decide (dir = EmptyString) then w
  else let '(r, x) := open_backend LocalBackend x in
       w <| s3_out := x |> <| backend := match r with inr _ => Some LocalBackend | inl _ => None end |>.
Definition beamKey (beamID channel : string) : string := beamID +:+ String Ascii.zero channel.
Definition S3_Enabled : SM bool := gets (λ w, bool_decide (is_Some (backend w))).

Definition s3_persistProvider (cfg : S3Provider) (w : World) : World :=
  if decide (stateDir w = EmptyString) then w
  else if decide (TrimSpace (Endpoint cfg) = EmptyString) then w <| s3_out := s3_remove_provider (s3_out w) |>
  else w <| s3_out := s3_save_provider cfg (s3_out w) |>.
(** buildLocalBackend and newForwardBackend, whose checks of the external bucket are the
    opening of that backend. *)
Definition build_backend (cfg : S3Provider) : SM Backend :=
  if decide (TrimSpace (Endpoint cfg) = EmptyString) then
    s3_call "s3: local data dir: " (open_backend LocalBackend);; mret LocalBackend
  else if decide (TrimSpace (S3P_Bucket cfg) = EmptyString) then
    throw (S3Err "s3: forward provider needs a bucket")
  else s3_call "s3: forward client: " (open_backend (ForwardBackend cfg));; mret (ForwardBackend cfg).
Definition S3_SetProvider (cfg : S3Provider) : SM () :=
  be ← build_backend cfg;
  setBackend be;;
  modify (λ w, s3_persistProvider cfg (w <| s3_provider := Some cfg |>)).
Definition S3_LoadProvider : SM () :=
  dir ← gets stateDir;
  if decide (dir = EmptyString) then mret tt
  else
  r ← gets (λ w, s3_load_provider (s3_out w));
  match r with
  | None => mret tt
  | Some (inl e) => throw (S3Err ("s3: parse persisted provider: " +:+ e))
  | Some (inr cfg) => S3_SetProvider cfg
  end.

Definition ensureBucket (bucket : string) : SM () :=
  be ← gets backend;
  match be with
  | None => throw S3ErrNotEnabled
  | Some be =>
      exists_ ← s3_call "s3: bucket exists check: " (be_BucketExists be bucket);
      if (exists_ : bool) then mret tt
      else
      r ← s3_outside (be_CreateBucket be bucket);
      match r with
      | inl e => if is_already_exists e then mret tt else throw (S3Err ("s3: create bucket: " +:+ e))
      | inr _ => mret tt
      end
  end.
Definition RegisterKey (reg : S3Registration) : SM () :=
  if decide (S3R_BeamID reg = EmptyString ∨ S3R_AccessKey reg = EmptyString
             ∨ S3R_SecretKey reg = EmptyString ∨ S3R_Bucket reg = EmptyString) then
    throw (S3Err "s3: incomplete registration")
  else
  d ← gets defaultMaxBytes;
  let r := MkS3Binding (S3R_BeamID reg) (S3R_Channel reg) (S3R_AccessKey reg) (S3R_SecretKey reg)
             (S3R_Bucket reg) (if decide (S3R_MaxBytes reg = 0)%Z then d else S3R_MaxBytes reg) in
  ensureBucket (S3R_Bucket reg);;
  modify (λ w,
    let l := fresh (dom (s3_heap w)) in
    let k := beamKey (S3R_BeamID reg) (S3R_Channel reg) in
    let keys := match byBeam w !! k ≫= λ old, s3_heap w !! old with
                | Some old => if decide (sb_accessKey old ≠ S3R_AccessKey reg)
                              then delete (sb_accessKey old) (byKey w) else byKey w
                | None => byKey w
                end in
    w <| s3_heap := <[l := r]> (s3_heap w) |> <| byKey := <[S3R_AccessKey reg := l]> keys |>
      <| byBeam := <[k := l]> (byBeam w) |>).
Definition SetQuota (beamID channel : string) (maxBytes : Z) : SM () :=
  l ← gets (λ w, byBeam w !! beamKey beamID channel);
  match l with
  | None => throw S3ErrUnknownBeam
  | Some l => modify (λ w, w <| s3_heap := alter (λ r, r <| sb_maxBytes := maxBytes |>) l (s3_heap w) |>)
  end.
Definition S3_Deregister (beamID channel : string) (purge : bool) : SM () :=
  r ← gets (λ w, byBeam w !! beamKey beamID channel ≫= λ l, s3_heap w !! l);
  be ← gets backend;
  match r with
  | None => mret tt
  | Some r =>
      modify (λ w, w <| byKey := delete (sb_accessKey r) (byKey w) |>
                     <| byBeam := delete (beamKey beamID channel) (byBeam w) |>);;
      match be with
      | Some be => if purge then s3_outside (be_ForceDeleteBucket be (sb_bucket r));; mret tt else mret tt
      | None => mret tt
      end
  end.
Definition s3_lookup (accessKey : string) : SM (option S3Binding) :=
  gets (λ w, byKey w !! accessKey ≫= λ l, s3_heap w !! l).

(** * The control channel (control.go) *)

(** deregisterWire and quotaWire *)
Record DeregisterWire := MkDeregisterWire {
  DW_BeamID : string;
  DW_Channel : string;
  DW_Purge : bool}.
Record QuotaWire := MkQuotaWire {
  QW_BeamID : string;
  QW_Channel : string;
  QW_MaxBytes : Z}.
(** A request to the control mux; a body is what decoding its JSON gives. *)
Inductive S3Control :=
  | S3PostProvider (body : string + S3Provider)
  | S3PostRegister (body : string + S3Registration)
  | S3PostDeregister (body : string + DeregisterWire)
  | S3PostQuota (body : string + QuotaWire)
  | S3GetEvents (after : string)
  | S3GetStatus.
Inductive S3Answer :=
  | S3NoContent
  | S3HTTPError (status : Z) (msg : string)
  | S3EventsWire (events : list (SeqEvent S3Event)) (next : Z)
  | S3StatusWire (enabled : bool) (next : Z).
Definition s3_answered (status : Z) (m : SM ()) : SM S3Answer :=
  r ← attempt m;
  mret (match r with inl e => S3HTTPError status (S3_Error e) | inr _ => S3NoContent end).
Definition s3_decoded {A} (body : string + A) (k : A → SM S3Answer) : SM S3Answer :=
  match body with inl e => mret (S3HTTPError 400 e) | inr a => k a end.
Definition s3_handle (req : S3Control) : SM S3Answer :=
  match req with
  | S3PostProvider body => s3_decoded body (λ cfg, s3_answered 400 (S3_SetProvider cfg))
  | S3PostRegister body => s3_decoded body (λ reg, s3_answered 400 (RegisterKey reg))
  | S3PostDeregister body =>
      s3_decoded body (λ dw, S3_Deregister (DW_BeamID dw) (DW_Channel dw) (DW_Purge dw);; mret S3NoContent)
  | S3PostQuota body =>
      s3_decoded body (λ qw, s3_answered 404 (SetQuota (QW_BeamID qw) (QW_Channel qw) (QW_MaxBytes qw)))
  | S3GetEvents after =>
      gets (λ w, let '(events, next) := eventsAfter (parseInt after) (s3_control w) in
                 S3EventsWire events next)
  | S3GetStatus => enabled ← S3_Enabled; gets (λ w, S3StatusWire enabled (cs_next (s3_control w) - 1))
  end.
Definition S3_Control (authorization : string) (req : S3Control) : SM S3Answer :=
  token ← gets (λ w, cs_token (s3_control w));
  if negb (guard token authorization) then mret (S3HTTPError 401 "unauthorized") else s3_handle req.

(** * The backplane's side (client.go), over this handler *)
Section client.
Context (token : string).

Definition s3_client_do (req : S3Control) : SM S3Answer :=
  a ← S3_Control ("Bearer " +:+ token) req;
  match a with
  | S3HTTPError status msg => throw (S3Err ("objstore control: " +:+ format_int status +:+ ": " +:+ TrimSpace msg))
  | a => mret a
  end.
Definition S3_Client_SetProvider (cfg : S3Provider) : SM () := s3_client_do (S3PostProvider (inr cfg));; mret tt.
Definition S3_Client_RegisterKey (reg : S3Registration) : SM () :=
  s3_client_do (S3PostRegister (inr reg));; mret tt.
(** randomToken over the backplane's random bytes *)
Definition randomToken (rand : string + string) : string + string :=
  match rand with inl e => inl e | inr b => inr (hex_encode b) end.
Definition MintCredentials (rand10 rand24 : string + string) : string + S3Credentials :=
  match randomToken rand10 with
  | inl e => inl e
  | inr ak => match randomToken rand24 with
              | inl e => inl e
              | inr sk => inr (MkS3Credentials ("BH" +:+ ToUpper ak) sk)
              end
  end.
Definition S3_Client_Provision (rand10 rand24 : string + string) (req : S3Request) : SM S3Credentials :=
  match MintCredentials rand10 rand24 with
  | inl e => throw (S3Err e)
  | inr creds =>
      S3_Client_RegisterKey (MkS3Registration (S3_BeamID req) (S3_Channel req) (AccessKey creds)
        (SecretKey creds) (S3_Bucket req) (S3_MaxBytes req));;
      mret creds
  end.
Definition S3_Client_Deregister (beamID channel : string) (purge : bool) : SM () :=
  s3_client_do (S3PostDeregister (inr (MkDeregisterWire beamID channel purge)));; mret tt.
Definition S3_Client_SetQuota (beamID channel : string) (maxBytes : Z) : SM () :=
  s3_client_do (S3PostQuota (inr (MkQuotaWire beamID channel maxBytes)));; mret tt.
Definition S3_Client_PullEvents (after : Z) : SM (list (SeqEvent S3Event) * Z) :=
  a ← s3_client_do (S3GetEvents (format_int after));
  match a with S3EventsWire events next => mret (events, next) | _ => throw (S3Err "json") end.
Definition S3_Client_Status : SM (bool * Z) :=
  a ← s3_client_do S3GetStatus;
  match a with S3StatusWire enabled next => mret (enabled, next) | _ => throw (S3Err "json") end.
End client.
End s3.
