(* ===== verification/SigV4.v ===== *)
(** The front of the object-store broker (internal/facility/s3/sigv4.go): every request of a
    beam is authenticated by its SigV4 signature, kept to the beam's bucket and quota, and
    handed to the storage engine with a plain body. *)
From S2P Require Import Prelude Regexp GoStrings GoNet GoHTTP Sha256 Outside EventRing S3.

(** * crypto/hmac over SHA-256 *)

Fixpoint xor_bytes (s : string) (x : nat) : string :=
  match s with
  | EmptyString => EmptyString
  | String c s => String (Ascii.ascii_of_nat (Nat.lxor (Ascii.nat_of_ascii c) x)) (xor_bytes s x)
  end.
(** The key, hashed when it is longer than a block, padded with zeros to one. *)
Definition hmac_block (key : string) : string :=
  let k := if decide (64 < String.length key) then sha256 key else key in
  k +:+ String.string_of_list_ascii (replicate (64 - String.length k) Ascii.zero).
Definition hmacSHA256 (key data : string) : string :=
  sha256 (xor_bytes (hmac_block key) 92 +:+ sha256 (xor_bytes (hmac_block key) 54 +:+ data)).

Definition unsignedPayload : string := "UNSIGNED-PAYLOAD".
Definition newline : string := String (Ascii.ascii_of_nat 10) EmptyString.

(** * The signature *)

Definition unreserved (c : ascii) : bool := is_upper c || is_lower c || is_digit c || one_of "-_.~" c.
Fixpoint awsURIEncode (encodeSlash : bool) (s : string) : string :=
  match s with
  | EmptyString => EmptyString
  | String c s =>
      (if unreserved c || (bool_decide (c = "/"%char) && negb encodeSlash) then String c EmptyString
       else "%" +:+ ToUpper (hex_encode (String c EmptyString))) +:+ awsURIEncode encodeSlash s
  end.
Definition canonicalQuery (v : gmap string (list string)) : string :=
  Join (concat ((λ k, (λ val, awsURIEncode true k +:+ "=" +:+ awsURIEncode true val)
                        <$> sort_strings (default [] (v !! k)))
                 <$> sort_strings (map_to_list v).*1)) "&".
Definition signingKey (secret date region service : string) : string :=
  hmacSHA256 (hmacSHA256 (hmacSHA256 (hmacSHA256 ("AWS4" +:+ secret) date) region) service) "aws4_request".

(** The fields of the Authorization header; a later one of a name replaces an earlier. *)
Definition authorization_fields (auth : string) : string * string * string :=
  foldl (λ '(cred, signed, sig) kv,
    let kv := TrimSpace kv in
    match CutPrefix kv "Credential=", CutPrefix kv "SignedHeaders=", CutPrefix kv "Signature=" with
    | Some v, _, _ => (v, signed, sig)
    | None, Some v, _ => (cred, v, sig)
    | None, None, Some v => (cred, signed, v)
    | None, None, None => (cred, signed, sig)
    end) (EmptyString, EmptyString, EmptyString) (Split auth ",").
Definition signed_value (r : Request) (h : string) : string :=
  if decide (h = "host") then rq_Host r
  else if decide (h = "content-length") then format_int (rq_ContentLength r)
  else Header_Get (rq_Header r) h.
Definition canonical_headers (r : Request) (signed : string) : string :=
  foldr (λ h s, h +:+ ":" +:+ TrimSpace (signed_value r h) +:+ newline +:+ s) EmptyString (Split signed ";").
Definition canonical_request (r : Request) (signed : string) : string :=
  rq_Method r +:+ newline +:+ rq_EscapedPath r +:+ newline +:+ canonicalQuery (rq_Query r) +:+ newline
  +:+ canonical_headers r signed +:+ newline +:+ signed +:+ newline
  +:+ Header_Get (rq_Header r) "X-Amz-Content-Sha256".
Definition string_to_sign (r : Request) (signed date region service : string) : string :=
  "AWS4-HMAC-SHA256" +:+ newline +:+ Header_Get (rq_Header r) "X-Amz-Date" +:+ newline
  +:+ date +:+ "/" +:+ region +:+ "/" +:+ service +:+ "/aws4_request" +:+ newline
  +:+ sha256_hex (canonical_request r signed).
Definition signature (secret : string) (r : Request) (signed date region service : string) : string :=
  hex_encode (hmacSHA256 (signingKey secret date region service)
                (string_to_sign r signed date region service)).

(** * Chunked bodies *)

(** What one Read returns: bytes, the end, an error, or a panic (a negative slice bound). *)
Inductive ReadResult :=
  | ReadBytes (data : string)
  | ReadEOF
  | ReadErr (e : string)
  | ReadPanic.
(** The end of the underlying stream. *)
Definition at_end (s : Stream) : ReadResult :=
  match st_fails s with None => ReadEOF | Some e => ReadErr e end.
(** bufio's Discard(2) and ReadString of a line, [None] when the stream ends first. *)
Definition Discard2 (s : Stream) : option Stream :=
  if decide (String.length (st_rest s) < 2) then None
  else Some (MkStream (from_byte 2 (st_rest s)) (st_fails s)).
Definition ReadLine (s : Stream) : option (string * Stream) :=
  match Cut (st_rest s) (Ascii.ascii_of_nat 10) with
  | (line, Some rest) => Some (line, MkStream rest (st_fails s))
  | (_, None) => None
  end.
Definition crlf : string := String (Ascii.ascii_of_nat 13) newline.
(** The size a chunk's header line declares. *)
Definition chunk_size (line : string) : string + Z :=
  let hdr := TrimRight line crlf in
  let hdr := match IndexByte hdr ";" with Some i => String.substring 0 i hdr | None => hdr end in
  match ParseInt_ 16 (TrimSpace hdr) with
  | inl e => inl ("bad chunk size " +:+ quoted hdr +:+ ": " +:+ ParseInt_error (TrimSpace hdr) e)
  | inr n => inr n
  end.
(** The next chunk's header, when the last chunk is used up. *)
Definition next_chunk (c : chunkReader) : option ReadResult * chunkReader :=
  match (if cr_started c then Discard2 (cr_br c) else Some (cr_br c)) with
  | None => (Some (at_end (cr_br c)), c)
  | Some br =>
      let c := c <| cr_br := br |> <| cr_started := true |> in
      match ReadLine br with
      | None => (Some (at_end br), c <| cr_br := MkStream EmptyString (st_fails br) |>)
      | Some (line, br) =>
          let c := c <| cr_br := br |> in
          match chunk_size line with
          | inl e => (Some (ReadErr e), c)
          | inr n =>
              if decide (n = 0)%Z then (Some ReadEOF, c <| cr_done := true |>)
              else if decide (cr_limit c < wrap64 (cr_total c + n))%Z then
                (Some (ReadErr ("aws-chunked body exceeds its declared X-Amz-Decoded-Content-Length ("
                                +:+ format_int (cr_limit c) +:+ " bytes)")), c)
              else (None, c <| cr_remain := n |>)
          end
      end
  end.
(** Read into a buffer of [room] bytes, of which the underlying reader fills at most [has]. *)
Definition read_data (room has : nat) (c : chunkReader) : ReadResult * chunkReader :=
  let toRead := if decide (cr_remain c < Z.of_nat room)%Z then cr_remain c else Z.of_nat room in
  if decide (toRead < 0)%Z then (ReadPanic, c)
  else
  let rest := st_rest (cr_br c) in
  if decide (rest = EmptyString) then (at_end (cr_br c), c)
  else
  let m := Z.to_nat toRead `min` (1 `max` has) `min` String.length rest in
  (ReadBytes (String.substring 0 m rest),
   c <| cr_br := MkStream (from_byte m rest) (st_fails (cr_br c)) |>
     <| cr_remain := (cr_remain c - Z.of_nat m)%Z |> <| cr_total := (cr_total c + Z.of_nat m)%Z |>).
Definition Read (room has : nat) (c : chunkReader) : ReadResult * chunkReader :=
  if cr_done c then (ReadEOF, c)
  else if decide (cr_remain c = 0)%Z then
    match next_chunk c with
    | (Some r, c) => (r, c)
    | (None, c) => read_data room has c
    end
  else read_data room has c.

Definition normalizeChunked (r : Request) : string + Request :=
  if negb (HasPrefix (Header_Get (rq_Header r) "X-Amz-Content-Sha256") "STREAMING-") then inr r
  else let declared := Header_Get (rq_Header r) "X-Amz-Decoded-Content-Length" in
       match ParseInt_ 10 declared with
       | inl e => inl ("missing X-Amz-Decoded-Content-Length: " +:+ ParseInt_error declared e)
       | inr decLen =>
           let body := match rq_Body r with
                       | Plain s => Dechunked (MkChunkReader s 0 false false decLen 0)
                       | b => b
                       end in
           inr (r <| rq_Body := body |> <| rq_ContentLength := decLen |>
                  <| rq_Header := Header_Del "X-Amz-Decoded-Content-Length" (Header_Del "Content-Encoding"
                       (Header_Set "X-Amz-Content-Sha256" unsignedPayload
                          (Header_Set "Content-Length" (format_int decLen) (rq_Header r)))) |>)
       end.

(** * What a request does *)

(** The declared size of a write. *)
Definition incomingSize (r : Request) : Z :=
  match ParseInt_ 10 (Header_Get (rq_Header r) "X-Amz-Decoded-Content-Length") with
  | inr n => n
  | inl _ => if decide (0 < rq_ContentLength r)%Z then rq_ContentLength r else 0%Z
  end.
Definition Query_Has (r : Request) (k : string) : bool := bool_decide (is_Some (rq_Query r !! k)).
(** The operation, whether it mutates and whether it writes bytes. *)
Definition classify (r : Request) (key : string) : string * bool * bool :=
  if decide (rq_Method r = "PUT") then
    if decide (key = EmptyString) then ("CreateBucket", false, false)
    else if Query_Has r "partNumber" then ("UploadPart", false, true)
    else ("PutObject", true, true)
  else if decide (rq_Method r = "POST") then
    if Query_Has r "uploads" then ("CreateMultipartUpload", false, false)
    else if Query_Has r "uploadId" then ("CompleteMultipartUpload", true, false)
    else if Query_Has r "delete" then ("DeleteObjects", true, false)
    else ("Post", false, false)
  else if decide (rq_Method r = "DELETE") then
    if decide (key = EmptyString) then ("DeleteBucket", true, false) else ("DeleteObject", true, false)
  else (rq_Method r, false, false).
Definition opOf (r : Request) (key : string) : string := (classify r key).1.1.
Definition keyEscapesBucket (key : string) (decode : string → option string) : bool :=
  match decode key with
  | None => true
  | Some decoded => existsb (λ seg, bool_decide (seg = "..")) (Split decoded "/")
  end.
Definition TrimPrefix (s pre : string) : string := default s (CutPrefix s pre).
Definition parseCopySource (source : string) : option (string * string) :=
  match SplitN (TrimPrefix source "/") "/" 2 with
  | [bucket; rest] =>
      if decide (bucket = EmptyString) then None
      else decoded ← QueryUnescape (Cut rest "?").1; Some (bucket, decoded)
  | _ => None
  end.
Definition cleanFirst (p : string) : string := Trim p "/".
Definition firstSeg (p : string) : string := (Cut (TrimPrefix p "/") "/").1.
Definition secondSeg (p : string) : string := default EmptyString (Cut (TrimPrefix p "/") "/").2.

Section serve.
Context {X : Type} `{!ObjectHost X}.
Notation World := (S3Broker X).
Notation SM := (M World S3Error).

(** The binding whose secret signed the request. *)
Definition verify (r : Request) : SM (option S3Binding) :=
  match CutPrefix (Header_Get (rq_Header r) "Authorization") "AWS4-HMAC-SHA256 " with
  | None => mret None
  | Some auth =>
      let '(cred, signed, sig) := authorization_fields auth in
      match SplitN cred "/" 5 with
      | [accessKey; date; region; service; _] =>
          if decide (signed = EmptyString ∨ sig = EmptyString) then mret None
          else
          reg ← s3_lookup accessKey;
          match reg with
          | None => mret None
          | Some reg =>
              match ParseBasic (Header_Get (rq_Header r) "X-Amz-Date") with
              | None => mret None
              | Some reqTime =>
                  now ← gets (λ w, s3_now (s3_out w));
                  limit ← gets clockSkew;
                  let skew := time_sub now reqTime in
                  if decide (limit < skew ∨ skew < - limit)%Z then mret None
                  else if decide (signature (sb_secret reg) r signed date region service = sig)
                       then mret (Some reg) else mret None
              end
          end
      | _ => mret None
      end
  end.

(** The sizes a listing gives, summed; nothing when there is no listing. *)
Definition bucketUsage (bucket : string) : SM Z :=
  be ← gets backend;
  match be with
  | None => mret 0%Z
  | Some be =>
      l ← s3_outside (be_ListBucket be bucket);
      mret (match l with
            | inl _ => 0%Z
            | inr sizes => foldl (λ total n, wrap64 (total + n)) 0%Z sizes
            end)
  end.

(** What the client gets: an error the broker answers, the caller's own bucket, or whatever
    the engine answered, by its status. *)
Inductive Answer :=
  | OwnBucketList (bucket : string)
  | s3Error (status : Z) (code : string)
  | EngineStatus (status : Z).
Definition event_of (reg : S3Binding) (op bucket key : string) (size : Z) (result err : string) : S3Event :=
  MkS3Event (sb_beamID reg) (sb_channel reg) op bucket key size result err.

(** The copy source is the caller's own. *)
Definition copy_allowed (r : Request) (bucket : string) : bool :=
  let src := Header_Get (rq_Header r) "X-Amz-Copy-Source" in
  bool_decide (src = EmptyString)
  || match parseCopySource src with
     | None => false
     | Some (srcBucket, srcKey) =>
         bool_decide (srcBucket = bucket) && negb (keyEscapesBucket srcKey Some)
     end.
(** The write would exceed the quota, and by how much is coming in. *)
Definition over_quota (reg : S3Binding) (r : Request) (quotaWrite : bool) : SM bool :=
  let incoming := incomingSize r in
  if quotaWrite && bool_decide (0 < sb_maxBytes reg)%Z && bool_decide (0 < incoming)%Z then
    usage ← bucketUsage (sb_bucket reg);
    mret (bool_decide (sb_maxBytes reg < wrap64 (usage + incoming))%Z)
  else mret false.
(** The engine, and the audit of mutations and failures. *)
Definition ServeHTTP (be : Backend) (r : Request) : SM Z := λ w,
  let '(status, x) := engine_ServeHTTP be r (s3_out w) in (inr status, w <| s3_out := x |>).
Definition run_engine (reg : S3Binding) (r : Request) (op bucket key : string) (mutation : bool)
    : SM Answer :=
  be ← gets backend;
  match be with
  | None => mret (s3Error 503 "ServiceUnavailable")
  | Some be =>
      status ← ServeHTTP be r;
      let failed := bool_decide (400 ≤ status)%Z in
      let '(result, err) :=
        if failed then ("failed", "status " +:+ format_int status) else ("ok", EmptyString) in
      (if mutation || failed
       then s3_emit (event_of reg op bucket key (incomingSize r) result err) else mret tt);;
      mret (EngineStatus status)
  end.
Definition serve (r : Request) : SM Answer :=
  let path := rq_EscapedPath r in
  let bucket := firstSeg path in
  let key := secondSeg path in
  found ← verify r;
  match found with
  | None =>
      s3_emit (MkS3Event EmptyString EmptyString (opOf r key) bucket EmptyString 0 "denied"
                 "signature does not match");;
      mret (s3Error 403 "SignatureDoesNotMatch")
  | Some reg =>
      let deny why status code :=
        s3_emit (event_of reg (opOf r key) bucket key 0 "denied" why);; mret (s3Error status code) in
      if decide (rq_Method r = "GET" ∧ cleanFirst path = EmptyString) then mret (OwnBucketList (sb_bucket reg))
      else if decide (bucket ≠ EmptyString ∧ bucket ≠ sb_bucket reg) then
        deny "cross-bucket access" 403%Z "AccessDenied"
      else if negb (bool_decide (key = EmptyString)) && keyEscapesBucket key PathUnescape then
        deny "path traversal in object key" 403%Z "AccessDenied"
      else if negb (copy_allowed r (sb_bucket reg)) then
        deny ("cross-bucket copy source: " +:+ Header_Get (rq_Header r) "X-Amz-Copy-Source") 403%Z
          "AccessDenied"
      else
      let '(op, mutation, quotaWrite) := classify r key in
      over ← over_quota reg r quotaWrite;
      if (over : bool) then
        s3_emit (event_of reg op bucket key (incomingSize r) "denied" "quota exceeded");;
        mret (s3Error 507 "QuotaExceeded")
      else
      match normalizeChunked r with
      | inl e =>
          s3_emit (event_of reg op bucket key 0 "failed" e);; mret (s3Error 400 "InvalidRequest")
      | inr r => run_engine reg r op bucket key mutation
      end
  end.
End serve.
