(* ===== verification/SigV4Proofs.v ===== *)
(** A signature binds the request: two requests with one signature agree on everything that is
    signed, or SHA-256 collides.  Then the chunked reader: what it reads of a well-framed body. *)
From S2P Require Import Prelude Regexp GoStrings GoNet GoHTTP Sha256 Outside EventRing S3 SigV4.

(** * Text without a byte *)

Definition free (c : ascii) (s : string) : Prop := Contains_byte c s = false.
#[export] Instance free_dec c s : Decision (free c s).
Proof. unfold free. apply _. Defined.
Lemma free_nil c : free c EmptyString.
Proof. done. Qed.
Lemma free_cons c d s : free c (String d s) ↔ d ≠ c ∧ free c s.
Proof. unfold free. rewrite Contains_byte_cons, orb_false_iff, bool_decide_eq_false. done. Qed.
Lemma free_app c a b : free c (a +:+ b) ↔ free c a ∧ free c b.
Proof. unfold free. by rewrite Contains_byte_app, orb_false_iff. Qed.
Lemma free_all c (f : ascii → bool) s : f c = false → all_bytes f s = true → free c s.
Proof.
  intros Hc. induction s as [|d s IH]; [done|]. simpl. intros [Hd Hs]%andb_true_iff.
  apply free_cons. split; [congruence|auto].
Qed.
Lemma free_elem c s : free c s ↔ c ∉ String.list_ascii_of_string s.
Proof.
  induction s as [|d s IH]; simpl; [by split; [intros _; apply not_elem_of_nil|]|].
  rewrite free_cons, not_elem_of_cons, IH. naive_solver.
Qed.
Lemma free_reverse c s : free c s → free c (reverse s).
Proof.
  rewrite !free_elem. unfold reverse. rewrite String.list_ascii_of_string_of_list_ascii.
  intros Hs Hin. apply Hs, list_elem_of_In, in_rev. by apply list_elem_of_In.
Qed.
Lemma free_trim_left c s : free c s → free c (trim_left s).
Proof.
  induction s as [|d s IH]; [done|]. rewrite free_cons. intros [Hd Hs]. simpl.
  case_match; [auto|by apply free_cons].
Qed.
Lemma free_TrimSpace c s : free c s → free c (TrimSpace s).
Proof. intros Hs. unfold TrimSpace. by apply free_reverse, free_trim_left, free_reverse, free_trim_left. Qed.

(** Cut at the first of a byte the left sides do not have. *)
Lemma split_at c a b a' b' :
  a +:+ String c b = a' +:+ String c b' → free c a → free c a' → a = a' ∧ b = b'.
Proof.
  revert a'. induction a as [|x a IH]; intros [|x' a'] E Ha Ha'.
  - by injection E as ->.
  - injection E as -> ->. apply free_cons in Ha' as [? _]. congruence.
  - injection E as -> <-. apply free_cons in Ha as [? _]. congruence.
  - injection E as -> E. apply free_cons in Ha as [_ Ha], Ha' as [_ Ha'].
    by destruct (IH a' E Ha Ha') as [-> ->].
Qed.
Lemma string_app_inj_l s t t' : s +:+ t = s +:+ t' → t = t'.
Proof. induction s as [|c s IH]; [done|]. intros [=]. auto. Qed.
Lemma app_byte_nonempty a c b : a +:+ String c b ≠ EmptyString.
Proof. by destruct a. Qed.
(** A joined list determines its elements, when they are not empty and avoid the separator. *)
Lemma Join_cons x y l sep : Join (x :: y :: l) (String sep EmptyString) = x +:+ String sep (Join (y :: l) (String sep EmptyString)).
Proof. done. Qed.
Lemma free_Join c l sep : Forall (free c) l → free c sep → free c (Join l sep).
Proof.
  intros Hl Hs. induction Hl as [|x l Hx _ IH]; [done|]. destruct l as [|y l]; [done|].
  change (free c (x +:+ sep +:+ Join (y :: l) sep)). rewrite !free_app. auto.
Qed.
Lemma Join_inj sep l l' : Join l (String sep EmptyString) = Join l' (String sep EmptyString) →
  Forall (λ x, x ≠ EmptyString ∧ free sep x) l → Forall (λ x, x ≠ EmptyString ∧ free sep x) l' → l = l'.
Proof.
  intros E Hl. revert l' E. induction Hl as [|x l [Hx Hf] Hl IH]; intros l' E Hl'.
  - destruct Hl' as [|x' l' [Hx' _] _]; [done|]. destruct l' as [|y l']; [by simpl in E; subst x'|].
    rewrite Join_cons in E. symmetry in E. by apply app_byte_nonempty in E.
  - destruct Hl' as [|x' l' [Hx' Hf'] Hl'].
    { destruct l as [|y l]; [by simpl in E; subst x|]. rewrite Join_cons in E.
      by apply app_byte_nonempty in E. }
    destruct l as [|y l], l' as [|y' l'].
    + by simpl in E; subst.
    + rewrite Join_cons in E. simpl in E. subst x. apply free_app in Hf as [_ [? _]%free_cons]. done.
    + rewrite Join_cons in E. simpl in E. subst x'. apply free_app in Hf' as [_ [? _]%free_cons]. done.
    + rewrite !Join_cons in E. apply split_at in E as [-> E]; [|done..]. f_equal. by apply IH.
Qed.

(** * The canonical query *)

Lemma upper_hex_digit n : n < 16 → unreserved (to_upper (hex_digit n)) = true.
Proof. intros Hn. do 16 (destruct n as [|n]; [done|]). lia. Qed.
(** A byte as its two digits. *)
Lemma percent_digits c : ∃ a b, ToUpper (hex_encode (String c EmptyString)) = String a (String b EmptyString)
  ∧ unreserved a = true ∧ unreserved b = true.
Proof.
  pose proof (Ascii.nat_ascii_bounded c) as Hc. do 2 eexists. split; [reflexivity|].
  split; apply upper_hex_digit; [apply Nat.Div0.div_lt_upper_bound; lia|apply Nat.mod_upper_bound; lia].
Qed.
(** Every byte of an encoding is unreserved or a percent sign. *)
Lemma awsURIEncode_bytes s : all_bytes (λ c, unreserved c || bool_decide (c = "%"%char)) (awsURIEncode true s) = true.
Proof.
  induction s as [|c s IH]; [done|]. cbn [awsURIEncode]. rewrite andb_false_r, orb_false_r.
  rewrite all_bytes_app, IH, andb_true_r. destruct (unreserved c) eqn:E; [simpl; by rewrite E|].
  destruct (percent_digits c) as (a & b & -> & Ha & Hb). simpl. by rewrite Ha, Hb.
Qed.
Lemma awsURIEncode_free c s : unreserved c = false → c ≠ "%"%char → free c (awsURIEncode true s).
Proof.
  intros Hc Hp. apply (free_all c _ _) with (2 := awsURIEncode_bytes s). by rewrite Hc, bool_decide_false.
Qed.
Lemma hex_digit_value_upper n : n < 16 → hex_digit_value (to_upper (hex_digit n)) = Some n.
Proof. intros Hn. do 16 (destruct n as [|n]; [done|]). lia. Qed.
Lemma to_upper_hex_inj n m : n < 16 → m < 16 → to_upper (hex_digit n) = to_upper (hex_digit m) → n = m.
Proof.
  intros Hn%hex_digit_value_upper Hm%hex_digit_value_upper E. rewrite E in Hn. congruence.
Qed.
Lemma percent_digits_inj c c' :
  ToUpper (hex_encode (String c EmptyString)) = ToUpper (hex_encode (String c' EmptyString)) → c = c'.
Proof.
  unfold ToUpper. cbn [hex_encode map_bytes]. intros [Eh [El _]%string_cons_inj]%string_cons_inj.
  pose proof (Ascii.nat_ascii_bounded c). pose proof (Ascii.nat_ascii_bounded c').
  apply to_upper_hex_inj in Eh; [|apply Nat.Div0.div_lt_upper_bound; lia..].
  apply to_upper_hex_inj in El; [|apply Nat.mod_upper_bound; lia..].
  rewrite <-(Ascii.ascii_nat_embedding c), <-(Ascii.ascii_nat_embedding c'). f_equal.
  rewrite (Nat.div_mod_eq (Ascii.nat_of_ascii c) 16), (Nat.div_mod_eq (Ascii.nat_of_ascii c') 16).
  congruence.
Qed.
Lemma percent_eq c c' t t' :
  ("%" +:+ ToUpper (hex_encode (String c EmptyString))) +:+ t
  = ("%" +:+ ToUpper (hex_encode (String c' EmptyString))) +:+ t' → c = c' ∧ t = t'.
Proof.
  intros E. apply string_app_inj in E as [E ->]; [|by rewrite !string_length_app].
  apply string_app_inj_l in E. by apply percent_digits_inj in E.
Qed.
Lemma awsURIEncode_inj s s' : awsURIEncode true s = awsURIEncode true s' → s = s'.
Proof.
  revert s'. induction s as [|c s IH]; intros [|c' s'] E; try done; cbn [awsURIEncode] in E;
    rewrite ?andb_false_r, ?orb_false_r in E.
  - by destruct (unreserved c').
  - by destruct (unreserved c).
  - destruct (unreserved c) eqn:Ec, (unreserved c') eqn:Ec'.
    + injection E as -> E. f_equal. auto.
    + injection E as -> _. done.
    + injection E as <- _. done.
    + apply percent_eq in E as [-> E]. f_equal. auto.
Qed.

(** The query as sorted pairs. *)
Definition query_pairs (v : gmap string (list string)) : list (string * string) :=
  concat ((λ k, pair k <$> sort_strings (default [] (v !! k))) <$> sort_strings (map_to_list v).*1).
Definition encode_pair (p : string * string) : string :=
  awsURIEncode true p.1 +:+ "=" +:+ awsURIEncode true p.2.
Lemma canonicalQuery_pairs v : canonicalQuery v = Join (encode_pair <$> query_pairs v) "&".
Proof.
  unfold canonicalQuery, query_pairs. f_equal.
  induction (sort_strings (map_to_list v).*1) as [|k ks IH]; [done|]. csimpl.
  rewrite IH, fmap_app. f_equal. by rewrite <-list_fmap_compose.
Qed.
Lemma encode_pair_inj : Inj (=) (=) encode_pair.
Proof.
  intros [k v] [k' v'] E. unfold encode_pair in E. simpl in E.
  apply (split_at "=") in E as [Ek Ev]; [|by apply awsURIEncode_free..].
  by apply awsURIEncode_inj in Ek as ->, Ev as ->.
Qed.
Lemma encode_pair_free p : encode_pair p ≠ EmptyString ∧ free "&" (encode_pair p).
Proof.
  unfold encode_pair. change ("=" +:+ ?s) with (String "=" s). split; [apply app_byte_nonempty|].
  rewrite free_app, free_cons. split_and!; [by apply awsURIEncode_free|done|by apply awsURIEncode_free].
Qed.
Lemma pairs_of_key (f : string → list string) k ks : NoDup ks → (k ∉ ks → f k = []) →
  filter (λ p, p.1 = k) (concat ((λ k, pair k <$> f k) <$> ks)) = pair k <$> f k.
Proof.
  assert (∀ k', filter (λ p : string * string, p.1 = k) (pair k' <$> f k')
    = if decide (k' = k) then pair k' <$> f k' else []) as Hf.
  { intros k'. induction (f k') as [|v l IH]; csimpl; [by case_decide|].
    rewrite filter_cons, IH. simpl. by repeat case_decide. }
  induction 1 as [|k' ks Hk' Hnd IH]; intros Hno; csimpl.
  - rewrite Hno; [done|apply not_elem_of_nil].
  - rewrite filter_app, Hf. case_decide as Hk; [subst k'|].
    + assert (∀ ks, k ∉ ks → filter (λ p, p.1 = k) (concat ((λ k, pair k <$> f k) <$> ks)) = []) as Hnil.
      { clear -Hf. intros ks. induction ks as [|x ks IH]; [done|]. rewrite not_elem_of_cons.
        intros [? ?]. csimpl. rewrite filter_app, Hf, decide_False, IH by done. done. }
      rewrite Hnil by done. by rewrite app_nil_r.
    + apply IH. intros Hin. apply Hno. rewrite not_elem_of_cons. auto.
Qed.
Lemma query_pairs_key v k :
  filter (λ p, p.1 = k) (query_pairs v) = pair k <$> sort_strings (default [] (v !! k)).
Proof.
  unfold query_pairs. apply (pairs_of_key (λ k, sort_strings (default [] (v !! k)))).
  - apply NoDup_sort_strings, NoDup_fst_map_to_list.
  - rewrite elem_of_sort_strings, list_elem_of_fmap. intros Hno. destruct (v !! k) as [l|] eqn:E; [|done].
    destruct Hno. exists (k, l). by rewrite elem_of_map_to_list.
Qed.
Lemma canonicalQuery_inj v v' : canonicalQuery v = canonicalQuery v' →
  ∀ k, default [] (v !! k) ≡ₚ default [] (v' !! k).
Proof.
  rewrite !canonicalQuery_pairs. intros E k.
  assert (∀ l, Forall (λ x, x ≠ EmptyString ∧ free "&" x) (encode_pair <$> l)) as Hl.
  { intros l. apply Forall_fmap, Forall_true. intros p. apply encode_pair_free. }
  apply Join_inj in E; [|done..]. apply (list_fmap_eq_inj _ encode_pair_inj) in E.
  pose proof (query_pairs_key v k) as Hk. rewrite E, query_pairs_key in Hk.
  assert (Inj (=) (=) (pair (B := string) k)) as Hinj by (by intros ?? [=]).
  apply (list_fmap_eq_inj _ Hinj) in Hk.
  unfold sort_strings in Hk. etrans; [symmetry; apply (merge_sort_Permutation String.le)|].
  rewrite <-Hk. apply merge_sort_Permutation.
Qed.

(** * The signature *)

Definition nl : ascii := Ascii.ascii_of_nat 10.
Lemma newline_app t : newline +:+ t = String nl t.
Proof. done. Qed.
Lemma canonicalQuery_free v : free nl (canonicalQuery v).
Proof.
  rewrite canonicalQuery_pairs. apply free_Join; [|done]. apply Forall_fmap, Forall_true.
  intros p. simpl. unfold encode_pair. rewrite !free_app.
  split_and!; [by apply awsURIEncode_free|done|by apply awsURIEncode_free].
Qed.

Lemma hmac_binds key m m' : hmacSHA256 key m = hmacSHA256 key m' → m = m' ∨ sha256_collision.
Proof.
  unfold hmacSHA256. set (k1 := xor_bytes _ 92). set (k2 := xor_bytes _ 54). intros E.
  destruct (decide (k1 +:+ sha256 (k2 +:+ m) = k1 +:+ sha256 (k2 +:+ m'))) as [E1|]; [|by right; eexists _, _].
  apply string_app_inj_l in E1.
  destruct (decide (k2 +:+ m = k2 +:+ m')) as [E2|]; [|by right; eexists _, _].
  left. by apply string_app_inj_l in E2.
Qed.
Lemma sha256_hex_binds s s' : sha256_hex s = sha256_hex s' → s = s' ∨ sha256_collision.
Proof.
  intros E%hex_encode_inj. destruct (decide (s = s')); [by left|]. right. by exists s, s'.
Qed.

(** The hash is not computed to compare two signatures. *)
#[local] Opaque sha256 hmacSHA256 hex_encode.

(** A request as net/http delivers it: no line break in its method, path or header values. *)
Record one_line (r : Request) : Prop := {
  ol_method : free nl (rq_Method r);
  ol_path : free nl (rq_EscapedPath r);
  ol_value h : free nl (signed_value r h);
  ol_header h : free nl (Header_Get (rq_Header r) h) }.

Lemma canonical_headers_inj r r' hs t t' : one_line r → one_line r' →
  foldr (λ h s, h +:+ ":" +:+ TrimSpace (signed_value r h) +:+ newline +:+ s) EmptyString hs +:+ t
  = foldr (λ h s, h +:+ ":" +:+ TrimSpace (signed_value r' h) +:+ newline +:+ s) EmptyString hs +:+ t' →
  Forall (λ h, TrimSpace (signed_value r h) = TrimSpace (signed_value r' h)) hs ∧ t = t'.
Proof.
  intros Hr Hr'. induction hs as [|h hs IH]; [by intros E|]. simpl. rewrite !string_app_assoc.
  intros E%string_app_inj_l%string_app_inj_l. rewrite !newline_app in E.
  apply split_at in E as [Ev E]; [|apply free_TrimSpace; by apply ol_value..].
  destruct (IH E) as [Hf ->]. by split; [constructor|].
Qed.

(** The same request, as far as [signed] signs it. *)
Record same_signed (signed : string) (r r' : Request) : Prop := {
  ss_method : rq_Method r = rq_Method r';
  ss_path : rq_EscapedPath r = rq_EscapedPath r';
  ss_query k : default [] (rq_Query r !! k) ≡ₚ default [] (rq_Query r' !! k);
  ss_headers h : h ∈ Split signed ";" → TrimSpace (signed_value r h) = TrimSpace (signed_value r' h);
  ss_payload : Header_Get (rq_Header r) "X-Amz-Content-Sha256" = Header_Get (rq_Header r') "X-Amz-Content-Sha256";
  ss_date : Header_Get (rq_Header r) "X-Amz-Date" = Header_Get (rq_Header r') "X-Amz-Date" }.
Lemma canonical_request_inj r r' signed : one_line r → one_line r' →
  canonical_request r signed = canonical_request r' signed →
  rq_Method r = rq_Method r' ∧ rq_EscapedPath r = rq_EscapedPath r'
  ∧ (∀ k, default [] (rq_Query r !! k) ≡ₚ default [] (rq_Query r' !! k))
  ∧ (∀ h, h ∈ Split signed ";" → TrimSpace (signed_value r h) = TrimSpace (signed_value r' h))
  ∧ Header_Get (rq_Header r) "X-Amz-Content-Sha256" = Header_Get (rq_Header r') "X-Amz-Content-Sha256".
Proof.
  intros Hr Hr' E. unfold canonical_request, canonical_headers in E. rewrite !newline_app in E.
  apply split_at in E as [Em E]; [|apply Hr|apply Hr'].
  apply split_at in E as [Ep E]; [|apply Hr|apply Hr'].
  apply split_at in E as [Eq E]; [|apply canonicalQuery_free..].
  apply canonical_headers_inj in E as [Eh E]; [|done..].
  injection E as E. apply string_app_inj_l in E. injection E as E.
  split_and!; [done|done|by apply canonicalQuery_inj|by apply Forall_forall|done].
Qed.

Lemma string_to_sign_inj d d' (date region service h h' : string) : free nl d → free nl d' →
  "AWS4-HMAC-SHA256" +:+ newline +:+ d +:+ newline +:+ date +:+ "/" +:+ region +:+ "/" +:+ service
    +:+ "/aws4_request" +:+ newline +:+ h
  = "AWS4-HMAC-SHA256" +:+ newline +:+ d' +:+ newline +:+ date +:+ "/" +:+ region +:+ "/" +:+ service
    +:+ "/aws4_request" +:+ newline +:+ h' → d = d' ∧ h = h'.
Proof.
  intros Hd Hd' E%string_app_inj_l. rewrite !newline_app in E. injection E as E.
  apply split_at in E as [Ed E]; [|done..].
  do 6 apply string_app_inj_l in E. by injection E as E.
Qed.
Lemma string_to_sign_binds r r' signed date region service : one_line r → one_line r' →
  string_to_sign r signed date region service = string_to_sign r' signed date region service →
  same_signed signed r r' ∨ sha256_collision.
Proof.
  intros Hr Hr' [Ed E]%string_to_sign_inj; [|apply Hr|apply Hr'].
  apply sha256_hex_binds in E as [E|]; [|by right].
  destruct (canonical_request_inj r r' signed Hr Hr' E) as (? & ? & ? & ? & ?). by left.
Qed.


(** A request whose parts are checked to be on one line. *)
Definition header_lines (h : Header) : Prop := map_Forall (λ _ vs, Forall (free nl) vs) h.
#[export] Instance header_lines_dec h : Decision (header_lines h).
Proof. unfold header_lines. apply _. Defined.
Lemma header_lines_get h k : header_lines h → free nl (Header_Get h k).
Proof.
  intros Hh. unfold Header_Get. case_match eqn:E; [|done].
  apply Hh in E. case_match; [done|]. by inversion_clear E.
Qed.
Lemma one_line_of r : free nl (rq_Method r) → free nl (rq_EscapedPath r) → free nl (rq_Host r) →
  free nl (format_int (rq_ContentLength r)) → header_lines (rq_Header r) → one_line r.
Proof.
  intros Hm Hp Hh Hl Hhd. split; [done|done| |]; intros h; [|by apply header_lines_get].
  unfold signed_value. repeat case_decide; [done|done|by apply header_lines_get].
Qed.
(** A request sent again, with a header added that is not signed. *)
Definition replayed (extra : Header) : Request :=
  MkRequest "GET" "/bucket/notes/a.txt" {["versions" := [EmptyString]]} "objects.local" 0
    (extra ∪ {["X-Amz-Date" := ["20260101T000000Z"]; "X-Amz-Content-Sha256" := ["UNSIGNED-PAYLOAD"]]})
    (Plain (MkStream EmptyString None)).

(** * The aws-chunked reader: however the engine reads, it gets exactly the data of a well-framed
    body; and the declared length is a ceiling, unless a chunk declares a size so large that the
    comparison overflows. *)

(** The engine reads with buffers of its own sizes, filled as the connection allows, until a
    result that is not bytes. *)
Fixpoint drain (reads : list (nat * nat)) (c : chunkReader) : string * option ReadResult * chunkReader :=
  match reads with
  | [] => (EmptyString, None, c)
  | (room, has) :: reads =>
      match Read room has c with
      | (ReadBytes d, c) => let '(ds, e, c) := drain reads c in (d +:+ ds, e, c)
      | (r, c) => (EmptyString, Some r, c)
      end
  end.
Definition dechunk (limit : Z) (s : Stream) : chunkReader := MkChunkReader s 0 false false limit 0.

(** * Well-framed bodies *)

(** Chunks with the header line of each (its size and whatever follows it), then a line of size
    zero and anything. *)
Fixpoint framed (chunks : list (string * string)) (rest : string) : string :=
  match chunks with
  | [] => rest
  | (hdr, d) :: chunks => hdr +:+ newline +:+ d +:+ crlf +:+ framed chunks rest
  end.
Definition chunk_ok (ch : string * string) : Prop :=
  free nl ch.1 ∧ ch.2 ≠ EmptyString ∧ chunk_size ch.1 = inr (Z.of_nat (String.length ch.2)).
Definition data_of (chunks : list (string * string)) : string := foldr (λ ch s, ch.2 +:+ s) EmptyString chunks.

Lemma Cut_free a c b : free c a → Cut (a +:+ String c b) c = (a, Some b).
Proof.
  induction a as [|d a IH]; simpl; [by rewrite decide_True|]. intros [Hd Ha]%free_cons.
  rewrite decide_False by done. by rewrite IH.
Qed.
Lemma substring_prefix m s : String.substring 0 m s +:+ from_byte m s = s.
Proof.
  unfold from_byte. revert s. induction m as [|m IH]; intros s.
  - destruct s as [|c s]; [done|]. simpl. by rewrite substring_full.
  - destruct s as [|c s]; [done|]. simpl. rewrite string_app_cons. f_equal. apply IH.
Qed.
Lemma substring_app_le m a b : m ≤ String.length a → String.substring 0 m (a +:+ b) = String.substring 0 m a.
Proof.
  revert a. induction m as [|m IH]; intros a Hm; [by destruct a, b|]. destruct a as [|c a]; [simpl in Hm; lia|].
  simpl in *. f_equal. apply IH. lia.
Qed.
Lemma from_byte_app_le m a b : m ≤ String.length a → from_byte m (a +:+ b) = from_byte m a +:+ b.
Proof.
  intros Hm. apply (string_app_inj_l (String.substring 0 m a)). rewrite <-string_app_assoc, substring_prefix.
  rewrite <-(substring_app_le m a b) by done. by rewrite substring_prefix.
Qed.
Lemma length_prefix m s : m ≤ String.length s → String.length (String.substring 0 m s) = m.
Proof.
  revert s. induction m as [|m IH]; intros s Hm; [by destruct s|]. destruct s as [|c s]; simpl in *; [lia|].
  f_equal. apply IH. lia.
Qed.
Lemma length_from m s : String.length (from_byte m s) = String.length s - m.
Proof.
  pose proof (f_equal String.length (substring_prefix m s)) as E. rewrite string_length_app in E.
  destruct (decide (m ≤ String.length s)); [rewrite length_prefix in E by done; lia|].
  unfold from_byte in *. replace (String.length s - m) with 0 in * by lia.
  assert (∀ n t, String.length (String.substring n 0 t) = 0) as H0.
  { intros n'. induction n' as [|n' IH]; intros [|c t]; try done. apply IH. }
  by rewrite H0.
Qed.

(** * Reading a well-framed body *)

Section reading.
Context (limit : Z) (last rest : string) (Hlimit : int64 limit).
Context (Hlast : free nl last) (Hzero : chunk_size last = inr 0%Z).
Definition tail_ : string := last +:+ newline +:+ rest.

(** Between two reads: some of a chunk's data [d] is still to come, then [chunks]; or the reader
    is at a chunk's end, or at its own. *)
Inductive state_of (fails : option string) : string → chunkReader → Prop :=
  | in_chunk d chunks total :
      d ≠ EmptyString → Forall chunk_ok chunks → (0 ≤ total)%Z →
      (total + Z.of_nat (String.length d + String.length (data_of chunks)) ≤ limit)%Z →
      state_of fails (d +:+ data_of chunks)
        (MkChunkReader (MkStream (d +:+ crlf +:+ framed chunks tail_) fails)
           (Z.of_nat (String.length d)) true false limit total)
  | at_chunk chunks total started :
      Forall chunk_ok chunks → (0 ≤ total)%Z →
      (total + Z.of_nat (String.length (data_of chunks)) ≤ limit)%Z →
      state_of fails (data_of chunks)
        (MkChunkReader (MkStream ((if started : bool then crlf else EmptyString) +:+ framed chunks tail_) fails)
           0 started false limit total).

Lemma skip_crlf s fails (started : bool) :
  (if started then Discard2 (MkStream ((if started then crlf else EmptyString) +:+ s) fails)
   else Some (MkStream ((if started then crlf else EmptyString) +:+ s) fails)) = Some (MkStream s fails).
Proof.
  destruct started; [|done]. unfold Discard2, from_byte. simpl. by rewrite Nat.sub_0_r, substring_full.
Qed.
(** Data is there: a read takes some of it. *)
Lemma read_in_chunk fails d chunks total room has : d ≠ EmptyString → 0 < room →
  Forall chunk_ok chunks → (0 ≤ total)%Z →
  (total + Z.of_nat (String.length d + String.length (data_of chunks)) ≤ limit)%Z →
  ∃ d1 d2 c', d = d1 +:+ d2 ∧ d1 ≠ EmptyString
    ∧ read_data room has (MkChunkReader (MkStream (d +:+ crlf +:+ framed chunks tail_) fails)
                            (Z.of_nat (String.length d)) true false limit total) = (ReadBytes d1, c')
    ∧ state_of fails (d2 +:+ data_of chunks) c'.
Proof.
  intros Hd Hroom Hch H0 Hle. unfold read_data. cbn [cr_remain cr_br st_rest st_fails].
  assert (0 < String.length d) as Hlen by (destruct d; [done|simpl; lia]).
  rewrite decide_False by (case_decide; lia).
  rewrite decide_False by (by destruct d).
  set (m := _ `min` _ `min` _).
  assert (m = (String.length d `min` room) `min` (1 `max` has)) as Hm.
  { subst m. rewrite string_length_app. case_decide; lia. }
  assert (0 < m ≤ String.length d) as Hmd by lia. clearbody m. clear Hm.
  exists (String.substring 0 m d), (from_byte m d). eexists. split_and!.
  - by rewrite substring_prefix.
  - intros E. apply (f_equal String.length) in E. rewrite length_prefix in E by lia. simpl in E. lia.
  - rewrite substring_app_le by lia. reflexivity.
  - simpl. rewrite from_byte_app_le by lia.
    assert (String.length (from_byte m d) = String.length d - m) as Hl by apply length_from.
    destruct (decide (from_byte m d = EmptyString)) as [E|E].
    + rewrite E in *. simpl in Hl. replace (Z.of_nat (String.length d) - Z.of_nat m)%Z with 0%Z by lia.
      apply (at_chunk fails chunks _ true); [done|lia|lia].
    + replace (Z.of_nat (String.length d) - Z.of_nat m)%Z
        with (Z.of_nat (String.length (from_byte m d))) by lia.
      apply in_chunk; [done|done|lia|lia].
Qed.
(** One read: some bytes of what is to come, or the end when nothing is. *)
Lemma read_step fails data c room has : state_of fails data c → 0 < room →
  (data = EmptyString ∧ (Read room has c).1 = ReadEOF) ∨
  ∃ d1 d2 c', data = d1 +:+ d2 ∧ d1 ≠ EmptyString ∧ Read room has c = (ReadBytes d1, c')
    ∧ state_of fails d2 c'.
Proof.
  intros Hs Hroom. destruct Hs as [d chunks total Hd Hch H0 Hle|chunks total started Hch H0 Hle].
  - right. unfold Read. cbn [cr_done cr_remain]. rewrite decide_False by (destruct d; simpl; [done|lia]).
    destruct (read_in_chunk fails d chunks total room has) as (d1 & d2 & c' & -> & Hd1 & Hr & Hs'); [done..|].
    exists d1, (d2 +:+ data_of chunks), c'. by rewrite string_app_assoc.
  - unfold Read. cbn [cr_done cr_remain]. rewrite decide_True by done.
    unfold next_chunk. cbn [cr_started cr_br]. rewrite skip_crlf.
    destruct Hch as [|[hdr d] chunks (Hf & Hd & Hsz) Hch]; simpl in *.
    + left. split; [done|]. unfold ReadLine, tail_. simpl. rewrite newline_app, Cut_free by done.
      simpl. by rewrite Hzero.
    + right. unfold ReadLine. simpl. rewrite newline_app, Cut_free by done. simpl. rewrite Hsz.
      assert (0 < String.length d) as Hlen by (destruct d; [done|simpl; lia]).
      rewrite string_length_app in Hle.
      rewrite decide_False by lia. rewrite wrap64_id by (unfold int64 in *; lia).
      rewrite decide_False by lia.
      destruct (read_in_chunk fails d chunks total room has) as (d1 & d2 & c' & -> & Hd1 & Hr & Hs');
        [done|done|done|done|lia|].
      exists d1, (d2 +:+ data_of chunks), c'. by rewrite string_app_assoc.
Qed.
Lemma drain_step fails reads data c : state_of fails data c →
  Forall (λ rh, 0 < rh.1) reads → String.length data < length reads →
  (drain reads c).1 = (data, Some ReadEOF).
Proof.
  intros Hs Hr. revert data c Hs. induction Hr as [|[room has] reads Hroom Hr IH]; intros data c Hs Hlen.
  { simpl in Hlen. lia. }
  simpl. destruct (read_step fails data c room has Hs Hroom)
    as [[-> He]|(d1 & d2 & c' & -> & Hd1 & -> & Hs')].
  - destruct (Read room has c) as [r c']. simpl in He. by subst r.
  - assert (0 < String.length d1) by (destruct d1; [done|simpl; lia]).
    rewrite string_length_app in Hlen. simpl in Hlen.
    pose proof (IH d2 c' Hs' ltac:(lia)) as IH'. destruct (drain reads c') as [[ds e] c2].
    simpl in *. by injection IH' as -> ->.
Qed.
End reading.

(** C34: the engine gets exactly the data of a chunked body.  Whatever the sizes of its buffers
    and of the pieces the connection delivers, reading a well-framed body that keeps to its
    declared length yields the concatenated data of the chunks and then the end, in at most one
    read more than there are bytes; chunk signatures and trailers never reach it. *)
Theorem dechunk_exact (chunks : list (string * string)) (last rest : string) (fails : option string)
    (limit : Z) (reads : list (nat * nat))
    (Hlimit : int64 limit) (Hchunks : Forall chunk_ok chunks)
    (Hlast : free nl last) (Hzero : chunk_size last = inr 0%Z)
    (Hfits : (Z.of_nat (String.length (data_of chunks)) ≤ limit)%Z)
    (Hreads : Forall (λ rh, 0 < rh.1) reads)
    (Henough : String.length (data_of chunks) < length reads) :
  (drain reads (dechunk limit (MkStream (framed chunks (last +:+ newline +:+ rest)) fails))).1
  = (data_of chunks, Some ReadEOF).
Proof.
  apply (drain_step limit last rest Hlimit Hlast Hzero fails); [|done..].
  by apply (at_chunk limit last rest fails chunks 0 false).
Qed.

(** Two chunks, with a signature on the first, read by a buffer of four bytes over a connection
    that delivers three at a time. *)
Lemma dechunk_exact_witness :
  (drain (replicate 20 (4, 3))
     (dechunk 11 (MkStream (framed [("5;chunk-signature=ab" +:+ String (Ascii.ascii_of_nat 13) EmptyString, "hello"); ("6", " world")]
                              ("0" +:+ newline +:+ "trailer")) None))).1
  = ("hello world", Some ReadEOF).
Proof.
  apply (dechunk_exact [("5;chunk-signature=ab" +:+ String (Ascii.ascii_of_nat 13) EmptyString, "hello"); ("6", " world")]
           "0" "trailer" None 11 (replicate 20 (4, 3))).
  - split; vm_compute; congruence.
  - repeat apply Forall_cons_2; [split_and!; [vm_compute; reflexivity|discriminate|vm_compute; reflexivity]..|].
    apply Forall_nil_2.
  - vm_compute; reflexivity.
  - vm_compute; reflexivity.
  - vm_compute. discriminate.
  - apply Forall_replicate. simpl. lia.
  - vm_compute. lia.
Defined.

(** * The declared length as a ceiling *)

(** The comparison with the declared length overflowed: what has come and what the chunk still
    declares do not fit an int64. *)
Definition overflowed (c : chunkReader) : Prop := (2 ^ 63 ≤ cr_total c + cr_remain c)%Z.
Definition ceiled (limit : Z) (c : chunkReader) : Prop :=
  cr_limit c = limit ∧ (0 ≤ cr_total c)%Z ∧ (cr_total c + 0 `max` cr_remain c ≤ 0 `max` limit)%Z.

Lemma next_chunk_ceiled limit c c' : ceiled limit c → cr_remain c = 0%Z → next_chunk c = (None, c') →
  cr_total c' = cr_total c ∧ (ceiled limit c' ∨ overflowed c').
Proof.
  intros (Hl & H0 & Hc) Hr. unfold next_chunk.
  destruct (if cr_started c then _ else _) as [br|]; [|done].
  destruct (ReadLine br) as [[line br']|]; [|done]. destruct (chunk_size line) as [|n]; [done|].
  simpl. case_decide; [done|]. case_decide as Hle; [done|]. intros [= <-]. simpl. split; [done|].
  unfold ceiled, overflowed. simpl. destruct (decide (2 ^ 63 ≤ cr_total c + n)%Z) as [|Hlt]; [by right|left].
  split_and!; [done..|]. destruct (decide (n < 0)%Z); [lia|].
  rewrite wrap64_id in Hle by (unfold int64; lia). lia.
Qed.
Lemma read_data_counts room has c d c' : read_data room has c = (ReadBytes d, c') →
  cr_total c' = (cr_total c + Z.of_nat (String.length d))%Z ∧ cr_limit c' = cr_limit c
  ∧ cr_remain c' = (cr_remain c - Z.of_nat (String.length d))%Z
  ∧ (d = EmptyString ∨ (Z.of_nat (String.length d) ≤ cr_remain c)%Z).
Proof.
  unfold read_data. set (toRead := if decide (cr_remain c < _)%Z then _ else _). assert (toRead ≤ cr_remain c)%Z as Hto.
  { subst toRead. case_decide; lia. }
  clearbody toRead. case_decide; [done|]. case_decide; [by unfold at_end; case_match|].
  intros [= <- <-]. simpl. rewrite length_prefix by lia. split_and!; [lia|done|lia|right; lia].
Qed.
Lemma read_ceiled limit room has c d c' : ceiled limit c → Read room has c = (ReadBytes d, c') →
  cr_total c' = (cr_total c + Z.of_nat (String.length d))%Z ∧ (ceiled limit c' ∨ overflowed c').
Proof.
  intros Hc. unfold Read. case_match; [done|].
  assert (∀ c0, (ceiled limit c0 ∨ overflowed c0) → read_data room has c0 = (ReadBytes d, c') →
    ceiled limit c' ∨ overflowed c') as Hdata.
  { intros c0 H0 (Ht & Hl & Hr & Hd)%read_data_counts. unfold ceiled, overflowed in *.
    rewrite Ht, Hl, Hr. destruct H0 as [(? & ? & ?)|?]; [left; split_and!|right]; try lia; try done.
    destruct Hd as [->|?]; simpl; lia. }
  case_match eqn:Hz.
  - destruct (next_chunk c) as [[r|] c0] eqn:Hn; [intros [= -> ->]|].
    { exfalso. unfold next_chunk in Hn. repeat (case_match; simplify_eq/=). all: unfold at_end in *; by case_match. }
    destruct (next_chunk_ceiled limit c c0) as [Ht H0]; [done..|]. intros Hr. split; [|by eapply Hdata].
    apply read_data_counts in Hr as [Hr _]. by rewrite Hr, Ht.
  - intros Hr. split; [by apply read_data_counts in Hr as [? _]|]. eapply Hdata; [by left|done].
Qed.
(** The declared length is a ceiling on what a chunked upload writes.  However the engine
    reads, and whatever the client sends, it gets at most the bytes the client declared (which
    is what the quota counted), unless a chunk header was accepted whose size takes the
    reader's 64-bit total past its range. *)
Theorem chunk_ceiling (limit : Z) (s : Stream) (reads : list (nat * nat)) :
  (Z.of_nat (String.length (drain reads (dechunk limit s)).1.1) ≤ 0 `max` limit)%Z
  ∨ ∃ i, i ≤ length reads ∧ overflowed (drain (take i reads) (dechunk limit s)).2.
Proof.
  cut (∀ c, ceiled limit c →
    (cr_total c + Z.of_nat (String.length (drain reads c).1.1) ≤ 0 `max` limit)%Z
    ∨ ∃ i, i ≤ length reads ∧ overflowed (drain (take i reads) c).2).
  { intros H. destruct (H (dechunk limit s)) as [?|?]; [|left|by right]; unfold ceiled; simpl in *; lia. }
  induction reads as [|[room has] reads IH]; intros c Hc; simpl.
  { left. destruct Hc as (_ & ? & ?). lia. }
  destruct (Read room has c) as [[d| | |] c'] eqn:Hr;
    try (left; destruct Hc as (_ & ? & ?); simpl; lia).
  destruct (read_ceiled _ _ _ _ _ _ Hc Hr) as [Ht [Hc'|Ho]].
  - destruct (IH c' Hc') as [IH'|(i & Hi & Hov)].
    + left. destruct (drain reads c') as [[ds e] c2]. simpl in *. rewrite string_length_app. lia.
    + right. exists (S i). split; [lia|]. simpl. rewrite Hr.
      by destruct (drain (take i reads) c') as [[ds e] c2].
  - right. exists 1. split; [lia|]. simpl. by rewrite Hr.
Qed.
(** The exception is real: a byte, then a chunk of 2^63 - 1, gets past a ceiling of one. *)
Example ceiling_bypassed :
  (drain (replicate 3 (64, 64))
     (dechunk 1 (MkStream ("1" +:+ newline +:+ "a" +:+ crlf +:+ "7fffffffffffffff" +:+ newline +:+ "as much as one likes") None))).1
  = ("aas much as one likes", Some ReadEOF).
Proof. vm_compute. reflexivity. Qed.
