(* ===== verification/S3Run.v ===== *)
(** The object-store broker over time: control requests and the beams' requests, in any order.
    The registry is the map from beams to bindings that the answered control requests describe,
    and a beam's request reaches the storage engine only inside its own bucket. *)
From S2P Require Import Prelude Regexp GoStrings GoNet GoHTTP Sha256 Store Outside EventRing S3.
From S2P Require Import SigV4.

Inductive S3Op (X : Type) :=
  | SControl (authorization : string) (req : S3Control)
  | SRequest (r : Request)
  | SLoad
  | SElsewhere (x : X).
Arguments SControl {X} _ _.
Arguments SRequest {X} _.
Arguments SLoad {X}.
Arguments SElsewhere {X} _.
(** What an operation answered. *)
Inductive Outcome :=
  | Controlled (a : S3Answer)
  | Served (a : Answer)
  | Failed (e : S3Error)
  | Silent.

(** * The registry a history describes *)

Definition binding_of (d : Z) (reg : S3Registration) : S3Binding :=
  MkS3Binding (S3R_BeamID reg) (S3R_Channel reg) (S3R_AccessKey reg) (S3R_SecretKey reg)
    (S3R_Bucket reg) (if decide (S3R_MaxBytes reg = 0)%Z then d else S3R_MaxBytes reg).
(** A control request that was granted changes the binding of the beam it names, and no other. *)
Definition granted (d : Z) (req : S3Control) (g : gmap string S3Binding) : gmap string S3Binding :=
  match req with
  | S3PostRegister (inr reg) => <[beamKey (S3R_BeamID reg) (S3R_Channel reg) := binding_of d reg]> g
  | S3PostDeregister (inr dw) => delete (beamKey (DW_BeamID dw) (DW_Channel dw)) g
  | S3PostQuota (inr qw) =>
      alter (λ r, r <| sb_maxBytes := QW_MaxBytes qw |>) (beamKey (QW_BeamID qw) (QW_Channel qw)) g
  | _ => g
  end.
Definition described {X} (d : Z) (e : S3Op X * Outcome) (g : gmap string S3Binding)
    : gmap string S3Binding :=
  match e with
  | (SControl _ req, Controlled S3NoContent) => granted d req g
  | _ => g
  end.
Definition registry {X} (d : Z) (past : list (S3Op X * Outcome)) : gmap string S3Binding :=
  foldl (λ g e, described d e g) ∅ past.

Section run.
Context {X : Type} `{!ObjectHost X}.
Notation World := (S3Broker X).
Notation SM := (M World S3Error).
Notation Op := (S3Op X).
Implicit Types (w : World) (op : Op) (g : gmap string S3Binding).

Definition outcome_of {A} (f : A → Outcome) (m : SM A) w : Outcome * World :=
  let '(r, w) := m w in (match r with inr a => f a | inl e => Failed e end, w).
Definition s3_step op w : Outcome * World :=
  match op with
  | SControl auth req => outcome_of Controlled (S3_Control auth req) w
  | SRequest r => outcome_of Served (serve r) w
  | SLoad => outcome_of (λ _, Silent) S3_LoadProvider w
  | SElsewhere x => (Silent, w <| s3_out := x |>)
  end.
(** Everything that happened since the broker started, oldest first, with what it answered. *)
Inductive s3_history (dir token : string) (maxBytes : Z) (skew : duration)
    : list (Op * Outcome) → World → Prop :=
  | s3_start x : s3_history dir token maxBytes skew [] (S3_New dir token maxBytes skew x)
  | s3_after past w op :
      s3_history dir token maxBytes skew past w →
      s3_history dir token maxBytes skew (past ++ [(op, (s3_step op w).1)]) (s3_step op w).2.

(** * The broker implements it *)

Definition key_of (r : S3Binding) : string := beamKey (sb_beamID r) (sb_channel r).
(** The beams' map is [g], through the heap; an access key finds only its beam's binding. *)
Record implements (d : Z) g w : Prop := {
  im_default : defaultMaxBytes w = d;
  im_beams k : byBeam w !! k ≫= (λ l, s3_heap w !! l) = g !! k;
  im_key_of k l : byBeam w !! k = Some l → ∃ r, s3_heap w !! l = Some r ∧ key_of r = k;
  im_keys k l : byKey w !! k = Some l →
    ∃ r, s3_heap w !! l = Some r ∧ sb_accessKey r = k ∧ byBeam w !! key_of r = Some l }.
Definition s3_same w w' : Prop :=
  s3_heap w' = s3_heap w ∧ byKey w' = byKey w ∧ byBeam w' = byBeam w
  ∧ defaultMaxBytes w' = defaultMaxBytes w.
#[export] Instance s3_same_preorder : PreOrder s3_same.
Proof. split; [done|]. intros w1 w2 w3 (?&?&?&?) (?&?&?&?). split_and!; congruence. Qed.
Lemma implements_same d g w w' : s3_same w w' → implements d g w → implements d g w'.
Proof. intros (Hh & Hk & Hb & Hd) [H1 H2 H3 H4]. split; rewrite ?Hh, ?Hk, ?Hb, ?Hd; done. Qed.

Lemma same_outside {A} (f : ext X A) : frames s3_same (s3_outside f).
Proof. intros w. unfold s3_outside. by destruct (f _). Qed.
Lemma same_emit ev : frames s3_same (s3_emit ev).
Proof. done. Qed.
Hint Resolve same_outside same_emit : frame.
Lemma same_call {A} wrap (f : ext X A) : frames s3_same (s3_call wrap f).
Proof. unfold s3_call. solve_frame. Qed.
Hint Resolve same_call : frame.
Lemma same_persist cfg w : s3_same w (s3_persistProvider cfg w).
Proof. unfold s3_persistProvider. by repeat case_decide. Qed.
Lemma same_SetProvider cfg : frames s3_same (S3_SetProvider cfg).
Proof.
  unfold S3_SetProvider, build_backend, setBackend. solve_frame.
  - by apply frames_modify.
  - apply frames_modify. intros w. by eapply transitivity; [|apply same_persist].
Qed.
Hint Resolve same_SetProvider : frame.
Lemma same_LoadProvider : frames s3_same S3_LoadProvider.
Proof. unfold S3_LoadProvider. solve_frame. Qed.
Lemma same_ensureBucket b : frames s3_same (ensureBucket b).
Proof. unfold ensureBucket. solve_frame. Qed.
Hint Resolve same_LoadProvider same_ensureBucket : frame.
Lemma same_usage b : frames s3_same (bucketUsage b).
Proof. unfold bucketUsage. solve_frame. Qed.
Lemma same_serve r : frames s3_same (serve r).
Proof.
  unfold serve, verify, over_quota, run_engine, s3_lookup. solve_frame.
  all: try apply same_usage. all: intros w; unfold ServeHTTP; by destruct (engine_ServeHTTP _ _ _).
Qed.

(** ** Control requests *)

Definition refines_step d g g' {A} (a : S3Error + A) w' : Prop :=
  implements d (match a with inr _ => g' | inl _ => g end) w'.
Lemma wp_same {A} (m : SM A) d g w (Q : S3Error + A → World → Prop) :
  frames s3_same m → implements d g w → (∀ a w', implements d g w' → Q a w') → wp m Q w.
Proof. intros Hm Hi HQ. apply HQ. eapply implements_same; [apply Hm|done]. Qed.

Lemma wp_RegisterKey d g w reg : implements d g w →
  wp (RegisterKey reg)
    (refines_step d g (<[beamKey (S3R_BeamID reg) (S3R_Channel reg) := binding_of d reg]> g)) w.
Proof.
  intros Hi. unfold RegisterKey. case_decide; [by apply wp_throw|].
  apply wp_bind, wp_gets, wp_bind. rewrite (im_default _ _ _ Hi).
  apply (wp_same _ d g); [apply same_ensureBucket|done|]. clear w Hi. intros [e|[]] w Hi; [done|].
  apply wp_modify. fold (binding_of d reg). set (r := binding_of d reg).
  set (k := beamKey _ _). change k with (key_of r). set (l := fresh (dom (s3_heap w))).
  assert (s3_heap w !! l = None) as Hl by (apply not_elem_of_dom, is_fresh). clearbody l k.
  destruct Hi as [Hd Hb Hk Hu]. split; simpl; [done| | |].
  - intros k'. destruct (decide (k' = key_of r)) as [->|Hne].
    { rewrite !lookup_insert_eq. simpl. by rewrite lookup_insert_eq. }
    rewrite !(lookup_insert_ne _ (key_of r)) by done. rewrite <-Hb.
    destruct (byBeam w !! k') as [l'|] eqn:E; [|done]. simpl.
    destruct (Hk k' l' E) as (r' & Hr' & _). by rewrite lookup_insert_ne by congruence.
  - intros k' l'. destruct (decide (k' = key_of r)) as [->|Hne].
    { rewrite lookup_insert_eq. intros [= <-]. exists r. by rewrite lookup_insert_eq. }
    rewrite lookup_insert_ne by done. intros E. destruct (Hk k' l' E) as (r' & Hr' & ?). exists r'.
    by rewrite lookup_insert_ne by congruence.
  - intros k' l'. destruct (decide (k' = sb_accessKey r)) as [->|Hne].
    { rewrite lookup_insert_eq. intros [= <-]. exists r. by rewrite !lookup_insert_eq. }
    rewrite lookup_insert_ne by done. intros E.
    assert (byKey w !! k' = Some l') as E'.
    { destruct (_ ≫= _); [case_decide; [by apply lookup_delete_Some in E as [_ E]|done]|done]. }
    destruct (Hu k' l' E') as (r' & Hr' & Ha & Hbe). exists r'.
    rewrite lookup_insert_ne by congruence. split_and!; [done|done|].
    rewrite lookup_insert_ne; [done|]. intros Hkey. rewrite Hkey, Hbe in E. simpl in E.
    rewrite Hr', Ha in E. rewrite decide_True in E by done. by rewrite lookup_delete_eq in E.
Qed.
Lemma wp_SetQuota d g w beamID channel m : implements d g w →
  wp (SetQuota beamID channel m)
    (refines_step d g (alter (λ r, r <| sb_maxBytes := m |>) (beamKey beamID channel) g)) w.
Proof.
  intros Hi. unfold SetQuota. apply wp_bind, wp_gets.
  destruct (byBeam w !! _) as [l|] eqn:El; [|by apply wp_throw].
  apply wp_modify. unfold refines_step. destruct Hi as [Hd Hb Hk Hu].
  destruct (Hk _ l El) as (r & Hr & Hkr).
  assert (∀ l' r', s3_heap w !! l' = Some r' →
    ∃ r2, alter (λ r, r <| sb_maxBytes := m |>) l (s3_heap w) !! l' = Some r2
      ∧ key_of r2 = key_of r' ∧ sb_accessKey r2 = sb_accessKey r') as Halt.
  { intros l' r' Hr'. destruct (decide (l' = l)) as [->|].
    - rewrite lookup_alter_eq, Hr'. by eexists.
    - rewrite lookup_alter_ne by done. by exists r'. }
  split; simpl; [done| | |].
  - intros k. destruct (decide (k = beamKey beamID channel)) as [->|Hne].
    { rewrite El. simpl. rewrite !lookup_alter_eq. f_equal. by rewrite <-Hb, El. }
    rewrite (lookup_alter_ne _ _ _ _ (not_eq_sym Hne)), <-Hb.
    destruct (byBeam w !! k) as [l'|] eqn:E; [|done]. simpl. apply lookup_alter_ne.
    intros <-. destruct (Hk k l E) as (r' & Hr' & <-). congruence.
  - intros k l' E. destruct (Hk k l' E) as (r' & Hr' & <-).
    destruct (Halt l' r' Hr') as (r2 & ? & <- & _). by exists r2.
  - intros k l' E. destruct (Hu k l' E) as (r' & Hr' & <- & Hbe).
    destruct (Halt l' r' Hr') as (r2 & ? & Hk2 & Ha2). exists r2. by rewrite Hk2, Ha2.
Qed.
Lemma wp_Deregister d g w beamID channel purge : implements d g w →
  wp (S3_Deregister beamID channel purge) (λ a w',
    a = inr tt ∧ implements d (delete (beamKey beamID channel) g) w') w.
Proof.
  intros Hi. unfold S3_Deregister. apply wp_bind, wp_gets, wp_bind, wp_gets.
  destruct (byBeam w !! _ ≫= _) as [r|] eqn:Er.
  2: { apply wp_ret. split; [done|]. rewrite (im_beams _ _ _ Hi) in Er. by rewrite delete_id. }
  apply wp_bind, wp_modify.
  assert (implements d (delete (beamKey beamID channel) g)
    (w <| byKey := delete (sb_accessKey r) (byKey w) |>
       <| byBeam := delete (beamKey beamID channel) (byBeam w) |>)) as Hi'.
  { destruct Hi as [Hd Hb Hk Hu]. split; simpl; [done| | |].
    - intros k. destruct (decide (k = beamKey beamID channel)) as [->|Hne].
      { by rewrite !lookup_delete_eq. }
      by rewrite !lookup_delete_ne by done.
    - intros k l [_ E]%lookup_delete_Some. eauto.
    - intros k l [Hne E]%lookup_delete_Some. destruct (Hu k l E) as (r' & Hr' & Ha & Hbe).
      exists r'. split_and!; [done|done|]. rewrite lookup_delete_ne; [done|].
      intros Hkey. rewrite Hkey, Hbe in Er. simpl in Er. congruence. }
  destruct (backend w) as [be|]; [|by apply wp_ret]. destruct purge; [|by apply wp_ret].
  apply wp_bind. unfold wp, s3_outside.
  destruct (be_ForceDeleteBucket _ _ _) as [a x]. split; [done|].
  by eapply implements_same, Hi'.
Qed.

Definition after_answer (g g' : gmap string S3Binding) (ans : S3Answer) :=
  match ans with S3NoContent => g' | _ => g end.
(** The answer of a control request says whether it was granted. *)
Lemma wp_answered d g g' w status (m : SM ()) :
  wp m (refines_step d g g') w →
  wp (s3_answered status m) (λ a w', ∃ ans, a = inr ans
    ∧ implements d (after_answer g g' ans) w') w.
Proof.
  intros Hm. unfold s3_answered. apply wp_bind, wp_attempt. eapply wp_mono; [exact Hm|].
  unfold refines_step. intros [e|[]] w' Hi; apply wp_ret; by eexists.
Qed.
Lemma wp_Control d g w auth req : implements d g w →
  wp (S3_Control auth req) (λ a w', ∃ ans, a = inr ans
    ∧ implements d (after_answer g (granted d req g) ans) w') w.
Proof.
  intros Hi. unfold S3_Control. apply wp_bind, wp_gets. case_match; [apply wp_ret; by eexists|].
  assert (∀ status msg, wp (mret (S3HTTPError status msg) : SM S3Answer) (λ a w', ∃ ans, a = inr ans
    ∧ implements d (after_answer g (granted d req g) ans) w') w) as Hno.
  { intros. apply wp_ret. by eexists. }
  destruct req as [[e|cfg]|[e|reg]|[e|dw]|[e|qw]|after|]; simpl; try apply Hno.
  - apply wp_answered. apply (wp_same _ d g); [apply same_SetProvider|done|]. by intros [].
  - by apply wp_answered, wp_RegisterKey.
  - apply wp_bind. eapply wp_mono; [by apply wp_Deregister|]. intros a w' [-> Hi'].
    apply wp_ret. by eexists.
  - by apply wp_answered, wp_SetQuota.
  - apply wp_gets. simpl. by eexists.
  - apply wp_bind, wp_gets. simpl. by eexists.
Qed.
Lemma outcome_same d g w {A} (f : A → Outcome) (m : SM A) :
  frames s3_same m → implements d g w → implements d g (outcome_of f m w).2.
Proof.
  intros Hm Hi. pose proof (implements_same d g _ _ (Hm w) Hi) as Hi'. unfold outcome_of.
  by destruct (m w).
Qed.
Lemma s3_step_implements d g op w : implements d g w →
  implements d (described d (op, (s3_step op w).1) g) (s3_step op w).2.
Proof.
  intros Hi. destruct op as [auth req|r| |x]; simpl.
  - pose proof (wp_Control d g w auth req Hi) as Hc. unfold wp, outcome_of in *.
    destruct (S3_Control auth req w) as [a w']. simpl in Hc. destruct Hc as (ans & -> & Hi'). simpl.
    by destruct ans.
  - apply outcome_same; [apply same_serve|done].
  - apply outcome_same; [apply same_LoadProvider|done].
  - by eapply implements_same, Hi.
Qed.

(** * Requests *)

(** The request is signed, recently, with the secret of [reg], which its access key finds. *)
Definition authentic w (r : Request) (reg : S3Binding) : Prop :=
  byKey w !! sb_accessKey reg ≫= (λ l, s3_heap w !! l) = Some reg
  ∧ ∃ auth cred signed sig date region service rest t,
      CutPrefix (Header_Get (rq_Header r) "Authorization") "AWS4-HMAC-SHA256 " = Some auth
      ∧ authorization_fields auth = (cred, signed, sig) ∧ signed ≠ EmptyString ∧ sig ≠ EmptyString
      ∧ SplitN cred "/" 5 = [sb_accessKey reg; date; region; service; rest]
      ∧ ParseBasic (Header_Get (rq_Header r) "X-Amz-Date") = Some t
      ∧ (- clockSkew w ≤ time_sub (s3_now (s3_out w)) t ≤ clockSkew w)%Z
      ∧ signature (sb_secret reg) r signed date region service = sig.
#[local] Opaque sha256 hmacSHA256 hex_encode signature.
Local Ltac agree :=
  repeat match goal with
  | H1 : ?a = _, H2 : ?a = _ |- _ =>
      let H := fresh in pose proof (eq_trans (eq_sym H1) H2) as H; clear H2; simplify_eq; try done
  end.
Local Ltac refuse :=
  let reg := fresh "reg" in intros reg; split; [done|];
  intros (Hfound & ?&?&?&?&?&?&?&?&?&H); destruct_and! H; agree.
Lemma wp_verify d g w r : implements d g w →
  wp (verify r) (λ a w', w' = w ∧ ∃ o, a = inr o ∧ ∀ reg, o = Some reg ↔ authentic w r reg) w.
Proof.
  intros Hi. unfold verify.
  assert (∀ o : option S3Binding, (∀ reg, o = Some reg ↔ authentic w r reg) →
    wp (mret o : SM _) (λ a w', w' = w ∧ ∃ o, a = inr o ∧ ∀ reg, o = Some reg ↔ authentic w r reg) w) as Hret.
  { intros o Ho. apply wp_ret. by eauto. }
  destruct (CutPrefix _ _) as [auth|] eqn:Ea; [|apply Hret; refuse].
  destruct (authorization_fields auth) as [[cred signed] sig] eqn:Ef.
  destruct (SplitN cred "/" 5) as [|ak [|date [|region [|service [|rest [|]]]]]] eqn:Es;
    try (apply Hret; refuse).
  case_decide as Hne; [apply Hret; refuse; by destruct Hne|].
  apply wp_bind, wp_gets. destruct (byKey w !! ak) as [l|] eqn:Ek; simpl.
  2: { apply Hret. refuse. rewrite Ek in Hfound. done. }
  destruct (im_keys _ _ _ Hi ak l Ek) as (reg0 & Hl & Hak & _). rewrite Hl.
  destruct (ParseBasic _) as [t|] eqn:Et; [|apply Hret; refuse].
  apply wp_bind, wp_gets, wp_bind, wp_gets. case_decide as Hs; [apply Hret; refuse; lia|].
  case_decide as Hsig; apply Hret.
  - intros reg; split.
    + intros [= <-]. split; [by rewrite Hak, Ek|].
      exists auth, cred, signed, sig, date, region, service, rest, t.
      rewrite Hak. split_and!; try done; [tauto..|lia|lia].
    + intros (Hfound & ?&?&?&?&?&?&?&?&?&H). destruct_and! H. agree.
      match goal with H : sb_accessKey reg0 = sb_accessKey reg |- _ => rewrite <-H, Ek in Hfound end.
      simpl in Hfound. congruence.
  - refuse. match goal with H : sb_accessKey reg0 = sb_accessKey _ |- _ => rewrite <-H, Ek in Hfound end.
    simpl in Hfound. congruence.
Qed.
Lemma authentic_registered d g w r reg : implements d g w → authentic w r reg → g !! key_of reg = Some reg.
Proof.
  intros Hi [Hk _]. destruct (byKey w !! sb_accessKey reg) as [l|] eqn:El; [|done]. simpl in Hk.
  destruct (im_keys _ _ _ Hi _ l El) as (r' & Hr' & _ & Hb). simplify_eq.
  by rewrite <-(im_beams _ _ _ Hi), Hb.
Qed.

(** Inside its beam's bucket: the path's first segment is it (or empty), the decoded key does
    not climb, and a copy source is the bucket's own and does not either. *)
Definition confined (r : Request) (reg : S3Binding) : Prop :=
  (firstSeg (rq_EscapedPath r) = EmptyString ∨ firstSeg (rq_EscapedPath r) = sb_bucket reg)
  ∧ (secondSeg (rq_EscapedPath r) = EmptyString
     ∨ ∃ key, PathUnescape (secondSeg (rq_EscapedPath r)) = Some key ∧ ".." ∉ Split key "/")
  ∧ (Header_Get (rq_Header r) "X-Amz-Copy-Source" = EmptyString
     ∨ ∃ key, parseCopySource (Header_Get (rq_Header r) "X-Amz-Copy-Source") = Some (sb_bucket reg, key)
         ∧ ".." ∉ Split key "/").
Lemma keyEscapesBucket_false key decode : keyEscapesBucket key decode = false →
  ∃ k, decode key = Some k ∧ ".." ∉ Split k "/".
Proof.
  unfold keyEscapesBucket. destruct (decode key) as [k|]; [|done]. intros He. exists k. split; [done|].
  intros Hin. apply not_true_iff_false in He. apply He, existsb_exists. exists "..".
  by rewrite <-list_elem_of_In, bool_decide_true.
Qed.
Lemma copy_allowed_own r bucket : copy_allowed r bucket = true →
  Header_Get (rq_Header r) "X-Amz-Copy-Source" = EmptyString
  ∨ ∃ key, parseCopySource (Header_Get (rq_Header r) "X-Amz-Copy-Source") = Some (bucket, key)
      ∧ ".." ∉ Split key "/".
Proof.
  unfold copy_allowed. case_bool_decide as He; [by left|]. simpl.
  destruct (parseCopySource _) as [[b k]|]; [|done]. case_bool_decide as Hb; [subst b|done].
  simpl. rewrite negb_true_iff. intros (k' & [= <-] & Hk)%keyEscapesBucket_false. right. by exists k.
Qed.

(** The bucket was listed, or nothing outside was touched. *)
Definition only_listed (bucket : string) (x x' : X) : Prop :=
  x' = x ∨ ∃ be, x' = (be_ListBucket be bucket x).2.
(** The sum of a listing fits with what comes in. *)
Definition fits be (reg : S3Binding) (r : Request) (x : X) : Prop :=
  match (be_ListBucket be (sb_bucket reg) x).1 with
  | inl _ => (wrap64 (0 + incomingSize r) ≤ sb_maxBytes reg)%Z
  | inr sizes => (wrap64 (foldl (λ total n, wrap64 (total + n)) 0 sizes + incomingSize r) ≤ sb_maxBytes reg)%Z
  end.
(** The engine was called, once, with the request and a plain body; a mutation or a failure is
    recorded for the beam. *)
Record engine_ran w w' (r : Request) (reg : S3Binding) (status : Z) : Prop := {
  er_call : ∃ be x r', backend w = Some be ∧ only_listed (sb_bucket reg) (s3_out w) x
    ∧ normalizeChunked r = inr r' ∧ engine_ServeHTTP be r' x = (status, s3_out w');
  er_event : s3_control w' = s3_control w
    ∨ ∃ ev, s3_control w' = Record_ ev (s3_control w) ∧ SE_BeamID ev = sb_beamID reg
        ∧ SE_Channel ev = sb_channel reg ∧ SE_Op ev = opOf r (secondSeg (rq_EscapedPath r))
        ∧ SE_Result ev = (if bool_decide (400 ≤ status)%Z then "failed" else "ok");
  er_recorded : (400 ≤ status)%Z ∨ (classify r (secondSeg (rq_EscapedPath r))).1.2 = true →
    s3_control w' ≠ s3_control w }.
Definition refused w w' : Prop := ∃ ev, s3_control w' = Record_ ev (s3_control w)
  ∧ (SE_Result ev = "denied" ∨ SE_Result ev = "failed").

Lemma Record_moves (ev : S3Event) c : Record_ ev c ≠ c.
Proof. intros E. apply (f_equal cs_next) in E. simpl in E. lia. Qed.
Lemma wp_over_quota w reg r quotaWrite :
  wp (over_quota reg r quotaWrite) (λ a w', ∃ over, a = inr over
    ∧ ∃ x, only_listed (sb_bucket reg) (s3_out w) x ∧ w' = w <| s3_out := x |>
    ∧ (over = false → quotaWrite = true → (0 < sb_maxBytes reg)%Z → (0 < incomingSize r)%Z →
       ∀ be, backend w = Some be → fits be reg r (s3_out w))) w.
Proof.
  assert (∀ w : World, w <| s3_out := s3_out w |> = w) as Hsame by (by intros []).
  unfold over_quota. destruct (quotaWrite && _ && _) eqn:Eq.
  2: { apply wp_ret. eexists. split; [done|]. exists (s3_out w). rewrite Hsame.
       split_and!; [by left|done|]. intros _ -> H1 H2. by rewrite !bool_decide_true in Eq. }
  apply wp_bind. unfold bucketUsage. apply wp_bind, wp_gets. destruct (backend w) as [be|] eqn:Eb.
  - apply wp_bind. unfold wp, s3_outside. unfold fits.
    destruct (be_ListBucket be (sb_bucket reg) (s3_out w)) as [l x] eqn:El. simpl. eexists.
    split; [done|]. exists x. split_and!; [right; exists be; by rewrite El|done|].
    intros Hov _ _ _ be' [= <-]. rewrite El. simpl. apply bool_decide_eq_false in Hov.
    destruct l; lia.
  - apply wp_ret, wp_ret. eexists. split; [done|]. exists (s3_out w). rewrite Hsame.
    split_and!; [by left|done|done].
Qed.

(** What each answer of a request means. *)
Definition answer_spec g w w' (r : Request) (a : Answer) : Prop :=
  match a with
  | OwnBucketList bucket => w' = w ∧ ∃ reg, authentic w r reg ∧ g !! key_of reg = Some reg ∧ bucket = sb_bucket reg
  | s3Error status _ =>
      ((∀ reg, ¬ authentic w r reg) ∧ status = 403%Z ∧ s3_out w' = s3_out w ∧ refused w w')
      ∨ ∃ reg, authentic w r reg ∧ only_listed (sb_bucket reg) (s3_out w) (s3_out w')
          ∧ (refused w w' ∨ status = 503%Z ∧ backend w = None)
  | EngineStatus status => ∃ reg, authentic w r reg ∧ g !! key_of reg = Some reg ∧ confined r reg
      ∧ engine_ran w w' r reg status
      ∧ ((classify r (secondSeg (rq_EscapedPath r))).2 = true → (0 < sb_maxBytes reg)%Z →
         (0 < incomingSize r)%Z → ∀ be, backend w = Some be → fits be reg r (s3_out w))
  end.
Lemma wp_run_engine reg r' (o bucket key : string) mutation w :
  wp (run_engine reg r' o bucket key mutation) (λ a w', ∃ ans, a = inr ans ∧
    ((ans = s3Error 503 "ServiceUnavailable" ∧ w' = w ∧ backend w = None)
     ∨ ∃ be status, ans = EngineStatus status ∧ backend w = Some be
         ∧ engine_ServeHTTP be r' (s3_out w) = (status, s3_out w')
         ∧ s3_control w' = if mutation || bool_decide (400 ≤ status)%Z
             then Record_ (event_of reg o bucket key (incomingSize r')
                    (if bool_decide (400 ≤ status)%Z then "failed" else "ok")
                    (if bool_decide (400 ≤ status)%Z then "status " +:+ format_int status else EmptyString))
                    (s3_control w)
             else s3_control w)) w.
Proof.
  unfold run_engine. apply wp_bind, wp_gets. destruct (backend w) as [be|] eqn:Eb.
  2: { apply wp_ret. eexists. split; [done|]. by left. }
  apply wp_bind. unfold wp at 1, ServeHTTP. destruct (engine_ServeHTTP be r' (s3_out w)) as [status x] eqn:Ee.
  simpl. destruct (bool_decide (400 ≤ status)%Z) eqn:Es, mutation; apply wp_bind, wp_ret; eexists; split; try done;
    right; exists be, status; rewrite ?Es; by split_and!.
Qed.
Lemma wp_serve d g w r : implements d g w →
  wp (serve r) (λ a w', ∃ ans, a = inr ans ∧ answer_spec g w w' r ans) w.
Proof.
  intros Hi. unfold serve. apply wp_bind. eapply wp_mono; [by apply (wp_verify d g)|].
  intros _ _ (-> & found & -> & Ho). destruct found as [reg|].
  2: { apply wp_bind, wp_modify, wp_ret. eexists. split; [done|]. left. split_and!; [|done|done|].
       - intros reg Hreg%Ho. done.
       - eexists. split; [done|]. by left. }
  assert (authentic w r reg) as Ha by by apply Ho. pose proof (authentic_registered _ _ _ _ _ Hi Ha) as Hg.
  case_decide; [apply wp_ret; eexists; split; [done|]; split; [done|]; by exists reg|].
  assert (∀ ev status code, SE_Result ev = "denied" ∨ SE_Result ev = "failed" → ∀ w1,
    only_listed (sb_bucket reg) (s3_out w) (s3_out w1) → s3_control w1 = s3_control w →
    wp (s3_emit ev;; mret (s3Error status code)) (λ a w', ∃ ans, a = inr ans ∧ answer_spec g w w' r ans) w1) as Hdeny.
  { intros ev status code Hev w1 Hl Hc. apply wp_bind, wp_modify, wp_ret. eexists. split; [done|]. right.
    exists reg. split_and!; [done|done|]. left. exists ev. simpl. by rewrite Hc. }
  case_decide as Hb; [apply Hdeny; [by left..|done]|].
  case_match eqn:Hk; [apply Hdeny; [by left..|done]|].
  case_match eqn:Hcp; [apply Hdeny; [by left..|done]|].
  destruct (classify r (secondSeg (rq_EscapedPath r))) as [[o mutation] quotaWrite] eqn:Ecl.
  apply wp_bind. eapply wp_mono; [apply wp_over_quota|].
  intros _ _ (over & -> & x & Hx & -> & Hfit). destruct over.
  { apply Hdeny; [by left|done|done]. }
  destruct (normalizeChunked r) as [e|r'] eqn:En; [apply Hdeny; [by right|done|done]|].
  eapply wp_mono; [apply (wp_run_engine reg r')|].
  intros _ w' (ans & -> & Hans). exists ans. split; [done|].
  destruct Hans as [(-> & -> & Hbe)|(be & status & -> & Hbe & Hcall & Hev)].
  { right. exists reg. split_and!; [done|done|]. right. done. }
  exists reg. split_and!; [done|done| | |].
  - split_and!.
    + destruct (decide (firstSeg (rq_EscapedPath r) = EmptyString)); [by left|right].
      destruct (decide (firstSeg (rq_EscapedPath r) = sb_bucket reg)); [done|]. by destruct Hb.
    + destruct (decide (secondSeg (rq_EscapedPath r) = EmptyString)) as [|Hne]; [by left|right].
      rewrite bool_decide_false in Hk by done. by apply keyEscapesBucket_false.
    + apply copy_allowed_own. by apply negb_false_iff.
  - split.
    + exists be, x, r'. done.
    + simpl in Hev. destruct (mutation || _) eqn:Em; [right|by left].
      eexists. split; [exact Hev|]. unfold opOf. by rewrite Ecl.
    + simpl in Hev. rewrite Ecl. simpl. intros Hm.
      rewrite Hev. case_match eqn:Em; [apply Record_moves|]. apply orb_false_iff in Em as [-> ?%bool_decide_eq_false].
      by destruct Hm.
  - rewrite Ecl. simpl in *. intros. by apply Hfit.
Qed.
End run.

(** Where the default quota of a broker comes from. *)
Definition default_quota (maxBytes : Z) : Z := if decide (0 < maxBytes)%Z then maxBytes else 0%Z.
Lemma history_implements {X} `{!ObjectHost X} dir token maxBytes skew past w :
  s3_history dir token maxBytes skew past w →
  implements (default_quota maxBytes) (registry (default_quota maxBytes) past) w.
Proof.
  induction 1 as [x|past w op _ IH].
  - unfold S3_New. case_decide; [by split|]. destruct (open_backend LocalBackend x). by split.
  - unfold registry. rewrite foldl_app. simpl. by apply s3_step_implements.
Qed.

(** The broker's registry is the map its history describes.  However control requests,
    provider changes and the beams' requests mix, and whatever the outside does, looking up a
    beam gives exactly the binding that the control requests answered with success describe,
    and an access key finds a binding only while it is its beam's current one: a replaced or
    deregistered key finds nothing. *)
Theorem registry_refines {X} `{!ObjectHost X} (dir token : string) (maxBytes : Z) (skew : duration)
    (past : list (S3Op X * Outcome)) (w : S3Broker X)
    (Hpast : s3_history dir token maxBytes skew past w) :
  (∀ beamID channel, byBeam w !! beamKey beamID channel ≫= (λ l, s3_heap w !! l)
     = registry (default_quota maxBytes) past !! beamKey beamID channel)
  ∧ ∀ accessKey, match (s3_lookup accessKey w).1 with
                 | inr (Some reg) => sb_accessKey reg = accessKey
                     ∧ registry (default_quota maxBytes) past !! key_of reg = Some reg
                 | inr None => True
                 | inl _ => False
                 end.
Proof.
  apply history_implements in Hpast as Hi. split; [intros; apply (im_beams _ _ _ Hi)|].
  intros ak. unfold s3_lookup, gets. simpl. destruct (byKey w !! ak) as [l|] eqn:El; [|done]. simpl.
  destruct (im_keys _ _ _ Hi ak l El) as (r & Hr & Ha & Hb). rewrite Hr. split; [done|].
  by rewrite <-(im_beams _ _ _ Hi), Hb.
Qed.

(** * A small broker *)

(** The clock and the requests the engine served. *)
Record Objects := MkObjects {
  ob_now : Z;
  ob_served : list (string * string)}.
#[export] Instance Objects_host : ObjectHost Objects := {|
  s3_now := ob_now;
  s3_rand n x := (inr EmptyString, x);
  open_backend _ x := (inr tt, x);
  be_BucketExists _ _ x := (inr false, x);
  be_CreateBucket _ _ x := (inr tt, x);
  be_ForceDeleteBucket _ _ x := (inr tt, x);
  be_ListBucket _ _ x := (inr [40%Z], x);
  engine_ServeHTTP _ r x := (200%Z, MkObjects (ob_now x) ((rq_Method r, rq_EscapedPath r) :: ob_served x));
  is_already_exists _ := false;
  s3_save_provider _ x := x;
  s3_remove_provider x := x;
  s3_load_provider _ := None |}.
Definition small_start : S3Broker Objects :=
  S3_New "/var/lib/objects" "token" 0 0%Z (MkObjects (1767225600 * 10 ^ 9) []).
Definition small_register : S3Op Objects :=
  SControl "Bearer token" (S3PostRegister (inr
    (MkS3Registration "beam-1" "preview" "BHKEY" "secret" "bucket-1" 100))).
(** A request of [size] bytes signed with [secret]. *)
Definition small_request (secret meth path : string) (size : Z) : Request :=
  let header sig := {["X-Amz-Date" := ["20260101T000000Z"]; "X-Amz-Content-Sha256" := [unsignedPayload];
    "Authorization" := ["AWS4-HMAC-SHA256 Credential=BHKEY/20260101/us-east-1/s3/aws4_request, SignedHeaders=host;x-amz-date, Signature=" +:+ sig]]} in
  let r sig := MkRequest meth path ∅ "objects.local" size (header sig) (Plain (MkStream EmptyString None)) in
  r (signature secret (r EmptyString) "host;x-amz-date" "20260101" "us-east-1" "s3").
Definition small_past : list (S3Op Objects * Outcome) :=
  [(small_register, (s3_step small_register small_start).1)].
Definition small_broker : S3Broker Objects := (s3_step small_register small_start).2.
Lemma small_history : s3_history "/var/lib/objects" "token" 0 0%Z small_past small_broker.
Proof. apply (s3_after _ _ _ _ []), s3_start. Qed.

Example small_answers :
  ((λ '(secret, meth, path, size), (s3_step (SRequest (small_request secret meth path size)) small_broker).1) <$>
    [("secret", "PUT", "/bucket-1/notes/a.txt", 60%Z);
     ("secret", "PUT", "/bucket-1/notes/a.txt", 61%Z);
     ("secret", "GET", "/bucket-2/notes/a.txt", 0%Z);
     ("secret", "GET", "/bucket-1/notes/%2e%2e/a.txt", 0%Z);
     ("guess", "GET", "/bucket-1/notes/a.txt", 0%Z);
     ("secret", "GET", "/", 0%Z)])
  = [Served (EngineStatus 200); Served (s3Error 507 "QuotaExceeded"); Served (s3Error 403 "AccessDenied");
     Served (s3Error 403 "AccessDenied"); Served (s3Error 403 "SignatureDoesNotMatch");
     Served (OwnBucketList "bucket-1")].
Proof. vm_compute. reflexivity. Qed.
Lemma registry_refines_witness :
  byBeam small_broker !! beamKey "beam-1" "preview" ≫= (λ l, s3_heap small_broker !! l)
  = Some (MkS3Binding "beam-1" "preview" "BHKEY" "secret" "bucket-1" 100).
Proof.
  destruct (registry_refines "/var/lib/objects" "token" 0 0%Z small_past small_broker small_history) as [H _].
  rewrite H. vm_compute. reflexivity.
Defined.
