(* ===== verification/Mail.v ===== *)
(** The mail broker (internal/facility/mail/mail.go, relay.go, forward.go and the handlers of
    control.go): the registry of beams, the submission sessions and the forwarder to the
    smarthost.  A registration is a heap object: the registry's two maps and every session
    that authenticated share it.  Lemmas on who may send as whom. *)
From S2P Require Import Prelude Regexp GoStrings Sha256 Outside EventRing.

(** * The sender policy *)

(** One entry of an allowlist against a sender and its domain. *)
Definition entry_allows (from dom a : string) : bool :=
  let a := ToLower (TrimSpace a) in
  match a with
  | EmptyString => false
  | String c rest =>
      if bool_decide (c = "@"%char) then bool_decide (dom = rest)
      else if Contains_byte "@" a then bool_decide (from = a)
      else bool_decide (dom = a)
  end.
Definition senderAllowed (from : string) (allowed : list string) : bool :=
  let from := ToLower (Trim (TrimSpace from) "<>") in
  if decide (from = EmptyString ∨ allowed = []) then false
  else match LastIndexByte from "@" with
       | None => false
       | Some at_ =>
           let dom := String.substring (S at_) (String.length from - S at_) from in
           existsb (entry_allows from dom) allowed
       end.

(** * The broker's state *)

(** golang.org/x/time/rate: a token bucket refilled at [PerDay] tokens a day, holding at most
    [Burst]; instants are nanoseconds of a monotonic clock. *)
Class RateLimiter (L : Type) := {
  NewLimiter : MailLimits → Z → L;
  limiter_allow : Z → L → bool * L }.
(** net/mail: the header of a message, its keys canonical, and the addresses of a header. *)
Class MailParser := {
  ReadMessage : string → option (gmap string (list string));
  ParseAddressList : string → option (list string) }.

Inductive Forwarder :=
  | SMTPForwarder (cfg : MailProvider)
  | Pinned.
#[export] Instance MailLimits_eq_dec : EqDecision MailLimits.
Proof. solve_decision. Defined.
Record Envelope := MkEnvelope {
  Env_From : string;
  Env_To : list string;
  Env_Data : string}.
(** What the broker reaches outside: the clock, crypto/rand, the south side and the file its
    provider is persisted in ([None]: it cannot be read; an error: it cannot be parsed). *)
Class MailHost (X : Type) := {
  mail_now : X → Z;
  rand_Read : nat → ext X string;
  Forward : Forwarder → Envelope → ext X ();
  save_provider : MailProvider → X → X;
  remove_provider : X → X;
  load_provider : X → option (string + MailProvider) }.

Record Registration (L : Type) := MkRegistration {
  rg_beamID : string;
  rg_username : string;
  rg_passHash : string;
  rg_allowed : list string;
  rg_limiter : L}.
Arguments MkRegistration {L} _ _ _ _ _.
Arguments rg_beamID {L} _.
Arguments rg_username {L} _.
Arguments rg_passHash {L} _.
Arguments rg_allowed {L} _.
Arguments rg_limiter {L} _.
#[export] Instance Eta_Registration L : Eta (Registration L) := λ r, MkRegistration (rg_beamID r)
  (rg_username r) (rg_passHash r) (rg_allowed r) (rg_limiter r).

(** session: authenticated when it has a registration. *)
Record Session := MkSession {
  se_authed : bool;
  se_reg : nat;
  se_from : string;
  se_to : list string}.
#[export] Instance Eta_Session : Eta Session := λ s,
  MkSession (se_authed s) (se_reg s) (se_from s) (se_to s).

Record MailBroker (L X : Type) := MkMailBroker {
  heap : gmap nat (Registration L);
  byUser : gmap string nat;
  byBeam : gmap string nat;
  provider : option MailProvider;
  forwarder : option Forwarder;
  pinForwarder : bool;
  defaults : MailLimits;
  providerStoreDir : string;
  control : ControlServer MailEvent;
  certPEM : string;
  outside_ : X}.
Arguments MkMailBroker {L X} _ _ _ _ _ _ _ _ _ _ _.
Arguments heap {L X} _.
Arguments byUser {L X} _.
Arguments byBeam {L X} _.
Arguments provider {L X} _.
Arguments forwarder {L X} _.
Arguments pinForwarder {L X} _.
Arguments defaults {L X} _.
Arguments providerStoreDir {L X} _.
Arguments control {L X} _.
Arguments certPEM {L X} _.
Arguments outside_ {L X} _.
#[export] Instance Eta_MailBroker L X : Eta (MailBroker L X) := λ b, MkMailBroker (heap b)
  (byUser b) (byBeam b) (provider b) (forwarder b) (pinForwarder b) (defaults b)
  (providerStoreDir b) (control b) (certPEM b) (outside_ b).

Inductive MailError :=
  | MErrNotEnabled
  | MErrUnknownBeam
  | MErrRateLimited
  | MErrHeaderFrom
  | MErrUpstream (e : string)
  | MErr (msg : string)
  | ErrAuthFailed
  | ErrAuthRequired
  | ErrAuthUnknownMechanism
  | SMTPError (code : Z) (enhanced : Z * Z * Z) (message : string).

Section broker.
Context {L X : Type} `{!RateLimiter L, !MailParser, !MailHost X}.
Notation World := (MailBroker L X).
Notation MM := (M World MailError).

(** mail.New with a provider store, the ring as the audit sink. *)
Definition Mail_New (dir token : string) (x : X) : World :=
  MkMailBroker ∅ ∅ ∅ None None false (MkMailLimits 300 20) dir (NewControlServer token 0) EmptyString x.

Definition mail_outside {A} (f : ext X A) : MM (string + A) := λ w,
  let '(r, x) := f (outside_ w) in (inr r, w <| outside_ := x |>).
Definition deref (l : nat) : MM (Registration L) := λ w,
  match heap w !! l with Some r => (inr r, w) | None => (inl (MErr "nil pointer"), w) end.
Definition emit (ev : MailEvent) : MM () :=
  modify (λ w, w <| control := Record_ ev (control w) |>).
Definition Enabled : MM bool := gets (λ w, bool_decide (is_Some (forwarder w))).

(** * The registry *)

Definition positive_or (n d : Z) : Z := if decide (n ≤ 0)%Z then d else n.
(** A fresh object, and the two maps. *)
Definition registerHashed (beamID username passHash : string) (allowed : list string)
    (limits : MailLimits) : MM () :=
  modify (λ w,
    let limits := MkMailLimits (positive_or (PerDay limits) (PerDay (defaults w)))
                               (positive_or (Burst limits) (Burst (defaults w))) in
    let r := MkRegistration beamID username passHash allowed
               (NewLimiter limits (mail_now (outside_ w))) in
    let l := fresh (dom (heap w)) in
    let users := match byBeam w !! beamID ≫= λ old, heap w !! old with
                 | Some old => delete (rg_username old) (byUser w)
                 | None => byUser w
                 end in
    w <| heap := <[l := r]> (heap w) |> <| byUser := <[username := l]> users |>
      <| byBeam := <[beamID := l]> (byBeam w) |>).
Definition register (beamID username password : string) (allowed : list string)
    (limits : MailLimits) : MM () :=
  registerHashed beamID username (sha256 password) allowed limits.
Definition RegisterHashed (beamID username passHashHex : string) (allowed : list string)
    (limits : MailLimits) : MM () :=
  match hex_decode passHashHex with
  | Some h => if decide (String.length h = 32) then registerHashed beamID username h allowed limits
              else throw (MErr "mail: invalid password hash")
  | None => throw (MErr "mail: invalid password hash")
  end.
Definition beamUsername (beamID : string) : string := "beam-" +:+ beamID.
Definition PasswordHashHex (password : string) : string := sha256_hex password.
Definition randomPassword : MM string :=
  r ← mail_outside (rand_Read 24);
  match r with inl e => throw (MErr e) | inr b => mret (hex_encode b) end.

Definition Mail_Provision (req : MailRequest) : MM MailCredentials :=
  enabled ← Enabled;
  if negb enabled then throw MErrNotEnabled
  else if decide (MR_BeamID req = EmptyString) then throw (MErr "mail: empty beam id")
  else
  pw ← randomPassword;
  let username := beamUsername (MR_BeamID req) in
  register (MR_BeamID req) username pw (MR_AllowedSenders req) (MR_Limits req);;
  mret (MkMailCredentials username pw).
(** mail.Registration, the argument of Restore *)
Definition Mail_Restore (beamID username password : string) (allowed : list string)
    (limits : MailLimits) : MM () :=
  if decide (beamID = EmptyString ∨ username = EmptyString) then
    throw (MErr "mail: incomplete registration")
  else register beamID username password allowed limits.

Definition setAllowed (l : nat) (allowed : list string) : MM () :=
  modify (λ w, w <| heap := alter (λ r, r <| rg_allowed := allowed |>) l (heap w) |>).
Definition SetSenders (beamID : string) (allowed : list string) : MM () :=
  l ← gets (λ w, byBeam w !! beamID);
  match l with None => throw MErrUnknownBeam | Some l => setAllowed l allowed end.
Definition Deregister (beamID : string) : MM () :=
  modify (λ w,
    match byBeam w !! beamID ≫= λ l, heap w !! l with
    | Some r => w <| byUser := delete (rg_username r) (byUser w) |>
                  <| byBeam := delete beamID (byBeam w) |>
    | None => w
    end).
Definition lookup_user (username : string) : MM (option nat) := gets (λ w, byUser w !! username).

Definition persistProvider (cfg : MailProvider) (w : World) : World :=
  if decide (providerStoreDir w = EmptyString) then w
  else if decide (Smarthost cfg = EmptyString) then w <| outside_ := remove_provider (outside_ w) |>
  else w <| outside_ := save_provider cfg (outside_ w) |>.
Definition SetProvider (cfg : MailProvider) : MM () :=
  modify (λ w,
    persistProvider cfg (w <| provider := Some cfg |>
      <| forwarder := if pinForwarder w then forwarder w
                      else if decide (Smarthost cfg = EmptyString) then None
                      else Some (SMTPForwarder cfg) |>)).
Definition LoadProvider : MM () :=
  dir ← gets providerStoreDir;
  if decide (dir = EmptyString) then mret tt
  else
  r ← gets (λ w, load_provider (outside_ w));
  match r with
  | None => mret tt
  | Some (inl e) => throw (MErr ("mail: parse persisted provider: " +:+ e))
  | Some (inr cfg) => SetProvider cfg
  end.

(** * Delivery *)

Definition header_get (key : string) (h : gmap string (list string)) : string :=
  match h !! key with Some (v :: _) => v | _ => EmptyString end.
Definition headerFromAllowed (data : string) (allowed : list string) : bool :=
  match ReadMessage data with
  | None => false
  | Some h =>
      if decide (1 < length (default [] (h !! "From"))) then false
      else if decide (header_get "From" h = EmptyString) then false
      else match ParseAddressList (header_get "From" h) with
           | None | Some [] => false
           | Some addrs => forallb (λ a, senderAllowed a allowed) addrs
           end
  end.
Definition parseHeaders (data : string) : string * string :=
  match ReadMessage data with
  | None => (EmptyString, EmptyString)
  | Some h => (header_get "Subject" h, header_get "Message-Id" h)
  end.

(** reg.limiter.Allow() *)
Definition limiter_Allow_ (l : nat) : MM bool :=
  r ← deref l;
  t ← gets (λ w, mail_now (outside_ w));
  let '(ok, lim) := limiter_allow t (rg_limiter r) in
  modify (λ w, w <| heap := <[l := r <| rg_limiter := lim |>]> (heap w) |>);;
  mret ok.

Definition deliver (l : nat) (from : string) (to : list string) (data : string) : MM (option MailError) :=
  reg ← deref l;
  let '(subject, messageID) := parseHeaders data in
  let ev := MkMailEvent (rg_beamID reg) from to (Z.of_nat (String.length data)) subject messageID
              EmptyString EmptyString in
  let ended result err e :=
    emit (ev <| ME_Result := result |> <| ME_Err := err |>);; mret e in
  if negb (headerFromAllowed data (rg_allowed reg)) then
    ended "rejected" "header From not permitted" (Some MErrHeaderFrom)
  else
  ok ← limiter_Allow_ l;
  if negb ok then ended "rejected" "rate limit exceeded" (Some MErrRateLimited)
  else
  fwd ← gets forwarder;
  match fwd with
  | None => ended "failed" "no provider configured" (Some MErrNotEnabled)
  | Some fwd =>
      r ← mail_outside (Forward fwd (MkEnvelope from to data));
      match r with
      | inl e => ended "failed" e (Some (MErrUpstream e))
      | inr _ => ended "sent" EmptyString None
      end
  end.

(** * Submission sessions (relay.go) *)

Definition NewSession : Session := MkSession false 0 EmptyString [].
Definition checkPassword (r : Registration L) (pw : string) : bool :=
  bool_decide (sha256 pw = rg_passHash r).
Definition authenticate (s : Session) (username password : string) : MM Session :=
  l ← lookup_user username;
  match l with
  | None => throw ErrAuthFailed
  | Some l =>
      r ← deref l;
      if checkPassword r password then mret (s <| se_authed := true |> <| se_reg := l |>)
      else throw ErrAuthFailed
  end.
Definition sender_error : MailError := SMTPError 550 (5, 7, 1)%Z "sender address not permitted for this beam".
Definition Mail_ (s : Session) (from : string) : MM Session :=
  if negb (se_authed s) then throw ErrAuthRequired
  else
  r ← deref (se_reg s);
  if negb (senderAllowed from (rg_allowed r)) then
    emit (MkMailEvent (rg_beamID r) from [] 0 EmptyString EmptyString "rejected" "sender not permitted");;
    throw sender_error
  else mret (s <| se_from := from |> <| se_to := [] |>).
Definition Rcpt (s : Session) (to : string) : MM Session :=
  if negb (se_authed s) then throw ErrAuthRequired
  else mret (s <| se_to := se_to s ++ [to] |>).
(** Data of a reader that gives the message or fails. *)
Definition Data (s : Session) (data : string + string) : MM () :=
  if negb (se_authed s) then throw ErrAuthRequired
  else
  match data with
  | inl e => throw (MErr e)
  | inr data =>
      r ← deliver (se_reg s) (se_from s) (se_to s) data;
      match r with
      | None => mret tt
      | Some MErrHeaderFrom =>
          throw (SMTPError 550 (5, 7, 1)%Z "From header address not permitted for this beam")
      | Some MErrRateLimited =>
          throw (SMTPError 451 (4, 7, 0)%Z "rate limit exceeded for this beam, retry later")
      | Some _ => throw (SMTPError 451 (4, 3, 0)%Z "upstream delivery failed, retry later")
      end
  end.
Definition Reset (s : Session) : Session := s <| se_from := EmptyString |> <| se_to := [] |>.

(** loginServer: the username it has, then the password. *)
Inductive LoginServer :=
  | LoginStart
  | LoginUser
  | LoginPassword (username : string).
(** Next: a challenge and the next state, or the session authenticated. *)
Definition Next (s : Session) (st : LoginServer) (response : string)
    : MM (string * LoginServer + Session) :=
  match st with
  | LoginStart =>
      mret (inl (if decide (0 < String.length response) then ("Password:", LoginPassword response)
                 else ("Username:", LoginUser)))
  | LoginUser => mret (inl ("Password:", LoginPassword response))
  | LoginPassword u => s ← authenticate s u response; mret (inr s)
  end.

(** * The control channel (control.go) *)

(** registerWire and sendersWire *)
Record RegisterWire := MkRegisterWire {
  RW_BeamID : string;
  RW_Username : string;
  RW_PassHashHex : string;
  RW_Allowed : list string;
  RW_PerDay : Z;
  RW_Burst : Z}.
Record SendersWire := MkSendersWire {
  SW_BeamID : string;
  SW_Allowed : list string}.
(** A request to the control mux; a body is what decoding its JSON gives. *)
Inductive ControlRequest :=
  | PostProvider (body : string + MailProvider)
  | PostRegister (body : string + RegisterWire)
  | PostDeregister (body : string + string)
  | PostSenders (body : string + SendersWire)
  | GetEvents (after : string)
  | GetStatus
  | GetTLSCert.
Inductive ControlAnswer :=
  | NoContent
  | HTTPError (status : Z) (msg : string)
  | EventsWire (events : list (SeqEvent MailEvent)) (next : Z)
  | StatusWire (enabled : bool) (next : Z)
  | CertPEM (pem : string).

Definition Mail_Error (e : MailError) : string :=
  match e with
  | MErrNotEnabled => "mail: no delivery provider configured"
  | MErrUnknownBeam => "mail: beam not registered for email"
  | MErrRateLimited => "mail: rate limit exceeded"
  | MErrHeaderFrom => "mail: header From not permitted"
  | MErrUpstream e => "upstream delivery: " +:+ e
  | MErr msg => msg
  | ErrAuthFailed => "Authentication failed"
  | ErrAuthRequired => "Please authenticate first"
  | ErrAuthUnknownMechanism => "Unsupported authentication mechanism"
  | SMTPError _ _ msg => msg
  end.
(** The answer of a call that may fail, with the status of its failure. *)
Definition answered (status : Z) (m : MM ()) : MM ControlAnswer :=
  r ← attempt m;
  mret (match r with inl e => HTTPError status (Mail_Error e) | inr _ => NoContent end).
Definition decoded {A} (body : string + A) (k : A → MM ControlAnswer) : MM ControlAnswer :=
  match body with inl e => mret (HTTPError 400 e) | inr a => k a end.
Definition handleRegister (rw : RegisterWire) : MM ControlAnswer :=
  answered 400 (RegisterHashed (RW_BeamID rw) (RW_Username rw) (RW_PassHashHex rw) (RW_Allowed rw)
    (MkMailLimits (RW_PerDay rw) (RW_Burst rw))).
Definition handle (req : ControlRequest) : MM ControlAnswer :=
  match req with
  | PostProvider body => decoded body (λ cfg, SetProvider cfg;; mret NoContent)
  | PostRegister body => decoded body handleRegister
  | PostDeregister body => decoded body (λ b, Deregister b;; mret NoContent)
  | PostSenders body => decoded body (λ sw, answered 404 (SetSenders (SW_BeamID sw) (SW_Allowed sw)))
  | GetEvents after =>
      gets (λ w, let '(events, next) := eventsAfter (parseInt after) (control w) in EventsWire events next)
  | GetStatus =>
      enabled ← Enabled; gets (λ w, StatusWire enabled (cs_next (control w) - 1))
  | GetTLSCert => gets (λ w, CertPEM (certPEM w))
  end.
Definition Handler (authorization : string) (req : ControlRequest) : MM ControlAnswer :=
  token ← gets (λ w, cs_token (control w));
  if negb (guard token authorization) then mret (HTTPError 401 "unauthorized") else handle req.

(** * The backplane's side (client.go), over this handler *)
Section client.
Context (token : string).

Definition client_do (req : ControlRequest) : MM ControlAnswer :=
  a ← Handler ("Bearer " +:+ token) req;
  match a with
  | HTTPError status msg => throw (MErr ("mail control: " +:+ format_int status +:+ ": " +:+ TrimSpace msg))
  | a => mret a
  end.
Definition Client_RegisterHashed (beamID username passHashHex : string) (allowed : list string)
    (limits : MailLimits) : MM () :=
  client_do (PostRegister (inr (MkRegisterWire beamID username passHashHex allowed
                                  (PerDay limits) (Burst limits))));;
  mret tt.
(** The random bytes are the backplane's; the broker sees the hash only. *)
Definition Client_Provision (rand : string + string) (req : MailRequest) : MM MailCredentials :=
  match rand with
  | inl e => throw (MErr e)
  | inr b =>
      let pw := hex_encode b in
      let username := beamUsername (MR_BeamID req) in
      Client_RegisterHashed (MR_BeamID req) username (PasswordHashHex pw) (MR_AllowedSenders req)
        (MR_Limits req);;
      mret (MkMailCredentials username pw)
  end.
Definition Client_Deregister (beamID : string) : MM () := client_do (PostDeregister (inr beamID));; mret tt.
Definition Client_SetSenders (beamID : string) (allowed : list string) : MM () :=
  client_do (PostSenders (inr (MkSendersWire beamID allowed)));; mret tt.
Definition Client_SetProvider (cfg : MailProvider) : MM () :=
  client_do (PostProvider (inr cfg));; mret tt.
Definition Client_PullEvents (after : Z) : MM (list (SeqEvent MailEvent) * Z) :=
  a ← client_do (GetEvents (format_int after));
  match a with EventsWire events next => mret (events, next) | _ => throw (MErr "json") end.
Definition Client_Status : MM (bool * Z) :=
  a ← client_do GetStatus;
  match a with StatusWire enabled next => mret (enabled, next) | _ => throw (MErr "json") end.
End client.
End broker.

(** * Who may send as whom: the sender policy of the mail broker is the rule an administrator reads
    off an allowlist. *)

(** * The sender policy *)

Lemma LastIndexByte_Some s c i :
  LastIndexByte s c = Some i →
  ∃ a b, s = a +:+ String c b ∧ String.length a = i ∧ Contains_byte c b = false.
Proof.
  revert i. induction s as [|d s IH]; intros i; [done|]. simpl.
  destruct (LastIndexByte s c) as [j|] eqn:E.
  - intros [= <-]. destruct (IH j eq_refl) as (a & b & -> & Hl & Hb).
    exists (String d a), b. simpl. auto.
  - case_decide as Hd; [|done]. intros [= <-]. subst d. exists EmptyString, s.
    split_and!; [done|done|]. clear IH. induction s as [|d s IH]; [done|].
    unfold Contains_byte in *. simpl in *. destruct (LastIndexByte s c) eqn:E2; [done|].
    case_decide; [done|]. rewrite bool_decide_false by done. simpl. by apply IH.
Qed.
Lemma LastIndexByte_None s c : LastIndexByte s c = None → Contains_byte c s = false.
Proof.
  induction s as [|d s IH]; [done|]. unfold Contains_byte in *. simpl.
  destruct (LastIndexByte s c) eqn:E; [done|]. case_decide; [done|]. intros _.
  rewrite bool_decide_false by done. simpl. by apply IH.
Qed.

(** An address as it is compared: trimmed of blanks and angle brackets, in lower case. *)
Definition normalized (from : string) : string := ToLower (Trim (TrimSpace from) "<>").
(** An allowlist entry is the address, the domain after its last @, or that domain after an @. *)
Definition permits (a from dom : string) : Prop :=
  let e := ToLower (TrimSpace a) in
  e ≠ EmptyString ∧ (e = dom ∨ e = "@" +:+ dom ∨ (e = from ∧ HasPrefix e "@" = false)).

Lemma entry_allows_permits from local dom a :
  from = local +:+ "@" +:+ dom → Contains_byte "@" dom = false →
  entry_allows from dom a = true ↔ permits a from dom.
Proof.
  intros Hf Hd. unfold entry_allows, permits. destruct (ToLower (TrimSpace a)) as [|c rest] eqn:E.
  { naive_solver. }
  assert (Contains_byte "@" from = true) as Hat.
  { subst from. rewrite Contains_byte_app. change ("@" +:+ dom) with (String "@" dom).
    rewrite Contains_byte_cons. simpl. apply orb_true_r. }
  destruct (bool_decide_reflect (c = "@"%char)) as [->|Hc].
  - rewrite bool_decide_eq_true. split; [intros ->; naive_solver|].
    intros [_ [<-|[Hr|[_ Hp]]]].
    + by rewrite Contains_byte_cons in Hd.
    + by injection Hr as ->.
    + by rewrite HasPrefix_byte in Hp.
  - assert (HasPrefix (String c rest) "@" = false) as Hp.
    { by rewrite HasPrefix_byte, bool_decide_false. }
    destruct (Contains_byte "@" (String c rest)) eqn:Hca; rewrite bool_decide_eq_true.
    + split; [intros ->; naive_solver|]. intros [_ [<-|[Hr|[<- _]]]]; [congruence| |done].
      by injection Hr as -> _.
    + split; [intros ->; naive_solver|]. intros [_ [<-|[Hr|[<- _]]]]; [done| |congruence].
      by injection Hr as -> _.
Qed.
Lemma senderAllowed_spec from allowed :
  senderAllowed from allowed = true ↔
  ∃ local dom a, normalized from = local +:+ "@" +:+ dom ∧ Contains_byte "@" dom = false
    ∧ a ∈ allowed ∧ permits a (normalized from) dom.
Proof.
  unfold senderAllowed. fold (normalized from). split.
  - case_decide as Hno; [done|]. destruct (LastIndexByte _ _) as [i|] eqn:E; [|done].
    apply LastIndexByte_Some in E as (local & dom & Hf & Hl & Hd).
    rewrite existsb_exists. intros (a & Hin & Ha). exists local, dom, a.
    assert (String.substring (S i) (String.length (normalized from) - S i) (normalized from) = dom) as Hs.
    { rewrite Hf, <-Hl. apply substring_after_byte. }
    rewrite Hs in Ha. split_and!; [done|done|by apply list_elem_of_In|].
    by eapply entry_allows_permits.
  - intros (local & dom & a & Hf & Hd & Hin & Hp). rewrite decide_False.
    2: { rewrite Hf. intros [He| ->]; [by destruct local|by apply not_elem_of_nil in Hin]. }
    destruct (LastIndexByte _ _) as [i|] eqn:E.
    + apply LastIndexByte_Some in E as (local' & dom' & Hf' & Hl & Hd').
      assert (local' = local ∧ dom' = dom) as [-> ->].
      { apply (last_split "@"); [|done..]. rewrite <-Hf', Hf. done. }
      rewrite existsb_exists. exists a. split; [by apply list_elem_of_In|].
      assert (String.substring (S i) (String.length (normalized from) - S i) (normalized from) = dom) as ->.
      { rewrite Hf', <-Hl. apply substring_after_byte. }
      by eapply entry_allows_permits.
    + apply LastIndexByte_None in E. rewrite Hf in E. rewrite Contains_byte_app in E.
      change ("@" +:+ dom) with (String "@" dom) in E. rewrite Contains_byte_cons in E. simpl in E.
      by rewrite orb_true_r in E.
Qed.
