(* ===== verification/MailForward.v ===== *)
(** The south side of the mail broker (internal/facility/mail/forward.go): one message handed to
    the smarthost, as the commands the SMTP client sends and what it makes of each answer; the script it follows. *)
From S2P Require Import Prelude Regexp GoStrings GoNet Outside EventRing Mail.

(** The commands, by the call of net and net/smtp that issues each. *)
Inductive SmtpCmd :=
  | CDial (addr : string)
  | CNewClient (host : string)
  | CHello (name : string)
  | CStartTLS (host : string) (skipVerify : bool)
  | CAuth (username password host : string)
  | CMail (from : string)
  | CRcpt (to : string)
  | CData
  | CBody (data : string)
  | CClose
  | CQuit.
(** A server: it answers a command or fails it, advertises extensions, and the connection
    knows whether it runs over TLS. *)
Class SmtpServer (X : Type) := {
  smtp_do : SmtpCmd → ext X ();
  smtp_extension : string → X → bool;
  smtp_tls : X → bool }.

Section forward.
Context {X : Type} `{!SmtpServer X}.

(** The server and the commands issued so far, newest last. *)
Record Conversation := MkConversation {
  cv_server : X;
  cv_sent : list SmtpCmd}.
#[export] Instance Eta_Conversation : Eta Conversation := λ c, MkConversation (cv_server c) (cv_sent c).
Notation FM := (M Conversation string).

Definition cmd (wrap : string) (c : SmtpCmd) : FM () := λ w,
  let '(r, x) := smtp_do c (cv_server w) in
  (match r with inl e => inl (wrap +:+ e) | inr _ => inr tt end,
   MkConversation x (cv_sent w ++ [c])).
Definition extension (name : string) : FM bool := gets (λ w, smtp_extension name (cv_server w)).

Definition helo (cfg : MailProvider) : string :=
  if decide (HeloName cfg = EmptyString) then "beamhall" else HeloName cfg.
Definition start_tls (cfg : MailProvider) (host : string) : FM () :=
  if DisableStartTLS cfg then mret tt
  else
  ok ← extension "STARTTLS";
  if negb ok then
    throw ("starttls: smarthost " +:+ quoted (Smarthost cfg)
      +:+ " did not advertise STARTTLS (capability stripped or unsupported); refusing to deliver in cleartext")
  else cmd "starttls: " (CStartTLS host (InsecureSkipVerify cfg)).
Definition smtp_auth (cfg : MailProvider) (host : string) : FM () :=
  if decide (MP_Username cfg = EmptyString) then mret tt
  else
  tlsOK ← gets (λ w, smtp_tls (cv_server w));
  if negb tlsOK && negb (DisableStartTLS cfg) then
    throw "auth: refusing to send smarthost credentials without an active TLS session"
  else
  ok ← extension "AUTH";
  if negb ok then
    throw ("auth: smarthost " +:+ quoted (Smarthost cfg)
      +:+ " did not advertise AUTH but a credential is configured; refusing to deliver unauthenticated")
  else cmd "auth: " (CAuth (MP_Username cfg) (MP_Password cfg) host).
Definition Forward_ (cfg : MailProvider) (env : Envelope) : FM () :=
  match SplitHostPort (Smarthost cfg) with
  | inl e => throw ("smarthost address " +:+ quoted (Smarthost cfg) +:+ ": " +:+ e)
  | inr (host, _) =>
      cmd "dial smarthost: " (CDial (Smarthost cfg));;
      cmd "smtp client: " (CNewClient host);;
      cmd "ehlo: " (CHello (helo cfg));;
      start_tls cfg host;;
      smtp_auth cfg host;;
      cmd "mail from: " (CMail (Env_From env));;
      for_each (Env_To env) (λ rcpt, cmd ("rcpt to " +:+ quoted rcpt +:+ ": ") (CRcpt rcpt));;
      cmd "data: " CData;;
      cmd "write body: " (CBody (Env_Data env));;
      cmd "close body: " CClose;;
      cmd EmptyString CQuit
  end.
End forward.
Arguments Conversation X : clear implicits.

(** * What the forwarder says to a smarthost: one script, cut at the first failure. *)

(** The whole conversation of one delivery. *)
Definition script (cfg : MailProvider) (env : Envelope) (host : string) : list SmtpCmd :=
  [CDial (Smarthost cfg); CNewClient host; CHello (helo cfg)]
  ++ (if DisableStartTLS cfg then [] else [CStartTLS host (InsecureSkipVerify cfg)])
  ++ (if decide (MP_Username cfg = EmptyString) then []
      else [CAuth (MP_Username cfg) (MP_Password cfg) host])
  ++ [CMail (Env_From env)] ++ (CRcpt <$> Env_To env) ++ [CData; CBody (Env_Data env); CClose; CQuit].

Section follows.
Context {X : Type} `{!SmtpServer X}.
Notation FM := (M (Conversation X) string).

(** The commands issued are the script's first ones, all of them on success. *)
Definition follows {A} (s : list SmtpCmd) (m : FM A) : Prop := ∀ w,
  wp m (λ r w', ∃ n, cv_sent w' = cv_sent w ++ take n s
                   ∧ (is_inl r = false → length s ≤ n)) w.
Lemma follows_ret {A} (a : A) : follows [] (mret a).
Proof. intros w. apply wp_ret. exists 0. by rewrite app_nil_r. Qed.
Lemma follows_throw {A} s e : follows (A:=A) s (throw e).
Proof. intros w. apply wp_throw. exists 0. by rewrite take_0, app_nil_r. Qed.
Lemma follows_bind {A B} s1 s2 (m : FM A) (k : A → FM B) :
  follows s1 m → (∀ a, follows s2 (k a)) → follows (s1 ++ s2) (m ≫= k).
Proof.
  intros Hm Hk w. apply wp_bind. eapply wp_mono; [apply Hm|].
  intros [e|a] w1 (n & Hw & Hn).
  - exists (n `min` length s1). split; [|done]. rewrite take_app_le by lia.
    rewrite Hw. f_equal. destruct (decide (n ≤ length s1)) as [Hle|Hgt].
    + by rewrite Nat.min_l.
    + by rewrite Nat.min_r, firstn_all, take_ge by lia.
  - specialize (Hn eq_refl). rewrite take_ge in Hw by done.
    eapply wp_mono; [apply Hk|]. intros r w2 (n2 & Hw2 & Hn2).
    exists (length s1 + n2). rewrite take_app_add, Hw2, Hw, app_assoc. split; [done|].
    intros Hr. rewrite length_app. specialize (Hn2 Hr). lia.
Qed.
Lemma follows_cmd wrap c : follows [c] (cmd (X:=X) wrap c).
Proof.
  intros w. unfold wp, cmd. destruct (smtp_do c (cv_server w)) as [[e|[]] x]; simpl; by exists 1.
Qed.
Lemma follows_gets {A} (f : Conversation X → A) : follows [] (gets f).
Proof. intros w. apply wp_gets. exists 0. by rewrite app_nil_r. Qed.
Lemma follows_for_each {A} (l : list A) wrap f :
  follows (f <$> l) (for_each l (λ a, cmd (X:=X) (wrap a) (f a))).
Proof.
  induction l as [|a l IH]; [apply follows_ret|].
  change (follows ([f a] ++ (f <$> l))
    (cmd (wrap a) (f a) ≫= λ _, for_each l (λ a, cmd (wrap a) (f a)))).
  apply follows_bind; [apply follows_cmd|].
  intros _. exact IH.
Qed.
Lemma follows_start_tls cfg host :
  follows (if DisableStartTLS cfg then [] else [CStartTLS host (InsecureSkipVerify cfg)])
    (start_tls (X:=X) cfg host).
Proof.
  unfold start_tls. destruct (DisableStartTLS cfg); [apply follows_ret|].
  apply (follows_bind []); [apply follows_gets|]. intros ok.
  destruct ok; [apply follows_cmd|apply follows_throw].
Qed.
Lemma follows_smtp_auth cfg host :
  follows (if decide (MP_Username cfg = EmptyString) then []
           else [CAuth (MP_Username cfg) (MP_Password cfg) host]) (smtp_auth (X:=X) cfg host).
Proof.
  unfold smtp_auth. case_decide; [apply follows_ret|].
  apply (follows_bind []); [apply follows_gets|]. intros tls.
  destruct (_ && _); [apply follows_throw|].
  apply (follows_bind []); [apply follows_gets|]. intros ok.
  destruct ok; [apply follows_cmd|apply follows_throw].
Qed.
Lemma follows_script cfg env host port : SplitHostPort (Smarthost cfg) = inr (host, port) →
  follows (script cfg env host) (Forward_ (X:=X) cfg env).
Proof.
  intros E. unfold Forward_, script. rewrite E.
  do 3 (apply (follows_bind [_]); [apply follows_cmd|]; intros _).
  apply follows_bind; [apply follows_start_tls|]. intros _.
  apply follows_bind; [apply follows_smtp_auth|]. intros _.
  apply (follows_bind [_]); [apply follows_cmd|]. intros _.
  apply follows_bind; [apply follows_for_each|]. intros _.
  do 3 (apply (follows_bind [_]); [apply follows_cmd|]; intros _). apply follows_cmd.
Qed.
End follows.

(** The forwarder delivers along one script, whatever the smarthost answers.  The commands
    it sends are the first ones of: dial, greeting, STARTTLS unless IT disabled it, the
    credential if there is one, sender, recipients, message; all of them when it reports
    success.  So with STARTTLS required no credential, address or message precedes it. *)
Theorem forward_follows_script {X : Type} `{!SmtpServer X} (cfg : MailProvider) (env : Envelope)
    (x : X) :
  wp (Forward_ cfg env) (λ r w,
    match SplitHostPort (Smarthost cfg) with
    | inl _ => is_inl r = true ∧ cv_sent w = []
    | inr (host, _) =>
        ∃ n, cv_sent w = take n (script cfg env host)
          ∧ (is_inl r = false → cv_sent w = script cfg env host)
          ∧ (DisableStartTLS cfg = false →
             ∀ pre c post, cv_sent w = pre ++ c :: post →
               match c with CDial _ | CNewClient _ | CHello _ | CStartTLS _ _ => True
                          | _ => CStartTLS host (InsecureSkipVerify cfg) ∈ pre end)
    end) (MkConversation x []).
Proof.
  destruct (SplitHostPort (Smarthost cfg)) as [e|[host port]] eqn:E.
  { unfold Forward_. rewrite E. by apply wp_throw. }
  eapply wp_mono; [by eapply follows_script|]. intros r w (n & Hw & Hn). simpl in Hw.
  exists n. split; [done|]. split; [intros Hr; by rewrite Hw, take_ge by auto|].
  intros Htls pre c post Hs. rewrite Hw in Hs.
  assert (script cfg env host = pre ++ c :: post ++ drop n (script cfg env host)) as Hsc.
  { rewrite <-(take_drop n (script cfg env host)) at 1. by rewrite Hs, <-app_assoc. }
  unfold script in Hsc at 1. rewrite Htls in Hsc. simpl in Hsc.
  destruct pre as [|p1 [|p2 [|p3 [|p4 pre]]]]; simplify_eq/=; try done.
  destruct c; try done; set_solver.
Qed.

(** A smarthost that speaks TLS and one whose STARTTLS was stripped. *)
Record Smart := MkSmart {
  sm_extensions : list string;
  sm_tls : bool}.
#[export] Instance Smart_server : SmtpServer Smart := {|
  smtp_do c x := (inr tt, match c with CStartTLS _ _ => MkSmart (sm_extensions x) true | _ => x end);
  smtp_extension n x := bool_decide (n ∈ sm_extensions x);
  smtp_tls := sm_tls |}.
Definition Provider1 : MailProvider :=
  MkMailProvider "smtp.example.com:587" "hall" "pw" EmptyString false false.
Definition Envelope1 : Envelope := MkEnvelope "app@example.com" ["ann@example.org"] "Subject: hi".
Example forward_delivers :
  (Forward_ Provider1 Envelope1 (MkConversation (MkSmart ["STARTTLS"; "AUTH"] false) [])).1 = inr tt
  ∧ cv_sent (Forward_ Provider1 Envelope1 (MkConversation (MkSmart ["AUTH"] false) [])).2
    = [CDial "smtp.example.com:587"; CNewClient "smtp.example.com"; CHello "beamhall"].
Proof. vm_compute. done. Qed.
