(* ===== verification/MailRun.v ===== *)
(** The mail broker over time: control requests, submission sessions and the outside mixed in
    any order.  A login reaches the beam's current registration, and a message leaves only
    from a session that was allowed to send it. *)
From S2P Require Import Prelude Regexp GoStrings Sha256 Store Outside EventRing Mail.

(** * The server's side of a session (go-smtp) *)

(** A connection: the library calls Auth once, Rcpt after a successful Mail, Data after a
    successful Rcpt, and Reset after Data, RSET and a new greeting. *)
Record Conn := MkConn {
  cn_session : Session;
  cn_fromReceived : bool;
  cn_recipients : nat}.
#[export] Instance Eta_Conn : Eta Conn := λ c,
  MkConn (cn_session c) (cn_fromReceived c) (cn_recipients c).
Definition reset_conn (c : Conn) : Conn := MkConn (Reset (cn_session c)) false 0.

Record MailState (L X : Type) := MkMailState {
  ms_broker : MailBroker L X;
  ms_conns : gmap nat Conn}.
Arguments MkMailState {L X} _ _.
Arguments ms_broker {L X} _.
Arguments ms_conns {L X} _.

Inductive MailOp (X : Type) :=
  | MControl (authorization : string) (req : ControlRequest)
  | MProvision (req : MailRequest)
  | MRestore (beamID username password : string) (allowed : list string) (limits : MailLimits)
  | MLoad
  | MConnect (sid : nat)
  | MAuth (sid : nat) (username password : string)
  | MFrom (sid : nat) (from : string)
  | MRcpt (sid : nat) (to : string)
  | MData (sid : nat) (data : string + string)
  | MReset (sid : nat)
  | MElsewhere (x : X).
Arguments MControl {X} _ _.
Arguments MProvision {X} _.
Arguments MRestore {X} _ _ _ _ _.
Arguments MLoad {X}.
Arguments MConnect {X} _.
Arguments MAuth {X} _ _ _.
Arguments MFrom {X} _ _.
Arguments MRcpt {X} _ _.
Arguments MData {X} _ _.
Arguments MReset {X} _.
Arguments MElsewhere {X} _.

Section run.
Context {L X : Type} `{!RateLimiter L, !MailParser, !MailHost X}.
Notation World := (MailBroker L X).
Notation MM := (M World MailError).
Notation State := (MailState L X).
Notation Op := (MailOp X).
Implicit Types (w : World) (s : State) (op : Op) (r : Registration L) (c : Conn).

(** What a connection makes of a command; a refused one changes nothing of it. *)
Definition conn_auth (username password : string) (c : Conn) : MM Conn :=
  if se_authed (cn_session c) then throw ErrAuthUnknownMechanism
  else se ← authenticate (cn_session c) username password; mret (c <| cn_session := se |>).
Definition conn_from (from : string) (c : Conn) : MM Conn :=
  se ← Mail_ (cn_session c) from;
  mret (c <| cn_session := se |> <| cn_fromReceived := true |>).
Definition conn_rcpt (to : string) (c : Conn) : MM Conn :=
  if negb (cn_fromReceived c) then throw (SMTPError 502 (5, 5, 1)%Z "Missing MAIL FROM command.")
  else se ← Rcpt (cn_session c) to;
       mret (c <| cn_session := se |> <| cn_recipients := S (cn_recipients c) |>).
Definition conn_data (data : string + string) (c : Conn) : MM () :=
  if negb (cn_fromReceived c) || bool_decide (cn_recipients c = 0)
  then throw (SMTPError 502 (5, 5, 1)%Z "Missing RCPT TO command.")
  else Data (cn_session c) data.

Definition on_broker {A} (m : MM A) s : State := MkMailState (snd (m (ms_broker s))) (ms_conns s).
Definition on_conn (sid : nat) (f : Conn → MM Conn) s : State :=
  match ms_conns s !! sid with
  | None => s
  | Some c => let '(r, w) := f c (ms_broker s) in
              MkMailState w (match r with inr c' => <[sid := c']> (ms_conns s) | inl _ => ms_conns s end)
  end.
(** The command of a session, on its connection. *)
Definition conn_op op : option (nat * (Conn → MM Conn)) :=
  match op with
  | MAuth sid u p => Some (sid, conn_auth u p)
  | MFrom sid from => Some (sid, conn_from from)
  | MRcpt sid to => Some (sid, conn_rcpt to)
  | MData sid data => Some (sid, λ c, attempt (conn_data data c);; mret (reset_conn c))
  | MReset sid => Some (sid, λ c, mret (reset_conn c))
  | _ => None
  end.
Definition mail_step op s : State :=
  match op with
  | MControl auth req => on_broker (Handler auth req) s
  | MProvision req => on_broker (Mail_Provision req) s
  | MRestore b u p al li => on_broker (Mail_Restore b u p al li) s
  | MLoad => on_broker LoadProvider s
  | MConnect sid =>
      if decide (ms_conns s !! sid = None)
      then MkMailState (ms_broker s) (<[sid := MkConn NewSession false 0]> (ms_conns s)) else s
  | MElsewhere x =>
      if decide (mail_now (outside_ (ms_broker s)) ≤ mail_now x)%Z
      then MkMailState (ms_broker s <| outside_ := x |>) (ms_conns s) else s
  | op => match conn_op op with Some (sid, f) => on_conn sid f s | None => s end
  end.
(** Everything that happened since the broker started, oldest first, with the state each
    operation found. *)
Inductive mail_history : list (State * Op) → State → Prop :=
  | history_start dir token x : mail_history [] (MkMailState (Mail_New dir token x) ∅)
  | history_step past s op :
      mail_history past s → mail_history (past ++ [(s, op)]) (mail_step op s).

(** * The registry *)

Definition registry_ok w : Prop := ∀ u l, byUser w !! u = Some l →
  ∃ r, heap w !! l = Some r ∧ rg_username r = u ∧ byBeam w !! rg_beamID r = Some l.
Definition same_login (r r' : Registration L) : Prop :=
  rg_beamID r' = rg_beamID r ∧ rg_username r' = rg_username r ∧ rg_passHash r' = rg_passHash r.
(** A registration object never goes away, nor changes whom it is for. *)
Record evolves w w' : Prop := {
  ev_heap l r : heap w !! l = Some r → ∃ r', heap w' !! l = Some r' ∧ same_login r r';
  ev_registry : registry_ok w → registry_ok w' }.
#[export] Instance evolves_preorder : PreOrder evolves.
Proof.
  split; [intros w; split; [|done]; intros l r Hl; by exists r|].
  intros w1 w2 w3 [H12 Hr12] [H23 Hr23]. split; [|auto]. intros l r Hl.
  destruct (H12 l r Hl) as (r2 & Hl2 & Hs2), (H23 l r2 Hl2) as (r3 & Hl3 & Hs3).
  exists r3. unfold same_login in *. naive_solver congruence.
Qed.
Definition same_registry w w' : Prop :=
  heap w' = heap w ∧ byUser w' = byUser w ∧ byBeam w' = byBeam w.
Lemma same_registry_evolves w w' : same_registry w w' → evolves w w'.
Proof.
  intros (Hh & Hu & Hb). split; unfold registry_ok; rewrite Hh; [intros l r Hl; by exists r|].
  by rewrite Hu, Hb.
Qed.

Lemma evolves_heap w h :
  (∀ l r, heap w !! l = Some r → ∃ r', h !! l = Some r' ∧ same_login r r') →
  evolves w (w <| heap := h |>).
Proof.
  intros Hh. split; [exact Hh|]. intros Hok u l0 Hu. destruct (Hok u l0 Hu) as (r & Hl & Hun & Hbe).
  destruct (Hh l0 r Hl) as (r' & Hl' & Hb' & Hu' & _). exists r'. simpl. by rewrite Hb', Hu'.
Qed.
Lemma frames_registerHashed b u h al li : frames evolves (registerHashed b u h al li).
Proof.
  apply frames_modify. intros w.
  set (l := fresh (dom (heap w))).
  assert (heap w !! l = None) as Hfresh by (apply not_elem_of_dom, is_fresh).
  split.
  { intros l0 r Hl. exists r. simpl. rewrite lookup_insert_ne by congruence. done. }
  intros Hok user l0. simpl. destruct (decide (user = u)) as [->|Hne].
  { rewrite lookup_insert_eq. intros [= <-]. eexists. rewrite lookup_insert_eq.
    split; [done|]. split; [done|]. by rewrite lookup_insert_eq. }
  rewrite lookup_insert_ne by congruence. intros Hu.
  assert (byUser w !! user = Some l0) as Hu0.
  { destruct (_ ≫= _); [by apply lookup_delete_Some in Hu as [_ Hu]|done]. }
  destruct (Hok user l0 Hu0) as (r & Hl & Hun & Hbe).
  exists r. rewrite lookup_insert_ne by congruence. split_and!; [done|done|].
  rewrite lookup_insert_ne; [done|]. intros Hb. rewrite Hb, Hbe in Hu. simpl in Hu.
  rewrite Hl, Hun in Hu. by rewrite lookup_delete_eq in Hu.
Qed.
Lemma frames_Deregister b : frames evolves (Deregister b).
Proof.
  apply frames_modify. intros w.
  destruct (byBeam w !! b) as [l|] eqn:Eb; simpl; [|reflexivity].
  destruct (heap w !! l) as [r|] eqn:El; [|reflexivity].
  split; [intros l0 r0 Hl; by exists r0|]. intros Hok u l0. simpl. intros [Hne Hu]%lookup_delete_Some.
  destruct (Hok u l0 Hu) as (r0 & Hl0 & Hun & Hbe). exists r0. split_and!; [done|done|].
  simpl. rewrite lookup_delete_ne; [done|]. intros Hb. rewrite Hb, Hbe in Eb. congruence.
Qed.
Lemma frames_setAllowed l al : frames evolves (setAllowed l al).
Proof. apply frames_modify. intros w. apply evolves_heap. intros l0 r Hl.
  destruct (decide (l0 = l)) as [->|Hne]; [rewrite lookup_alter_eq, Hl|rewrite lookup_alter_ne, Hl by done].
  - by eexists.
  - by exists r.
Qed.
Lemma frames_same {A} (m : MM A) : (∀ w, same_registry w (snd (m w))) → frames evolves m.
Proof. intros Hm w. apply same_registry_evolves, Hm. Qed.
Lemma frames_mail_outside {A} (f : ext X A) : frames evolves (mail_outside f).
Proof.
  apply frames_same. intros w. unfold mail_outside. by destruct (f _).
Qed.
Lemma frames_emit ev : frames evolves (emit ev).
Proof. by apply frames_same. Qed.
Lemma frames_deref l : frames evolves (deref l).
Proof. intros w. unfold deref. destruct (heap w !! l); reflexivity. Qed.
Lemma frames_SetProvider cfg : frames evolves (SetProvider cfg).
Proof.
  apply frames_same. intros w. unfold SetProvider, persistProvider. simpl.
  by repeat case_decide.
Qed.
Lemma frames_limiter l : frames evolves (limiter_Allow_ l).
Proof.
  intros w. unfold limiter_Allow_, deref, mbind, M_bind. simpl.
  destruct (heap w !! l) as [r|] eqn:El; simpl; [|reflexivity].
  destruct (limiter_allow _ _) as [ok lim]. simpl.
  apply evolves_heap. intros l0 r0 Hl.
  destruct (decide (l0 = l)) as [->|Hne]; [rewrite lookup_insert_eq|rewrite lookup_insert_ne, Hl by done].
  - eexists. split; [done|]. by simplify_eq.
  - by exists r0.
Qed.
Hint Resolve frames_registerHashed frames_Deregister frames_setAllowed frames_mail_outside
  frames_emit frames_deref frames_SetProvider frames_limiter : frame.

Lemma frames_handle req : frames evolves (handle req).
Proof.
  destruct req as [[]|[]|[]|[]| | |]; simpl;
    unfold handleRegister, answered, RegisterHashed, SetSenders, Enabled; solve_frame.
Qed.
Lemma frames_Handler auth req : frames evolves (Handler auth req).
Proof. unfold Handler. solve_frame. apply frames_handle. Qed.
Lemma frames_Provision req : frames evolves (Mail_Provision req).
Proof. unfold Mail_Provision, Enabled, randomPassword, register. solve_frame. Qed.
Lemma frames_Restore b u p al li : frames evolves (Mail_Restore b u p al li).
Proof. unfold Mail_Restore, register. solve_frame. Qed.
Lemma frames_LoadProvider : frames evolves LoadProvider.
Proof. unfold LoadProvider. solve_frame. Qed.
Lemma frames_deliver l from to data : frames evolves (deliver l from to data).
Proof. unfold deliver. solve_frame. Qed.
Hint Resolve frames_deliver : frame.
Lemma frames_conn_auth u p c : frames evolves (conn_auth u p c).
Proof. unfold conn_auth, authenticate, lookup_user. solve_frame. Qed.
Lemma frames_conn_from from c : frames evolves (conn_from from c).
Proof. unfold conn_from, Mail_. solve_frame. Qed.
Lemma frames_conn_rcpt to c : frames evolves (conn_rcpt to c).
Proof. unfold conn_rcpt, Rcpt. solve_frame. Qed.
Lemma frames_conn_data data c : frames evolves (conn_data data c).
Proof. unfold conn_data, Data. solve_frame. Qed.
Lemma on_conn_evolves sid f s :
  (∀ c, frames evolves (f c)) → evolves (ms_broker s) (ms_broker (on_conn sid f s)).
Proof.
  intros Hf. unfold on_conn. destruct (ms_conns s !! sid) as [c|]; [|reflexivity].
  specialize (Hf c (ms_broker s)). by destruct (f c _).
Qed.
Lemma frames_conn_op op sid f c : conn_op op = Some (sid, f) → frames evolves (f c).
Proof.
  destruct op; simpl; intros [= <- <-].
  - apply frames_conn_auth.
  - apply frames_conn_from.
  - apply frames_conn_rcpt.
  - apply frames_bind; [tc_solve|apply frames_attempt, frames_conn_data|]. intros _.
    apply frames_ret. tc_solve.
  - apply frames_ret. tc_solve.
Qed.
Lemma mail_step_evolves op s : evolves (ms_broker s) (ms_broker (mail_step op s)).
Proof.
  destruct (conn_op op) as [[sid f]|] eqn:E.
  { assert (mail_step op s = on_conn sid f s) as -> by (destruct op; simpl in *; congruence).
    apply on_conn_evolves. intros c. by eapply frames_conn_op. }
  destruct op; try done; simpl.
  - apply frames_Handler.
  - apply frames_Provision.
  - apply frames_Restore.
  - apply frames_LoadProvider.
  - by case_decide.
  - case_decide; [|reflexivity]. by apply same_registry_evolves.
Qed.
Lemma history_registry past s : mail_history past s → registry_ok (ms_broker s).
Proof.
  induction 1 as [dir token x|past s op _ IH]; [done|]. by eapply mail_step_evolves.
Qed.

(** * Sessions *)

(** A login with the password of a beam's registration, current at that moment. *)
Definition logged_in (past : list (State * Op)) (sid l : nat) : Prop := ∃ s0 u p r0,
  (s0, MAuth sid u p) ∈ past ∧ rg_username r0 = u ∧ rg_passHash r0 = sha256 p
  ∧ heap (ms_broker s0) !! l = Some r0 ∧ byBeam (ms_broker s0) !! rg_beamID r0 = Some l.
(** A sender accepted for that registration. *)
Definition sender_accepted (past : list (State * Op)) (sid l : nat) (from : string) : Prop :=
  ∃ s0 r0, (s0, MFrom sid from) ∈ past ∧ heap (ms_broker s0) !! l = Some r0
    ∧ senderAllowed from (rg_allowed r0) = true.
Definition conn_ok past w sid c : Prop :=
  (se_authed (cn_session c) = true →
     logged_in past sid (se_reg (cn_session c)) ∧ is_Some (heap w !! se_reg (cn_session c)))
  ∧ (cn_fromReceived c = true → se_authed (cn_session c) = true
     ∧ sender_accepted past sid (se_reg (cn_session c)) (se_from (cn_session c))).

Lemma conn_ok_mono past w w' sid c e :
  conn_ok past w sid c → evolves w w' → conn_ok (past ++ [e]) w' sid c.
Proof.
  intros [Ha Hf] [Hh _]. split.
  - intros (Hl & r & Hr)%Ha. split; [|by destruct (Hh _ _ Hr) as (r' & -> & _)].
    destruct Hl as (s0 & u & p & r0 & Hin & Hl). exists s0, u, p, r0.
    split; [|done]. apply elem_of_app. by left.
  - intros (Hau & s0 & r0 & Hin & Hl)%Hf. split; [done|]. exists s0, r0.
    split; [|done]. apply elem_of_app. by left.
Qed.

Lemma wp_deref l (Q : MailError + Registration L → World → Prop) w :
  (∀ r, heap w !! l = Some r → Q (inr r) w) → (∀ e, heap w !! l = None → Q (inl e) w) →
  wp (deref l) Q w.
Proof. unfold wp, deref. destruct (heap w !! l); intros Hs Hn; [by apply Hs|by apply Hn]. Qed.

(** A login succeeds exactly with the name and password of a current registration, and a login
    changes nothing. *)
Lemma wp_authenticate se u p w : registry_ok w →
  wp (authenticate se u p) (λ a w', w' = w ∧
    match a with
    | inl e => e = ErrAuthFailed
    | inr se' => ∃ l r, se' = se <| se_authed := true |> <| se_reg := l |>
        ∧ byUser w !! u = Some l ∧ heap w !! l = Some r ∧ rg_username r = u
        ∧ rg_passHash r = sha256 p ∧ byBeam w !! rg_beamID r = Some l
    end) w.
Proof.
  intros Hok. unfold authenticate, lookup_user. apply wp_bind, wp_gets.
  destruct (byUser w !! u) as [l|] eqn:Eu; [|by apply wp_throw].
  destruct (Hok u l Eu) as (r & Hl & Hu & Hb).
  apply wp_bind, wp_deref; [|by rewrite Hl]. intros r' Hr. simplify_eq.
  unfold checkPassword. case_bool_decide as Hp; [|by apply wp_throw].
  apply wp_ret. split; [done|]. by exists l, r.
Qed.

(** Each command keeps its own session well-formed. *)
Lemma conn_ok_step past s op sid f c c' w' :
  conn_op op = Some (sid, f) → conn_ok past (ms_broker s) sid c → registry_ok (ms_broker s) →
  f c (ms_broker s) = (inr c', w') → evolves (ms_broker s) w' →
  conn_ok (past ++ [(s, op)]) w' sid c'.
Proof.
  intros Hop Hc Hok Hf Hev. pose proof (conn_ok_mono past _ w' sid c (s, op) Hc Hev) as [Ha Hfr].
  assert ((s, op) ∈ past ++ [(s, op)]) as Hin by (apply elem_of_app; right; by left).
  destruct op; try done; injection Hop as -> <-.
  - unfold conn_auth in Hf. destruct (se_authed (cn_session c)) eqn:Eau; [done|].
    pose proof (wp_authenticate (cn_session c) username password _ Hok) as Hau. unfold wp in Hau.
    unfold mbind, M_bind in Hf. destruct (authenticate _ _ _ _) as [[e|se] w1]; [done|].
    destruct Hau as [Hw (l & r & -> & Hu & Hl & Hun & Hp & Hb)]. simpl in Hw. subst w1.
    injection Hf as <- <-. split.
    + intros _. split; [|by exists r]. by exists s, username, password, r.
    + simpl. intros Hrc. apply Hfr in Hrc as [? _]. congruence.
  - unfold conn_from, Mail_ in Hf. destruct (se_authed (cn_session c)) eqn:Eau; [|done].
    destruct (Ha eq_refl) as [Hlog _]. destruct Hc as [Hc _]. destruct (Hc Eau) as [_ [r Hr]].
    unfold mbind, M_bind, deref in Hf. simpl in Hf. rewrite Hr in Hf. simpl in Hf.
    destruct (senderAllowed from (rg_allowed r)) eqn:Es; simpl in Hf; [|done].
    injection Hf as <- <-. split; simpl; [done|]. intros _. split; [done|]. by exists s, r.
  - unfold conn_rcpt, Rcpt in Hf. destruct (cn_fromReceived c) eqn:Er; [|done].
    destruct (se_authed (cn_session c)) eqn:Eau; [|done]. injection Hf as <- <-.
    split; simpl; rewrite Eau, ?Er in *; auto.
  - injection Hf as <- <-. by split.
  - injection Hf as <- <-. by split.
Qed.

Definition conns_ok past s : Prop := ∀ sid c, ms_conns s !! sid = Some c → conn_ok past (ms_broker s) sid c.
Lemma history_conns past s : mail_history past s → conns_ok past s.
Proof.
  induction 1 as [dir token x|past s op Hh IH]; [done|]. intros sid c Hc.
  pose proof (history_registry past s Hh) as Hok. pose proof (mail_step_evolves op s) as Hev.
  assert (ms_conns s !! sid = Some c → conn_ok (past ++ [(s, op)]) (ms_broker (mail_step op s)) sid c)
    as Hsame by (intros Hc0; eapply conn_ok_mono; [by apply IH|done]).
  destruct (conn_op op) as [[sid' f]|] eqn:Eop.
  - assert (mail_step op s = on_conn sid' f s) as Hs by (destruct op; simpl in *; congruence).
    rewrite Hs in *. clear Hs. unfold on_conn in *.
    destruct (ms_conns s !! sid') as [c0|] eqn:Ec0; [|by apply Hsame].
    destruct (f c0 (ms_broker s)) as [[e|c1] w1] eqn:Ef; simpl in *; [by apply Hsame|].
    destruct (decide (sid = sid')) as [->|Hne].
    + rewrite lookup_insert_eq in Hc. injection Hc as <-. eapply conn_ok_step; try done. by apply IH.
    + rewrite lookup_insert_ne in Hc by done. by apply Hsame.
  - destruct op; try done; simpl in *; try (by apply Hsame).
    + case_decide; simpl in *; [|by apply Hsame].
      destruct (decide (sid = sid0)) as [->|Hne].
      * rewrite lookup_insert_eq in Hc. injection Hc as <-. by split.
      * rewrite lookup_insert_ne in Hc by done. by apply Hsame.
    + case_decide; by apply Hsame.
Qed.

(** * Delivery *)

(** The header names its senders once, and each of them is allowed. *)
Definition header_permits (data : string) (allowed : list string) : Prop :=
  ∃ h v addrs, ReadMessage data = Some h ∧ h !! "From" = Some [v]
    ∧ ParseAddressList v = Some addrs ∧ addrs ≠ []
    ∧ Forall (λ a, senderAllowed a allowed = true) addrs.
Lemma headerFromAllowed_permits data allowed :
  headerFromAllowed data allowed = true → header_permits data allowed.
Proof.
  unfold headerFromAllowed. destruct (ReadMessage data) as [h|] eqn:Er; [|done].
  case_decide as Hn; [done|]. case_decide as Hg; [done|].
  destruct (ParseAddressList _) as [[|a addrs]|] eqn:Ep; [done| |done].
  intros Ha. unfold header_get in *. destruct (h !! "From") as [[|v [|v' vs]]|] eqn:Ef; simpl in *;
    [done| |lia|done].
  exists h, v, (a :: addrs). split_and!; try done. by apply List.Forall_forall, List.forallb_forall.
Qed.

(** One message handed to the configured provider for the registration at [l], which allows
    it now, and one event for it. *)
Definition forwarded w w' (l : nat) (from : string) (to : list string) (data : string)
    (sent : bool) : Prop := ∃ fwd r,
  forwarder w = Some fwd ∧ heap w !! l = Some r ∧ header_permits data (rg_allowed r)
  ∧ (limiter_allow (mail_now (outside_ w)) (rg_limiter r)).1 = true
  ∧ outside_ w' = (Forward fwd (MkEnvelope from to data) (outside_ w)).2
  ∧ sent = negb (is_inl (Forward fwd (MkEnvelope from to data) (outside_ w)).1)
  ∧ ∃ ev, control w' = Record_ ev (control w) ∧ ME_BeamID ev = rg_beamID r ∧ ME_From ev = from
      ∧ ME_To ev = to ∧ ME_Result ev = if sent then "sent" else "failed".

Lemma wp_limiter l r (Q : MailError + bool → World → Prop) w : heap w !! l = Some r →
  (let '(ok, lim) := limiter_allow (mail_now (outside_ w)) (rg_limiter r) in
   Q (inr ok) (w <| heap := <[l := MkRegistration (rg_beamID r) (rg_username r) (rg_passHash r)
                                (rg_allowed r) lim]> (heap w) |>)) →
  wp (limiter_Allow_ l) Q w.
Proof.
  intros Hl. unfold wp, limiter_Allow_, deref, mbind, M_bind. simpl. rewrite Hl. simpl.
  by destruct (limiter_allow _ _).
Qed.
Lemma wp_deliver l r from to data w : heap w !! l = Some r →
  wp (deliver l from to data) (λ a w',
    (∀ e, a ≠ inl e) ∧
    ((outside_ w' = outside_ w ∧ ∃ e, a = inr (Some e))
     ∨ ∃ sent, forwarded w w' l from to data sent ∧ (a = inr None ↔ sent = true))) w.
Proof.
  intros Hl. unfold deliver. destruct (parseHeaders data) as [subject messageID].
  apply wp_bind, wp_deref; [|by rewrite Hl]. intros r' Hr. simplify_eq.
  destruct (headerFromAllowed data (rg_allowed r)) eqn:Eh; simpl.
  2: { split; [done|]. left. split; [done|by eexists]. }
  apply headerFromAllowed_permits in Eh.
  apply wp_bind, (wp_limiter l r); [done|]. destruct (limiter_allow _ _) as [ok lim] eqn:El.
  destruct ok; simpl. 2: { split; [done|]. left. split; [done|by eexists]. }
  apply wp_bind, wp_gets. simpl. destruct (forwarder w) as [fwd|] eqn:Ef.
  2: { split; [done|]. left. split; [done|by eexists]. }
  unfold wp, mbind, M_bind, mail_outside. simpl.
  destruct (Forward fwd _ (outside_ w)) as [[e|[]] x] eqn:Efw; simpl; (split; [done|]); right.
  - exists false. split; [|done]. exists fwd, r. rewrite El, Efw. split_and!; try done. by eexists.
  - exists true. split; [|done]. exists fwd, r. rewrite El, Efw. split_and!; try done. by eexists.
Qed.

(** What every command but Data leaves alone. *)
Definition same_outside w w' : Prop := outside_ w' = outside_ w.
#[local] Instance same_outside_preorder : PreOrder same_outside.
Proof. split; [done|]. intros w1 w2 w3. unfold same_outside. by intros -> ->. Qed.
Lemma outside_emit ev : frames same_outside (emit ev).
Proof. done. Qed.
Lemma outside_deref l : frames same_outside (deref l).
Proof. intros w. unfold deref. by destruct (heap w !! l). Qed.
Hint Resolve outside_emit outside_deref : frame.
Lemma outside_conn_op op sid f c :
  conn_op op = Some (sid, f) → (∀ d, op ≠ MData sid d) → frames same_outside (f c).
Proof.
  destruct op; simpl; intros [= <- <-] Hd; try done.
  - unfold conn_auth, authenticate, lookup_user. solve_frame.
  - unfold conn_from, Mail_. solve_frame.
  - unfold conn_rcpt, Rcpt. solve_frame.
  - by destruct (Hd data).
Qed.
Lemma wp_conn_data past w sid c data : conn_ok past w sid c →
  wp (conn_data data c) (λ _ w', outside_ w' = outside_ w ∨
    ∃ msg sent, data = inr msg ∧ cn_fromReceived c = true
      ∧ forwarded w w' (se_reg (cn_session c)) (se_from (cn_session c)) (se_to (cn_session c))
          msg sent) w.
Proof.
  intros [Ha Hf]. unfold conn_data. destruct (cn_fromReceived c) eqn:Er; simpl; [|by left].
  case_bool_decide; [by left|]. unfold Data. destruct (se_authed (cn_session c)) eqn:Eau; [|by left].
  destruct (Ha eq_refl) as [_ [r Hr]]. simpl. destruct data as [e|msg]; [by left|].
  apply wp_bind. eapply wp_mono; [by apply (wp_deliver _ r)|]. intros a w' [Hno Hd].
  destruct a as [e|e]; [by destruct (Hno e)|]. destruct Hd as [[Ho _]|(sent & Hfw & _)].
  - destruct e as [[]|]; by left.
  - assert (∀ P : Prop, P → ∀ m : MM (), (∀ w, snd (m w) = w) → wp m (λ _ w1, w1 = w' ∧ P) w') as Hk.
    { intros P HP m Hm. split; [apply Hm|done]. }
    eapply wp_mono; [apply (Hk _ Hfw)|].
    + intros w0. by destruct e as [[]|].
    + intros _ w1 [-> Hfw']. right. by exists msg, sent.
Qed.
End run.

(** C26: nothing leaves the mail broker but what its sender was allowed to send.  In every
    history, a command of a session leaves the outside alone, or it is a DATA of a session that
    logged in with the password of a beam's registration current at that moment, with an
    envelope sender accepted for that registration, a header whose single From names only
    addresses that are allowed now, and a token left; then exactly this message goes to the
    configured provider, and exactly one event records it for that beam. *)
Theorem delivery_is_authorized {L X : Type} `{!RateLimiter L, !MailParser, !MailHost X}
    (past : list (MailState L X * MailOp X)) (s : MailState L X) (op : MailOp X)
    (Hpast : mail_history past s) (Hop : is_Some (conn_op (L := L) op)) :
  let w := ms_broker s in
  let w' := ms_broker (mail_step op s) in
  outside_ w' = outside_ w ∨
  ∃ sid msg c sent (se := cn_session c),
    op = MData sid (inr msg) ∧ ms_conns s !! sid = Some c
    ∧ logged_in past sid (se_reg se) ∧ sender_accepted past sid (se_reg se) (se_from se)
    ∧ forwarded w w' (se_reg se) (se_from se) (se_to se) msg sent.
Proof.
  intros w w'. destruct Hop as [[sid f] Hop]. subst w w'.
  assert (mail_step op s = on_conn sid f s) as -> by (destruct op; simpl in *; congruence).
  unfold on_conn. destruct (ms_conns s !! sid) as [c|] eqn:Ec; [|by left].
  pose proof (history_conns past s Hpast sid c Ec) as Hc.
  assert ((∃ d, op = MData sid d) ∨ ∀ d, op ≠ MData sid d) as [[d ->]|Hd].
  { destruct op; try (by right). injection Hop as -> _. left. by eexists. }
  - injection Hop as <-. unfold mbind, M_bind, attempt. simpl.
    pose proof (wp_conn_data past _ sid c d Hc) as [Ho|(msg & sent & -> & Hr & Hf)]; [by left|].
    right. exists sid, msg, c, sent. destruct Hc as [Ha Hfr].
    destruct (Hfr Hr) as [Hau Hs]. destruct (Ha Hau) as [Hl _]. done.
  - left. pose proof (outside_conn_op op sid f c Hop Hd (ms_broker s)) as Ho.
    destruct (f c (ms_broker s)) as [[e|c'] w']; exact Ho.
Qed.
