(* ===== verification/MailRate.v ===== *)
(** How much a registration sends: the token bucket behind each of them bounds the messages
    accepted in every history, and a new registration starts with a full bucket.  Then the
    small broker the witnesses of the mail files run. *)
From S2P Require Import Prelude Regexp GoStrings Sha256 Store Outside EventRing Mail MailRun.

Definition day : Z := 86400 * 10 ^ 9.

(** * What is relied on *)

(** A limiter made at [t0] and asked at the instants of a clock, last at [t]: the number it has
    granted. *)
Inductive limiter_run {L : Type} `{!RateLimiter L} (lim : MailLimits) (t0 : Z)
    : L → Z → Z → Prop :=
  | run_new : limiter_run lim t0 (NewLimiter lim t0) t0 0
  | run_allow l t n t' : limiter_run lim t0 l t n → (t ≤ t')%Z →
      limiter_run lim t0 (limiter_allow t' l).2 t'
        (n + if (limiter_allow t' l).1 then 1 else 0).
(** rate.Limiter: [Burst] at once, and then [PerDay] in a day. *)
Class RateLaws (L : Type) `{!RateLimiter L} := {
  rate_bound lim t0 l t n : (0 < PerDay lim)%Z → (0 < Burst lim)%Z →
    limiter_run (L := L) lim t0 l t n → (n * day ≤ Burst lim * day + PerDay lim * (t - t0))%Z }.
(** The clock is monotonic. *)
Class HostLaws (X : Type) `{!MailHost X} := {
  now_rand n (x : X) : (mail_now x ≤ mail_now (rand_Read n x).2)%Z;
  now_forward f e (x : X) : (mail_now x ≤ mail_now (Forward f e x).2)%Z;
  now_save cfg (x : X) : (mail_now x ≤ mail_now (save_provider cfg x))%Z;
  now_remove (x : X) : (mail_now x ≤ mail_now (remove_provider x))%Z }.

Section rate.
Context {L X : Type} `{!RateLimiter L, !MailParser, !MailHost X, !RateLaws L, !HostLaws X}.
Notation World := (MailBroker L X).
Notation MM := (M World MailError).
Notation State := (MailState L X).
Notation Op := (MailOp X).
Implicit Types (w : World) (s : State) (op : Op) (r : Registration L) (past : list (State * Op)).

Definition now_ w : Z := mail_now (outside_ w).
Definition positive (lim : MailLimits) : Prop := (0 < PerDay lim)%Z ∧ (0 < Burst lim)%Z.
(** The limits a registration gets, and those an operation asks for. *)
Definition effective (d li : MailLimits) : MailLimits :=
  MkMailLimits (positive_or (PerDay li) (PerDay d)) (positive_or (Burst li) (Burst d)).
Definition requested op : option MailLimits :=
  match op with
  | MControl _ (PostRegister (inr rw)) => Some (MkMailLimits (RW_PerDay rw) (RW_Burst rw))
  | MProvision req => Some (MR_Limits req)
  | MRestore _ _ _ _ li => Some li
  | _ => None
  end.
(** Every limiter there is was there before, or is new with the limits asked for. *)
Record limits (asked : option MailLimits) w w' : Prop := {
  li_now : (now_ w ≤ now_ w')%Z;
  li_defaults : defaults w' = defaults w;
  li_dom l r : heap w !! l = Some r → is_Some (heap w' !! l);
  li_limiter l r' : heap w' !! l = Some r' →
    (∃ r, heap w !! l = Some r ∧ rg_limiter r' = rg_limiter r)
    ∨ (heap w !! l = None ∧ ∃ li t0, asked = Some li ∧ (now_ w ≤ t0 ≤ now_ w')%Z
         ∧ rg_limiter r' = NewLimiter (effective (defaults w) li) t0) }.
#[export] Instance limits_preorder asked : PreOrder (limits asked).
Proof.
  split.
  - intros w. split; [done|done|by eexists|]. intros l r Hl. left. by exists r.
  - intros w1 w2 w3 [Hn1 He1 Hd1 Hl1] [Hn2 He2 Hd2 Hl2].
    split; [lia|congruence|intros l r H1; destruct (Hd1 l r H1) as [r2 H2]; by eapply Hd2|].
    intros l r3 H3. destruct (Hl2 l r3 H3) as [(r2 & H2 & E2)|(H2 & li & t0 & Hp & Ht & E2)].
    + destruct (Hl1 l r2 H2) as [(r1 & H1 & E1)|(H1 & li & t0 & Hp & Ht & E1)].
      * left. exists r1. split; [done|congruence].
      * right. split; [done|]. exists li, t0. split_and!; [done|lia|lia|congruence].
    + right. split.
      * destruct (heap w1 !! l) as [r1|] eqn:H1; [|done]. destruct (Hd1 l r1 H1) as [r2 H2']. congruence.
      * exists li, t0. rewrite <-He1. split_and!; [done|lia|lia|done].
Qed.

Section limits.
Context (asked : option MailLimits).
Lemma limits_same w w' :
  heap w' = heap w → defaults w' = defaults w → (now_ w ≤ now_ w')%Z → limits asked w w'.
Proof.
  intros Hh Hd Hn. split; [done|done|rewrite Hh; by eexists|]. rewrite Hh. intros l r Hl. left. by exists r.
Qed.
Lemma limits_setAllowed l al : frames (limits asked) (setAllowed l al).
Proof.
  apply frames_modify. intros w. split; [done|done| |]; simpl.
  - intros l0 r Hl. destruct (decide (l0 = l)) as [->|].
    + rewrite lookup_alter_eq, Hl. by eexists.
    + rewrite lookup_alter_ne by done. by eexists.
  - intros l0 r' Hl. left. destruct (decide (l0 = l)) as [->|].
    + rewrite lookup_alter_eq in Hl. destruct (heap w !! l) as [r|]; [|done]. injection Hl as <-.
      by exists r.
    + rewrite lookup_alter_ne in Hl by done. by exists r'.
Qed.
Lemma limits_registerHashed b u h al li : asked = Some li → frames (limits asked) (registerHashed b u h al li).
Proof.
  intros Has. apply frames_modify. intros w. set (l := fresh (dom (heap w))).
  assert (heap w !! l = None) as Hfresh by (apply not_elem_of_dom, is_fresh).
  split; [done|done| |]; simpl.
  - intros l0 r Hl. rewrite lookup_insert_ne by congruence. by eexists.
  - intros l0 r' Hl. destruct (decide (l0 = l)) as [->|].
    + rewrite lookup_insert_eq in Hl. injection Hl as <-. right. split; [done|].
      exists li, (now_ w). split_and!; [done|done|unfold now_; simpl; lia|done].
    + rewrite lookup_insert_ne in Hl by done. left. by exists r'.
Qed.
Lemma limits_Deregister b : frames (limits asked) (Deregister b).
Proof.
  apply frames_modify. intros w. destruct (_ ≫= _); [|reflexivity]. by apply limits_same.
Qed.
Lemma limits_emit ev : frames (limits asked) (emit ev).
Proof. apply frames_modify. intros w. by apply limits_same. Qed.
Lemma limits_SetProvider cfg : frames (limits asked) (SetProvider cfg).
Proof.
  apply frames_modify. intros w. unfold persistProvider, now_. repeat case_decide;
    apply limits_same; unfold now_; simpl; auto using now_save, now_remove; done.
Qed.
Lemma limits_rand n : frames (limits asked) (mail_outside (rand_Read n)).
Proof.
  intros w. unfold mail_outside. pose proof (now_rand n (outside_ w)).
  destruct (rand_Read _ _). by apply limits_same.
Qed.
Lemma limits_deref l : frames (limits asked) (deref l).
Proof. intros w. unfold deref. destruct (heap w !! l); reflexivity. Qed.
End limits.
Hint Resolve limits_setAllowed limits_registerHashed limits_Deregister limits_emit
  limits_SetProvider limits_rand limits_deref : frame.
Hint Extern 1 (_ = Some _) => reflexivity : frame.
Lemma limits_handle auth req :
  frames (limits (requested (MControl auth req))) (Handler auth req).
Proof.
  unfold Handler. solve_frame. destruct req as [[]|[]|[]|[]| | |]; simpl;
    unfold handleRegister, answered, RegisterHashed, SetSenders, Enabled; solve_frame.
Qed.
Lemma limits_conn_op asked op sid f c :
  conn_op op = Some (sid, f) → (∀ d, op ≠ MData sid d) → frames (limits asked) (f c).
Proof.
  destruct op; simpl; intros [= <- <-] Hd.
  - unfold conn_auth, authenticate, lookup_user. solve_frame.
  - unfold conn_from, Mail_. solve_frame.
  - unfold conn_rcpt, Rcpt. solve_frame.
  - by destruct (Hd data).
  - apply frames_ret. tc_solve.
Qed.
Lemma mail_step_limits op s : (∀ sid d, op ≠ MData sid d) →
  limits (requested op) (ms_broker s) (ms_broker (mail_step op s)).
Proof.
  intros Hd. destruct (conn_op op) as [[sid f]|] eqn:E.
  { assert (mail_step op s = on_conn sid f s) as -> by (destruct op; simpl in *; congruence).
    unfold on_conn. destruct (ms_conns s !! sid) as [c|]; [|reflexivity].
    pose proof (limits_conn_op (requested op) op sid f c E (Hd sid) (ms_broker s)) as Hl.
    by destruct (f c _). }
  assert (∀ A (m : MM A), frames (limits (requested op)) m →
    limits (requested op) (ms_broker s) (ms_broker (on_broker m s))) as Hm by (intros A m; auto).
  destruct op; try done; simpl; try (apply Hm).
  - apply limits_handle.
  - unfold Mail_Provision, Enabled, randomPassword, register. solve_frame.
  - unfold Mail_Restore, register. solve_frame.
  - unfold LoadProvider. solve_frame.
  - by case_decide.
  - case_decide; [|reflexivity]. by apply limits_same.
Qed.

(** A message at the registration [l]: one token is asked for, and only with it granted is the
    message accepted. *)
Lemma wp_data_limits w c data :
  wp (conn_data data c) (λ a w', defaults w' = defaults w ∧ (now_ w ≤ now_ w')%Z ∧
    ((heap w' = heap w ∧ is_inl a = true) ∨
     ∃ r (l := se_reg (cn_session c)) (ask := limiter_allow (now_ w) (rg_limiter r)),
       se_authed (cn_session c) = true ∧ heap w !! l = Some r
       ∧ heap w' = <[l := MkRegistration (rg_beamID r) (rg_username r) (rg_passHash r)
                            (rg_allowed r) ask.2]> (heap w)
       ∧ (is_inl a = false → ask.1 = true))) w.
Proof.
  unfold conn_data. destruct (_ || _); [split_and!; try done; by left|].
  unfold Data. destruct (se_authed (cn_session c)) eqn:Eau; [|split_and!; try done; by left].
  simpl. destruct data as [e|msg]; [split_and!; try done; by left|].
  set (l := se_reg (cn_session c)). apply wp_bind. unfold deliver.
  destruct (parseHeaders msg) as [subject messageID]. apply wp_bind, wp_deref.
  2: { intros e _. split_and!; try done. by left. }
  intros r Hl. simpl. destruct (headerFromAllowed msg (rg_allowed r)); simpl.
  2: { split_and!; try done. by left. }
  apply wp_bind, (wp_limiter l r); [done|].
  destruct (limiter_allow (mail_now (outside_ w)) (rg_limiter r)) as [ok lim] eqn:El.
  assert (∀ b : bool, b = true ∨ ok = true → ∃ r0 (ask := limiter_allow (now_ w) (rg_limiter r0)),
    true = true ∧ heap w !! l = Some r0
    ∧ <[l := MkRegistration (rg_beamID r) (rg_username r) (rg_passHash r) (rg_allowed r) lim]> (heap w)
      = <[l := MkRegistration (rg_beamID r0) (rg_username r0) (rg_passHash r0) (rg_allowed r0)
                 ask.2]> (heap w) ∧ (b = false → ask.1 = true)) as Hask.
  { intros b Hb. exists r. unfold now_. rewrite El. split_and!; try done. intros ->.
    by destruct Hb. }
  destruct ok; simpl. 2: { split_and!; try done. right. apply Hask. by left. }
  apply wp_bind, wp_gets. simpl. destruct (forwarder w) as [fwd|].
  2: { split_and!; try done. right. apply Hask. by left. }
  unfold wp, mbind, M_bind, mail_outside. simpl.
  pose proof (now_forward fwd (MkEnvelope (se_from (cn_session c)) (se_to (cn_session c)) msg)
    (outside_ w)) as Hn.
  destruct (Forward fwd _ (outside_ w)) as [[e|[]] x]; simpl in *; (split_and!; [done|done|]); right;
    apply Hask; by right.
Qed.

(** * Counting *)

(** A DATA that the broker answers with success, by a session of the registration at [l]. *)
Definition accepted (l : nat) (e : State * Op) : Prop :=
  match e.2 with
  | MData sid data =>
      match ms_conns e.1 !! sid with
      | Some c => se_reg (cn_session c) = l ∧ is_inl (conn_data data c (ms_broker e.1)).1 = false
      | None => False
      end
  | _ => False
  end.
#[export] Instance accepted_dec l e : Decision (accepted l e).
Proof. unfold accepted. destruct e.2; try apply _. destruct (_ !! _); apply _. Defined.
Definition accepted_by (l : nat) past : Z := Z.of_nat (length (filter (accepted l) past)).
(** The operation that made the registration at [l], and the limits it gave it. *)
Definition registered_by past (l : nat) s0 (lim : MailLimits) : Prop := ∃ op r0 li t0,
  (s0, op) ∈ past ∧ requested op = Some li ∧ lim = effective (defaults (ms_broker s0)) li
  ∧ heap (ms_broker s0) !! l = None ∧ heap (ms_broker (mail_step op s0)) !! l = Some r0
  ∧ rg_limiter r0 = NewLimiter lim t0 ∧ (now_ (ms_broker s0) ≤ t0)%Z.

Definition rate_ok past s : Prop :=
  positive (defaults (ms_broker s)) ∧
  (∀ l, heap (ms_broker s) !! l = None → accepted_by l past = 0%Z) ∧
  (∀ l r, heap (ms_broker s) !! l = Some r → ∃ s0 lim t0 t n,
     registered_by past l s0 lim ∧ positive lim ∧ (now_ (ms_broker s0) ≤ t0)%Z
     ∧ limiter_run lim t0 (rg_limiter r) t n ∧ (t ≤ now_ (ms_broker s))%Z
     ∧ (accepted_by l past ≤ n)%Z).
Lemma accepted_by_snoc l past e :
  accepted_by l (past ++ [e]) = (accepted_by l past + if decide (accepted l e) then 1 else 0)%Z.
Proof.
  unfold accepted_by. rewrite filter_app, length_app, filter_cons, filter_nil.
  case_decide; simpl; lia.
Qed.
Lemma registered_by_mono past l s0 lim e :
  registered_by past l s0 lim → registered_by (past ++ [e]) l s0 lim.
Proof.
  intros (op & r0 & li & t0 & Hin & Hr). exists op, r0, li, t0.
  split; [apply elem_of_app; by left|done].
Qed.
Lemma effective_positive d li : positive d → positive (effective d li).
Proof. intros []. unfold positive, effective, positive_or. simpl. split; case_decide; lia. Qed.

Lemma rate_ok_other past s op :
  (∀ sid d, op ≠ MData sid d) → rate_ok past s → rate_ok (past ++ [(s, op)]) (mail_step op s).
Proof.
  intros Hd (Hpos & Hnone & Hsome). pose proof (mail_step_limits op s Hd) as [Hn He Hdom Hli].
  assert (∀ l, accepted_by l (past ++ [(s, op)]) = accepted_by l past) as Hacc.
  { intros l. rewrite accepted_by_snoc, decide_False; [lia|].
    destruct op; simpl; try (by intros []). by destruct (Hd sid data). }
  split_and!; [by rewrite He| |].
  - intros l Hl. rewrite Hacc. apply Hnone. destruct (heap (ms_broker s) !! l) eqn:E; [|done].
    destruct (Hdom _ _ E) as [? ?]. congruence.
  - intros l r' Hl. rewrite Hacc. destruct (Hli l r' Hl) as [(r & H1 & E)|(H1 & li & t0 & Ha & Ht & E)].
    + destruct (Hsome l r H1) as (s0 & lim & t0 & t & n & Hb & Hp & H0 & Hrun & Hle & Hc).
      exists s0, lim, t0, t, n. rewrite E. split_and!; try done; [by apply registered_by_mono|lia].
    + exists s, (effective (defaults (ms_broker s)) li), t0, t0, 0%Z. rewrite E.
      split_and!; [|by apply effective_positive|lia|constructor|lia|by rewrite Hnone].
      exists op, r', li, t0. split_and!; try done; [apply elem_of_app; right; by left|lia].
Qed.
Lemma rate_ok_data past s sid d :
  rate_ok past s → rate_ok (past ++ [(s, MData sid d)]) (mail_step (MData sid d) s).
Proof.
  intros (Hpos & Hnone & Hsome). set (op := MData sid d : Op).
  assert (∀ l, accepted l (s, op) → ∃ c, ms_conns s !! sid = Some c ∧ se_reg (cn_session c) = l
    ∧ is_inl (conn_data d c (ms_broker s)).1 = false) as Hac.
  { intros l. unfold accepted. simpl. destruct (ms_conns s !! sid) as [c|]; [|done].
    intros []. by exists c. }
  assert (∀ l r, heap (ms_broker s) !! l = Some r → ¬ accepted l (s, op) → ∃ s0 lim t0 t n,
     registered_by (past ++ [(s, op)]) l s0 lim ∧ positive lim ∧ (now_ (ms_broker s0) ≤ t0)%Z
     ∧ limiter_run lim t0 (rg_limiter r) t n ∧ (t ≤ now_ (ms_broker s))%Z
     ∧ (accepted_by l (past ++ [(s, op)]) ≤ n)%Z) as Hkeep.
  { intros l r Hl Hno. destruct (Hsome l r Hl) as (s0 & lim & t0 & t & n & Hb & Hr).
    exists s0, lim, t0, t, n. rewrite accepted_by_snoc, decide_False, Z.add_0_r by done.
    split; [by apply registered_by_mono|done]. }
  subst op. simpl. unfold on_conn. destruct (ms_conns s !! sid) as [c|] eqn:Ec.
  2: { split_and!; [done| |].
       - intros l Hl. rewrite accepted_by_snoc, decide_False, Hnone; [done|done|].
         intros (c & Hc & _)%Hac. congruence.
       - intros l r Hl. apply Hkeep; [done|]. intros (c & Hc & _)%Hac. congruence. }
  pose proof (wp_data_limits (ms_broker s) c d) as Hdata. unfold wp in Hdata.
  unfold mbind, M_bind, attempt. simpl.
  destruct (conn_data d c (ms_broker s)) as [a w'] eqn:Ea. simpl in *.
  destruct Hdata as (He & Hn & [[Hh Ha]|(r & Hau & Hl0 & Hh & Hask)]).
  - assert (∀ l, ¬ accepted l (s, MData sid d)) as Hno.
    { intros l (c' & Hc & _ & Hr)%Hac. simplify_eq. rewrite Ea in Hr. simpl in Hr. congruence. }
    split_and!; [simpl; by rewrite He| |]; simpl; rewrite Hh.
    + intros l Hl. rewrite accepted_by_snoc, decide_False, Hnone by done. done.
    + intros l r Hl. destruct (Hkeep l r Hl (Hno l)) as (s0 & lim & t0 & t & n & ?). naive_solver lia.
  - set (l0 := se_reg (cn_session c)) in *.
    assert (∀ l, l ≠ l0 → ¬ accepted l (s, MData sid d)) as Hno.
    { intros l Hne (c' & Hc & Hr & _)%Hac. simplify_eq. }
    split_and!; [simpl; by rewrite He| |]; simpl; rewrite Hh; intros l.
    + intros [Hl Hne]%lookup_insert_None. rewrite accepted_by_snoc, decide_False, Hnone by auto. done.
    + destruct (decide (l = l0)) as [->|Hne].
      2: { intros r1. rewrite lookup_insert_ne by done. intros Hl.
           destruct (Hkeep l r1 Hl (Hno l Hne)) as (s0 & lim & t0 & t & n & ?). naive_solver lia. }
      intros r1. rewrite lookup_insert_eq. intros [= <-]. simpl.
      destruct (Hsome l0 r Hl0) as (s0 & lim & t0 & t & n & Hb & Hp & H0 & Hrun & Hle & Hc).
      exists s0, lim, t0, (now_ (ms_broker s)),
        (n + if (limiter_allow (now_ (ms_broker s)) (rg_limiter r)).1 then 1 else 0)%Z.
      split_and!; [by apply registered_by_mono|done|done|by apply (run_allow _ _ _ t)|done|].
      rewrite accepted_by_snoc. case_decide as Hacc; [|destruct (limiter_allow _ _).1; lia].
      destruct (Hac _ Hacc) as (c' & Hc' & _ & Hr). simplify_eq. rewrite Ea in Hr.
      rewrite Hask by done. lia.
Qed.
Lemma history_rate past s : mail_history past s → rate_ok past s.
Proof.
  induction 1 as [dir token x|past s op _ IH].
  - split_and!; [by split| |]; done.
  - destruct op; try (by apply rate_ok_other). by apply rate_ok_data.
Qed.
End rate.

(** C27: a registration sends no more than its limits.  In every history, the messages the
    broker has accepted from the sessions of a registration are at most the burst its
    registration asked for (or the default) and the daily rate times the time since. *)
Theorem mail_rate_bounded {L X : Type} `{!RateLimiter L, !MailParser, !MailHost X, !RateLaws L,
    !HostLaws X} (past : list (MailState L X * MailOp X)) (s : MailState L X) (l : nat)
    (Hpast : mail_history past s) (Hl : is_Some (heap (ms_broker s) !! l)) :
  ∃ s0 lim, registered_by past l s0 lim ∧
    (accepted_by l past * day ≤
       Burst lim * day + PerDay lim * (now_ (ms_broker s) - now_ (ms_broker s0)))%Z.
Proof.
  destruct (history_rate past s Hpast) as (_ & _ & Hsome), Hl as [r Hr].
  destruct (Hsome l r Hr) as (s0 & lim & t0 & t & n & Hb & [Hp Hbu] & H0 & Hrun & Hle & Hc).
  exists s0, lim. split; [done|]. pose proof (rate_bound lim t0 _ t n Hp Hbu Hrun).
  assert (accepted_by l past * day ≤ n * day)%Z by (unfold day; lia). nia.
Qed.

(** * A small broker *)

(** A token bucket in integers: tokens are counted in parts of a day. *)
Record Bucket := MkBucket {
  bk_perDay : Z;
  bk_burst : Z;
  bk_tokens : Z;
  bk_last : Z}.
#[export] Instance Bucket_limiter : RateLimiter Bucket := {|
  NewLimiter lim t := MkBucket (PerDay lim) (Burst lim) (Burst lim * day) t;
  limiter_allow t b :=
    let t := Z.max t (bk_last b) in
    let tokens := Z.min (bk_burst b * day) (bk_tokens b + bk_perDay b * (t - bk_last b)) in
    if decide (day ≤ tokens)%Z then (true, MkBucket (bk_perDay b) (bk_burst b) (tokens - day) t)
    else (false, MkBucket (bk_perDay b) (bk_burst b) tokens t) |}.
Lemma Bucket_run lim t0 b t n : (0 < PerDay lim)%Z → (0 < Burst lim)%Z →
  limiter_run (L := Bucket) lim t0 b t n →
  bk_perDay b = PerDay lim ∧ bk_burst b = Burst lim ∧ bk_last b = t ∧ (0 ≤ bk_tokens b)%Z
  ∧ (bk_tokens b + n * day ≤ Burst lim * day + PerDay lim * (t - t0))%Z.
Proof.
  intros Hp Hb. induction 1 as [|b t n t' _ IH Ht].
  - rewrite Z.sub_diag, Z.mul_0_r. simpl. change day with 86400000000000%Z. split_and!; try done; lia.
  - destruct IH as (Hpd & Hbu & Hl & H0 & IH). simpl. rewrite Hl, Hpd, Hbu, (Z.max_l t' t) by lia.
    assert (0 ≤ PerDay lim * (t' - t))%Z by nia.
    assert (PerDay lim * (t' - t0) = PerDay lim * (t - t0) + PerDay lim * (t' - t))%Z by lia.
    case_decide as Hd; simpl; change day with 86400000000000%Z in *; split_and!; try done; lia.
Qed.
#[export] Instance Bucket_laws : RateLaws Bucket.
Proof. split. intros lim t0 b t n Hp Hb Hrun. apply Bucket_run in Hrun; [|done..]. lia. Qed.

(** Messages whose first line is the From header, with one address. *)
#[export] Instance Plain_parser : MailParser := {|
  ReadMessage data := match CutPrefix data "From: " with
                      | Some rest => Some {["From" := [rest]]}
                      | None => None
                      end;
  ParseAddressList v := Some [v] |}.
(** A clock, a smarthost that takes everything, and the file of the provider. *)
Record Post := MkPost {
  po_clock : Z;
  po_delivered : list Envelope;
  po_saved : option MailProvider}.
#[export] Instance Post_host : MailHost Post := {|
  mail_now := po_clock;
  rand_Read n x := (inr (String.string_of_list_ascii (replicate n "a"%char)), x);
  Forward _ e x := (inr tt, MkPost (po_clock x) (po_delivered x ++ [e]) (po_saved x));
  save_provider cfg x := MkPost (po_clock x) (po_delivered x) (Some cfg);
  remove_provider x := MkPost (po_clock x) (po_delivered x) None;
  load_provider x := inr <$> po_saved x |}.
#[export] Instance Post_laws : HostLaws Post.
Proof. by split. Qed.

Notation PState := (MailState Bucket Post) (only parsing).
Fixpoint mail_run (ops : list (MailOp Post)) (past : list (PState * MailOp Post)) (s : PState)
    : list (PState * MailOp Post) * PState :=
  match ops with
  | [] => (past, s)
  | op :: ops => mail_run ops (past ++ [(s, op)]) (mail_step op s)
  end.
Lemma mail_run_history ops past s :
  mail_history past s → mail_history (mail_run ops past s).1 (mail_run ops past s).2.
Proof.
  revert past s. induction ops as [|op ops IH]; intros past s Hs; [done|]. by apply IH, history_step.
Qed.
Definition Mail_start : PState := MkMailState (Mail_New "/state" "tok" (MkPost 0 [] None)) ∅.
Definition Register1 : MailOp Post := MControl "Bearer tok"
  (PostRegister (inr (MkRegisterWire "b1" "beam-b1" (PasswordHashHex "pw") ["example.com"] 1 1))).
Definition Login1 (sid : nat) : list (MailOp Post) :=
  [MConnect sid; MAuth sid "beam-b1" "pw"; MFrom sid "App <app@example.com>";
   MFrom sid "app@example.com"; MRcpt sid "ann@example.org"].
Definition Letter (sid : nat) : MailOp Post := MData sid (inr "From: app@example.com").
Definition Opening : list (MailOp Post) :=
  [MControl "Bearer tok" (PostProvider (inr (MkMailProvider "mx:25" "" "" "" false false))); Register1]
  ++ Login1 0.
Definition Ready := mail_run Opening [] Mail_start.
Lemma Ready_history : mail_history Ready.1 Ready.2.
Proof. apply mail_run_history, history_start. Qed.

Lemma delivery_is_authorized_witness :
  po_delivered (outside_ (ms_broker (mail_step (Letter 0) Ready.2))) =
    [MkEnvelope "app@example.com" ["ann@example.org"] "From: app@example.com"]
  ∧ ∃ sid msg c sent, Letter 0 = MData sid (inr msg)
      ∧ logged_in Ready.1 sid (se_reg (cn_session c))
      ∧ forwarded (ms_broker Ready.2) (ms_broker (mail_step (Letter 0) Ready.2))
          (se_reg (cn_session c)) (se_from (cn_session c)) (se_to (cn_session c)) msg sent.
Proof.
  split; [by vm_compute|].
  destruct (delivery_is_authorized Ready.1 Ready.2 (Letter 0) Ready_history) as [Ho|Hd].
  - by eexists.
  - exfalso. apply (f_equal po_delivered) in Ho. vm_compute in Ho. done.
  - destruct Hd as (sid & msg & c & sent & Hop & _ & Hl & _ & Hf). by exists sid, msg, c, sent.
Defined.

(** A second message of the same day is refused; a new registration of the beam, as every
    reconciliation makes one, lets it pass. *)
Definition Sent := mail_run (Login1 1 ++ [Letter 0; Letter 1]) Ready.1 Ready.2.
Definition Sent_again := mail_run (Register1 :: Login1 2 ++ [Letter 2]) Sent.1 Sent.2.
Lemma Sent_history : mail_history Sent.1 Sent.2.
Proof. apply mail_run_history, Ready_history. Qed.
Example registration_refills :
  length (po_delivered (outside_ (ms_broker Sent.2))) = 1
  ∧ length (po_delivered (outside_ (ms_broker Sent_again.2))) = 2.
Proof. by vm_compute. Qed.
Lemma mail_rate_bounded_witness :
  accepted_by 0 Sent.1 = 1%Z ∧ ∃ s0 lim, registered_by Sent.1 0 s0 lim
    ∧ (accepted_by 0 Sent.1 * day ≤
         Burst lim * day + PerDay lim * (now_ (ms_broker Sent.2) - now_ (ms_broker s0)))%Z.
Proof.
  split; [by vm_compute|]. apply (mail_rate_bounded Sent.1 Sent.2 0 Sent_history).
  vm_compute. by eexists.
Defined.
