(* ===== verification/Egress.v ===== *)
(** The egress policy (internal/egress/iptables.go): the firewall script rendered from the
    policies of the beamhalls' bridges, the checks of an allowlist entry, and the
    reconciliation of the two chains. *)
From S2P Require Import Prelude Regexp GoStrings GoNet Domain Outside.

Definition chain : string := "BEAMHALL-EGRESS".
Definition hookChain : string := "DOCKER-USER".
Definition inputChain : string := "BEAMHALL-INPUT".
Definition inputHookChain : string := "INPUT".
Definition bridgeWildcard : string := "br-+".
Definition AlwaysDeny : list string := ["169.254.0.0/16"].

Record SourceRule := MkSourceRule {
  SourceIP : string;
  Dest : string}.
(** egress.Policy *)
Record EgressPolicy := MkEgressPolicy {
  Bridge : string;
  Allow : list string;
  SameBridgeAllow : list string;
  PerSource : list SourceRule}.
(** egress.Reconciler; [lookup] is the resolver. *)
Record Reconciler := MkReconciler {
  rec_bin : string;
  rec_restoreBin : string;
  rec_alwaysDeny : list string;
  rec_hostPorts : list Z;
  rec_lookup : string → option (list IP)}.
Definition Egress_New (lookup : string → option (list IP)) (extraAlwaysDeny : list string) : Reconciler :=
  MkReconciler "iptables" "iptables-restore" (AlwaysDeny ++ extraAlwaysDeny) [] lookup.
Definition AllowHostPorts (r : Reconciler) (ports : list Z) : Reconciler :=
  MkReconciler (rec_bin r) (rec_restoreBin r) (rec_alwaysDeny r) ports (rec_lookup r).

(** strings.ContainsAny *)
Fixpoint ContainsAny (s chars : string) : bool :=
  match s with
  | EmptyString => false
  | String c s => one_of chars c || ContainsAny s chars
  end.
Definition control_chars : string :=
  String newline (String (Ascii.ascii_of_nat 13) (String (Ascii.ascii_of_nat 0) EmptyString)).
Definition restoreSafe (s : string) : bool :=
  negb (bool_decide (s = EmptyString)) && negb (ContainsAny s control_chars).

Definition resolveDest (r : Reconciler) (entry : string) : option (list string) :=
  if ContainsAny entry "/" then Some [entry]
  else match ParseIP entry with
  | Some _ => Some [entry]
  | None =>
      match rec_lookup r entry with
      | None | Some [] => None
      | Some ips =>
          let out := omap (λ ip, IP4_String <$> To4 ip) ips in
          if decide (0 < length out) then Some out else None
      end
  end.

(** ** The script *)

Definition nl : string := String newline EmptyString.
(** A rule: the chain it is appended to, its options in order and its target. *)
Record Rule := MkRule {
  r_chain : string;
  r_opts : list (string * string);
  r_target : string}.
(** fmt.Fprintf(&buf, "-A %s ... -j ...\n") *)
Definition print_rule (ru : Rule) : string :=
  "-A " +:+ r_chain ru
  +:+ foldr (λ o s, " " +:+ o.1 +:+ " " +:+ o.2 +:+ s) EmptyString (r_opts ru)
  +:+ " -j " +:+ r_target ru +:+ nl.
Definition concat_strings (l : list string) : string := foldr String.app EmptyString l.

Definition deny_rule (cidr : string) : error + Rule :=
  if negb (restoreSafe cidr) then
    inl (ErrMsg ("egress: unsafe always-deny entry " +:+ quoted cidr))
  else inr (MkRule chain [("-d", cidr)] "DROP").
Definition broker_rules (p : EgressPolicy) (ip : string) : error + list Rule :=
  if negb (restoreSafe ip) then
    inl (ErrMsg ("egress: unsafe broker address " +:+ quoted ip +:+ " for bridge " +:+ Bridge p))
  else inr [MkRule chain [("-i", Bridge p); ("-o", Bridge p); ("-d", ip)] "RETURN";
            MkRule chain [("-i", Bridge p); ("-o", Bridge p); ("-s", ip)] "RETURN"].
Definition source_rules (r : Reconciler) (p : EgressPolicy) (sr : SourceRule) : error + list Rule :=
  if negb (restoreSafe (SourceIP sr)) || negb (restoreSafe (Dest sr)) then
    inl (ErrMsg ("egress: unsafe per-source rule " +:+ quoted (SourceIP sr) +:+ " -> "
                 +:+ quoted (Dest sr) +:+ " for bridge " +:+ Bridge p))
  else match resolveDest r (Dest sr) with
  | None => inr []
  | Some dests => inr ((λ d, MkRule chain
      [("-i", Bridge p); ("-s", SourceIP sr); ("-d", d)] "RETURN") <$> dests)
  end.
Definition allow_rules (r : Reconciler) (p : EgressPolicy) (cidr : string) : error + list Rule :=
  if negb (restoreSafe cidr) then
    inl (ErrMsg ("egress: unsafe allowlist entry " +:+ quoted cidr +:+ " for bridge " +:+ Bridge p))
  else match resolveDest r cidr with
  | None => inr []
  | Some dests => inr ((λ d, MkRule chain [("-i", Bridge p); ("-d", d)] "RETURN") <$> dests)
  end.
Definition policy_rules (r : Reconciler) (p : EgressPolicy) : error + list Rule :=
  if decide (Bridge p = EmptyString) then inr []
  else if negb (restoreSafe (Bridge p)) then
    inl (ErrMsg ("egress: unsafe bridge name " +:+ quoted (Bridge p)))
  else
    brokers ← mapM (broker_rules p) (SameBridgeAllow p);
    sources ← mapM (source_rules r p) (PerSource p);
    allowed ← mapM (allow_rules r p) (Allow p);
    inr (concat brokers ++ concat sources ++ concat allowed
         ++ [MkRule chain [("-i", Bridge p)] "DROP"]).
Definition port_rule (port : Z) : error + Rule :=
  if decide (port ≤ 0 ∨ 65535 < port)%Z then
    inl (ErrMsg ("egress: invalid host guard port " +:+ format_int port))
  else inr (MkRule inputChain
    [("-i", bridgeWildcard); ("-p", "tcp"); ("--dport", format_int port)] "RETURN").
Definition script_rules (r : Reconciler) (policies : list EgressPolicy) : error + list Rule :=
  denies ← mapM deny_rule (rec_alwaysDeny r);
  pols ← mapM (policy_rules r) policies;
  ports ← mapM port_rule (rec_hostPorts r);
  inr (denies ++ concat pols
       ++ MkRule inputChain [("-i", bridgeWildcard); ("-m", "conntrack");
                             ("--ctstate", "ESTABLISHED,RELATED")] "RETURN"
       :: ports ++ [MkRule inputChain [("-i", bridgeWildcard)] "DROP"]).
Definition script_header : string :=
  "*filter" +:+ nl +:+ ":" +:+ chain +:+ " -" +:+ nl +:+ ":" +:+ inputChain +:+ " -" +:+ nl.
Definition buildScript (r : Reconciler) (policies : list EgressPolicy) : error + string :=
  rules ← script_rules r policies;
  inr (script_header +:+ concat_strings (print_rule <$> rules) +:+ "COMMIT" +:+ nl).

(** ** The checks of an entry *)

Definition host_alnum (c : ascii) : bool := is_lower c || is_upper c || is_digit c.
Definition host_char (c : ascii) : bool := host_alnum c || one_of "-" c.
Definition label_re : re :=
  Cat (Class_ host_alnum) (Opt (Cat (UpTo 61 (Class_ host_char)) (Class_ host_alnum))).
Definition hostnameRe : re :=
  Cat AtStart (Cat (Star true (Cat label_re (Lit "."))) (Cat label_re AtEnd)).
Definition ValidateAllowEntry (entry : string) : option error :=
  let s := TrimSpace entry in
  if decide (s = EmptyString) then Some (ErrMsg "empty allowlist entry")
  else if negb (restoreSafe s) || ContainsAny s (String " " (String (Ascii.ascii_of_nat 9) EmptyString)) then
    Some (ErrMsg ("allowlist entry " +:+ quoted s +:+ " contains unsafe characters"))
  else if ContainsAny s ":" then
    Some (ErrMsg ("allowlist entry " +:+ quoted s +:+ ": port suffixes and IPv6 literals are not supported — egress rules match the destination address only (use a bare IPv4 address, IPv4 CIDR, or hostname)"))
  else if ContainsAny s "/" then
    match ParseCIDR s with
    | Some (ip, _) => if decide (To4 ip = None) then
        Some (ErrMsg ("allowlist entry " +:+ quoted s +:+ " is not a valid IPv4 CIDR")) else None
    | None => Some (ErrMsg ("allowlist entry " +:+ quoted s +:+ " is not a valid IPv4 CIDR"))
    end
  else match ParseIP s with
  | Some ip => if decide (To4 ip = None) then
      Some (ErrMsg ("allowlist entry " +:+ quoted s +:+ ": IPv6 is not supported")) else None
  | None =>
      if all_bytes (one_of "0123456789.") s then
        Some (ErrMsg ("allowlist entry " +:+ quoted s +:+ " is not a valid IPv4 address"))
      else if negb (MatchString hostnameRe s) || bool_decide (253 < String.length s) then
        Some (ErrMsg ("allowlist entry " +:+ quoted s
                      +:+ " is not a valid IPv4 address, IPv4 CIDR, or hostname"))
      else None
  end.

(** ** Reconciliation *)

(** The host the backplane runs on: its commands, with their standard input, and files. *)
Class HostTools (X : Type) := {
  host_run : string → list string → string → ext X ();
  host_read : string → ext X string;
  host_write : string → string → ext X () }.

Section reconcile.
Context {X : Type} `{!HostTools X}.

Definition on_host {A} (f : ext X A) : M X error A := λ x,
  match f x with
  | (inl e, x) => (inl (ErrExternal e), x)
  | (inr a, x) => (inr a, x)
  end.
Definition ipt (r : Reconciler) (args : list string) : M X error () :=
  map_error (ErrWrap (rec_bin r +:+ " " +:+ Join ("-w" :: args) " " +:+ ": "))
    (on_host (host_run (rec_bin r) ("-w" :: args) EmptyString)).
Definition succeeds {A} (m : M X error A) : M X error bool :=
  r ← attempt m; mret (negb (is_inl r)).

Definition bridgeNFSysctl : string := "/proc/sys/net/bridge/bridge-nf-call-iptables".
Definition ensureBridgeNetfilter : M X error () :=
  b ← attempt (on_host (host_read bridgeNFSysctl));
  match b with
  | inr b => if decide (TrimSpace b = "1") then mret true else mret false
  | inl _ => mret false
  end ≫= λ set,
  if set : bool then mret tt
  else
    map_error (ErrWrap "egress: load br_netfilter (required for intra-bridge policy): ")
      (on_host (host_run "modprobe" ["br_netfilter"] EmptyString));;
    map_error (ErrWrap "egress: enable bridge-nf-call-iptables (required for intra-bridge policy): ")
      (on_host (host_write bridgeNFSysctl ("1" +:+ nl))).
Definition ensureChain (r : Reconciler) (name : string) : M X error () :=
  there ← succeeds (ipt r ["-n"; "-L"; name]);
  if there : bool then mret tt
  else map_error (ErrWrap ("create chain " +:+ name +:+ ": ")) (ipt r ["-N"; name]).
Definition ipt_exists (r : Reconciler) (chainName : string) (rule : list string) : M X error bool :=
  succeeds (ipt r ("-C" :: chainName :: rule)).
Definition ensureHook (r : Reconciler) (from to : string) (createFrom : bool) : M X error () :=
  (if createFrom then
     there ← succeeds (ipt r ["-n"; "-L"; from]);
     if there : bool then mret tt else logged (ipt r ["-N"; from])
   else mret tt);;
  hooked ← ipt_exists r from ["-j"; to];
  if hooked : bool then mret tt
  else map_error (ErrWrap ("hook " +:+ from +:+ " -> " +:+ to +:+ ": "))
         (ipt r ["-I"; from; "1"; "-j"; to]).
Definition restore (r : Reconciler) (script : string) : M X error () :=
  map_error (ErrWrap (rec_restoreBin r +:+ ": "))
    (on_host (host_run (rec_restoreBin r) ["-w"; "--noflush"] script)).
Definition Reconcile (r : Reconciler) (policies : list EgressPolicy) : M X error () :=
  ensureBridgeNetfilter;;
  ensureChain r chain;;
  ensureChain r inputChain;;
  ensureHook r hookChain chain true;;
  ensureHook r inputHookChain inputChain false;;
  match buildScript r policies with
  | inl err => throw err
  | inr script =>
      map_error (ErrWrap ("atomically replace " +:+ chain +:+ ": ")) (restore r script)
  end.
Definition teardown_pair (r : Reconciler) (from to : string) : M X error () :=
  there ← ipt_exists r from ["-j"; to];
  (if there : bool then ipt r ["-D"; from; "-j"; to] else mret tt);;
  logged (ipt r ["-F"; to]);;
  logged (ipt r ["-X"; to]).
Definition Teardown (r : Reconciler) : M X error () :=
  teardown_pair r hookChain chain;;
  teardown_pair r inputHookChain inputChain.
End reconcile.
