(* ===== verification/EgressProofs.v ===== *)
(** The egress policy is what the script says: what the firewall decides of a packet, no
    text in a policy that becomes a command of its own, and what an allowlist entry may
    be. *)
From S2P Require Import Prelude Regexp GoStrings GoNet Domain Outside Egress.

(** * Text *)

Lemma not_ContainsAny s chars :
  ContainsAny s chars = false ↔ all_bytes (λ c, negb (one_of chars c)) s = true.
Proof.
  induction s as [|c s IH]; [done|]. simpl. rewrite orb_false_iff, andb_true_iff, IH.
  by rewrite negb_true_iff.
Qed.

(** The digits of a number. *)
Lemma pretty_N_bytes f n s : (∀ x, f (pretty_N_char x) = true) → all_bytes f s = true →
  all_bytes f (pretty_N_go n s) = true.
Proof.
  intros Hf. revert s. induction (N.lt_wf_0 n) as [n _ IH]. intros s Hs.
  destruct (decide (0 < n)%N) as [Hn|Hn].
  - rewrite pretty_N_go_step by done. apply IH; [apply N.div_lt; lia|]. simpl. by rewrite Hf, Hs.
  - replace n with 0%N by lia. by rewrite pretty_N_go_0.
Qed.
Lemma format_int_bytes (f : ascii → bool) z : (∀ x, f (pretty_N_char x) = true) → f "-"%char = true →
  all_bytes f (format_int z) = true.
Proof.
  intros Hf Hm. assert (f "0"%char = true) as H0 by apply (Hf 0%N).
  assert (∀ n : N, all_bytes f (pretty n) = true) as HN.
  { intros n. unfold pretty, pretty_N. case_decide; [simpl; by rewrite H0|]. by apply pretty_N_bytes. }
  unfold format_int. destruct z as [|p|p]; [cbn; by rewrite H0|apply (HN (Npos p))|].
  change (f "-"%char && all_bytes f (pretty (Npos p)) = true). by rewrite Hm, HN.
Qed.
Lemma Join_bytes f l sep : all_bytes f sep = true → Forall (λ s, all_bytes f s = true) l →
  all_bytes f (Join l sep) = true.
Proof.
  intros Hsep. induction 1 as [|x l Hx Hl IH]; [done|]. destruct l as [|y l]; [done|].
  change (all_bytes f (x +:+ sep +:+ Join (y :: l) sep) = true). by rewrite !all_bytes_app, Hx, Hsep, IH.
Qed.
Lemma concat_bytes f l : Forall (λ s, all_bytes f s = true) l →
  all_bytes f (concat_strings l) = true.
Proof. induction 1 as [|x l Hx _ IH]; [done|]. simpl. by rewrite all_bytes_app, Hx, IH. Qed.

(** * The text of the script *)

(** No byte of a text is [sep]. *)
Definition free (sep : ascii) (s : string) : bool := all_bytes (λ c, negb (bool_decide (c = sep))) s.

Definition option_words (o : string * string) : list string := [o.1; o.2].
(** The words of a rule, and its line. *)
Definition rule_words (ru : Rule) : list string :=
  "-A" :: r_chain ru :: concat (option_words <$> r_opts ru) ++ ["-j"; r_target ru].
Definition rule_body (ru : Rule) : string := Join (rule_words ru) " ".

Lemma print_opts_Join opts l :
  l ≠ [] →
  foldr (λ o s, " " +:+ o.1 +:+ " " +:+ o.2 +:+ s) EmptyString opts +:+ " " +:+ Join l " "
  = " " +:+ Join (concat (option_words <$> opts) ++ l) " ".
Proof.
  intros Hl. induction opts as [|o opts IH]; [done|]. csimpl.
  rewrite !string_app_assoc, IH. destruct (concat _ ++ l) eqn:E; [|done].
  by apply app_nil in E as [_ ->].
Qed.
Lemma print_rule_body ru : print_rule ru = rule_body ru +:+ nl.
Proof.
  unfold rule_body, rule_words. destruct (concat (option_words <$> r_opts ru) ++ ["-j"; r_target ru]) eqn:E.
  { by destruct (concat _). }
  change (print_rule ru = ("-A " +:+ (r_chain ru +:+ (" " +:+ Join (s :: l) " "))) +:+ nl).
  rewrite <-E, <-print_opts_Join by done. unfold print_rule. by rewrite !string_app_assoc.
Qed.

Lemma Join_free sep w ws : sep ≠ " "%char → Forall (λ s, free sep s = true) (w :: ws) →
  free sep (Join (w :: ws) " ") = true.
Proof.
  intros Hs Hf. apply Join_bytes; [|done]. unfold free. simpl.
  rewrite bool_decide_eq_false_2; [done|]. congruence.
Qed.

(** The options of a rule, all without [sep]. *)
Definition rule_free (sep : ascii) (ru : Rule) : Prop :=
  Forall (λ s, free sep s = true) (rule_words ru).

Lemma rule_free_alt sep ru : sep ≠ "-"%char → sep ≠ "A"%char → sep ≠ "j"%char →
  free sep (r_chain ru) = true → free sep (r_target ru) = true →
  Forall (λ o, free sep o.1 = true ∧ free sep o.2 = true) (r_opts ru) → rule_free sep ru.
Proof.
  intros Hd Ha Hj Hc Ht Ho. unfold rule_free, rule_words.
  assert (free sep "-A" = true ∧ free sep "-j" = true) as [HA HJ].
  { unfold free. simpl. by rewrite !bool_decide_eq_false_2 by done. }
  constructor; [done|]. constructor; [done|]. apply Forall_app. split; [|by repeat constructor].
  induction Ho as [|o opts [H1 H2] _ IH]; csimpl; [constructor|]. by repeat constructor.
Qed.

(** Lines: a text of lines splits into them. *)
Lemma Split_lines lines rest :
  Forall (λ s, free newline s = true) lines →
  Split (concat_strings ((λ s, s +:+ nl) <$> lines) +:+ rest) newline = lines ++ Split rest newline.
Proof.
  induction 1 as [|s lines Hs _ IH]; [done|]. csimpl. rewrite !string_app_assoc.
  change (nl +:+ ?x) with (String newline x). by rewrite Split_app, IH by done.
Qed.

Lemma script_lines r policies rules script :
  script_rules r policies = inr rules → buildScript r policies = inr script →
  Forall (rule_free newline) rules →
  Split script newline =
    ["*filter"; ":" +:+ chain +:+ " -"; ":" +:+ inputChain +:+ " -"]
    ++ (rule_body <$> rules) ++ ["COMMIT"; EmptyString].
Proof.
  unfold buildScript. intros -> [= <-] Hf.
  replace (concat_strings (print_rule <$> rules))
    with (concat_strings ((λ s, s +:+ nl) <$> (rule_body <$> rules))).
  2: { f_equal. rewrite <-list_fmap_compose. apply list_fmap_ext. intros i ru _. simpl.
       by rewrite print_rule_body. }
  change script_header with (concat_strings ((λ s, s +:+ nl) <$>
    ["*filter"; ":" +:+ chain +:+ " -"; ":" +:+ inputChain +:+ " -"])).
  rewrite Split_lines by (by repeat constructor). rewrite Split_lines; [done|].
  apply Forall_fmap. eapply Forall_impl; [exact Hf|]. intros ru Hru. unfold compose, rule_body.
  by apply Join_free.
Qed.

(** ** Reading it back *)

Fixpoint pairs (ws : list string) : option (list (string * string)) :=
  match ws with
  | [] => Some []
  | f :: v :: ws => l ← pairs ws; Some ((f, v) :: l)
  | [_] => None
  end.
Definition parse_words (ws : list string) : option Rule :=
  match ws with
  | a :: c :: ws =>
      if decide (a = "-A") then
        l ← pairs ws;
        match last l with
        | Some (j, target) =>
            if decide (j = "-j") then Some (MkRule c (removelast l) target) else None
        | None => None
        end
      else None
  | _ => None
  end.
(** The rules of a script. *)
Definition parse_script (script : string) : list Rule :=
  omap (λ s, parse_words (Split s " ")) (Split script newline).

Lemma pairs_concat opts : pairs (concat (option_words <$> opts)) = Some opts.
Proof. induction opts as [|[f v] opts IH]; [done|]. csimpl. simpl in IH. by rewrite IH. Qed.
Lemma parse_rule ru : parse_words (rule_words ru) = Some ru.
Proof.
  destruct ru as [c opts t]. unfold rule_words, parse_words. csimpl.
  replace (concat (option_words <$> opts) ++ ["-j"; t])
    with (concat (option_words <$> (opts ++ [("-j", t)]))) by (by rewrite fmap_app, concat_app).
  rewrite pairs_concat. simpl. by rewrite last_snoc, removelast_last.
Qed.
Lemma parse_body ru : rule_free " " ru → parse_words (Split (rule_body ru) " ") = Some ru.
Proof. intros Hf. unfold rule_body. by rewrite Split_Join, parse_rule. Qed.

Lemma parse_script_rules r policies rules script :
  script_rules r policies = inr rules → buildScript r policies = inr script →
  Forall (rule_free newline) rules → Forall (rule_free " ") rules → parse_script script = rules.
Proof.
  intros Hr Hs Hn Hw. unfold parse_script. erewrite script_lines by done.
  rewrite !omap_app. assert (omap (λ s, parse_words (Split s " ")) (rule_body <$> rules) = rules) as ->.
  { clear Hr Hs Hn. induction Hw as [|ru rules Hru _ IH]; [done|]. 
    change (omap ?f (rule_body <$> ru :: rules)) with (omap f (rule_body ru :: (rule_body <$> rules))).
    cbn [omap list_omap]. by rewrite parse_body, IH. }
  replace (omap _ ["*filter"; _; _]) with (@nil Rule) by (vm_compute; reflexivity).
  simpl. by rewrite app_nil_r.
Qed.

(** * The fields of the rules *)

Section fields.
Context (sep : ascii) (Hsep : sep = newline ∨ sep = " "%char).

Lemma literal_free (s : string) :
  free newline s = true → free " " s = true → free sep s = true.
Proof. by destruct Hsep as [-> | ->]. Qed.
Ltac literal := apply literal_free; vm_compute; reflexivity.

Lemma rule_free_sep ru : free sep (r_chain ru) = true → free sep (r_target ru) = true →
  Forall (λ o, free sep o.1 = true ∧ free sep o.2 = true) (r_opts ru) → rule_free sep ru.
Proof. intros. apply rule_free_alt; try done; by destruct Hsep as [-> | ->]. Qed.

Lemma number_free z : free sep (format_int z) = true.
Proof.
  apply format_int_bytes.
  - intros x. destruct Hsep as [-> | ->]; unfold pretty_N_char; repeat case_match; done.
  - by destruct Hsep as [-> | ->].
Qed.
Lemma resolveDest_free r e ds : free sep e = true → resolveDest r e = Some ds →
  Forall (λ d, free sep d = true) ds.
Proof.
  intros He. unfold resolveDest. destruct (ContainsAny e "/"); [intros [= <-]; by repeat constructor|].
  destruct (ParseIP e); [intros [= <-]; by repeat constructor|].
  destruct (rec_lookup r e) as [[|ip ips0]|]; [done| |done]. generalize (ip :: ips0). clear ip ips0.
  intros ips. case_decide; [|done]. intros [= <-].
  apply Forall_forall. intros d (ip' & _ & Hd)%list_elem_of_omap.
  destruct (To4 ip') as [v4|]; [|done]. injection Hd as <-. unfold IP4_String.
  apply Join_bytes; [change (free sep "." = true); literal|]. apply Forall_fmap, Forall_forall. intros z _. apply number_free.
Qed.

Ltac solve_rule :=
  apply rule_free_sep;
  [try literal; try done|try literal; try done|repeat constructor; simpl; try literal; try done].

Context (r : Reconciler) (policies : list EgressPolicy).
Context (Hs : ∀ s, restoreSafe s = true →
  (s ∈ rec_alwaysDeny r
   ∨ ∃ p, p ∈ policies ∧ (s = Bridge p ∨ s ∈ SameBridgeAllow p ∨ s ∈ Allow p
       ∨ (∃ sr, sr ∈ PerSource p ∧ (s = SourceIP sr ∨ s = Dest sr)))) → free sep s = true).

Lemma deny_rule_free cidr ru : cidr ∈ rec_alwaysDeny r → deny_rule cidr = inr ru → rule_free sep ru.
Proof.
  intros Hin. unfold deny_rule. destruct (restoreSafe cidr) eqn:E; [|done]. intros [= <-].
  solve_rule. apply Hs; [done|by left].
Qed.
Lemma policy_rules_free p rus : p ∈ policies → policy_rules r p = inr rus → Forall (rule_free sep) rus.
Proof.
  intros Hp. unfold policy_rules. case_decide; [intros [= <-]; constructor|].
  destruct (restoreSafe (Bridge p)) eqn:Eb; [|done]. simpl.
  assert (free sep (Bridge p) = true) as Hb by (apply Hs; [done|right; exists p; auto]).
  intros (brokers & Hbr & (sources & Hso & (allowed & Hal & [= <-])%sum_bind_inr)%sum_bind_inr)%sum_bind_inr.
  repeat (apply Forall_app; split).
  - apply Forall_concat. eapply mapM_sum_Forall; [exact Hbr|]. intros ip rs Hip. unfold broker_rules.
    destruct (restoreSafe ip) eqn:E; [|done]. intros [= <-].
    assert (free sep ip = true) by (apply Hs; [done|right; exists p; auto]). apply Forall_cons; split; [solve_rule|]. apply Forall_cons; split; [solve_rule|constructor].
  - apply Forall_concat. eapply mapM_sum_Forall; [exact Hso|]. intros sr rs Hsr. unfold source_rules.
    destruct (restoreSafe (SourceIP sr)) eqn:E1; [|done]. destruct (restoreSafe (Dest sr)) eqn:E2; [|done].
    simpl. assert (free sep (SourceIP sr) = true) by (apply Hs; [done|right; exists p; split; [done|do 3 right; eauto]]).
    assert (free sep (Dest sr) = true) as Hd by (apply Hs; [done|right; exists p; split; [done|do 3 right; eauto]]).
    destruct (resolveDest r (Dest sr)) as [ds|] eqn:Er; [|intros [= <-]; constructor]. intros [= <-].
    apply Forall_fmap. eapply Forall_impl; [by eapply resolveDest_free|]. intros d Hfd. simpl. solve_rule.
  - apply Forall_concat. eapply mapM_sum_Forall; [exact Hal|]. intros e rs He. unfold allow_rules.
    destruct (restoreSafe e) eqn:E; [|done]. simpl.
    assert (free sep e = true) by (apply Hs; [done|right; exists p; auto]).
    destruct (resolveDest r e) as [ds|] eqn:Er; [|intros [= <-]; constructor]. intros [= <-].
    apply Forall_fmap. eapply Forall_impl; [by eapply resolveDest_free|]. intros d Hfd. simpl. solve_rule.
  - apply Forall_cons; split; [solve_rule|constructor].
Qed.
Lemma script_rules_free rules : script_rules r policies = inr rules → Forall (rule_free sep) rules.
Proof.
  intros (denies & Hd & (pols & Hp & (ports & Hpt & [= <-])%sum_bind_inr)%sum_bind_inr)%sum_bind_inr.
  apply Forall_app. split.
  { eapply mapM_sum_Forall; [exact Hd|]. intros a b. apply deny_rule_free. }
  apply Forall_app. split.
  { apply Forall_concat. eapply mapM_sum_Forall; [exact Hp|]. intros a b. apply policy_rules_free. }
  constructor; [solve_rule|]. apply Forall_app. split; [|apply Forall_cons; split; [solve_rule|constructor]].
  eapply mapM_sum_Forall; [exact Hpt|]. intros port ru _. unfold port_rule.
  case_decide; [done|]. intros [= <-]. solve_rule. apply number_free.
Qed.
End fields.

(** No entry can smuggle in a command: a newline is refused, so the script is exactly one
    line per rule between its header and its COMMIT. *)
Lemma restoreSafe_newline s : restoreSafe s = true → free newline s = true.
Proof.
  unfold restoreSafe. intros [_ Hc%negb_true_iff]%andb_true_iff. apply not_ContainsAny in Hc.
  eapply all_bytes_impl; [|exact Hc]. intros c. unfold one_of, control_chars. simpl.
  intros Hn%negb_true_iff. by apply orb_false_iff in Hn as [-> _].
Qed.
Lemma script_rules_newline r policies rules :
  script_rules r policies = inr rules → Forall (rule_free newline) rules.
Proof. apply script_rules_free; [by left|]. intros s Hs _. by apply restoreSafe_newline. Qed.

(** * What the firewall decides *)

Section verdict.
(** A packet passes an option of a rule: iptables' own matching. *)
Context {Packet : Type} (test : string → string → Packet → bool).

(** A rule applies when all its options pass (-m only loads a match); the first rule of the
    chain that applies decides (iptables(8)). *)
Definition passes (pk : Packet) (o : string * string) : bool :=
  bool_decide (o.1 = "-m") || test o.1 o.2 pk.
Fixpoint verdict (ch : string) (rules : list Rule) (pk : Packet) : option string :=
  match rules with
  | [] => None
  | ru :: rules =>
      if bool_decide (r_chain ru = ch) && forallb (passes pk) (r_opts ru) then Some (r_target ru)
      else verdict ch rules pk
  end.

(** ** The policy itself *)

Definition always_denied (r : Reconciler) (pk : Packet) : bool :=
  existsb (λ d, test "-d" d pk) (rec_alwaysDeny r).
Definition to_dest (r : Reconciler) (e : string) (pk : Packet) : bool :=
  existsb (λ d, test "-d" d pk) (default [] (resolveDest r e)).
(** A broker of the same bridge, either way; a destination granted to the source; or one
    of the allowlist. *)
Definition granted (r : Reconciler) (p : EgressPolicy) (pk : Packet) : bool :=
  existsb (λ ip, test "-o" (Bridge p) pk && (test "-d" ip pk || test "-s" ip pk)) (SameBridgeAllow p)
  || existsb (λ sr, test "-s" (SourceIP sr) pk && to_dest r (Dest sr) pk) (PerSource p)
  || existsb (λ e, to_dest r e pk) (Allow p).
Definition from_bridge (p : EgressPolicy) (pk : Packet) : bool :=
  negb (bool_decide (Bridge p = EmptyString)) && test "-i" (Bridge p) pk.
(** What leaves a bridge, in words: never an always-denied destination; else what its
    policy grants; else nothing.  Traffic of no known bridge is left to the hook chain. *)
Fixpoint egress_decision (r : Reconciler) (policies : list EgressPolicy) (pk : Packet) : option string :=
  match policies with
  | [] => None
  | p :: policies =>
      if from_bridge p pk then Some (if granted r p pk then "RETURN" else "DROP")
      else egress_decision r policies pk
  end.
Definition input_decision (r : Reconciler) (pk : Packet) : option string :=
  if test "-i" bridgeWildcard pk then
    Some (if test "--ctstate" "ESTABLISHED,RELATED" pk
             || existsb (λ port, test "-p" "tcp" pk && test "--dport" (format_int port) pk)
                  (rec_hostPorts r)
          then "RETURN" else "DROP")
  else None.

(** ** The rules implement it *)

Definition orelse {A} (x y : option A) : option A := match x with Some _ => x | None => y end.

Lemma verdict_app ch a b pk : verdict ch (a ++ b) pk = orelse (verdict ch a pk) (verdict ch b pk).
Proof. induction a as [|ru a IH]; [done|]. simpl. by destruct (_ && _). Qed.
(** A list of rules of one chain and target that stand for its elements. *)
Lemma verdict_each {A} ch t (f : A → error + list Rule) (holds : A → bool) l k pk :
  mapM f l = inr k →
  (∀ a rs, a ∈ l → f a = inr rs → verdict ch rs pk = if holds a then Some t else None) →
  verdict ch (concat k) pk = if existsb holds l then Some t else None.
Proof.
  intros H2%mapM_sum_inr Hf. induction H2 as [|a rs l k Ha H2 IH]; [done|]. simpl.
  rewrite verdict_app, (Hf a rs) by (done || left). destruct (holds a); simpl; [done|].
  apply IH. intros a' rs' Hin. apply Hf. by right.
Qed.
Lemma verdict_dests ch opts t ds pk :
  verdict ch ((λ d, MkRule ch (opts ++ [("-d", d)]) t) <$> ds) pk =
    if forallb (passes pk) opts && existsb (λ d, test "-d" d pk) ds then Some t else None.
Proof.
  induction ds as [|d ds IH]; csimpl; [by rewrite andb_false_r|]. rewrite bool_decide_eq_true_2 by done.
  rewrite forallb_app. simpl. rewrite andb_true_r. unfold passes at 2. simpl.
  destruct (forallb _ _) eqn:Eo; simpl; [|exact IH]. destruct (test "-d" d pk); simpl; [done|exact IH].
Qed.

Lemma policy_rules_verdict r p rules pk : policy_rules r p = inr rules →
  verdict chain rules pk =
    if from_bridge p pk then Some (if granted r p pk then "RETURN" else "DROP") else None.
Proof.
  unfold policy_rules, from_bridge. case_decide as Hb; [intros [= <-]; by rewrite bool_decide_eq_true_2|].
  rewrite bool_decide_eq_false_2 by done. simpl. destruct (restoreSafe (Bridge p)); [|done]. simpl.
  intros (brokers & Hbr & (sources & Hso & (allowed & Hal & [= <-])%sum_bind_inr)%sum_bind_inr)%sum_bind_inr.
  rewrite !verdict_app. unfold granted.
  rewrite (verdict_each chain "RETURN" _ (λ ip, test "-i" (Bridge p) pk
    && (test "-o" (Bridge p) pk && (test "-d" ip pk || test "-s" ip pk))) _ _ _ Hbr).
  2: { intros ip rs _. unfold broker_rules. destruct (restoreSafe ip); [|done]. intros [= <-]. simpl.
       unfold passes. simpl. rewrite !andb_true_r. by destruct (test "-i" _ _), (test "-o" _ _), (test "-d" _ _). }
  rewrite (verdict_each chain "RETURN" _ (λ sr, test "-i" (Bridge p) pk
    && (test "-s" (SourceIP sr) pk && to_dest r (Dest sr) pk)) _ _ _ Hso).
  2: { intros sr rs _. unfold source_rules, to_dest. destruct (_ || _); [done|].
       destruct (resolveDest r (Dest sr)) as [ds|]; intros [= <-]; [|by rewrite !andb_false_r].
       etrans; [apply (verdict_dests chain [("-i", _); ("-s", _)])|]. simpl. unfold passes. simpl.
       by rewrite andb_true_r, andb_assoc. }
  rewrite (verdict_each chain "RETURN" _ (λ e, test "-i" (Bridge p) pk && to_dest r e pk) _ _ _ Hal).
  2: { intros e rs _. unfold allow_rules, to_dest. destruct (negb _); [done|].
       destruct (resolveDest r e) as [ds|]; intros [= <-]; [|by rewrite andb_false_r].
       etrans; [apply (verdict_dests chain [("-i", _)])|]. simpl. unfold passes. simpl. by rewrite andb_true_r. }
  simpl. unfold passes. simpl. rewrite andb_true_r. destruct (test "-i" (Bridge p) pk); simpl.
  - by destruct (existsb _ _), (existsb _ _), (existsb _ _).
  - assert (∀ A (l : list A), existsb (λ _, false) l = false) as He by (intros A l; by induction l).
    by rewrite !He.
Qed.

Lemma deny_verdict r denies pk : mapM deny_rule (rec_alwaysDeny r) = inr denies →
  verdict chain denies pk = if always_denied r pk then Some "DROP" else None.
Proof.
  unfold always_denied. intros H2%mapM_sum_inr. induction H2 as [|d ru l k Hd _ IH]; [done|].
  revert Hd. unfold deny_rule. destruct (restoreSafe d); [|done]. intros [= <-]. simpl.
  unfold passes. simpl. rewrite andb_true_r. by destruct (test "-d" d pk).
Qed.

(** A chain sees only its own rules. *)
Definition all_in (ch : string) : list Rule → Prop := Forall (λ ru, r_chain ru = ch).
Lemma verdict_foreign ch ch' rules pk : ch ≠ ch' → all_in ch' rules → verdict ch rules pk = None.
Proof. intros Hne. induction 1 as [|ru rules Hru _ IH]; [done|]. simpl. by rewrite bool_decide_eq_false_2 by congruence. Qed.

Lemma policy_rules_chain r p rules : policy_rules r p = inr rules → all_in chain rules.
Proof.
  unfold policy_rules. case_decide; [intros [= <-]; constructor|]. destruct (restoreSafe _); [|done]. simpl.
  intros (brokers & Hbr & (sources & Hso & (allowed & Hal & [= <-])%sum_bind_inr)%sum_bind_inr)%sum_bind_inr.
  repeat (apply Forall_app; split); [| | |by repeat constructor].
  - apply Forall_concat. eapply mapM_sum_Forall; [exact Hbr|]. intros ip rs _. unfold broker_rules.
    destruct (restoreSafe _); [|done]. intros [= <-]. by repeat constructor.
  - apply Forall_concat. eapply mapM_sum_Forall; [exact Hso|]. intros sr rs _. unfold source_rules.
    destruct (_ || _); [done|]. destruct (resolveDest _ _); intros [= <-]; [|constructor].
    by apply Forall_fmap, Forall_true.
  - apply Forall_concat. eapply mapM_sum_Forall; [exact Hal|]. intros e rs _. unfold allow_rules.
    destruct (negb _); [done|]. destruct (resolveDest _ _); intros [= <-]; [|constructor].
    by apply Forall_fmap, Forall_true.
Qed.
Lemma port_rules_verdict r ports pk : mapM port_rule (rec_hostPorts r) = inr ports →
  verdict inputChain ports pk =
    if test "-i" bridgeWildcard pk
       && existsb (λ port, test "-p" "tcp" pk && test "--dport" (format_int port) pk) (rec_hostPorts r)
    then Some "RETURN" else None.
Proof.
  intros H2%mapM_sum_inr. induction H2 as [|port ru l k Hp _ IH]; [by rewrite andb_false_r|].
  revert Hp. unfold port_rule. case_decide; [done|]. intros [= <-]. simpl. unfold passes. simpl.
  rewrite andb_true_r, IH. by destruct (test "-i" _ _), (test "-p" _ _), (test "--dport" _ _).
Qed.

Lemma script_rules_verdict r policies rules pk : script_rules r policies = inr rules →
  verdict chain rules pk = (if always_denied r pk then Some "DROP" else egress_decision r policies pk)
  ∧ verdict inputChain rules pk = input_decision r pk.
Proof.
  intros (denies & Hd & (pols & Hp & (ports & Hpt & [= <-])%sum_bind_inr)%sum_bind_inr)%sum_bind_inr.
  assert (all_in chain denies) as Hdc.
  { eapply mapM_sum_Forall; [exact Hd|]. intros c ru _. unfold deny_rule.
    destruct (negb _); [done|]. by intros [= <-]. }
  assert (all_in chain (concat pols)) as Hpc.
  { apply Forall_concat. eapply mapM_sum_Forall; [exact Hp|]. intros p rs _. apply policy_rules_chain. }
  assert (all_in inputChain ports) as Hptc.
  { eapply mapM_sum_Forall; [exact Hpt|]. intros port ru _. unfold port_rule.
    case_decide; [done|]. by intros [= <-]. }
  rewrite !verdict_app. split.
  - rewrite (deny_verdict r) by done. destruct (always_denied r pk); [done|]. simpl.
    assert (verdict chain (ports ++ [MkRule inputChain [("-i", bridgeWildcard)] "DROP"]) pk = None) as Hnone.
    { apply (verdict_foreign _ inputChain); [done|]. apply Forall_app. split; [done|by repeat constructor]. }
    rewrite Hnone. clear -Hp. apply mapM_sum_inr in Hp.
    induction Hp as [|p rs l k Hprs _ IH]; [done|]. simpl. rewrite verdict_app.
    rewrite (policy_rules_verdict r p) by done. by destruct (from_bridge p pk).
  - rewrite (verdict_foreign _ chain denies), (verdict_foreign _ chain (concat pols)) by done. simpl.
    rewrite verdict_app, (port_rules_verdict r) by done. simpl. unfold input_decision, passes. simpl.
    rewrite !andb_true_r. destruct (test "-i" _ _); simpl; [|done].
    by destruct (test "--ctstate" _ _), (existsb _ _).
Qed.
End verdict.

(** * Entries *)

(** What show_egress promises an entry may be: dotted labels of letters, digits and inner
    hyphens, 253 bytes at most. *)
Definition hostname (s : string) : Prop :=
  String.length s ≤ 253 ∧ Forall (label host_alnum host_char 63) (Split s dot).
Definition numeric (s : string) : bool := all_bytes (one_of "0123456789.") s.
Definition no_colon (s : string) : Prop := ContainsAny s ":" = false.
(** An IPv4 address, an IPv4 CIDR block, or a host name that is not all digits. *)
Inductive destination : string → Prop :=
  | dest_ip s ip : ParseIP s = Some ip → length ip = 4 → destination s
  | dest_cidr s ip n : ParseCIDR s = Some (ip, n) → length ip = 4 → destination s
  | dest_host s : hostname s → numeric s = false → destination s.

Lemma host_char_sub c : host_alnum c = true → host_char c = true.
Proof. unfold host_char. by intros ->. Qed.

Lemma Join_snoc ls l : ls ≠ [] → Join (ls ++ [l]) "." = Join ls "." +:+ String dot l.
Proof.
  induction ls as [|x ls IH]; [done|]. intros _. destruct ls as [|y ls]; [done|].
  change (x +:+ "." +:+ Join ((y :: ls) ++ [l]) "." = (x +:+ "." +:+ Join (y :: ls) ".") +:+ String dot l).
  rewrite IH by done. by rewrite !string_app_assoc.
Qed.

(** Labels, each followed by a dot. *)
Definition dotted (ls : list string) : string := concat_strings ((λ l, l +:+ ".") <$> ls).
Lemma dotted_Join ls l : dotted ls +:+ l = Join (ls ++ [l]) ".".
Proof.
  unfold dotted. induction ls as [|x ls IH]; [done|]. csimpl. rewrite !string_app_assoc, IH.
  by destruct ls.
Qed.

Notation host_label := (label host_alnum host_char 63).
Lemma matches_label_dot prev s p' :
  matches (Cat label_re (Lit ".")) (prev, s) p' ↔
  ∃ t, s = t +:+ String dot p'.2 ∧ p'.1 = Some dot ∧ host_label t.
Proof.
  unfold label_re. rewrite matches_cat. setoid_rewrite (matches_label _ _ _ _ _ _ host_char_sub).
  destruct p' as [prev' s']. simpl. setoid_rewrite matches_class. split.
  - intros ([prev1 s1] & (t & Ht1 & Ht2 & Ht) & c & Hs & Hp & Hc%bool_decide_eq_true). simpl in *.
    subst. by exists t.
  - intros (t & -> & -> & Ht). exists (Regexp.after prev t, String dot s'). split; [by exists t|].
    exists dot. simpl. done.
Qed.
Lemma matches_dotted prev s p' :
  matches (Star true (Cat label_re (Lit "."))) (prev, s) p' ↔
  ∃ ls, s = dotted ls +:+ p'.2 ∧ p'.1 = Regexp.after prev (dotted ls) ∧ Forall host_label ls.
Proof.
  split.
  - remember (Star true (Cat label_re (Lit "."))) as r eqn:Er. remember (prev, s) as p eqn:Ep.
    intros Hm. revert prev s Ep Er. induction Hm; intros prev0 s0 Ep Er; try discriminate.
    + exists []. subst p. simpl. split; [done|]. split; [done|constructor].
    + injection Er as -> ->. clear IHHm1. subst p1. apply matches_label_dot in Hm1 as (t & Ht & Hp2 & Hl).
      destruct p2 as [prev2 s2]. simpl in Ht, Hp2. subst.
      destruct (IHHm2 _ _ eq_refl eq_refl) as (ls & Hls & Hp & Hf). exists (t :: ls). unfold dotted. csimpl.
      fold (dotted ls). rewrite !string_app_assoc, Hls. split; [done|]. rewrite !after_app. simpl.
      split; [done|by constructor].
  - intros (ls & -> & Hp & Hf). destruct p' as [prev' s']. simpl in *. subst prev'.
    revert prev. induction Hf as [|t ls Ht _ IH]; intros prev; [apply m_stop|].
    unfold dotted. csimpl. fold (dotted ls). rewrite !string_app_assoc, !after_app. simpl.
    apply m_more with (Some dot, dotted ls +:+ s'); [by apply matches_label_dot; exists t| |apply IH].
    simpl. rewrite !string_length_app. simpl. lia.
Qed.

Lemma label_free t : host_label t → free dot t = true.
Proof.
  intros (_ & Hf & _). eapply all_bytes_impl; [|exact Hf]. intros c Hc. apply negb_true_iff, bool_decide_eq_false.
  by intros ->.
Qed.
Lemma hostnameRe_spec s : MatchString hostnameRe s = true ↔ Forall host_label (Split s dot).
Proof.
  unfold hostnameRe. rewrite MatchString_anchored. setoid_rewrite matches_cat. setoid_rewrite matches_cat.
  setoid_rewrite matches_end. split.
  - intros (p & [prev1 s1] & (ls & -> & _ & Hls)%matches_dotted & p2 & Hm & -> & He).
    apply matches_label in Hm as (t & Hs & _ & Ht); [|apply host_char_sub]. destruct p2 as [prev2 s2].
    simpl in *. subst. rewrite string_app_nil_r, dotted_Join.
    assert (Forall host_label (ls ++ [t])) as Hall by (apply Forall_app; split; [done|by apply Forall_singleton]).
    change "." with (String dot EmptyString). rewrite Split_Join; [done|by destruct ls|].
    eapply Forall_impl; [exact Hall|]. intros l. apply label_free.
  - intros Hall. pose proof (Join_Split s dot) as E.
    destruct (exists_last (Split_nonempty s dot)) as (ls0 & l0 & E0). rewrite E0 in *. clear E0.
    apply Forall_app in Hall as [Hls [Hl _]%Forall_cons]. rewrite <-E.
    change (String dot EmptyString) with ".". rewrite <-dotted_Join.
    exists (Regexp.after None (dotted ls0 +:+ l0), EmptyString), (Regexp.after None (dotted ls0), l0).
    split; [apply matches_dotted; eauto|]. exists (Regexp.after None (dotted ls0 +:+ l0), EmptyString).
    split; [|done]. apply matches_label; [apply host_char_sub|]. exists l0. simpl.
    by rewrite string_app_nil_r, after_app.
Qed.

Lemma ContainsAny_one s c : ContainsAny s (String c EmptyString) = negb (free c s).
Proof.
  induction s as [|d s IH]; [done|]. simpl. rewrite IH. unfold one_of. simpl. rewrite orb_false_r.
  change (free c (String d s)) with (negb (bool_decide (d = c)) && free c s).
  by destruct (bool_decide (d = c)), (free c s).
Qed.
(** A text of a class of bytes has none of [chars], when the class has none. *)
Lemma class_ContainsAny f chars s :
  all_bytes (λ c, negb (f c)) chars = true → all_bytes f s = true → ContainsAny s chars = false.
Proof.
  intros Hc Hs. apply not_ContainsAny. eapply all_bytes_impl; [|exact Hs]. intros c Hf. simpl.
  clear -Hc Hf. unfold one_of. induction chars as [|d chars IH]; [done|]. simpl in Hc |- *.
  apply andb_true_iff in Hc as [Hd Hc]. rewrite negb_orb, IH by done. rewrite andb_true_r.
  apply negb_true_iff, bool_decide_eq_false. intros ->. by rewrite Hf in Hd.
Qed.

(** The bytes of a destination. *)
Definition dest_char (c : ascii) : bool := host_char c || one_of "./" c.
Lemma ipv4_dest c : ipv4_char c = true → dest_char c = true.
Proof.
  unfold ipv4_char, dest_char, host_char, host_alnum. destruct (is_digit c); [by rewrite !orb_true_r|].
  simpl. unfold one_of. simpl. intros Hc. rewrite orb_false_r in Hc. rewrite Hc. by rewrite !orb_true_r.
Qed.

Lemma Cut_spec s sep a b : Cut s sep = (a, Some b) → s = a +:+ String sep b ∧ free sep a = true.
Proof.
  revert a b. induction s as [|c s IH]; intros a b; [done|]. simpl. case_decide as Hc.
  - intros [= <- <-]. by subst.
  - destruct (Cut s sep) as [a' b'] eqn:E. intros [= <- ->]. destruct (IH _ _ eq_refl) as [-> Hf].
    split; [done|]. change (negb (bool_decide (c = sep)) && free sep a' = true).
    by rewrite bool_decide_eq_false_2, Hf.
Qed.
Lemma Cut_None s sep a : Cut s sep = (a, None) → free sep s = true.
Proof.
  revert a. induction s as [|c s IH]; intros a; [done|]. simpl. case_decide as Hc; [done|].
  destruct (Cut s sep) as [a' b'] eqn:E. intros [= <- ->].
  change (negb (bool_decide (c = sep)) && free sep s = true).
  by rewrite bool_decide_eq_false_2, (IH a').
Qed.
Lemma dtoi_digits s n b m : dtoi s n b = Some m → all_bytes is_digit s = true.
Proof.
  revert n b. induction s as [|c s IH]; intros n b; [done|]. simpl. destruct (is_digit c); [|done].
  case_decide; [done|]. apply IH.
Qed.

(** Without a colon, what parses is an IPv4 address. *)
Lemma ParseIP_v4 s ip : no_colon s → ParseIP s = Some ip → length ip = 4 ∧ all_bytes ipv4_char s = true.
Proof.
  intros Hc. unfold ParseIP, ParseAddr. destruct (addr_kind s) as [c|] eqn:Ek; [|done].
  destruct (decide (c = dot)) as [->|Hd].
  - destruct (parseIPv4 s) as [v|] eqn:E; [|done]. simpl. intros [= <-].
    split; [by eapply ipv4_fields_length, E; simpl; lia|by eapply ipv4_fields_chars].
  - destruct (decide (c = colon)) as [->|]; [|done]. exfalso. revert Hc. unfold no_colon.
    change ":" with (String colon EmptyString). rewrite ContainsAny_one. clear Hd.
    induction s as [|d s IH]; [done|]. simpl in Ek. destruct (one_of _ d).
    + injection Ek as ->. by vm_compute.
    + intros Hf%negb_false_iff. apply andb_true_iff in Hf as [_ Hf]. apply IH; [done|].
      by apply negb_false_iff.
Qed.
Lemma expand_ellipsis_length ip e r : expand_ellipsis ip e = Some r → 16 ≤ length r.
Proof.
  unfold expand_ellipsis. case_decide; [|case_decide; [done|intros [= <-]; lia]].
  destruct e as [e|]; [|done]. intros [= <-]. rewrite !length_app, length_replicate.
  pose proof (f_equal length (take_drop e ip)) as E. rewrite length_app in E. lia.
Qed.
Lemma parseIPv6_length s ip z : parseIPv6 s = Some (ip, z) → 16 ≤ length ip.
Proof.
  assert (∀ a r, parseIPv6_groups a = Some r → 16 ≤ length r) as Hg.
  { intros a r. unfold parseIPv6_groups. destruct (match a with EmptyString => _ | _ => _ end) as [a' start].
    case_decide; [intros [= <-]; simpl; lia|].
    destruct (ipv6_groups 8 a' [] start) as [[[rest ip'] e]|]; [|done]. simpl.
    case_decide; [|done]. apply expand_ellipsis_length. }
  unfold parseIPv6. destruct (Cut s "%") as [a [zone|]].
  - case_decide; [done|]. destruct (parseIPv6_groups a) eqn:E; [|done]. intros [= <- _]. by eapply Hg.
  - destruct (parseIPv6_groups a) eqn:E; [|done]. intros [= <- _]. by eapply Hg.
Qed.
Lemma ParseIP_4_chars s ip : ParseIP s = Some ip → length ip = 4 → all_bytes ipv4_char s = true.
Proof.
  unfold ParseIP, ParseAddr. destruct (addr_kind s) as [c|]; [|done]. case_decide.
  - destruct (parseIPv4 s) as [v|] eqn:E; [|done]. intros _ _. by eapply ipv4_fields_chars.
  - case_decide; [|done]. destruct (parseIPv6 s) as [[v z]|] eqn:E; [|done].
    apply parseIPv6_length in E. case_decide; [|done]. intros [= <-]. lia.
Qed.
Lemma ParseCIDR_4_chars s ip n : ParseCIDR s = Some (ip, n) → length ip = 4 →
  ∃ a m, s = a +:+ String "/" m ∧ all_bytes ipv4_char a = true ∧ all_bytes is_digit m = true.
Proof.
  unfold ParseCIDR. destruct (Cut s "/") as [a [m|]] eqn:E; [|done]. apply Cut_spec in E as [-> _].
  destruct (ParseIP a) as [v|] eqn:Ea; [|done]. simpl. destruct (dtoi m 0 false) as [k|] eqn:Em; [|done]. simpl.
  case_decide; [done|]. intros [= <- _] H4. exists a, m. split; [done|].
  split; [by eapply ParseIP_4_chars|by eapply dtoi_digits].
Qed.

Lemma destination_chars s : destination s → all_bytes dest_char s = true.
Proof.
  intros [s' ip Hi H4|s' ip n Hi H4|s' [_ Hh] _].
  - eapply all_bytes_impl; [apply ipv4_dest|by eapply ParseIP_4_chars].
  - destruct (ParseCIDR_4_chars _ _ _ Hi H4) as (a & m & -> & Ha & Hm). rewrite all_bytes_app. simpl.
    rewrite (all_bytes_impl _ _ a ipv4_dest Ha). simpl. eapply all_bytes_impl; [|exact Hm].
    intros c Hd. unfold dest_char, host_char, host_alnum. by rewrite Hd, !orb_true_r.
  - rewrite <-(Join_Split s' dot). apply Join_bytes; [done|]. eapply Forall_impl; [exact Hh|].
    intros l (_ & Hl & _). eapply all_bytes_impl; [|exact Hl]. intros c. unfold dest_char. by intros ->.
Qed.
Lemma destination_nonempty s : destination s → s ≠ EmptyString.
Proof.
  intros [s' ip Hi _|s' ip n Hi _|s' [_ Hh] _] ->; [done|done|]. simpl in Hh.
  apply Forall_cons in Hh as [(Hl & _) _]. simpl in Hl. lia.
Qed.
Lemma destination_safe s : destination s →
  restoreSafe s = true ∧ ContainsAny s " " = false ∧ no_colon s.
Proof.
  intros Hd. pose proof (destination_chars s Hd) as Hc. unfold restoreSafe, no_colon.
  rewrite bool_decide_eq_false_2 by (by apply destination_nonempty). simpl.
  rewrite (class_ContainsAny dest_char control_chars) by done. simpl.
  split; [done|]. split; apply (class_ContainsAny dest_char); done.
Qed.

Lemma host_not_ip s : hostname s → numeric s = false → ParseIP s = None ∧ ContainsAny s "/" = false.
Proof.
  intros Hh Hn. destruct (destination_safe s) as (_ & _ & Hc); [by apply dest_host|]. split.
  - destruct (ParseIP s) as [ip|] eqn:E; [|done]. apply ParseIP_v4 in E as [_ E]; [|done]. exfalso.
    revert Hn. unfold numeric. rewrite (all_bytes_impl ipv4_char); [done| |done]. intros c.
    unfold ipv4_char, one_of, is_digit, in_range. intros [Hd%bool_decide_eq_true|Hd]%orb_true_iff.
    + rewrite <-(ascii_nat_embedding c). set (n := nat_of_ascii c) in *. clearbody n.
      do 48 (destruct n as [|n]; [lia|]). do 10 (destruct n as [|n]; [done|]). lia.
    + simpl in Hd |- *. rewrite orb_false_r in Hd. rewrite Hd. by rewrite !orb_true_r.
  - destruct Hh as [_ Hh]. rewrite <-(Join_Split s dot).
    apply (class_ContainsAny (λ c, host_char c || one_of "." c)); [done|].
    apply Join_bytes; [done|]. eapply Forall_impl; [exact Hh|].
    intros l (_ & Hl & _). eapply all_bytes_impl; [|exact Hl]. intros c. by intros ->.
Qed.
Lemma ip_no_slash s ip : ParseIP s = Some ip → length ip = 4 → ContainsAny s "/" = false.
Proof. intros. apply (class_ContainsAny ipv4_char); [done|]. by eapply ParseIP_4_chars. Qed.
Lemma cidr_slash s r : ParseCIDR s = Some r → ContainsAny s "/" = true.
Proof.
  unfold ParseCIDR. destruct (Cut s "/") as [a [m|]] eqn:E; [|done]. intros _.
  apply Cut_spec in E as [-> _]. change "/" with (String "/" EmptyString). rewrite ContainsAny_one.
  apply negb_true_iff. unfold free. rewrite all_bytes_app. simpl. by rewrite andb_false_r.
Qed.
Lemma To4_length ip : length ip = 4 → To4 ip = Some ip.
Proof. intros H4. unfold To4. by rewrite decide_True. Qed.

Lemma validated_entry entry : ValidateAllowEntry entry = None ↔ destination (TrimSpace entry).
Proof.
  unfold ValidateAllowEntry. cbv zeta. set (s := TrimSpace entry). clearbody s. clear entry. split.
  - case_decide as Hne; [done|]. destruct (restoreSafe s) eqn:Esafe; [|done]. simpl.
    destruct (ContainsAny s (String " " _)); [done|].
    destruct (ContainsAny s ":") eqn:Ec; [done|]. destruct (ContainsAny s "/") eqn:Es.
    + destruct (ParseCIDR s) as [[ip n]|] eqn:E; [|done]. case_decide as H4; [done|]. intros _.
      eapply dest_cidr; [exact E|]. revert E. unfold ParseCIDR.
      destruct (Cut s "/") as [a [m|]] eqn:Ecut; [|done].
      destruct (ParseIP a) as [v|] eqn:Ea; [|done]. simpl. destruct (dtoi m 0 false); [|done]. simpl.
      case_decide; [done|]. intros [= <- _]. eapply (ParseIP_v4 a); [|done].
      apply Cut_spec in Ecut as [-> _]. unfold no_colon in *. change ":" with (String colon EmptyString) in *.
      rewrite ContainsAny_one in *. apply negb_false_iff in Ec. apply negb_false_iff.
      unfold free in *. rewrite all_bytes_app in Ec. by apply andb_true_iff in Ec as [-> _].
    + destruct (ParseIP s) as [ip|] eqn:E.
      * intros _. eapply dest_ip; [exact E|]. by apply (ParseIP_v4 s).
      * fold (numeric s). destruct (numeric s) eqn:En; [done|].
        destruct (MatchString hostnameRe s) eqn:Em; [|done]. simpl. case_bool_decide; [done|]. intros _.
        apply dest_host; [|done]. split; [lia|by apply hostnameRe_spec].
  - intros Hd. pose proof (destination_safe s Hd) as (Hs & Hsp & Hc).
    rewrite decide_False by (by apply destination_nonempty). rewrite Hs. simpl.
    rewrite (class_ContainsAny dest_char) by (done || by apply destination_chars). rewrite Hc.
    destruct Hd as [s ip Hi H4|s ip n Hi H4|s Hh Hn].
    + rewrite (ip_no_slash s ip), Hi, To4_length by done. by rewrite decide_False.
    + rewrite (cidr_slash s (ip, n)), Hi, To4_length by done. by rewrite decide_False.
    + destruct (host_not_ip s Hh Hn) as [-> ->]. fold (numeric s). rewrite Hn.
      rewrite (proj2 (hostnameRe_spec s)) by apply Hh. simpl.
      by rewrite bool_decide_eq_false_2 by (destruct Hh; lia).
Qed.

(** The check of an allowlist entry accepts exactly what its message says: after
    trimming, an IPv4 address, an IPv4 CIDR block, or a host name, dotted labels of at most
    63 letters, digits and inner hyphens, 253 bytes in all, that is not made of digits and
    dots only; and such an entry is one plain word, so it cannot break a line of the
    firewall script or add a word to it. *)
Theorem ValidateAllowEntry_exact (entry : string) :
  (ValidateAllowEntry entry = None ↔ destination (TrimSpace entry))
  ∧ (ValidateAllowEntry entry = None →
     restoreSafe (TrimSpace entry) = true ∧ ContainsAny (TrimSpace entry) " " = false).
Proof.
  split; [apply validated_entry|]. intros Hd%validated_entry. by apply destination_safe in Hd as (? & ? & _).
Qed.
Lemma ValidateAllowEntry_exact_witness :
  ValidateAllowEntry " api.example.com" = None ∧ ValidateAllowEntry "10.0.0.0/8" = None
  ∧ ValidateAllowEntry "300.1.1.1" ≠ None ∧ ValidateAllowEntry "api.example.com:443" ≠ None
  ∧ restoreSafe (TrimSpace " api.example.com") = true
  ∧ ContainsAny (TrimSpace " api.example.com") " " = false.
Proof.
  split; [vm_compute; reflexivity|]. split; [vm_compute; reflexivity|].
  split; [vm_compute; congruence|]. split; [vm_compute; congruence|].
  apply (proj2 (ValidateAllowEntry_exact " api.example.com")). vm_compute. reflexivity.
Defined.

(** What the policies are made of, without blanks. *)
Definition plain (s : string) : Prop := free " " s = true.
Record plain_inputs (r : Reconciler) (policies : list EgressPolicy) : Prop := MkPlain {
  plain_denies : Forall plain (rec_alwaysDeny r);
  plain_policies : Forall (λ p, plain (Bridge p) ∧ Forall plain (SameBridgeAllow p)
    ∧ Forall plain (Allow p)
    ∧ Forall (λ sr, plain (SourceIP sr) ∧ plain (Dest sr)) (PerSource p)) policies }.
Lemma script_rules_blank r policies rules :
  plain_inputs r policies → script_rules r policies = inr rules → Forall (rule_free " ") rules.
Proof.
  intros [Hd Hp]. apply script_rules_free; [by right|]. intros s _ [Hs|(p & Hin & Hs)].
  - by eapply Forall_forall in Hd.
  - rewrite Forall_forall in Hp. destruct (Hp p Hin) as (Hb & Hbr & Ha & Hso).
    destruct Hs as [->|[Hs|[Hs|(sr & Hsr & Hs)]]]; [done|by eapply Forall_forall in Hbr
      |by eapply Forall_forall in Ha|].
    eapply Forall_forall in Hso; [|exact Hsr]. destruct Hs as [->| ->]; apply Hso.
Qed.

(** Nothing in a policy, however it is spelled, becomes a firewall command of its
    own: whenever a script is built at all, it is line by line the table's header, the two
    chains it replaces, one append to one of these chains per rule, and the commit. *)
Theorem no_command_injection (r : Reconciler) (policies : list EgressPolicy) (script : string)
    (Hb : buildScript r policies = inr script) :
  ∃ rules, script_rules r policies = inr rules
    ∧ Split script newline =
        ["*filter"; ":" +:+ chain +:+ " -"; ":" +:+ inputChain +:+ " -"]
        ++ (rule_body <$> rules) ++ ["COMMIT"; EmptyString]
    ∧ Forall (λ ru, r_chain ru = chain ∨ r_chain ru = inputChain) rules.
Proof.
  pose proof Hb as (rules & Hr & _)%sum_bind_inr. exists rules. split; [done|].
  split; [eapply script_lines; [done..|by eapply script_rules_newline]|].
  clear Hb. revert Hr.
  intros (denies & Hd & (pols & Hp & (ports & Hpt & [= <-])%sum_bind_inr)%sum_bind_inr)%sum_bind_inr.
  apply Forall_app. split; [|apply Forall_app; split; [|apply Forall_cons; split; [|apply Forall_app; split]]].
  - eapply mapM_sum_Forall; [exact Hd|]. intros c ru _. unfold deny_rule.
    destruct (negb _); [done|]. intros [= <-]. by left.
  - apply Forall_concat. eapply mapM_sum_Forall; [exact Hp|]. intros p rs _ Hrs%policy_rules_chain.
    eapply Forall_impl; [exact Hrs|]. by left.
  - by right.
  - eapply mapM_sum_Forall; [exact Hpt|]. intros port ru _. unfold port_rule.
    case_decide; [done|]. intros [= <-]. by right.
  - apply Forall_cons; split; [by right|constructor].
Qed.

(** A hall on one bridge whose policy allows one block and grants one workload a host. *)
Definition Resolver1 : string → option (list IP) := λ host,
  if decide (host = "api.example.com") then Some [[192; 0; 2; 7]%Z] else None.
Definition Reconciler1 : Reconciler := AllowHostPorts (Egress_New Resolver1 ["10.9.0.0/16"]) [80; 443]%Z.
Definition Policies1 : list EgressPolicy :=
  [MkEgressPolicy "br-ops" ["10.20.0.0/16"; "gone.example.com"] ["172.18.0.2"]
     [MkSourceRule "172.18.0.5" "api.example.com"]].
Lemma no_command_injection_witness :
  buildScript Reconciler1 [MkEgressPolicy "br-ops" [String newline "-F"] [] []]
    = inl (ErrMsg ("egress: unsafe allowlist entry " +:+ quoted (String newline "-F") +:+ " for bridge br-ops"))
  ∧ ∃ script rules, buildScript Reconciler1 Policies1 = inr script
    ∧ script_rules Reconciler1 Policies1 = inr rules ∧ length rules = 11
    ∧ Split script newline =
        ["*filter"; ":" +:+ chain +:+ " -"; ":" +:+ inputChain +:+ " -"]
        ++ (rule_body <$> rules) ++ ["COMMIT"; EmptyString].
Proof.
  split; [vm_compute; reflexivity|].
  destruct (buildScript Reconciler1 Policies1) as [e|script] eqn:E; [vm_compute in E; discriminate|].
  destruct (no_command_injection Reconciler1 Policies1 script E) as (rules & Hr & Hs & _).
  exists script, rules. split; [reflexivity|]. split; [exact Hr|]. split; [|exact Hs].
  vm_compute in Hr. injection Hr as <-. reflexivity.
Defined.

(** C38: the script is the policy.  However iptables tests an option of a rule on a packet,
    what its two chains decide, first matching rule first, is exactly the policy: a packet
    to an always-denied destination is dropped, whoever sends it; one leaving a beamhall's
    bridge passes if that hall's policy grants it (a broker on the bridge, a destination
    granted to this source, an allowlisted destination) and is dropped if not; and of what
    containers send to the host itself only replies and the gateway's ports pass. *)
Theorem script_is_the_policy {Packet : Type} (test : string → string → Packet → bool)
    (r : Reconciler) (policies : list EgressPolicy) (script : string) (pk : Packet)
    (Hb : buildScript r policies = inr script) (Hplain : plain_inputs r policies) :
  verdict test chain (parse_script script) pk =
    (if always_denied test r pk then Some "DROP" else egress_decision test r policies pk)
  ∧ verdict test inputChain (parse_script script) pk = input_decision test r pk.
Proof.
  pose proof Hb as (rules & Hr & _)%sum_bind_inr. rewrite (parse_script_rules r policies rules) by
    (done || by eapply script_rules_newline || by eapply script_rules_blank).
  by apply (script_rules_verdict test r policies).
Qed.

(** Packets as the strings their options are tested against. *)
Definition TestPacket := list (string * string).
Definition test_packet (flag value : string) (pk : TestPacket) : bool :=
  bool_decide ((flag, value) ∈ pk).
Lemma script_is_the_policy_witness :
  ∃ script, buildScript Reconciler1 Policies1 = inr script
    ∧ plain_inputs Reconciler1 Policies1
    ∧ verdict test_packet chain (parse_script script)
        [("-i", "br-ops"); ("-s", "172.18.0.5"); ("-d", "192.0.2.7")] = Some "RETURN"
    ∧ verdict test_packet chain (parse_script script)
        [("-i", "br-ops"); ("-s", "172.18.0.6"); ("-d", "192.0.2.7")] = Some "DROP"
    ∧ verdict test_packet inputChain (parse_script script)
        [("-i", bridgeWildcard); ("-p", "tcp"); ("--dport", "22")] = Some "DROP".
Proof.
  destruct (buildScript Reconciler1 Policies1) as [e|script] eqn:E; [vm_compute in E; discriminate|].
  assert (plain_inputs Reconciler1 Policies1) as Hp.
  { split; repeat constructor. }
  pose proof (λ pk, script_is_the_policy test_packet Reconciler1 Policies1 script pk E Hp) as Hv.
  exists script. split; [reflexivity|]. split; [exact Hp|].
  split; [|split]; [rewrite (proj1 (Hv _))|rewrite (proj1 (Hv _))|rewrite (proj2 (Hv _))]; vm_compute; reflexivity.
Defined.
