(* ===== verification/EgressReconcile.v ===== *)
(** The reconciliation of the firewall against what iptables(8) promises: a run that
    succeeds has the two chains hooked once and exactly the script's rules in them, a run
    that fails has touched neither, and a second run changes nothing. *)
From S2P Require Import Prelude Regexp GoStrings GoNet Domain Outside Egress EgressProofs.

(** What the documentation of iptables and iptables-restore says of the commands used, and
    that modprobe and the kernel's setting do not touch the rules: a table of chains, a
    rule being its words after the chain's name. *)
Class FirewallLaws (X : Type) `{!HostTools X} := {
  chains : X → gmap string (list (list string));
  List_tells c x : let '(res, x') := host_run "iptables" ["-w"; "-n"; "-L"; c] EmptyString x in
    chains x' = chains x ∧ (is_inl res = false ↔ is_Some (chains x !! c));
  New_creates c x : match host_run "iptables" ["-w"; "-N"; c] EmptyString x with
    | (inr _, x') => chains x !! c = None ∧ chains x' = <[c := []]> (chains x)
    | (inl _, x') => chains x' = chains x
    end;
  Check_tells c rule x : let '(res, x') := host_run "iptables" ("-w" :: "-C" :: c :: rule) EmptyString x in
    chains x' = chains x ∧ (is_inl res = false ↔ ∃ rs, chains x !! c = Some rs ∧ rule ∈ rs);
  Insert_inserts c rule x : match host_run "iptables" ("-w" :: "-I" :: c :: "1" :: rule) EmptyString x with
    | (inr _, x') => ∃ rs, chains x !! c = Some rs ∧ chains x' = <[c := rule :: rs]> (chains x)
    | (inl _, x') => chains x' = chains x
    end;
  Restore_replaces script x : match host_run "iptables-restore" ["-w"; "--noflush"] script x with
    | (inr _, x') => ∀ c, chains x' !! c =
        if decide (c = chain ∨ c = inputChain) then
          Some ((λ ru, concat (option_words <$> r_opts ru) ++ ["-j"; r_target ru])
                  <$> filter (λ ru, r_chain ru = c) (parse_script script))
        else chains x !! c
    | (inl _, x') => chains x' = chains x
    end;
  Modprobe_keeps args x : chains (host_run "modprobe" args EmptyString x).2 = chains x;
  Read_keeps f x : chains (host_read f x).2 = chains x;
  Write_keeps f s x : chains (host_write f s x).2 = chains x }.

Section reconcile.
Context {X : Type} `{!HostTools X, !FirewallLaws X}.
Context (r : Reconciler) (Hbin : rec_bin r = "iptables") (Hres : rec_restoreBin r = "iptables-restore").
Implicit Types (x : X) (Q : error + () → X → Prop).

Definition jump (to : string) : list string := ["-j"; to].
(** The rules a script gives a chain. *)
Definition rules_of (script ch : string) : list (list string) :=
  (λ ru, concat (option_words <$> r_opts ru) ++ ["-j"; r_target ru])
    <$> filter (λ ru, r_chain ru = ch) (parse_script script).

(** A chain keeps its rules, but that a hook chain may have gained the missing jump in
    front; a chain that was not there may have been created. *)
Definition hooks : list (string * string) := [(hookChain, chain); (inputHookChain, inputChain)].
Definition hooked_at (c : string) (before now : option (list (list string))) : Prop :=
  match before with
  | Some rs =>
      now = Some rs
      ∨ ∃ to, (c, to) ∈ hooks ∧ jump to ∉ rs ∧ now = Some (jump to :: rs)
  | None =>
      now = None
      ∨ c ∈ [chain; inputChain; hookChain] ∧ (now = Some [] ∨ c = hookChain ∧ now = Some [jump chain])
  end.
Definition hooked (x x' : X) : Prop := ∀ c, hooked_at c (chains x !! c) (chains x' !! c).

Lemma hooks_functional c to to' : (c, to) ∈ hooks → (c, to') ∈ hooks → to = to'.
Proof.
  unfold hooks. rewrite !elem_of_cons, !elem_of_nil.
  intros [[= -> ->]|[[= -> ->]|[]]] [E|[E|[]]]; by injection E.
Qed.
Lemma hooked_at_trans c a b d : hooked_at c a b → hooked_at c b d → hooked_at c a d.
Proof.
  unfold hooked_at. destruct a as [rs|].
  - intros [->|(to & Hin & Hno & ->)]; [done|]. intros [->|(to' & Hin' & Hno' & ->)]; [by right; eauto|].
    rewrite (hooks_functional c to' to) in Hno' by done. by destruct Hno'; left.
  - intros [->|(Hin & [->|[-> ->]])]; [done| |].
    + intros [->|(to & Hto & _ & ->)]; [by right; eauto|]. right. split; [done|]. right.
      unfold hooks in Hto. rewrite !elem_of_cons, !elem_of_nil in Hto.
      destruct Hto as [[= -> ->]|[[= -> ->]|[]]]; [done|]. exfalso. revert Hin.
      rewrite !elem_of_cons, !elem_of_nil. by intros [[=]|[[=]|[[=]|[]]]].
    + intros [->|(to & Hto & Hno & ->)]; [by right; eauto|].
      rewrite (hooks_functional hookChain to chain) in Hno by (done || left). by destruct Hno; left.
Qed.
#[export] Instance hooked_PreOrder : PreOrder hooked.
Proof.
  split.
  - intros x c. unfold hooked_at. by destruct (chains x !! c); left.
  - intros x y z Hxy Hyz c. by eapply hooked_at_trans.
Qed.
Lemma hooked_same x x' : chains x' = chains x → hooked x x'.
Proof. intros E c. unfold hooked_at. rewrite E. by destruct (chains x !! c); left. Qed.

Lemma wp_on_host {A} (f : ext X A) (Q : error + A → X → Prop) x :
  match f x with (inl e, x') => Q (inl (ErrExternal e)) x' | (inr a, x') => Q (inr a) x' end →
  wp (on_host f) Q x.
Proof. unfold wp, on_host. by destruct (f x) as [[e|a] x']. Qed.
Lemma wp_ipt args Q x :
  match host_run "iptables" ("-w" :: args) EmptyString x with
  | (inl e, x') => ∀ e', Q (inl e') x' | (inr a, x') => Q (inr a) x'
  end → wp (ipt r args) Q x.
Proof.
  intros Hq. unfold ipt. apply wp_map_error, wp_on_host. rewrite Hbin.
  by destruct (host_run "iptables" _ _ x) as [[e|[]] x'].
Qed.
Lemma wp_succeeds args (Q : error + bool → X → Prop) x :
  (let '(res, x') := host_run "iptables" ("-w" :: args) EmptyString x in Q (inr (negb (is_inl res))) x') →
  wp (succeeds (ipt r args)) Q x.
Proof.
  intros Hq. apply wp_bind, wp_attempt, wp_ipt.
  by destruct (host_run "iptables" _ _ x) as [[e|[]] x']; [intros e'|]; apply wp_ret.
Qed.

Lemma wp_ensureBridgeNetfilter Q x :
  (∀ res x', chains x' = chains x → Q res x') → wp ensureBridgeNetfilter Q x.
Proof.
  intros HQ. unfold ensureBridgeNetfilter. apply wp_bind, wp_attempt, wp_on_host.
  pose proof (Read_keeps bridgeNFSysctl x) as Hr.
  assert (∀ x', chains x' = chains x → wp (
    map_error (ErrWrap "egress: load br_netfilter (required for intra-bridge policy): ")
      (on_host (host_run "modprobe" ["br_netfilter"] EmptyString));;
    map_error (ErrWrap "egress: enable bridge-nf-call-iptables (required for intra-bridge policy): ")
      (on_host (host_write bridgeNFSysctl ("1" +:+ nl)))) Q x') as Hset.
  { intros x' E. apply wp_bind, wp_map_error, wp_on_host.
    pose proof (Modprobe_keeps ["br_netfilter"] x') as Hm.
    destruct (host_run "modprobe" _ _ x') as [[e|[]] x2]; simpl in Hm; [apply HQ; congruence|].
    apply wp_map_error, wp_on_host. pose proof (Write_keeps bridgeNFSysctl ("1" +:+ nl) x2) as Hw.
    destruct (host_write _ _ x2) as [[e|[]] x3]; simpl in Hw; apply HQ; congruence. }
  destruct (host_read bridgeNFSysctl x) as [[e|b] x1]; simpl in Hr.
  - apply wp_bind, wp_ret. by apply Hset.
  - apply wp_bind. case_decide; apply wp_ret; [by apply wp_ret, HQ|by apply Hset].
Qed.

(** The table a step leaves: nothing changed if all is there already. *)
Definition settles (there : X → Prop) (x : X) (res : error + ()) (x' : X) : Prop :=
  hooked x x' ∧ (there x → chains x' = chains x) ∧ (is_inl res = false → there x').
Definition chain_there (c : string) (x : X) : Prop := is_Some (chains x !! c).
Definition jump_there (from to : string) (x : X) : Prop :=
  ∃ rs, chains x !! from = Some rs ∧ jump to ∈ rs.

Lemma ensureChain_settles c x : c ∈ [chain; inputChain; hookChain] →
  wp (ensureChain r c) (settles (chain_there c) x) x.
Proof.
  intros Hc. unfold ensureChain. apply wp_bind, wp_succeeds.
  pose proof (List_tells c x) as Hl. destruct (host_run _ _ _ x) as [res x1]. destruct Hl as [E Hl].
  destruct res as [e|[]]; simpl.
  - assert (chains x !! c = None) as Hn.
    { destruct (chains x !! c) eqn:Ec; [|done]. by destruct Hl as [_ Hl]; discriminate Hl. }
    apply wp_map_error, wp_ipt. pose proof (New_creates c x1) as Hnew.
    destruct (host_run _ _ _ x1) as [[e'|[]] x2].
    + intros e2. split; [by apply hooked_same; congruence|]. split; [congruence|done].
    + destruct Hnew as [_ Hnew]. rewrite E in Hnew. split; [|split].
      * intros c'. rewrite Hnew. destruct (decide (c = c')) as [<-|Hne].
        -- rewrite Hn, lookup_insert_eq. right. eauto.
        -- rewrite lookup_insert_ne by done. by destruct (chains x !! c'); left.
      * unfold chain_there. rewrite Hn. by intros [].
      * intros _. unfold chain_there. rewrite Hnew, lookup_insert_eq. done.
  - apply wp_ret. split; [by apply hooked_same|]. split; [done|]. intros _. unfold chain_there.
    rewrite E. by apply Hl.
Qed.

Lemma jump_step from to x : (from, to) ∈ hooks →
  wp (hooked ← ipt_exists r from ["-j"; to];
      if hooked : bool then mret tt
      else map_error (ErrWrap ("hook " +:+ from +:+ " -> " +:+ to +:+ ": "))
             (ipt r ["-I"; from; "1"; "-j"; to])) (settles (jump_there from to) x) x.
Proof.
  intros Hin. apply wp_bind, wp_succeeds. pose proof (Check_tells from ["-j"; to] x) as Hc.
  destruct (host_run _ _ _ x) as [res x1]. destruct Hc as [E Hc]. destruct res as [e|[]]; simpl.
  - apply wp_map_error, wp_ipt. pose proof (Insert_inserts from ["-j"; to] x1) as Hi.
    assert (¬ jump_there from to x) as Hno by (intros Hj; by apply Hc in Hj).
    destruct (host_run _ _ _ x1) as [[e'|[]] x2].
    + intros e2. split; [by apply hooked_same; congruence|]. split; [congruence|done].
    + destruct Hi as (rs & Hrs & Hx2). rewrite E in Hrs, Hx2. split; [|split].
      * intros c. rewrite Hx2. destruct (decide (from = c)) as [<-|Hne].
        -- rewrite Hrs, lookup_insert_eq. right. exists to. split; [done|]. split; [|done].
           intros Hj. apply Hno. by exists rs.
        -- rewrite lookup_insert_ne by done. by destruct (chains x !! c); left.
      * by intros Hj%Hno.
      * intros _. exists (jump to :: rs). rewrite Hx2, lookup_insert_eq. split; [done|left].
  - apply wp_ret. split; [by apply hooked_same|]. split; [done|]. intros _.
    unfold jump_there. rewrite E. by apply Hc.
Qed.
Lemma ensureHook_settles from to b x : (from, to) ∈ hooks → (b = true → from = hookChain) →
  wp (ensureHook r from to b) (settles (jump_there from to) x) x.
Proof.
  intros Hin Hb. unfold ensureHook. apply wp_bind. destruct b.
  - apply wp_bind, wp_succeeds. pose proof (List_tells from x) as Hl.
    destruct (host_run _ _ _ x) as [res x1]. destruct Hl as [E Hl]. destruct res as [e|[]]; simpl.
    + apply wp_logged, wp_ipt. pose proof (New_creates from x1) as Hnew.
      assert (chains x !! from = None) as Hn.
      { destruct (chains x !! from) eqn:Ec; [|done]. by destruct Hl as [_ Hl]; discriminate Hl. }
      assert (¬ jump_there from to x) as Hno by (intros (rs & Hrs & _); congruence).
      destruct (host_run _ _ _ x1) as [[e'|[]] x2].
      * intros e2. eapply wp_mono; [by apply jump_step|]. intros res x3 (Hk & _ & Hj).
        split; [|done]. etrans; [|exact Hk]. apply hooked_same. congruence.
      * eapply wp_mono; [by apply jump_step|]. intros res x3 (Hk & _ & Hj). split; [|done].
        etrans; [|exact Hk]. destruct Hnew as [_ Hnew]. intros c. rewrite Hnew, E.
        destruct (decide (from = c)) as [<-|Hne].
        -- rewrite Hn, lookup_insert_eq, (Hb eq_refl). right. split; [do 2 right; left|by left].
        -- rewrite lookup_insert_ne by done. by destruct (chains x !! c); left.
    + apply wp_ret. eapply wp_mono; [by apply jump_step|]. intros res x3 (Hk & Hs & Hj).
      split; [etrans; [by apply hooked_same|exact Hk]|]. split; [|done]. intros Ht.
      rewrite Hs; [done|]. unfold jump_there in *. by rewrite E.
  - apply wp_ret. by apply jump_step.
Qed.

(** Everything the script asks for is in place. *)
Definition enforced (script : string) (x : X) : Prop :=
  chains x !! chain = Some (rules_of script chain)
  ∧ chains x !! inputChain = Some (rules_of script inputChain)
  ∧ jump_there hookChain chain x ∧ jump_there inputHookChain inputChain x.

(** One step of the preparation, which keeps what the steps before put in place. *)
Lemma wp_prepare (m : M X error ()) there (k : () → M X error ()) x y (P : Prop) Q :
  wp m (settles there y) y → hooked x y → (P → chains y = chains x ∧ there y) →
  (∀ e z, hooked x z → (P → chains z = chains x) → Q (inl e) z) →
  (∀ z, hooked x z → (P → chains z = chains x) → hooked y z → there z → wp (k tt) Q z) →
  wp (m ≫= k) Q y.
Proof.
  intros Hm Hxy HP He Hk. apply wp_bind. eapply wp_mono; [exact Hm|].
  intros [e|[]] z (Hyz & Hsame & Hthere).
  - apply He; [by etrans|]. intros Hp. destruct (HP Hp). rewrite Hsame; done.
  - apply Hk; [by etrans| |done|by apply Hthere]. intros Hp. destruct (HP Hp). rewrite Hsame; done.
Qed.
Lemma chain_there_hooked c x y : hooked x y → chain_there c x → chain_there c y.
Proof.
  intros Hxy [rs Hrs]. specialize (Hxy c). unfold chain_there, hooked_at in *. rewrite Hrs in Hxy.
  destruct Hxy as [->|(to & _ & _ & ->)]; done.
Qed.
Lemma jump_there_hooked from to x y : hooked x y → jump_there from to x → jump_there from to y.
Proof.
  intros Hxy (rs & Hrs & Hj). specialize (Hxy from). unfold jump_there, hooked_at in *. rewrite Hrs in Hxy.
  destruct Hxy as [->|(to' & _ & _ & ->)]; [eauto|]. eexists. split; [done|by right].
Qed.

Lemma Reconcile_spec policies x :
  wp (Reconcile r policies) (λ res x',
    match res with
    | inr _ => ∃ script, buildScript r policies = inr script ∧ enforced script x'
        ∧ (∀ c, c ≠ chain → c ≠ inputChain → hooked_at c (chains x !! c) (chains x' !! c))
        ∧ (enforced script x → chains x' = chains x)
    | inl _ => hooked x x'
        ∧ (∀ script, buildScript r policies = inr script → enforced script x → chains x' = chains x)
    end) x.
Proof.
  unfold Reconcile. set (Q := λ res x', match res with inr _ => _ | inl _ => _ end).
  set (P := ∃ script, buildScript r policies = inr script ∧ enforced script x).
  assert (∀ e z, hooked x z → (P → chains z = chains x) → Q (inl e) z) as He.
  { intros e z Hz Hp. split; [done|]. intros script Hb Hf. apply Hp. by exists script. }
  assert (P → chain_there chain x ∧ chain_there inputChain x
              ∧ jump_there hookChain chain x ∧ jump_there inputHookChain inputChain x) as HP.
  { intros (script & _ & Hc & Hi & Hj & Hj'). unfold chain_there. rewrite Hc, Hi. eauto. }
  assert (∀ c y, chains y = chains x → chain_there c x → chain_there c y) as Hct
    by (unfold chain_there; by intros c y ->).
  assert (∀ f t y, chains y = chains x → jump_there f t x → jump_there f t y) as Hjt
    by (unfold jump_there; by intros f t y ->).
  apply wp_bind, wp_ensureBridgeNetfilter. intros res x1 E1.
  assert (hooked x x1) as Hx1 by (by apply hooked_same).
  destruct res as [e|[]]; [by apply He|].
  eapply (wp_prepare _ (chain_there chain) _ x x1 P);
    [apply ensureChain_settles; left|done|intros Hp; split; [done|by apply Hct, HP]|exact He|].
  intros x2 Hx2 E2 _ Hc2.
  eapply (wp_prepare _ (chain_there inputChain) _ x x2 P);
    [apply ensureChain_settles; right; left|done|intros Hp; split; [by apply E2|apply Hct; [by apply E2|by apply HP]]
    |exact He|].
  intros x3 Hx3 E3 _ Hc3.
  eapply (wp_prepare _ (jump_there hookChain chain) _ x x3 P);
    [apply ensureHook_settles; [left|done]|done
    |intros Hp; split; [by apply E3|apply Hjt; [by apply E3|by apply HP]]|exact He|].
  intros x4 Hx4 E4 _ Hj4.
  eapply (wp_prepare _ (jump_there inputHookChain inputChain) _ x x4 P);
    [apply ensureHook_settles; [right; left|done]|done
    |intros Hp; split; [by apply E4|apply Hjt; [by apply E4|by apply HP]]|exact He|].
  intros x5 Hx5 E5 H45 Hj5. apply (jump_there_hooked _ _ _ _ H45) in Hj4.
  destruct (buildScript r policies) as [e|script] eqn:Eb; [by apply wp_throw, He|].
  apply wp_map_error. unfold restore. apply wp_map_error, wp_on_host. rewrite Hres.
  pose proof (Restore_replaces script x5) as Hr. destruct (host_run _ _ script x5) as [[e|[]] x6].
  - apply He; [|intros Hp; rewrite Hr; by apply E5]. etrans; [exact Hx5|by apply hooked_same].
  - assert (∀ c, c ≠ chain → c ≠ inputChain → chains x6 !! c = chains x5 !! c) as Hother.
    { intros c Hn1 Hn2. rewrite Hr, decide_False; [done|]. by intros [|]. }
    assert (enforced script x6) as Hen.
    { unfold enforced, jump_there, rules_of. rewrite (Hother hookChain), (Hother inputHookChain) by done.
      rewrite !Hr, !decide_True by auto. done. }
    exists script. split; [done|]. split; [done|]. split.
    + intros c Hn1 Hn2. rewrite Hother by done. apply Hx5.
    + intros Hx. apply map_eq. intros c. assert (P) as Hp by (by exists script).
      rewrite Hr. case_decide as Hc; [|by rewrite E5].
      destruct Hx as (Hc1 & Hc2' & _), Hc as [->| ->]; by rewrite ?Hc1, ?Hc2'.
Qed.
End reconcile.


(** A host with nothing but its table of chains. *)
Notation Table := (gmap string (list (list string))).
#[export] Instance rule_in_dec (x : Table) c rule : Decision (∃ rs, x !! c = Some rs ∧ rule ∈ rs).
Proof.
  destruct (x !! c) as [rs|]; [|right; naive_solver].
  destruct (decide (rule ∈ rs)); [left; eauto|right; naive_solver].
Defined.
Definition toy_iptables (args : list string) (x : Table) : (string + ()) * Table :=
  match args with
  | ["-w"; "-n"; "-L"; c] => (if x !! c then inr tt else inl "No chain/target/match by that name.", x)
  | ["-w"; "-N"; c] =>
      match x !! c with
      | Some _ => (inl "Chain already exists.", x)
      | None => (inr tt, <[c := []]> x)
      end
  | "-w" :: "-C" :: c :: rule =>
      (if decide (∃ rs, x !! c = Some rs ∧ rule ∈ rs) then inr tt
       else inl "Bad rule (does a matching rule exist in that chain?).", x)
  | "-w" :: "-I" :: c :: "1" :: rule =>
      match x !! c with
      | Some rs => (inr tt, <[c := rule :: rs]> x)
      | None => (inl "No chain/target/match by that name.", x)
      end
  | _ => (inl "iptables: unsupported", x)
  end.
#[export] Instance Table_host : HostTools Table := {|
  host_run bin args input x :=
    if decide (bin = "iptables") then toy_iptables args x
    else if decide (bin = "iptables-restore") then
      (inr tt, <[chain := rules_of input chain]> (<[inputChain := rules_of input inputChain]> x))
    else (inr tt, x);
  host_read f x := (inr "0", x);
  host_write f s x := (inr tt, x) |}.
#[export] Program Instance Table_laws : FirewallLaws Table := {| chains := λ x, x |}.
Next Obligation.
  intros c x. simpl. split; [done|]. destruct (x !! c) as [rs|]; simpl; split; [by intros _; exists rs|done|done|by intros []].
Qed.
Next Obligation. intros c x. simpl. by destruct (x !! c). Qed.
Next Obligation. intros c rule x. simpl. split; [done|]. by case_decide. Qed.
Next Obligation. intros c rule x. simpl. destruct (x !! c) eqn:E; [by exists l|done]. Qed.
Next Obligation.
  intros script x c. simpl. case_decide as Hc.
  - destruct (decide (c = chain)) as [->|Hne]; [by rewrite lookup_insert_eq|].
    destruct Hc as [->| ->]; [done|]. by rewrite lookup_insert_ne, lookup_insert_eq.
  - rewrite !lookup_insert_ne; [done|naive_solver..].
Qed.
Next Obligation. done. Qed.
Next Obligation. done. Qed.
Next Obligation. done. Qed.

Definition Table1 : Table := {["INPUT" := []; "FORWARD" := [["-j"; "DOCKER-USER"]]]}.
