(* ===== verification/Orch.v ===== *)
(** The orchestrator's core (internal/orch/orch.go, beam.go, admin.go): the world it
    acts on, authorization and outcome records, secret scope, bindings and the checks
    every operation shares. *)
From S2P Require Import Prelude Regexp GoStrings Domain Gateway Store StoreOps AuditLog.
From S2P Require Import Policy Vault Scrub Outside.

(** * The orchestrator *)

(** What New and its options fix: a flag per optional service that is wired. *)
(** EmailConfig and ObjectStoreConfig: where workloads reach the brokers, the defaults of
    a beam, and whether the broker is attached to each hall's bridge. *)
Record EmailConfig := MkEmailConfig {
  EC_BeamHost : string;
  EC_BeamPort : Z;
  EC_PerDay : Z;
  EC_Burst : Z;
  EC_Attach : bool}.
Record ObjectStoreConfig := MkObjectStoreConfig {
  OC_BeamHost : string;
  OC_BeamPort : Z;
  OC_Region : string;
  OC_DefaultQuota : Z;
  OC_Attach : bool}.
Record Orchestrator := MkOrchestrator {
  baseDomain : string;
  defaultPauseAfter : duration;
  beamPort : Z;
  startupGrace : duration;
  authIssuer : string;
  authAudience : string;
  idpEnabled : bool;
  has_builder : bool;
  has_dbProv : bool;
  has_emailProv : bool;
  has_objStoreProv : bool;
  has_repoRetire : bool;
  has_egressSync : bool;
  has_appSigner : bool;
  has_appClient : bool;
  has_netFacts : bool;
  c2cPort : Z;
  buildSem : option nat;
  idpSensitive : bool;
  backupDataDir : string;
  backupKeyPath : string;
  backupDir : string;
  UpgradeEnabled : bool;
  AutoRegister : bool;
  promoteApproval : bool;
  appIssuer : string;
  useRatePerMinute : Z;
  c2cRatePerMinute : Z;
  c2cMaxInflight : Z;
  emailCfg : EmailConfig;
  objStoreCfg : ObjectStoreConfig}.
#[export] Instance Eta_Orchestrator : Eta Orchestrator := λ o, MkOrchestrator (baseDomain o)
  (defaultPauseAfter o) (beamPort o) (startupGrace o) (authIssuer o) (authAudience o)
  (idpEnabled o) (has_builder o) (has_dbProv o) (has_emailProv o) (has_objStoreProv o)
  (has_repoRetire o) (has_egressSync o) (has_appSigner o) (has_appClient o)
  (has_netFacts o) (c2cPort o) (buildSem o) (idpSensitive o)
  (backupDataDir o) (backupKeyPath o) (backupDir o) (UpgradeEnabled o) (AutoRegister o)
  (promoteApproval o) (appIssuer o) (useRatePerMinute o) (c2cRatePerMinute o)
  (c2cMaxInflight o) (emailCfg o) (objStoreCfg o).

Record Actor := MkActor {
  Actor_ID : ID;
  TokenJTI : string;
  ITAdmin : bool;
  SourceIP : string;
  Actor_Groups : list string;
  Actor_Email : string}.

(** The state the orchestrator acts on: the store, the gateway, the scheduler's timers
    (its persisted deadlines are in the store), everything outside, and the build slots
    in use. *)
(** What the process remembers beyond them: whether the mail and the object-store broker
    were last seen enabled, and the relay calls in flight of each beam. *)
Record Memory := MkMemory {
  emailEnabled : bool;
  objStoreEnabled : bool;
  c2cInflight : gmap ID Z}.
#[export] Instance Eta_Memory : Eta Memory := λ m,
  MkMemory (emailEnabled m) (objStoreEnabled m) (c2cInflight m).
Record World (X C : Type) := MkWorld {
  w_store : Store;
  w_gw : GWorld C;
  w_armed : gmap ID time;
  w_inFlight : gset ID;
  w_cancelled : gset ID;
  w_out : X;
  w_builds : nat;
  w_mem : Memory}.
Arguments MkWorld {X C} _ _ _ _ _ _ _ _.
Arguments w_store {X C} _.
Arguments w_gw {X C} _.
Arguments w_armed {X C} _.
Arguments w_inFlight {X C} _.
Arguments w_cancelled {X C} _.
Arguments w_out {X C} _.
Arguments w_builds {X C} _.
Arguments w_mem {X C} _.
#[export] Instance Eta_World X C : Eta (World X C) := λ w, MkWorld (w_store w) (w_gw w)
  (w_armed w) (w_inFlight w) (w_cancelled w) (w_out w) (w_builds w) (w_mem w).
Notation w_db w := (st_db (w_store w)).

(** ** Secret keys and slugs *)

Definition secretKeyRe : re :=
  Cat AtStart (Cat (Between 1 64 (Class_ is_word)) AtEnd).
Definition slug_char (c : ascii) : bool := is_lower c || is_digit c || one_of "-" c.
Definition slug_end (c : ascii) : bool := is_lower c || is_digit c.
Definition slugRe : re :=
  Cat AtStart (Cat (Class_ slug_end)
    (Cat (Opt (Cat (UpTo 30 (Class_ slug_char)) (Class_ slug_end))) AtEnd)).

Definition validateSecretKey (key : string) : option error :=
  if negb (MatchString secretKeyRe key) then
    Some (ErrMsg ("invalid secret key " +:+ quoted key +:+
      ": use 1-64 letters, digits, or underscores (the key becomes the file name /run/secrets/<key>)"))
  else if HasPrefix key "BEAMHALL_" then
    Some (ErrMsg ("secret key " +:+ quoted key +:+
      ": the BEAMHALL_ prefix is reserved for platform-injected credentials — pick another name"))
  else None.

(** The keys the facilities seal (auth.go, email.go, objectstore.go). *)
Definition authIssuerKey : string := "OIDC_ISSUER".
Definition authClientIDKey : string := "OIDC_CLIENT_ID".
Definition authClientSecretKey : string := "OIDC_CLIENT_SECRET".
Definition authSecretKeys : list string := [authIssuerKey; authClientIDKey; authClientSecretKey].
Definition emailSecretKeys : list string :=
  ["SMTP_HOST"; "SMTP_PORT"; "SMTP_USER"; "SMTP_PASS"; "SMTP_CA"].
Definition objStoreSharedKeys : list string := ["S3_ENDPOINT"; "S3_REGION"; "S3_FORCE_PATH_STYLE"].
Definition objStoreChannelKeys : list string := ["S3_BUCKET"; "S3_ACCESS_KEY"; "S3_SECRET_KEY"].
(** dbSecretKey *)
Definition dbSecretKey (name : string) : string :=
  ToUpper (replace_byte "-" "_" name) +:+ "_URL".

(** ** Small helpers *)

Definition liveHost (o : Orchestrator) (beamSlug beamhallSlug : string) : string :=
  beamSlug +:+ "." +:+ beamhallSlug +:+ "." +:+ baseDomain o.
Definition handleOf (rel : Release) : Handle :=
  MkHandle (Handle_Driver (Rel_Workload rel)) (Handle_Ref (Rel_Workload rel)).
Definition networkName (beamhallID : ID) : string := "bh-" +:+ beamhallID.
Definition profileOf (sc : SecurityContext) : SecurityProfile :=
  MkSecurityProfile (RuntimeClass_string (SC_RuntimeClass sc)) (SC_UsernsRemap sc) (SC_CapDrop sc)
    (SC_CapAdd sc) (SC_SeccompProfile sc) (SC_AppArmorProfile sc) (SC_NoNewPrivileges sc)
    (SC_ReadOnlyRootfs sc) (SC_Tmpfs sc).
Definition limitsOf (sc : SecurityContext) : DriverLimits :=
  MkDriverLimits (CPUQuota (SC_CgroupLimits sc)) (MemBytes (SC_CgroupLimits sc))
    (PidsMax (SC_CgroupLimits sc)).
Definition pauseAfter (o : Orchestrator) (beam : Beam) : duration :=
  if decide (0 < Beam_PreviewPauseAfter beam)%Z then Beam_PreviewPauseAfter beam
  else defaultPauseAfter o.

(** ** The secrets of a channel *)

Definition refSpecificity (r : SecretRef) : nat :=
  (if decide (Ref_Channel r ≠ ChannelShared) then 2 else 0)
  + (if decide (Ref_BeamID r ≠ no_id) then 1 else 0).
Definition in_scope (beamID : ID) (ch : Channel) (m : Secret) : bool :=
  bool_decide ((Secret_BeamID m = no_id ∨ Secret_BeamID m = beamID)
               ∧ (Secret_Channel m = ChannelShared ∨ Secret_Channel m = ch)).
Definition meta_ref (m : Secret) : SecretRef :=
  MkSecretRef (Secret_BeamhallID m) (Secret_BeamID m) (Secret_Key m) (Secret_Channel m).
(** One row of the loop: replace the row of the same key if this one is more specific,
    else append it (idxByKey is the position of a key in refs). *)
Fixpoint place_ref (ref : SecretRef) (refs : list SecretRef) : list SecretRef :=
  match refs with
  | [] => [ref]
  | r :: rest =>
      if decide (Ref_Key r = Ref_Key ref) then
        (if decide (refSpecificity r < refSpecificity ref) then ref else r) :: rest
      else r :: place_ref ref rest
  end.
Definition scope_refs (beamID : ID) (ch : Channel) (metas : list Secret) : list SecretRef :=
  foldl (λ refs m, if in_scope beamID ch m then place_ref (meta_ref m) refs else refs) []
    metas.

(** * Effects of the orchestrator *)
Section orch.
Context `{!Env, !Age, !Rand} {X C : Type} `{!Caddy C}.
Context `{!RuntimeDriver X, !Platform X}.

Definition OM : Type → Type := M (World X C) error.

Definition in_store {A} (m : SM A) : OM A :=
  lift w_store (λ s w, w <| w_store := s |>) m.
Definition in_gw {A} (m : GM C A) : OM A := lift w_gw (λ g w, w <| w_gw := g |>) m.
Definition outside {A} (f : ext X A) : OM A := λ w,
  match f (w_out w) with
  | (inl e, x) => (inl (ErrExternal e), w <| w_out := x |>)
  | (inr a, x) => (inr a, w <| w_out := x |>)
  end.

(** Scheduler.Arm and Disarm, as the orchestrator sees them. *)
Definition Arm (beamID : ID) (deadline : time) : OM () :=
  wrapping "persist armed pause: " (in_store (Pause_Save beamID deadline));;
  modify (λ w, w <| w_armed := <[beamID := deadline]> (w_armed w) |>).
Definition Disarm (beamID : ID) : OM () :=
  wrapping "delete armed pause: " (in_store (Pause_Delete beamID));;
  modify (λ w, w <| w_armed := delete beamID (w_armed w) |>
                 <| w_cancelled := if decide (beamID ∈ w_inFlight w)
                                   then {[beamID]} ∪ w_cancelled w else w_cancelled w |>).

Section config.
Context (o : Orchestrator).

Definition authorize (actor : Actor) (action : Action) (beamhallID beamID : ID) : OM () :=
  in_store (Authorize (MkRequest (Actor_ID actor) (TokenJTI actor) (ITAdmin actor)
    beamhallID beamID action (SourceIP actor) EmptyString)).

Definition outcome_event (actor : Actor) (action : Action) (beamhallID beamID : ID)
    (opErr : option error) : AuditEvent :=
  MkAuditEvent no_id None (Actor_ID actor) (TokenJTI actor) beamhallID beamID
    (Action_string action) DecisionAllow
    (match opErr with Some e => Error e | None => EmptyString end) EmptyString
    (match opErr with Some _ => "failed" | None => "ok" end) (SourceIP actor)
    EmptyString EmptyString.
Definition outcome (actor : Actor) (action : Action) (beamhallID beamID : ID)
    (opErr : option error) : OM () :=
  r ← attempt (in_store (Append (outcome_event actor action beamhallID beamID opErr)));
  match r, opErr with
  | inl err, None =>
      throw (ErrWrap "operation succeeded but its audit record failed: " err)
  | _, Some e => throw e
  | _, None => mret tt
  end.
(** [x, err := op(); return x, o.outcome(..., err)] *)
Definition with_outcome {A} (actor : Actor) (action : Action) (beamhallID beamID : ID)
    (op : OM A) : OM A :=
  r ← attempt op;
  match r with
  | inl e => outcome actor action beamhallID beamID (Some e);; throw e
  | inr a => outcome actor action beamhallID beamID None;; mret a
  end.

(** admin.go *)
Definition requireIT (actor : Actor) : option error :=
  if ITAdmin actor then None else Some (ErrMsg "operation requires it_admin").
Definition it_event (actor : Actor) (action : string) (beamhallID beamID : ID)
    (opErr : option error) : AuditEvent :=
  let '(decision, status, reason) :=
    if negb (ITAdmin actor) then (DecisionDeny, "denied", "requires it_admin")
    else match opErr with
         | Some e => (DecisionAllow, "failed", Error e)
         | None => (DecisionAllow, "ok", EmptyString)
         end in
  MkAuditEvent no_id None (Actor_ID actor) (TokenJTI actor) beamhallID beamID action decision
    reason EmptyString status (SourceIP actor) EmptyString EmptyString.
Definition itAuditBeam (actor : Actor) (action : string) (beamhallID beamID : ID)
    (opErr : option error) : OM () :=
  r ← attempt (in_store (Append (it_event actor action beamhallID beamID opErr)));
  match r, opErr with
  | inl err, None =>
      throw (ErrAround (action +:+ " succeeded but could NOT be recorded on the audit chain: ")
               err " — investigate the audit store before continuing")
  | _, Some e => throw e
  | _, None => mret tt
  end.
Definition itAudit (actor : Actor) (action : string) (beamhallID : ID) (opErr : option error)
    : OM () := itAuditBeam actor action beamhallID no_id opErr.

Definition operableBeam (beamhallID beamID : ID) : OM Beam :=
  beam ← in_store (GetBeam beamID);
  if decide (Beam_BeamhallID beam ≠ beamhallID) then
    throw (ErrMsg ("beam " +:+ beamID +:+ " is not in beamhall " +:+ beamhallID))
  else if decide (Beam_Status beam = BeamArchived) then
    throw (ErrMsg ("beam " +:+ beamID +:+ " has been destroyed"))
  else mret beam.

(** beam.Apply(ev), and the guard of beam.Can(ev). *)
Definition apply (beam : Beam) (ev : Event) : OM Beam :=
  match Apply beam ev with
  | inl te => throw (ErrTransition te)
  | inr beam => mret beam
  end.
Definition require (beam : Beam) (ev : Event) : OM () :=
  match Can beam ev with
  | inl reason => throw (ErrTransition (MkTransitionError (Beam_State beam) (Beam_Mode beam)
                                          ev reason))
  | inr _ => mret tt
  end.

Definition previewHost : OM string :=
  n ← in_store step_no;
  mret (match rand_read n 8 with
        | inr b => (RandomPreviewHost (baseDomain o) b).1
        | inl _ => "x" +:+ hex_encode (String.string_of_list_ascii (replicate 8 zero))
                   +:+ ".preview." +:+ baseDomain o
        end).

Definition secretRefs (beamhallID beamID : ID) (ch : Channel) : OM (list SecretRef) :=
  metas ← in_store (ListSecretsByBeamhall beamhallID);
  mret (scope_refs beamID ch metas).
End config.
End orch.
