(* ===== verification/AppTools.v ===== *)
(** The app-tools contract (internal/apptools): the broker's HTTP client, the checks of a
    manifest, and the assertions minted for an app's calls. *)
From S2P Require Import Prelude Regexp GoStrings GoNet Domain Gateway Store StoreOps Vault.
From S2P Require Import Outside Orch.

(** * The contract (contract.go) *)

Definition Version : Z := 1.
Definition PathTools : string := "/.beamhall/tools".
Definition MaxManifestBytes : nat := 64 * 1024.
Definition MaxTools : nat := 64.
Definition MaxArgumentBytes : nat := 64 * 1024.
Definition MaxResultBytes : nat := 256 * 1024.
Definition maxErrorBytes : nat := 4 * 1024.
Definition toolNameRe : re :=
  Cat AtStart (Cat (Class_ (λ c, is_lower c || is_digit c))
    (Cat (UpTo 63 (Class_ (λ c, is_lower c || is_digit c || one_of "_-" c))) AtEnd)).

(** The loop over the tools, with the names seen. *)
Fixpoint check_tools (seen : list string) (tools : list Tool) : option error :=
  match tools with
  | [] => None
  | t :: rest =>
      if negb (MatchString toolNameRe (Tool_Name t)) then
        Some (ErrMsg ("tool name " +:+ quoted (Tool_Name t)
          +:+ " is invalid (want lowercase letters, digits, - or _, max 64 chars)"))
      else if decide (Tool_Name t ∈ seen) then
        Some (ErrMsg ("tool name " +:+ quoted (Tool_Name t) +:+ " appears twice"))
      else if negb (bool_decide (Tool_InputSchema t = EmptyString))
              && negb (HasPrefix (TrimSpace (Tool_InputSchema t)) "{") then
        Some (ErrMsg ("tool " +:+ quoted (Tool_Name t) +:+ " input_schema must be a JSON object"))
      else check_tools (Tool_Name t :: seen) rest
  end.
Definition ParseManifest (json : string → string + ToolManifest) (b : string)
    : error + ToolManifest :=
  match json b with
  | inl e => inl (ErrWrap "manifest is not valid JSON: " (ErrExternal e))
  | inr m =>
      if decide (TM_Version m ≠ Version) then
        inl (ErrMsg ("manifest version " +:+ format_int (TM_Version m)
               +:+ " is not supported (this appliance speaks version " +:+ format_int Version +:+ ")"))
      else if decide (MaxTools < length (TM_Tools m)) then
        inl (ErrMsg ("manifest lists " +:+ format_int (Z.of_nat (length (TM_Tools m)))
               +:+ " tools; the maximum is " +:+ format_int (Z.of_nat MaxTools)))
      else match check_tools [] (TM_Tools m) with
           | Some e => inl e
           | None => inr m
           end
  end.

(** * The client (client.go) *)

Definition ErrNoAgentTools : error := ErrMsg "the app does not serve agent tools".

(** url.PathEscape *)
Definition path_safe (c : ascii) : bool :=
  is_lower c || is_upper c || is_digit c || one_of "-_.~$&+:=@" c.
Definition PathEscape (s : string) : string :=
  foldr (λ c r, if path_safe c then String c r
                else "%" +:+ ToUpper (hex_encode (String c EmptyString)) +:+ r)
    EmptyString (String.list_ascii_of_string s).
(** io.ReadAll of the body through a limit of [n] bytes, and ignoring its error. *)
Definition ReadLimited (n : nat) (r : HTTPResponse) : string + string :=
  if decide (n ≤ String.length (RespBody r)) then inr (String.substring 0 n (RespBody r))
  else match RespFails r with Some e => inl e | None => inr (RespBody r) end.
Definition read_some (n : nat) (r : HTTPResponse) : string := String.substring 0 n (RespBody r).
Definition readCapped (limit : nat) (r : HTTPResponse) : error + string :=
  match ReadLimited (S limit) r with
  | inl e => inl (ErrExternal e)
  | inr b =>
      if decide (limit < String.length b) then
        inl (ErrMsg ("response exceeds the " +:+ format_int (Z.of_nat limit) +:+ "-byte limit"))
      else inr b
  end.
Definition not_2xx (r : HTTPResponse) : bool :=
  bool_decide (RespStatusCode r < 200 ∨ 299 < RespStatusCode r)%Z.

Section client.
Context `{!Env, !Age, !Rand} {X C : Type} `{!Caddy C}.
Context `{!RuntimeDriver X, !Platform X}.
Notation OM := (OM (X := X) (C := C)).

Definition of_sum {A} (r : error + A) : OM A :=
  match r with inl e => throw e | inr a => mret a end.
(** http.NewRequestWithContext and the client's Do *)
Definition send (r : HTTPRequest) : OM HTTPResponse :=
  match http_URL (ReqURL r) with
  | Some e => throw (ErrExternal e)
  | None => wrapping "the app did not answer: " (outside (http_Do r))
  end.

Definition FetchManifest (backendAddr assertion : string) : OM ToolManifest :=
  resp ← send (MkHTTPRequest "GET" ("http://" +:+ backendAddr +:+ PathTools) assertion EmptyString);
  if decide (RespStatusCode resp = 404 ∨ RespStatusCode resp = 405)%Z then throw ErrNoAgentTools
  else if not_2xx resp then
    throw (ErrMsg ("the app answered " +:+ RespStatus resp +:+ " to the tool menu request: "
                   +:+ TrimSpace (read_some maxErrorBytes resp)))
  else
  body ← wrapping "tool menu: " (of_sum (readCapped MaxManifestBytes resp));
  of_sum (ParseManifest json_Manifest body).

Definition Invoke (backendAddr tool assertion args : string) : OM string :=
  if decide (MaxArgumentBytes < String.length args) then
    throw (ErrMsg ("arguments are " +:+ format_int (Z.of_nat (String.length args))
             +:+ " bytes; the maximum is " +:+ format_int (Z.of_nat MaxArgumentBytes)))
  else
  let args := if decide (args = EmptyString) then "{}" else args in
  resp ← send (MkHTTPRequest "POST"
    ("http://" +:+ backendAddr +:+ PathTools +:+ "/" +:+ PathEscape tool) assertion args);
  if not_2xx resp then
    throw (ErrInvoke (RespStatusCode resp) (TrimSpace (read_some maxErrorBytes resp)))
  else wrapping "tool result: " (of_sum (readCapped MaxResultBytes resp)).

(** * Assertions (signer.go) *)

Definition AssertionTTL : duration := (60 * 10 ^ 9)%Z.
Definition ProbeSubject : string := "beamhall:probe".
Definition CallerUser : string := "user".
Definition CallerBeam : string := "beam".
Definition CallerProbe : string := "probe".
Record Assertion := MkAssertion {
  As_Subject : string;
  As_CallerType : string;
  As_Email : string;
  As_Groups : list string;
  As_Audience : string;
  As_Channel : string;
  As_Tool : string}.

(** rand.Read of [n] bytes *)
Definition rand_bytes (n : nat) : OM string :=
  step ← in_store step_no;
  match rand_read step n with
  | inl e => throw (ErrExternal e)
  | inr b => mret b
  end.
Definition Mint (issuer : string) (a : Assertion) : OM string :=
  jti ← rand_bytes 12;
  t ← in_store now;
  outside (jwt_SignedString
    (MkClaims issuer (As_Audience a) (As_Subject a)
       (if decide (As_CallerType a = EmptyString) then CallerUser else As_CallerType a)
       (As_Email a) (As_Groups a) (As_Channel a) (As_Tool a) (hex_encode jti)
       (unix_seconds t) (unix_seconds (time_add t AssertionTTL)))).
End client.

Example escaped : PathEscape "a/b c~%" = "a%2Fb%20c~%25" /\ PathEscape "list_items" = "list_items".
Proof. vm_compute. done. Qed.
Example names :
  check_tools [] [MkTool "list-items" "x" EmptyString; MkTool "a" EmptyString "{}"] = None
  ∧ is_Some (check_tools [] [MkTool "a" "x" EmptyString; MkTool "a" EmptyString "{}"])
  ∧ is_Some (check_tools [] [MkTool "A" "x" EmptyString])
  ∧ is_Some (check_tools [] [MkTool "a" "x" "[1]"]).
Proof. vm_compute. eauto 10. Qed.
