(* ===== verification/Facility.v ===== *)
(** The facility side of the orchestrator's lifecycle (internal/orch/auth.go,
    objectstore.go, database.go, email.go, branding.go, c2c.go, apptools.go and the
    reconcile of livechannel.go): redirect sync, live mirrors, reclaim, bindings. *)
From S2P Require Import Prelude GoStrings Diagnose Domain Gateway Store StoreOps AuditLog.
From S2P Require Import Vault Outside Orch AppTools.

Definition spec_get (key : string) (r : Resource) : string := default EmptyString (Res_Spec r !! key).
Definition is_type (typ : ResourceType) (r : Resource) : bool := bool_decide (Res_Type r = typ).

(** * Names (auth.go, objectstore.go) *)

Definition authTokenTTLSeconds : Z := 300.
Definition authMode : string := "library".
Definition authClientID (beamhallSlug beamSlug : string) (ch : Channel) : string :=
  let channel := match ch with ChannelShared => "preview" | _ => Channel_string ch end in
  "beam-" +:+ beamhallSlug +:+ "-" +:+ beamSlug +:+ "-" +:+ channel.
Definition redirectsFor (host : string) : list string :=
  if decide (host = EmptyString) then []
  else ["https://" +:+ host +:+ "/auth/callback"; "https://" +:+ host +:+ "/callback"].
Definition webOriginsFor (host : string) : list string :=
  if decide (host = EmptyString) then [] else ["https://" +:+ host].

Definition bucket_char (c : ascii) : bool :=
  Regexp.is_lower c || Regexp.is_digit c || bool_decide (c = "-"%char).
Definition sanitizeBucket (s : string) : string :=
  let out := String.string_of_list_ascii
               (filter (λ c, bucket_char c = true) (String.list_ascii_of_string (ToLower s))) in
  let out := if decide (40 < String.length out) then String.substring 0 40 out else out in
  if decide (out = EmptyString) then "beam" else out.
Definition objStoreBucket (beamID : ID) (ch : Channel) : string :=
  "bh-" +:+ sanitizeBucket beamID +:+ "-" +:+ Channel_string ch.

(** * Branding (branding.go) *)

Record BrandingInfo := MkBrandingInfo {
  Configured : bool;
  BI_Scope : string;
  BI_Branding : Branding;
  LogoURL : string;
  LogoMIME : string;
  CSSURL : string}.
Definition BrandingInfo_json (i : BrandingInfo) : string :=
  let b := BI_Branding i in
  json_object
    ([("configured", json_bool (Configured i))]
     ++ omit_empty "scope" (BI_Scope i)
     ++ omit_empty "header_html" (HeaderHTML b)
     ++ omit_empty "footer_html" (FooterHTML b)
     ++ omit_empty "primary_color" (PrimaryColor b)
     ++ omit_empty "secondary_color" (SecondaryColor b)
     ++ omit_empty "accent_color" (AccentColor b)
     ++ omit_empty "background_color" (BackgroundColor b)
     ++ omit_empty "text_color" (TextColor b)
     ++ omit_empty "logo_url" (LogoURL i)
     ++ omit_empty "logo_mime" (LogoMIME i)
     ++ omit_empty "css_url" (CSSURL i)).

Definition pick (o b : string) : string := if decide (o = EmptyString) then b else o.
Definition mergeBranding (base override : Branding) : Branding :=
  MkBranding (pick (HeaderHTML override) (HeaderHTML base))
    (pick (FooterHTML override) (FooterHTML base))
    (pick (PrimaryColor override) (PrimaryColor base))
    (pick (SecondaryColor override) (SecondaryColor base))
    (pick (AccentColor override) (AccentColor base))
    (pick (BackgroundColor override) (BackgroundColor base))
    (pick (TextColor override) (TextColor base)).

Section facility.
Context `{!Env, !Age, !Rand} {X C : Type} `{!Caddy C}.
Context `{!RuntimeDriver X, !Platform X, !DatabaseProvisioner X, !IdentityProvider X, !Brokers X}.
Context (o : Orchestrator).
Notation OM := (OM (X := X) (C := C)).

(** err != nil && !errors.Is(err, store.ErrNotFound) is an error; ErrNotFound is the
    zero value. *)
Definition or_zero {A} (zero : A) (m : OM A) : OM A :=
  r ← attempt m;
  match r with
  | inr a => mret a
  | inl e => if is_not_found e then mret zero else throw e
  end.

Definition resolveLogo (beamhallID : ID) : OM BrandingLogo :=
  if decide (beamhallID ≠ FacilityScope) then
    r ← attempt (in_store (GetBrandingLogoMeta beamhallID));
    match r with
    | inr logo => mret logo
    | inl e => if is_not_found e then in_store (GetBrandingLogoMeta FacilityScope) else throw e
    end
  else in_store (GetBrandingLogoMeta FacilityScope).

Definition resolvedBranding (beamhallID : ID) (owner : string) : OM BrandingInfo :=
  facility ← or_zero NoBranding (in_store (GetBranding FacilityScope));
  ms ← (if decide (beamhallID ≠ FacilityScope) then
          override ← or_zero NoBranding (in_store (GetBranding beamhallID));
          mret (mergeBranding facility override,
                if Branding_IsZero override then "facility" else "beamhall")
        else mret (facility, "facility"));
  logo ← or_zero NoLogo (resolveLogo beamhallID);
  let '(merged, scope) := ms in
  let has_logo := negb (bool_decide (Logo_ETag logo = EmptyString)) in
  let configured := negb (Branding_IsZero merged) || has_logo in
  let base := "https://" +:+ baseDomain o +:+ "/brand/" +:+ owner in
  if negb configured then
    mret (MkBrandingInfo false EmptyString merged EmptyString EmptyString EmptyString)
  else
    mret (MkBrandingInfo true scope merged
      (if has_logo then base +:+ "/logo-" +:+ Logo_ETag logo +:+ ".png" else EmptyString)
      (if has_logo then Logo_MIME logo else EmptyString) (base +:+ "/brand.css")).

Definition brandingBinding (bh : Beamhall) : OM (list ResourceBinding) :=
  r ← attempt (resolvedBranding (Beamhall_ID bh) (Beamhall_Slug bh));
  match r with
  | inl _ => mret []
  | inr info =>
      if Configured info then
        mret [MkResourceBinding "brand.json" "/run/beamhall/brand.json" (BrandingInfo_json info)]
      else mret []
  end.

(** * Bindings and probes (apptools.go, c2c.go) *)

Definition assertionBinding (beamID : ID) : list ResourceBinding :=
  if has_appSigner o then
    [MkResourceBinding "assertion.json" "/run/beamhall/assertion.json" (BindingJSON beamID)]
  else [].

Definition C2CKeyName : string := "BEAMHALL_C2C_KEY".
Definition c2cBinding (beamhallID : ID) (refs : list SecretRef) : OM (list ResourceBinding) :=
  if negb (has_netFacts o) || bool_decide (c2cPort o = 0%Z) then mret []
  else if existsb (λ r, bool_decide (Ref_Key r = C2CKeyName)) refs then
    r ← attempt (outside (net_facts (networkName beamhallID)));
    match r with
    | inl _ => mret []
    | inr facts =>
        let gateway := NF_Gateway facts in
        if decide (gateway = EmptyString) then mret []
        else
          mret [MkResourceBinding "c2c.json" "/run/beamhall/c2c.json"
            ("{" +:+ q1 "version" +:+ ":1," +:+ q1 "endpoint" +:+ ":"
             +:+ q1 ("http://" +:+ gateway +:+ ":" +:+ format_int (c2cPort o)) +:+ ","
             +:+ q1 "key_file" +:+ ":" +:+ q1 ("/run/secrets/" +:+ C2CKeyName) +:+ "}")]
    end
  else mret [].

Definition probeAgentTools (beamID releaseID : ID) (backendAddr : string) : OM () :=
  if negb (has_appSigner o) || negb (has_appClient o) || bool_decide (backendAddr = EmptyString)
  then mret tt
  else
    r ← attempt (in_store (GetRelease releaseID));
    match r with
    | inl _ => mret tt
    | inr rel =>
        let channel := match Rel_Channel rel with
                       | ChannelShared => "preview"
                       | ch => Channel_string ch
                       end in
        p ← attempt (assertion ← Mint (appIssuer o)
                       (MkAssertion ProbeSubject CallerProbe EmptyString [] beamID channel EmptyString);
                     FetchManifest backendAddr assertion);
        match p with
        | inl _ => mret tt
        | inr _ => logged (in_store (SetReleaseAgentTools releaseID true))
        end
    end.

Definition resyncEgressForGrants : OM () :=
  if has_egressSync o then
    r ← attempt (in_store ListBeamPeers);
    match r with
    | inl _ => mret tt
    | inr grants =>
        if existsb (λ g, negb (bool_decide (Peers_External (BP_Peers g) = []))) grants
        then logged (outside egress_sync) else mret tt
    end
  else mret tt.

(** * Sign-in clients (auth.go) *)

Definition syncAuthRedirects (beamID : ID) (ch : Channel) (host : string) : OM () :=
  if idpEnabled o then
    r ← attempt (in_store (ListResourcesByBeamAndChannel beamID ch));
    match r with
    | inl _ => mret tt
    | inr resources =>
        for_each (filter (is_type ResourceAuthClient) resources) (λ r,
          logged (outside (idp_SyncRedirectURIs (Res_BackingHandle r)
                             (redirectsFor host) (webOriginsFor host))))
    end
  else mret tt.

Definition seal (beamhallID beamID : ID) (ch : Channel) (by_ : ID) (what : string → string)
    (kvs : list (string * string)) : OM () :=
  for_each kvs (λ kv,
    wrapping (what kv.1)
      (in_store (Vault_Set (MkSecretRef beamhallID beamID kv.1 ch) kv.2 by_));;
    mret tt).
Definition sealAuthSecrets (beamhallID beamID : ID) (ch : Channel) (client : IdPClient)
    (by_ : ID) : OM () :=
  seal beamhallID beamID ch by_ (λ key, "seal " +:+ key +:+ ": ")
    [(authIssuerKey, authIssuer o); (authClientIDKey, Client_ClientID client);
     (authClientSecretKey, Client_Secret client)].

Definition mirrorLiveAuthClient (actor : Actor) (bh : Beamhall) (beamSlug : string)
    (beamID : ID) : OM () :=
  if negb (idpEnabled o) then mret tt
  else
  previewRes ← in_store (ListResourcesByBeamAndChannel beamID ChannelPreview);
  match head (filter (is_type ResourceAuthClient) previewRes) with
  | None => mret tt
  | Some previewAuth =>
  liveRes ← in_store (ListResourcesByBeamAndChannel beamID ChannelLive);
  if existsb (is_type ResourceAuthClient) liveRes then mret tt
  else
  let clientID := authClientID (Beamhall_Slug bh) beamSlug ChannelLive in
  let host := liveHost o beamSlug (Beamhall_Slug bh) in
  client ← wrapping "create live auth client: " (outside (idp_CreateClient
    (MkClientSpec clientID (redirectsFor host) (webOriginsFor host) authTokenTTLSeconds
       (authAudience o))));
  sealed ← attempt (sealAuthSecrets (Beamhall_ID bh) beamID ChannelLive client (Actor_ID actor));
  match sealed with
  | inl err => logged (outside (idp_DeleteClient (Client_UUID client)));; throw err
  | inr _ =>
  let groups := spec_get "groups" previewAuth in
  (if decide (TrimSpace groups = EmptyString) then mret tt
   else logged (outside (idp_SetClientGroupRoles (Client_UUID client)
                           (Split (TrimSpace groups) ","))));;
  in_store (CreateResource (MkResource no_id (Beamhall_ID bh) beamID ChannelLive
    ResourceAuthClient ResourceReady
    (MkSecretRef (Beamhall_ID bh) beamID authClientSecretKey ChannelLive)
    {["client_id" := clientID; "audience" := clientID; "mode" := authMode;
      "issuer" := authIssuer o; "groups" := groups]}
    (Client_UUID client) None None));;
  mret tt
  end end.

(** Delete each of the keys, best effort. *)
Definition unseal (beamhallID beamID : ID) (ch : Channel) (keys : list string) : OM () :=
  for_each keys (λ key, logged (in_store (Vault_Delete (MkSecretRef beamhallID beamID key ch)))).

Definition reclaimAuthClient (r : Resource) : OM () :=
  (if idpEnabled o && negb (bool_decide (Res_BackingHandle r = EmptyString))
   then logged (outside (idp_DeleteClient (Res_BackingHandle r))) else mret tt);;
  unseal (Res_BeamhallID r) (Res_BeamID r) (Res_Channel r) authSecretKeys.

(** * Mail (email.go) *)
Definition reclaimEmail (r : Resource) : OM () :=
  (if has_emailProv o then logged (outside (email_Deregister (Res_BeamID r))) else mret tt);;
  unseal (Res_BeamhallID r) (Res_BeamID r) ChannelShared emailSecretKeys.

(** * Object store (objectstore.go) *)

Definition sealObjStoreChannel (beamhallID beamID : ID) (ch : Channel) (bucket : string)
    (creds : S3Credentials) (by_ : ID) : OM () :=
  seal beamhallID beamID ch by_
    (λ key, "seal " +:+ key +:+ " (" +:+ Channel_string ch +:+ "): ")
    [("S3_BUCKET", bucket); ("S3_ACCESS_KEY", AccessKey creds);
     ("S3_SECRET_KEY", SecretKey creds)].

Definition deregisterObjStore (beamID : ID) (ch : Channel) (purge : bool) : OM () :=
  if has_objStoreProv o
  then logged (outside (obj_Deregister beamID (Channel_string ch) purge)) else mret tt.

Definition mirror_bucket (actor : Actor) (bh : Beamhall) (beamID : ID) (pr : Resource) : OM () :=
  let bucket := objStoreBucket beamID ChannelLive in
  let quota := ParseInt (spec_get "quota_bytes" pr) in
  creds ← wrapping "provision live object store: "
    (outside (obj_Provision (MkS3Request beamID (Channel_string ChannelLive) bucket quota)));
  sealed ← attempt (sealObjStoreChannel (Beamhall_ID bh) beamID ChannelLive bucket creds
                      (Actor_ID actor));
  match sealed with
  | inl err => deregisterObjStore beamID ChannelLive true;; throw err
  | inr _ =>
      in_store (CreateResource (MkResource no_id (Beamhall_ID bh) beamID ChannelLive
        ResourceObjectStore ResourceReady
        (MkSecretRef (Beamhall_ID bh) beamID "S3_SECRET_KEY" ChannelLive)
        {["access_key" := AccessKey creds; "bucket" := bucket;
          "quota_bytes" := format_int quota]}
        (AccessKey creds) None None));;
      mret tt
  end.
Definition reconcileLiveObjectStore (actor : Actor) (bh : Beamhall) (beamID : ID) : OM () :=
  if negb (has_objStoreProv o) then mret tt
  else
  previewRes ← in_store (ListResourcesByBeamAndChannel beamID ChannelPreview);
  liveRes ← in_store (ListResourcesByBeamAndChannel beamID ChannelLive);
  if existsb (is_type ResourceObjectStore) liveRes then mret tt
  else for_each (filter (is_type ResourceObjectStore) previewRes) (mirror_bucket actor bh beamID).

Definition reclaimObjectStore (r : Resource) : OM () :=
  deregisterObjStore (Res_BeamID r) (Res_Channel r) true;;
  unseal (Res_BeamhallID r) (Res_BeamID r) (Res_Channel r) objStoreChannelKeys;;
  unseal (Res_BeamhallID r) (Res_BeamID r) ChannelShared objStoreSharedKeys.

(** * Live databases (livechannel.go) *)

Definition mirror_database (actor : Actor) (bh : Beamhall) (beamSlug : string) (beamID : ID)
    (pr : Resource) : OM () :=
  let name := spec_get "name" pr in
  provisioned ← wrapping ("provision live database " +:+ quoted name +:+ ": ")
    (outside (db_Provision (MkDBRequest (Beamhall_Slug bh) (beamSlug +:+ "-live") name
                              (networkName (Beamhall_ID bh)))));
  let ref := MkSecretRef (Beamhall_ID bh) beamID (dbSecretKey name) ChannelLive in
  set ← attempt (in_store (Vault_Set ref (DSN provisioned) (Actor_ID actor)));
  match set with
  | inl err =>
      logged (outside (db_Drop provisioned));;
      throw (ErrWrap "seal live connection secret: " err)
  | inr _ =>
      in_store (CreateResource (MkResource no_id (Beamhall_ID bh) beamID ChannelLive
        ResourceDatabase ResourceReady ref
        {["name" := name; "database" := Database provisioned; "role" := Role provisioned]}
        (Database provisioned) None None));;
      mret tt
  end.
(** have[name] *)
Definition mirrored (liveRes : list Resource) (pr : Resource) : bool :=
  existsb (λ r, is_type ResourceDatabase r && bool_decide (spec_get "name" r = spec_get "name" pr))
    liveRes.
Definition reconcileLiveResources (actor : Actor) (bh : Beamhall) (beamSlug : string)
    (beamID : ID) : OM () :=
  mirrorLiveAuthClient actor bh beamSlug beamID;;
  reconcileLiveObjectStore actor bh beamID;;
  if negb (has_dbProv o) then mret tt
  else
  previewRes ← in_store (ListResourcesByBeamAndChannel beamID ChannelPreview);
  liveRes ← in_store (ListResourcesByBeamAndChannel beamID ChannelLive);
  for_each (filter (λ pr, is_type ResourceDatabase pr && negb (mirrored liveRes pr)) previewRes)
    (mirror_database actor bh beamSlug beamID).

(** * Reclaim on destroy (rollback.go, c2c.go) *)

Definition reclaim_resource (r : Resource) : OM () :=
  (if is_type ResourceDatabase r then
     (if has_dbProv o then
        logged (outside (db_Drop (MkProvisioned EmptyString (spec_get "database" r)
                                    (spec_get "role" r))))
      else mret tt);;
     (if decide (Ref_Key (Res_ConnectionSecretRef r) = EmptyString) then mret tt
      else logged (in_store (Vault_Delete (Res_ConnectionSecretRef r))))
   else mret tt);;
  (if is_type ResourceAuthClient r then reclaimAuthClient r else mret tt);;
  (if is_type ResourceEmail r then reclaimEmail r else mret tt);;
  (if is_type ResourceObjectStore r then reclaimObjectStore r else mret tt);;
  logged (in_store (DeleteResource (Res_ID r))).
Definition reclaimResources (beamID : ID) : OM () :=
  r ← attempt (in_store (ListResourcesByBeam beamID));
  match r with
  | inl _ => mret tt
  | inr resources => for_each resources reclaim_resource
  end.

Definition reclaimUserSecrets (beamhallID beamID : ID) : OM () :=
  r ← attempt (in_store (ListSecretsByBeamhall beamhallID));
  match r with
  | inl _ => mret tt
  | inr metas =>
      for_each (filter (λ m, Secret_BeamID m = beamID) metas) (λ m,
        logged (in_store (Vault_Delete
          (MkSecretRef beamhallID beamID (Secret_Key m) (Secret_Channel m)))))
  end.

Definition reclaimPeerGrants (beamID : ID) : OM () :=
  logged (in_store (DeleteBeamPeers beamID));;
  logged (in_store (DeleteC2CKey beamID)).
End facility.
