(* ===== verification/OrchAdmin.v ===== *)
(** IT administration (internal/orch/admin.go, admin_manage.go): creating and changing
    beamhalls, identities, memberships and egress, and what an administrator reads; published apps. *)
From S2P Require Import Prelude Regexp GoStrings GoNet Domain Gateway Store StoreOps AuditLog.
From S2P Require Import Policy Vault Outside Egress Orch Facility.

(** NewBeamhallSpec; an empty string of a Go enumeration is [None]. *)
Record NewBeamhallSpec := MkNewBeamhallSpec {
  NB_Slug : string;
  NB_DisplayName : string;
  NB_Department : string;
  NB_RuntimeClass : option RuntimeClass;
  NB_Template : option SecurityTemplate;
  NB_Quota : ResourceQuota;
  NB_LiveSlots : Z;
  NB_EgressMode : option EgressMode;
  NB_Allowlist : list string}.

Definition securityContextFor (tmpl : SecurityTemplate) (rc : RuntimeClass) (q : ResourceQuota)
    : SecurityContext :=
  let capAdd := "NET_BIND_SERVICE" ::
    match tmpl with
    | TemplateDataProcessor => ["CHOWN"]
    | TemplateDatabaseInit => ["DAC_OVERRIDE"]
    | _ => []
    end in
  let mem := if decide (MemCeiling q = 0%Z) then (512 * 2 ^ 20)%Z else MemCeiling q in
  let cpu := if decide (CPUCeiling q = 0%Z) then 100000%Z else CPUCeiling q in
  MkSecurityContext no_id no_id rc true ["ALL"] capAdd "default" EmptyString true true ["/tmp"]
    (MkResourceLimits cpu mem 256) tmpl.

Fixpoint validateAllowlist (entries : list string) : option error :=
  match entries with
  | [] => None
  | e :: entries =>
      match ValidateAllowEntry e with
      | Some err => Some err
      | None => validateAllowlist entries
      end
  end.

(** BeamhallUpdate: [None] leaves a field as it is; the status may be any string. *)
Record BeamhallUpdate := MkBeamhallUpdate {
  BU_MaxBeams : option Z;
  BU_MaxLiveSlots : option Z;
  BU_MaxDatabases : option Z;
  BU_Status : option (string + BeamhallStatus);
  BU_DisplayName : option string;
  BU_Department : option string}.
Definition negative (z : option Z) : bool :=
  match z with Some z => bool_decide (z < 0)%Z | None => false end.
(** The edits of AdminUpdateBeamhall, in order. *)
Definition update_beamhall (upd : BeamhallUpdate) (bh : Beamhall) : error + Beamhall :=
  if negative (BU_MaxBeams upd) then inl (ErrMsg "max_beams cannot be negative")
  else if negative (BU_MaxDatabases upd) then inl (ErrMsg "max_databases cannot be negative")
  else if negative (BU_MaxLiveSlots upd) then inl (ErrMsg "max_live_slots cannot be negative")
  else
  let q := Beamhall_Quota bh in
  let q := match BU_MaxBeams upd with Some n => q <| MaxBeams := n |> | None => q end in
  let q := match BU_MaxDatabases upd with Some n => q <| MaxDBCount := n |> | None => q end in
  let q := match BU_MaxLiveSlots upd with Some n => q <| MaxLiveSlots := n |> | None => q end in
  let bh := bh <| Beamhall_Quota := q |> in
  let bh := match BU_MaxLiveSlots upd with
            | Some n => bh <| Beamhall_LiveSlotLimit := n |> | None => bh end in
  bh ← match BU_Status upd with
       | Some (inr s) => inr (bh <| Beamhall_Status := s |>)
       | Some (inl s) =>
           inl (ErrMsg ("status must be active, suspended or archived, got " +:+ quoted s))
       | None => inr bh
       end;
  let bh := match BU_DisplayName upd with
            | Some s => bh <| Beamhall_DisplayName := s |> | None => bh end in
  let bh := match BU_Department upd with
            | Some s => bh <| Beamhall_Department := s |> | None => bh end in
  inr bh.

(** The read models. *)
Record AuditEntry := MkAuditEntry {
  AE_Seq : Z;
  AE_At : time;
  AE_Action : string;
  AE_Decision : AuditDecision;
  AE_Actor : ID;
  AE_Beamhall : ID;
  AE_Beam : ID;
  AE_Reason : string;
  AE_ResultStatus : string;
  AE_SourceIP : string}.
Definition audit_entry (r : AuditRecord) : AuditEntry :=
  let e := Rec_Event r in
  MkAuditEntry (Rec_Seq r) (Ev_At e) (Ev_Action e) (Ev_Decision e) (Ev_ActorID e)
    (Ev_BeamhallID e) (Ev_BeamID e) (Ev_Reason e) (Ev_ResultStatus e) (Ev_SourceIP e).
Definition auditQueryDefaultLimit : Z := 100.
Definition auditQueryMaxLimit : Z := 1000.
Definition query_limit (limit : Z) : Z :=
  let limit := if decide (limit ≤ 0)%Z then auditQueryDefaultLimit else limit in
  if decide (auditQueryMaxLimit < limit)%Z then auditQueryMaxLimit else limit.

Record MemberView := MkMemberView {
  MV_IdentityID : ID;
  MV_Subject : string;
  MV_Email : string;
  MV_Role : MembershipRole}.
Record BeamView := MkBeamView {
  BV_Slug : string;
  BV_State : BeamState;
  BV_Mode : BeamMode;
  BV_LiveState : BeamState;
  BV_PreviewURL : string;
  BV_LiveURL : string}.
Record BeamhallView := MkBeamhallView {
  BHV_Beamhall : Beamhall;
  BHV_Members : list MemberView;
  BHV_Beams : list BeamView}.
Record ReleaseEntry := MkReleaseEntry {
  RE_Label : string;
  RE_ReleaseID : ID;
  RE_Version : Z;
  RE_Current : bool;
  RE_CreatedAt : time}.
(** The live releases oldest first, numbered from [n] + 1. *)
Fixpoint number_releases (live : ID) (n : Z) (rels : list Release) : list ReleaseEntry :=
  match rels with
  | [] => []
  | r :: rels =>
      if decide (Rel_Channel r = ChannelLive) then
        MkReleaseEntry ("v" +:+ format_int (n + 1)) (Rel_ID r) (Rel_Version r)
          (bool_decide (Rel_ID r = live)) (Rel_CreatedAt r) :: number_releases live (n + 1) rels
      else number_releases live n rels
  end.

(** channelURLs over a beam's routes: the last active route of each kind. *)
Definition channel_urls (routes : list Route) : string * string :=
  foldl (λ urls rt,
    if decide (Route_Status rt = RouteActive) then
      let url := "https://" +:+ Route_Hostname rt in
      if decide (Route_Kind rt = RouteLive) then (urls.1, url) else (url, urls.2)
    else urls) (EmptyString, EmptyString) routes.

Section admin.
Context `{!Env, !Age, !Rand} {X C : Type} `{!Caddy C}.
Context `{!RuntimeDriver X, !Platform X}.
Context (o : Orchestrator).
Notation OM := (OM (X := X) (C := C)).

(** [if err := requireIT(actor); err != nil { return itAudit(..., err) }], then the
    operation and the record of its result. *)
Definition it_only_beam {A} (actor : Actor) (action : string) (beamhallID beamID : ID)
    (op : OM A) : OM A :=
  match requireIT actor with
  | Some err => itAuditBeam actor action beamhallID beamID (Some err);; throw err
  | None =>
      r ← attempt op;
      match r with
      | inl err => itAuditBeam actor action beamhallID beamID (Some err);; throw err
      | inr a => itAuditBeam actor action beamhallID beamID None;; mret a
      end
  end.
Definition it_only {A} (actor : Actor) (action : string) (beamhallID : ID) (op : OM A) : OM A :=
  it_only_beam actor action beamhallID no_id op.
(** A read: gated, not recorded. *)
Definition it_read {A} (actor : Actor) (op : OM A) : OM A :=
  check (requireIT actor);; op.

(** * Beamhalls, identities, memberships (admin.go) *)

Definition createBeamhall (spec : NewBeamhallSpec) : OM Beamhall :=
  if negb (MatchString slugRe (NB_Slug spec)) then
    throw (ErrMsg ("invalid slug " +:+ quoted (NB_Slug spec)
                   +:+ ": lowercase letters, digits, inner hyphens (max 32)"))
  else
  check (validateAllowlist (NB_Allowlist spec));;
  let bh := MkBeamhall no_id (NB_Slug spec) (NB_DisplayName spec) (NB_Department spec)
              BeamhallActive no_id
              (MkNetworkPolicy (default EgressDenyAll (NB_EgressMode spec)) (NB_Allowlist spec))
              (NB_Quota spec) (NB_LiveSlots spec) no_id None None in
  let sc := securityContextFor (default TemplateWebApp (NB_Template spec))
              (default RuntimeRunc (NB_RuntimeClass spec)) (NB_Quota spec) in
  r ← in_store (CreateBeamhall bh sc);
  mret r.1.
Definition Admin_CreateBeamhall (actor : Actor) (spec : NewBeamhallSpec) : OM Beamhall :=
  match requireIT actor with
  | Some err => itAudit actor "admin_create_beamhall" no_id (Some err);; throw err
  | None =>
      r ← attempt (createBeamhall spec);
      match r with
      | inl err => itAudit actor "admin_create_beamhall" no_id (Some err);; throw err
      | inr bh => itAudit actor "admin_create_beamhall" (Beamhall_ID bh) None;; mret bh
      end
  end.

Definition register_identity (issuer subject email displayName : string) : OM Identity :=
  if decide (issuer = EmptyString ∨ subject = EmptyString) then
    throw (ErrMsg "issuer and subject are required")
  else
  existing ← attempt (in_store (GetIdentityByIssuerSubject issuer subject));
  match existing with
  | inr ident => mret ident
  | inl _ =>
      in_store (CreateIdentity (MkIdentity no_id subject email displayName issuer
                                  IdentityActive None))
  end.
Definition RegisterIdentity (actor : Actor) (issuer subject email displayName : string)
    : OM Identity :=
  it_only actor "admin_register_identity" no_id
    (register_identity issuer subject email displayName).

Definition GrantMembership (actor : Actor) (identityID beamhallID : ID) (role : MembershipRole)
    : OM () :=
  it_only actor "admin_grant_membership" beamhallID (
    wrapping "identity: " (in_store (GetIdentity identityID));;
    wrapping "beamhall: " (in_store (GetBeamhall beamhallID));;
    in_store (CreateMembership (MkMembership no_id identityID beamhallID role (Actor_ID actor) None));;
    mret tt).

Definition set_egress (beamhallID : ID) (mode : EgressMode) (allowlist : list string) : OM () :=
  check (validateAllowlist allowlist);;
  bh ← in_store (GetBeamhall beamhallID);
  in_store (UpdateBeamhall (bh <| Beamhall_NetworkPolicy := MkNetworkPolicy mode allowlist |>));;
  if has_egressSync o then outside egress_sync else mret tt.
Definition SetEgress (actor : Actor) (beamhallID : ID) (mode : EgressMode)
    (allowlist : list string) : OM () :=
  it_only actor "admin_set_egress" beamhallID (set_egress beamhallID mode allowlist).

Definition AdminListBeamhalls (actor : Actor) : OM (list Beamhall) :=
  it_read actor (in_store ListBeamhalls).

Definition member_view (m : Membership) : OM MemberView :=
  r ← attempt (in_store (GetIdentity (Membership_IdentityID m)));
  let '(subject, email) := match r with
                           | inr i => (Identity_ExternalSubject i, Identity_Email i)
                           | inl _ => (EmptyString, EmptyString)
                           end in
  mret (MkMemberView (Membership_IdentityID m) subject email (Membership_Role m)).
Definition channelURLs (beamID : ID) : OM (string * string) :=
  r ← attempt (in_store (ListRoutesByBeam beamID));
  mret (match r with
        | inr routes => channel_urls routes
        | inl _ => (EmptyString, EmptyString)
        end).
Definition beam_view (b : Beam) : OM BeamView :=
  urls ← channelURLs (Beam_ID b);
  mret (MkBeamView (Beam_Slug b) (Beam_State b) (Beam_Mode b) (Beam_LiveState b)
          urls.1 urls.2).
Fixpoint collect {A B} (f : A → OM B) (l : list A) : OM (list B) :=
  match l with
  | [] => mret []
  | x :: l => y ← f x; ys ← collect f l; mret (y :: ys)
  end.
Definition AdminBeamhallView (actor : Actor) (slug : string) : OM BeamhallView :=
  it_read actor (
    bh ← in_store (GetBeamhallBySlug slug);
    mems ← in_store (ListMembershipsByBeamhall (Beamhall_ID bh));
    members ← collect member_view mems;
    beams ← in_store (ListBeamsByBeamhall (Beamhall_ID bh));
    views ← collect beam_view beams;
    mret (MkBeamhallView bh members views)).

Definition EnsureOperator (issuer subject email : string) : OM ID :=
  existing ← attempt (in_store (GetIdentityByIssuerSubject issuer subject));
  match existing with
  | inr ident => mret (Identity_ID ident)
  | inl _ =>
      ident ← in_store (CreateIdentity (MkIdentity no_id subject email email issuer
                                          IdentityActive None));
      mret (Identity_ID ident)
  end.

(** * The update and delete half (admin_manage.go) *)

Definition AdminQueryAudit (actor : Actor) (beamhallSlug : string) (afterSeq limit : Z)
    : OM (list AuditEntry) :=
  it_read actor (
    let n := Z.to_nat (query_limit limit) in
    recs ← (if decide (beamhallSlug = EmptyString) then in_store (ListAuditEvents afterSeq n)
            else
              r ← attempt (in_store (GetBeamhallBySlug beamhallSlug));
              match r with
              | inl _ => throw (ErrMsg ("no beamhall named " +:+ quoted beamhallSlug))
              | inr bh => in_store (ListAuditEventsByBeamhall (Beamhall_ID bh) afterSeq n)
              end);
    mret (audit_entry <$> recs)).

(** [fuel] bounds the batches of Verify. *)
Definition AdminVerifyAuditChain (fuel : nat) (actor : Actor)
    : OM (option (list Issue) * option AuditCheckpoint) :=
  it_read actor (
    issues ← in_store (Verify fuel);
    cp ← in_store LatestAuditCheckpoint;
    mret (issues, cp)).

Definition RevokeMembership (actor : Actor) (identityID beamhallID : ID) : OM () :=
  it_only actor "admin_revoke_membership" beamhallID (
    r ← attempt (in_store (GetMembership identityID beamhallID));
    match r with
    | inl _ => throw (ErrMsg "that identity has no membership in this beamhall")
    | inr m => in_store (DeleteMembership (Membership_ID m))
    end).

Definition SetMembershipRole (actor : Actor) (identityID beamhallID : ID) (role : MembershipRole)
    : OM () :=
  it_only actor "admin_set_membership_role" beamhallID (
    r ← attempt (in_store (UpdateMembershipRole identityID beamhallID role (Actor_ID actor)));
    match r with
    | inr _ => mret tt
    | inl e =>
        if is_not_found e then
          throw (ErrMsg "that identity has no membership in this beamhall — grant one first")
        else throw e
    end).

(** The status is a string the caller chose. *)
Definition SetIdentityStatus (actor : Actor) (identityID : ID) (status : string + IdentityStatus)
    : OM () :=
  it_only actor "admin_set_identity_status" no_id (
    match status with
    | inl s => throw (ErrMsg ("status must be " +:+ quoted "active" +:+ " or "
                              +:+ quoted "disabled" +:+ ", got " +:+ quoted s))
    | inr status =>
        ident ← wrapping ("identity " +:+ quoted identityID +:+ ": ")
                  (in_store (GetIdentity identityID));
        in_store (UpdateIdentity (ident <| Identity_Status := status |>))
    end).

Definition DeregisterIdentity (actor : Actor) (identityID : ID) : OM () :=
  it_only actor "admin_deregister_identity" no_id (
    r ← attempt (in_store (GetIdentity identityID));
    match r with
    | inl _ => throw (ErrMsg ("identity " +:+ quoted identityID +:+ " is not registered"))
    | inr _ =>
        mships ← in_store (ListMembershipsByIdentity identityID);
        if decide (0 < length mships) then
          throw (ErrMsg ("identity still has " +:+ format_int (Z.of_nat (length mships))
            +:+ " workspace membership(s) — revoke them first (admin_revoke_membership)"))
        else in_store (DeleteIdentity identityID)
    end).

Definition edit_beamhall (slug : string) (upd : BeamhallUpdate)
    (found : error + Beamhall) : OM Beamhall :=
  match found with
  | inl _ => throw (ErrMsg ("no beamhall named " +:+ quoted slug))
  | inr bh =>
      match update_beamhall upd bh with
      | inl err => throw err
      | inr bh => in_store (UpdateBeamhall bh)
      end
  end.
(** The beamhall's id is on the record as soon as the slug resolved. *)
Definition AdminUpdateBeamhall (actor : Actor) (slug : string) (upd : BeamhallUpdate)
    : OM Beamhall :=
  let action := "admin_update_beamhall" in
  match requireIT actor with
  | Some err => itAudit actor action no_id (Some err);; throw err
  | None =>
      found ← attempt (in_store (GetBeamhallBySlug slug));
      let bhID := match found with inl _ => no_id | inr bh => Beamhall_ID bh end in
      r ← attempt (edit_beamhall slug upd found);
      match r with
      | inl err => itAudit actor action bhID (Some err);; throw err
      | inr bh => itAudit actor action bhID None;; mret bh
      end
  end.

Definition AdminListReleases (actor : Actor) (beamID : ID) : OM (list ReleaseEntry) :=
  it_read actor (
    beam ← in_store (GetBeam beamID);
    rels ← in_store (ListReleasesByBeam beamID);
    mret (rev (number_releases (Beam_LiveReleaseID beam) 0 (rev rels)))).

Definition AdminListIdentities (actor : Actor) : OM (list Identity) :=
  it_read actor (in_store ListIdentities).
End admin.

(** * The using tier (internal/orch/audience.go): publishing an app to an audience, and what
    a person who builds nothing can find: the apps published to them, no others, and no
    difference between an app that is not theirs and one that does not exist. *)

Definition ErrAppNotPublished : error := ErrMsg "not published to you".

Record AudienceSpec := MkAudienceSpec {
  AS_Audience : Audience;
  AS_Description : string;
  AS_SetDescription : bool;
  AS_Clear : bool}.

Record AppView := MkAppView {
  AV_App : string;
  AV_DisplayName : string;
  AV_Description : string;
  AV_Workspace : string;
  AV_URL : string;
  AV_Live : bool;
  AV_SignIn : string;
  AV_AgentTools : bool;
  AV_PublishedAt : time}.
#[export] Instance AppView_eq_dec : EqDecision AppView.
Proof. solve_decision. Defined.

(** sort.Slice by workspace, then app. *)
Definition sort_views (l : list AppView) : list AppView :=
  order_by AV_Workspace (order_by AV_App l).
(** AmbiguousAppError *)
Definition ambiguous (app : string) (workspaces : list string) : error :=
  ErrAmbiguousApp app (sort_strings workspaces).

(** errors.Is(err, store.ErrConflict) *)
Fixpoint is_conflict (e : error) : bool :=
  match e with
  | ErrConflict _ => true
  | ErrWrap _ e | ErrAround _ e _ => is_conflict e
  | _ => false
  end.

Section audience.
Context `{!Env, !Age, !Rand} {X C : Type} `{!Caddy C}.
Context `{!RuntimeDriver X, !Platform X}.
Context (o : Orchestrator).
Notation OM := (OM (X := X) (C := C)).

Definition setAppAudience (actor : Actor) (beamhallID beamID : ID) (spec : AudienceSpec) : OM () :=
  beam ← operableBeam beamhallID beamID;
  if AS_Clear spec then in_store (DeleteBeamAudience beamID)
  else if IsEmpty (AS_Audience spec) then
    throw (ErrMsg "an audience of nobody is the same as unpublished — pass everyone, groups, or identities; to unpublish, pass clear")
  else
  in_store (PutBeamAudience
    (MkBeamAudience beamID beamhallID (AS_Audience spec) (Actor_ID actor) None None));;
  if AS_SetDescription spec then
    wrapping "published, but updating the description failed: "
      (in_store (UpdateBeam (beam <| Beam_Description := AS_Description spec |>)));;
    mret tt
  else mret tt.
Definition SetAppAudience (actor : Actor) (beamhallID beamID : ID) (spec : AudienceSpec) : OM () :=
  it_only_beam actor "admin_set_app_audience" beamhallID beamID
    (setAppAudience actor beamhallID beamID spec).

Definition beamSignIn (beamID : ID) : OM string :=
  r ← attempt (in_store (ListResourcesByBeam beamID));
  mret (match r with
        | inr resources =>
            if existsb (λ r, is_type ResourceAuthClient r
                             && negb (bool_decide (Res_Status r = ResourceDeleting))) resources
            then "company_sso" else "app_managed"
        | inl _ => "app_managed"
        end).

Definition appView (pub : BeamAudience) : OM (option AppView) :=
  beam ← attempt (in_store (GetBeam (BA_BeamID pub)));
  match beam with
  | inl _ => mret None
  | inr beam =>
  if decide (Beam_Status beam ≠ BeamActive) then mret None
  else
  bh ← attempt (in_store (GetBeamhall (BA_BeamhallID pub)));
  match bh with
  | inl _ => mret None
  | inr bh =>
  if decide (Beamhall_Status bh ≠ BeamhallActive) then mret None
  else
  signIn ← beamSignIn (Beam_ID beam);
  let live := bool_decide (Beam_LiveState beam = StateLive) in
  let view url tools := MkAppView (Beam_Slug beam) (Beam_DisplayName beam)
    (Beam_Description beam) (Beamhall_Slug bh) url live signIn tools (BA_PublishedAt pub) in
  if negb live then mret (Some (view EmptyString false))
  else
  let url := "https://" +:+ liveHost o (Beam_Slug beam) (Beamhall_Slug bh) in
  if decide (Beam_LiveReleaseID beam = no_id) then mret (Some (view url false))
  else
  rel ← attempt (in_store (GetRelease (Beam_LiveReleaseID beam)));
  mret (Some (view url (match rel with
    | inr rel => bool_decide (Rel_ConfigSnapshot rel !! "agent_tools" = Some "true")
    | inl _ => false
    end)))
  end end.

(** One publication of the loop: [None] when it is skipped. *)
Definition visible (actor : Actor) (pub : BeamAudience) : OM (option AppView) :=
  if Allows (BA_Audience pub) (Actor_ID actor) (Actor_Groups actor) then appView pub
  else mret None.
Fixpoint visible_apps (actor : Actor) (pubs : list BeamAudience)
    : OM (list (BeamAudience * AppView)) :=
  match pubs with
  | [] => mret []
  | pub :: pubs =>
      v ← visible actor pub;
      rest ← visible_apps actor pubs;
      mret (match v with Some v => (pub, v) :: rest | None => rest end)
  end.

Definition ListApps (actor : Actor) : OM (list AppView) :=
  pubs ← in_store ListBeamAudiences;
  apps ← visible_apps actor pubs;
  mret (sort_views (snd <$> apps)).

Definition named (app workspace : string) (v : AppView) : bool :=
  bool_decide (AV_App v = app ∧ (workspace = EmptyString ∨ AV_Workspace v = workspace)).
Definition resolvePublishedApp (actor : Actor) (app workspace : string)
    : OM (BeamAudience * AppView) :=
  pubs ← in_store ListBeamAudiences;
  apps ← visible_apps actor pubs;
  match filter (λ pv, named app workspace pv.2) apps with
  | [] => throw ErrAppNotPublished
  | [pv] => mret pv
  | pvs => throw (ambiguous app ((λ pv, AV_Workspace pv.2) <$> pvs))
  end.
Definition DescribeApp (actor : Actor) (app workspace : string) : OM AppView :=
  pv ← resolvePublishedApp actor app workspace; mret pv.2.

Definition RegisterUserIdentity (issuer subject email : string) : OM Identity :=
  if negb (AutoRegister o) then
    throw (ErrMsg "user auto-registration is disabled on this appliance")
  else if decide (issuer = EmptyString ∨ subject = EmptyString) then
    throw (ErrMsg "issuer and subject are required")
  else
  existing ← attempt (in_store (GetIdentityByIssuerSubject issuer subject));
  match existing with
  | inr ident => mret ident
  | inl _ =>
      created ← attempt (in_store (CreateIdentity
        (MkIdentity no_id subject email subject issuer IdentityActive None)));
      match created with
      | inl e =>
          if is_conflict e then in_store (GetIdentityByIssuerSubject issuer subject)
          else throw e
      | inr ident =>
          r ← attempt (in_store (Append (MkAuditEvent no_id None (Identity_ID ident) EmptyString
                 no_id no_id "user_auto_register" DecisionAllow EmptyString EmptyString "ok"
                 EmptyString EmptyString EmptyString)));
          match r with
          | inl e => throw (ErrWrap "identity registered but could NOT be recorded on the audit chain: " e)
          | inr _ => mret ident
          end
      end
  end.
End audience.
