(* ===== verification/OrchSensitive.v ===== *)
(** Administration of the identity provider and the sensitive tier: requests another
    administrator must approve (internal/orch/identityadmin.go), appliance backups
    (backup.go) and self-upgrade (upgrade.go). *)
From S2P Require Import Prelude Regexp GoStrings GoNet Json Domain Gateway Store StoreOps.
From S2P Require Import AuditLog Policy Vault Outside Orch Facility OrchAdmin.

(** * Payloads *)

(** The intent of a sensitive action, the struct that is marshalled. *)
Inductive Payload :=
  | FederatePayload (d : DirectoryFederation)
  | UnfederatePayload (name : string)
  | SetSecurityContextPayload (slug runtimeClass : string)
  | PruneAuditPayload (throughSeq : Z)
  | RestoreBackupPayload (name : string)
  | SelfUpgradePayload (version expectedSHA256 : string).
Definition payload_type (p : Payload) : AdminActionType :=
  match p with
  | FederatePayload _ => AdminActionFederateDirectory
  | UnfederatePayload _ => AdminActionUnfederateDirectory
  | SetSecurityContextPayload _ _ => AdminActionSetSecurityContext
  | PruneAuditPayload _ => AdminActionPruneAudit
  | RestoreBackupPayload _ => AdminActionRestoreBackup
  | SelfUpgradePayload _ _ => AdminActionSelfUpgrade
  end.
Definition payload_members (p : Payload) : list (string * jval) :=
  match p with
  | FederatePayload d =>
      [("Name", JStr (DF_Name d)); ("Vendor", JStr (DF_Vendor d));
       ("ConnectionURL", JStr (DF_ConnectionURL d)); ("UsersDN", JStr (DF_UsersDN d));
       ("BindDN", JStr (DF_BindDN d)); ("BindCredential", JStr (DF_BindCredential d))]
  | UnfederatePayload name | RestoreBackupPayload name => [("Name", JStr name)]
  | SetSecurityContextPayload slug rc => [("Slug", JStr slug); ("RuntimeClass", JStr rc)]
  | PruneAuditPayload n => [("ThroughSeq", JInt n)]
  | SelfUpgradePayload v sha => [("Version", JStr v); ("ExpectedSHA256", JStr sha)]
  end.
(** json.Unmarshal into the struct of the action's type. *)
Definition decode_payload (typ : AdminActionType) (raw : string) : option Payload :=
  m ← Unmarshal raw;
  match typ with
  | AdminActionFederateDirectory =>
      name ← str_field "Name" m; vendor ← str_field "Vendor" m;
      url ← str_field "ConnectionURL" m; users ← str_field "UsersDN" m;
      bind ← str_field "BindDN" m; cred ← str_field "BindCredential" m;
      Some (FederatePayload (MkDirectoryFederation name vendor url users bind cred))
  | AdminActionUnfederateDirectory => name ← str_field "Name" m; Some (UnfederatePayload name)
  | AdminActionSetSecurityContext =>
      slug ← str_field "Slug" m; rc ← str_field "RuntimeClass" m;
      Some (SetSecurityContextPayload slug rc)
  | AdminActionPruneAudit => n ← int_field "ThroughSeq" m; Some (PruneAuditPayload n)
  | AdminActionRestoreBackup => name ← str_field "Name" m; Some (RestoreBackupPayload name)
  | AdminActionSelfUpgrade =>
      v ← str_field "Version" m; sha ← str_field "ExpectedSHA256" m;
      Some (SelfUpgradePayload v sha)
  | AdminActionOther _ => None
  end.
Definition decoding (typ : AdminActionType) : string :=
  match typ with
  | AdminActionFederateDirectory => "decode federation payload"
  | AdminActionUnfederateDirectory => "decode unfederate payload"
  | AdminActionSetSecurityContext => "decode security-context payload"
  | AdminActionPruneAudit => "decode prune payload"
  | AdminActionRestoreBackup => "decode restore payload"
  | AdminActionSelfUpgrade => "decode upgrade payload"
  | AdminActionOther _ => EmptyString
  end.

Definition vendorLabel (v : string) : string :=
  if decide (v = "ad") then "Active Directory" else "LDAP".
Definition sensitive_off : error :=
  ErrMsg "the sensitive admin tier is disabled on this appliance; set BEAMHALL_IDP_SENSITIVE_ADMIN=on to permit sensitive actions (they still require a second IT operator's approval)".
Definition idp_not_enabled : error :=
  ErrMsg "IdP administration is not enabled on this Beamhall appliance (no owned/bundled IdP configured)".
Definition ErrBackupNotConfigured : error :=
  ErrMsg "appliance backups are not configured on this deployment".
Definition expectedSHA256Re : re :=
  Cat AtStart (Cat (Times 64 (Class_ (λ c, is_digit c || in_range 97 102 c || in_range 65 70 c)))
    AtEnd).

Record BackupInfo := MkBackupInfo {
  BI_Name : string;
  BI_CreatedAt : string;
  BI_SizeBytes : Z;
  BI_HasKey : bool;
  BI_HasRepos : bool;
  BI_Valid : bool;
  BI_Error : string}.
#[export] Instance Eta_BackupInfo : Eta BackupInfo := λ x, MkBackupInfo (BI_Name x)
  (BI_CreatedAt x) (BI_SizeBytes x) (BI_HasKey x) (BI_HasRepos x) (BI_Valid x) (BI_Error x).

Section sensitive.
Context `{!Env, !Age, !Rand} {X C : Type} `{!Caddy C}.
Context `{!RuntimeDriver X, !Platform X, !Directory X, !Appliance X}.
(** filepath.Join of the backup directory and a name, and the operating system the
    appliance is built for. *)
Context (o : Orchestrator) (path_join : string → string → string) (goos_goarch : string).
Notation OM := (OM (X := X) (C := C)).

(** * Accounts and groups of the owned provider (identityadmin.go) *)

(** With no owned provider every mutating call fails (identityadmin.Disabled). *)
Definition idp {A} (f : ext X A) : OM A :=
  if idpEnabled o then outside f else throw idp_not_enabled.

Definition AdminCreateUser (actor : Actor) (u : NewUser) : OM User :=
  it_only actor "admin_create_user" no_id (idp (idp_CreateUser u)).
Definition AdminListUsers (actor : Actor) (q : string) (max : Z) : OM (list User) :=
  it_read actor (idp (idp_ListUsers q max)).
Definition AdminSetUserPassword (actor : Actor) (userID password : string) : OM () :=
  it_only actor "admin_set_user_password" no_id (idp (idp_SetTemporaryPassword userID password)).
Definition AdminSetUserEnabled (actor : Actor) (userID : string) (enabled : bool) : OM () :=
  it_only actor "admin_set_user_enabled" no_id (idp (idp_SetUserEnabled userID enabled)).
Definition AdminCreateGroup (actor : Actor) (name : string) : OM Group :=
  it_only actor "admin_create_group" no_id (idp (idp_CreateGroup name)).
Definition AdminListGroups (actor : Actor) : OM (list Group) :=
  it_read actor (idp idp_ListGroups).
Definition AdminAddUserToGroup (actor : Actor) (userID groupID : string) : OM () :=
  it_only actor "admin_add_user_to_group" no_id (idp (idp_AddUserToGroup userID groupID)).
Definition AdminRemoveUserFromGroup (actor : Actor) (userID groupID : string) : OM () :=
  it_only actor "admin_remove_user_from_group" no_id
    (idp (idp_RemoveUserFromGroup userID groupID)).
Definition AdminDeleteUser (actor : Actor) (userID : string) : OM () :=
  it_only actor "admin_delete_user" no_id (idp (idp_DeleteUser userID)).
Definition AdminDeleteGroup (actor : Actor) (groupID : string) : OM () :=
  it_only actor "admin_delete_group" no_id (idp (idp_DeleteGroup groupID)).

(** * Backups (backup.go) *)

Definition describeBackup (name : string) : OM BackupInfo :=
  let path := path_join (backupDir o) name in
  size ← attempt (outside (os_Size path));
  let info := MkBackupInfo name EmptyString (match size with inr n => n | inl _ => 0%Z end)
                false false false EmptyString in
  man ← attempt (outside (backup_Verify path));
  mret (match man with
        | inl e => info <| BI_Error := Error e |>
        | inr man => info <| BI_Valid := true |> <| BI_CreatedAt := Man_CreatedAt man |>
            <| BI_HasKey := Man_HasKey man |> <| BI_HasRepos := Man_HasRepos man |>
        end).
Definition backup_name (now : time) : string := "beamhall-" +:+ FormatBasic now +:+ ".tar.gz".
Definition AdminBackupNow (actor : Actor) (now : time) : OM BackupInfo :=
  it_only actor "admin_backup_now" no_id (
    if decide (backupDir o = EmptyString) then throw ErrBackupNotConfigured
    else
    outside (os_MkdirAll (backupDir o));;
    outside (backup_Create (backupDataDir o) (backupKeyPath o)
               (path_join (backupDir o) (backup_name now)) now);;
    describeBackup (backup_name now)).
Definition HasSuffix (s suf : string) : bool := HasPrefix (reverse s) (reverse suf).
Definition AdminListBackups (actor : Actor) : OM (list BackupInfo) :=
  it_read actor (
    if decide (backupDir o = EmptyString) then throw ErrBackupNotConfigured
    else
    entries ← outside (os_ReadDir (backupDir o));
    match entries with
    | None => mret []
    | Some entries =>
        infos ← collect describeBackup
          (filter (λ name, HasSuffix name ".tar.gz") (fst <$> filter (λ e, e.2 = false) entries));
        mret (rev (order_by BI_Name infos))
    end).

Definition executeRestoreBackup (name : string) : OM string :=
  let path := path_join (backupDir o) name in
  man ← wrapping ("verify backup " +:+ quoted name +:+ ": ") (outside (backup_Verify path));
  let key := path_join (backupDataDir o) "secret.key" in
  let steps :=
    ["systemctl stop beamhalld"; "beamhalld restore " +:+ path]
    ++ (if decide (backupKeyPath o ≠ EmptyString ∧ backupKeyPath o ≠ key) then
          ["install -m0400 " +:+ backupDataDir o +:+ "/secret.key " +:+ backupKeyPath o
           +:+ "   # IMPORTANT: this appliance reads its key out-of-band from " +:+ backupKeyPath o
           +:+ " — the restore drops the recovered key in the data dir; it must be relocated BEFORE the next step or boot fails closed or (worse) starts against the wrong key, leaving every restored secret undecryptable"]
        else [])
    ++ ["systemctl start beamhalld"] in
  mret ("backup " +:+ quoted name +:+ " verified (created " +:+ Man_CreatedAt man
    +:+ "). Restore overwrites the whole control plane, so apply it on the appliance host under a stopped daemon — run these as SEPARATE steps (do not chain with &&, so you can check each one before continuing):"
    +:+ foldr (λ s t, String newline ("  " +:+ s +:+ t)) EmptyString steps).

(** * Self-upgrade (upgrade.go) *)

Definition executeSelfUpgrade (version sha : string) : OM string :=
  if negb (UpgradeEnabled o) then throw (ErrMsg "self-upgrade is not enabled on this appliance")
  else
  res ← outside (upgrade_Stage version sha);
  let line s := String newline ("  " +:+ s) in
  mret (Staged_Version res +:+ " staged + checksum-verified (sha256 "
    +:+ String.substring 0 12 (Staged_SHA256 res)
    +:+ "…, matched the approver's expected digest) at " +:+ Staged_Path res
    +:+ ". It is NOT live yet — apply on the appliance host (atomic swap + restart):"
    +:+ line (ApplyCmd res) +:+ String newline "Roll back with:" +:+ line (RollbackCmd res)).

(** * The sensitive tier: requests (identityadmin.go) *)

Definition requireSensitiveTier : option error :=
  if idpSensitive o then None else Some sensitive_off.

Definition requestSensitive (actor : Actor) (summary : string) (payload : Payload)
    : OM AdminActionRequest :=
  sealed ← wrapping "seal sensitive payload: "
    (in_store (Seal (Marshal (payload_members payload))));
  in_store (CreateAdminActionRequest
    (MkAdminActionRequest no_id (payload_type payload) summary sealed (Actor_ID actor)
       AdminActionPending EmptyString EmptyString None no_id None)).

Definition RequestFederateDirectory (actor : Actor) (d : DirectoryFederation)
    : OM AdminActionRequest :=
  it_only actor "admin_request_federate_directory" no_id (
    check requireSensitiveTier;;
    if negb (idpEnabled o) then throw idp_not_enabled
    else requestSensitive actor
      ("federate directory " +:+ quoted (DF_Name d) +:+ " (" +:+ vendorLabel (DF_Vendor d)
       +:+ ") → " +:+ DF_ConnectionURL d +:+ " users_dn=" +:+ DF_UsersDN d)
      (FederatePayload d)).

Definition RequestUnfederateDirectory (actor : Actor) (name : string) : OM AdminActionRequest :=
  it_only actor "admin_request_unfederate_directory" no_id (
    check requireSensitiveTier;;
    if negb (idpEnabled o) then throw idp_not_enabled
    else if decide (name = EmptyString) then throw (ErrMsg "federation name is required")
    else requestSensitive actor
      ("REMOVE directory federation " +:+ quoted name +:+ " (its directory users lose access)")
      (UnfederatePayload name)).

(** The beamhall is on the record of a request that was filed or failed to be. *)
Definition RequestSetSecurityContext (actor : Actor) (slug : string) (runtimeClass : RuntimeClass)
    : OM AdminActionRequest :=
  let action := "admin_request_set_security_context" in
  let refuse err := itAudit actor action no_id (Some err);; throw err in
  match requireIT actor with
  | Some err => refuse err
  | None =>
  match requireSensitiveTier with
  | Some err => refuse err
  | None =>
  match runtimeClass with
  | RuntimeOther s => refuse (ErrMsg ("runtime_class must be runc or runsc, got " +:+ quoted s))
  | _ =>
      found ← attempt (in_store (GetBeamhallBySlug slug));
      match found with
      | inl _ => refuse (ErrMsg ("no beamhall named " +:+ quoted slug))
      | inr bh =>
          it_only actor action (Beamhall_ID bh) (requestSensitive actor
            ("set runtime_class of beamhall " +:+ quoted slug +:+ " to "
             +:+ RuntimeClass_string runtimeClass
             +:+ " (changes isolation tier; applies to new deploys)")
            (SetSecurityContextPayload slug (RuntimeClass_string runtimeClass)))
      end
  end end end.

Definition RequestPruneAudit (actor : Actor) (throughSeq : Z) : OM AdminActionRequest :=
  it_only actor "admin_request_prune_audit" no_id (
    check requireSensitiveTier;;
    if decide (throughSeq ≤ 0)%Z then
      throw (ErrMsg "through_seq must be a positive audit sequence number")
    else requestSensitive actor
      ("PRUNE audit log through seq " +:+ format_int throughSeq
       +:+ " (writes a retention checkpoint; older rows are permanently removed)")
      (PruneAuditPayload throughSeq)).

Definition RequestRestoreBackup (actor : Actor) (name : string) : OM AdminActionRequest :=
  it_only actor "admin_request_restore_backup" no_id (
    if decide (backupDir o = EmptyString) then throw ErrBackupNotConfigured
    else
    check requireSensitiveTier;;
    info ← describeBackup name;
    if negb (BI_Valid info) then
      throw (ErrMsg ("backup " +:+ quoted name +:+ " not found or not verifiable: "
                     +:+ BI_Error info))
    else requestSensitive actor
      ("RESTORE appliance from backup " +:+ quoted name +:+ " (created " +:+ BI_CreatedAt info
       +:+ ") — overwrites the whole control plane")
      (RestoreBackupPayload name)).

Definition RequestUpgrade (actor : Actor) (version expectedSHA256 : string)
    : OM AdminActionRequest :=
  it_only actor "admin_request_upgrade" no_id (
    if negb (UpgradeEnabled o) then
      throw (ErrMsg "self-upgrade is not enabled on this appliance (set BEAMHALL_SELF_UPGRADE=on)")
    else
    check requireSensitiveTier;;
    if decide (version = EmptyString) then
      throw (ErrMsg "target version is required (e.g. v0.1.11)")
    else if negb (MatchString expectedSHA256Re expectedSHA256) then
      throw (ErrMsg ("expected_sha256 is required: a 64-character hex SHA-256 digest for the target release's "
        +:+ goos_goarch +:+ " asset, read off the GitHub release page — not derived from anything this appliance downloads itself"))
    else
    current ← gets (λ w, CurrentVersion (w_out w));
    requestSensitive actor
      ("SELF-UPGRADE " +:+ current +:+ " → " +:+ version
       +:+ " (replaces the policy-enforcing binary; staged + verified against the approver's own digest, applied by an operator)")
      (SelfUpgradePayload version (ToLower expectedSHA256))).

Definition ListPendingAdminActions (actor : Actor) : OM (list AdminActionRequest) :=
  it_read actor (in_store ListPendingAdminActionRequests).

(** * Approval and rejection *)

Definition set_security_context (slug rc : string) : OM () :=
  found ← attempt (in_store (GetBeamhallBySlug slug));
  match found with
  | inl _ => throw (ErrMsg ("no beamhall named " +:+ quoted slug))
  | inr bh =>
      sc ← in_store (GetSecurityContext (Beamhall_ID bh));
      in_store (UpdateSecurityContext (sc <| SC_RuntimeClass := RuntimeClass_of rc |>))
  end.
(** executeAdminAction after json.Unmarshal. *)
Definition execute_payload (approver : ID) (p : Payload) : OM string :=
  match p with
  | FederatePayload d =>
      idp (idp_FederateDirectory d);;
      mret ("directory " +:+ quoted (DF_Name d) +:+ " federated; its users can now authenticate")
  | UnfederatePayload name =>
      idp (idp_UnfederateDirectory name);;
      mret ("directory federation " +:+ quoted name
            +:+ " removed; its users can no longer authenticate")
  | SetSecurityContextPayload slug rc =>
      set_security_context slug rc;;
      mret ("beamhall " +:+ quoted slug +:+ " runtime_class set to " +:+ rc
            +:+ " (applies to new deploys)")
  | PruneAuditPayload throughSeq =>
      n ← in_store (PruneAuditThrough throughSeq approver);
      mret ("pruned " +:+ format_int n +:+ " audit row(s) through seq "
            +:+ format_int throughSeq +:+ "; retention checkpoint written")
  | RestoreBackupPayload name => executeRestoreBackup name
  | SelfUpgradePayload version sha => executeSelfUpgrade version sha
  end.
Definition executeAdminAction (approver : ID) (typ : AdminActionType) (raw : string) : OM string :=
  match typ with
  | AdminActionOther s => throw (ErrMsg ("unknown sensitive admin action " +:+ quoted s))
  | _ =>
      match decode_payload typ raw with
      | None => throw (ErrMsg (decoding typ +:+ ": malformed"))
      | Some p => execute_payload approver p
      end
  end.

(** The checks an approval passes, in order, and the execution; the request that was read
    goes along with an error, since the record of the approval names its type. *)
Definition decide_action (actor : Actor) (id : ID) (req : AdminActionRequest)
    : OM (AdminActionRequest * string) :=
  if decide (AAR_Status req ≠ AdminActionPending) then
    throw (ErrMsg ("request " +:+ id +:+ " is already "
                   +:+ AdminActionStatus_string (AAR_Status req)))
  else
  check requireSensitiveTier;;
  if decide (AAR_RequestedBy req = Actor_ID actor) then
    throw (ErrMsg "the requester cannot approve their own sensitive action (four-eyes); a different IT operator must approve")
  else
  plain ← wrapping "open sealed payload: " (in_store (Open (AAR_PayloadCipher req)));
  result ← executeAdminAction (Actor_ID actor) (AAR_ActionType req) plain;
  in_store (DecideAdminActionRequest id AdminActionApproved (Actor_ID actor) EmptyString result);;
  mret (req <| AAR_Status := AdminActionApproved |> <| AAR_DecidedBy := Actor_ID actor |>, result).
Definition approve_action_name (req : AdminActionRequest) : string :=
  let typ := AdminActionType_string (AAR_ActionType req) in
  if decide (typ = EmptyString) then "admin_approve_action" else "admin_approve_" +:+ typ.

Definition ApproveAdminAction (actor : Actor) (id : ID) : OM AdminActionRequest :=
  match requireIT actor with
  | Some err => itAudit actor "admin_approve_action" no_id (Some err);; throw err
  | None =>
      found ← attempt (in_store (GetAdminActionRequest id));
      match found with
      | inl err => itAudit actor "admin_approve_action" no_id (Some err);; throw err
      | inr req =>
          decided ← it_only actor (approve_action_name req) no_id (decide_action actor id req);
          mret (decided.1 <| AAR_Result := decided.2 |>)
      end
  end.

Definition RejectAdminAction (actor : Actor) (id : ID) (reason : string) : OM () :=
  it_only actor "admin_reject_action" no_id (
    req ← in_store (GetAdminActionRequest id);
    if decide (AAR_Status req ≠ AdminActionPending) then
      throw (ErrMsg ("request " +:+ id +:+ " is already "
                     +:+ AdminActionStatus_string (AAR_Status req)))
    else in_store (DecideAdminActionRequest id AdminActionRejected (Actor_ID actor) reason
                     EmptyString)).
End sensitive.
