(* ===== verification/OrchTools.v ===== *)
(** App tools and the beam-to-beam relay: the brokered calls of the using tier and of
    builders (internal/orch/apptools.go), and the grants, keys and calls between beams
    (internal/orch/c2c.go). *)
From S2P Require Import Prelude Regexp GoStrings GoNet Sha256 Diagnose Domain Gateway Store.
From S2P Require Import StoreOps AuditLog Policy Vault Scrub Outside Egress Orch AppTools.
From S2P Require Import Facility OrchAdmin.

Definition ErrAppNotLive : error := ErrMsg "the app is not live yet".
Definition ErrPeerAuth : error := ErrMsg "relay credentials were not accepted".
Definition ErrPeerNotGranted : error :=
  ErrMsg "no app by that name is reachable from this beam — ask IT to grant it (admin_set_beam_peers)".
Definition ErrPeerNotLive : error :=
  ErrMsg "the granted app is not live right now — its team must promote_to_live first".

(** errors.Is against one of these sentinels, and errors.As an AmbiguousAppError. *)
Fixpoint err_is (target e : error) : bool :=
  bool_decide (e = target)
  || match e with ErrWrap _ e | ErrAround _ e _ => err_is target e | _ => false end.
Fixpoint is_ambiguous (e : error) : bool :=
  match e with
  | ErrAmbiguousApp _ _ => true
  | ErrWrap _ e | ErrAround _ e _ => is_ambiguous e
  | _ => false
  end.

Record UseAppRequest := MkUseAppRequest {
  UR_App : string;
  UR_Workspace : string;
  UR_Tool : string;
  UR_Arguments : string}.
Record UseAppResult := MkUseAppResult {
  UA_View : option AppView;
  UA_Menu : option ToolManifest;
  UA_Result : string}.
#[export] Instance Eta_UseAppResult : Eta UseAppResult := λ r,
  MkUseAppResult (UA_View r) (UA_Menu r) (UA_Result r).
Definition useAppDigest (req : UseAppRequest) : string :=
  if decide (UR_Tool req = EmptyString) then "menu"
  else "tool=" +:+ UR_Tool req +:+ " args_sha256=" +:+ sha256_hex (UR_Arguments req).
Definition c2cDigest (ws app tool args : string) : string :=
  if decide (tool = EmptyString) then "peer=" +:+ ws +:+ "/" +:+ app +:+ " menu"
  else "peer=" +:+ ws +:+ "/" +:+ app +:+ " tool=" +:+ tool +:+ " args_sha256=" +:+ sha256_hex args.

Record PeerSpec := MkPeerSpec {
  PS_Peers : list string;
  PS_External : list string;
  PS_Clear : bool}.
Record PeerTargetView := MkPeerTargetView {
  PT_Workspace : string;
  PT_App : string;
  PT_Live : bool;
  PT_AgentTools : bool}.
Record SetBeamPeersResult := MkSetBeamPeersResult {
  SR_Grant : option BeamPeers;
  SR_Targets : list PeerTargetView;
  SR_KeyCreated : bool}.
Record BeamPeersView := MkBeamPeersView {
  PV_Targets : list PeerTargetView;
  PV_External : list string;
  PV_KeyMinted : bool;
  PV_PreviewHas : bool;
  PV_LiveHas : bool;
  PV_HasLiveChan : bool}.
Record BeamUpdate := MkBeamUpdate {
  BU_Description : option string;
  BU_DisplayName : option string}.

Definition sort_targets (l : list PeerTargetView) : list PeerTargetView :=
  order_by PT_Workspace (order_by PT_App l).
(** The loop over the external entries: each validated, stored trimmed. *)
Fixpoint check_external (entries : list string) : error + list string :=
  match entries with
  | [] => inr []
  | e :: rest =>
      match ValidateAllowEntry e with
      | Some err => inl err
      | None => match check_external rest with
                | inl err => inl err
                | inr l => inr (TrimSpace e :: l)
                end
      end
  end.

Section tools.
Context `{!Env, !Age, !Rand} {X C : Type} `{!Caddy C}.
Context `{!RuntimeDriver X, !Platform X}.
Context (o : Orchestrator).
Notation OM := (OM (X := X) (C := C)).

(** * Calling an app (apptools.go) *)

(** A limiter's answer; with no rate configured everything is allowed. *)
Definition allow (which : string) (rate : Z) (id : ID) : OM bool :=
  if decide (rate ≤ 0)%Z then mret true
  else λ w, let '(ok, x) := limiter_Allow which id (w_out w) in (inr ok, w <| w_out := x |>).
Definition useAppAllow (id : ID) : OM bool := allow "use" (useRatePerMinute o) id.

Definition callAppTool (actor : Actor) (callerType : string) (beamhallID beamID : ID)
    (addr channel tool args : string) : OM UseAppResult :=
  assertion ← wrapping "mint assertion: " (Mint (appIssuer o)
    (MkAssertion (Actor_ID actor) callerType (Actor_Email actor) (Actor_Groups actor)
       beamID channel tool));
  scrub ← in_store (ScrubberFor beamhallID beamID);
  if decide (tool = EmptyString) then
    m ← FetchManifest addr assertion;
    let scrubbed t := t <| Tool_Description := Scrub scrub (Tool_Description t) |> in
    mret (MkUseAppResult None (Some (m <| TM_Tools := scrubbed <$> TM_Tools m |>)) EmptyString)
  else
    out ← map_error (λ e, match e with
                          | ErrInvoke status body => ErrAppTool status (Scrub scrub body)
                          | e => e
                          end) (Invoke addr tool assertion args);
    mret (MkUseAppResult None None (Scrub scrub out)).

(** One attempt of resolveLiveBackend, [None] when it is to be retried: the active route of
    the live host, else what the driver says of the live release. *)
Definition driver_backend (beam : Beam) : OM (option string) :=
  if decide (Beam_CurrentReleaseID beam = no_id ∧ Beam_LiveReleaseID beam = no_id) then mret None
  else
  rel ← attempt (in_store (GetRelease (Beam_LiveReleaseID beam)));
  match rel with
  | inl _ => mret None
  | inr rel =>
      if decide (Handle_Ref (Rel_Workload rel) = EmptyString) then mret None
      else
      st ← attempt (outside (drv_Status (handleOf rel)));
      mret (match st with
            | inr st =>
                if decide (Status_State st = WorkloadRunning ∧ Status_BackendAddr st ≠ EmptyString)
                then Some (Status_BackendAddr st) else None
            | inl _ => None
            end)
  end.
Definition live_backend (beam : Beam) (host : string) : OM (option string) :=
  route ← attempt (in_store (GetActiveRouteByHostname host));
  match route with
  | inr route =>
      if decide (Route_BackendAddr route = EmptyString) then driver_backend beam
      else mret (Some (Route_BackendAddr route))
  | inl _ => driver_backend beam
  end.
Definition resolveLiveBackend (beam : Beam) (hallSlug : string) : OM string :=
  let host := liveHost o (Beam_Slug beam) hallSlug in
  first ← live_backend beam host;
  match first with
  | Some addr => mret addr
  | None =>
      second ← live_backend beam host;
      match second with
      | Some addr => mret addr
      | None => throw (ErrMsg "the app is not reachable right now — retry in a moment")
      end
  end.

(** [return res, hallID, beamID, err] *)
Definition at_ {A} (beamhallID beamID : ID) (m : OM A) : OM (ID * ID * (error + A)) :=
  r ← attempt m; mret (beamhallID, beamID, r).

Definition useApp_ (actor : Actor) (req : UseAppRequest) : OM (ID * ID * (error + UseAppResult)) :=
  resolved ← attempt (resolvePublishedApp o actor (UR_App req) (UR_Workspace req));
  match resolved with
  | inl err => mret (no_id, no_id, inl err)
  | inr (pub, view) =>
      at_ (BA_BeamhallID pub) (BA_BeamID pub) (
        if negb (AV_Live view) then throw ErrAppNotLive
        else
        beam ← in_store (GetBeam (BA_BeamID pub));
        addr ← resolveLiveBackend beam (AV_Workspace view);
        res ← callAppTool actor CallerUser (BA_BeamhallID pub) (BA_BeamID pub) addr "live"
                (UR_Tool req) (UR_Arguments req);
        mret (res <| UA_View := Some view |>))
  end.

(** The event of a brokered call: refusals of [refused] are denials. *)
Definition call_event (actorID : ID) (jti action digest sourceIP : string)
    (refused : error → bool) (hallID beamID : ID) (opErr : option error) : AuditEvent :=
  let '(decision, reason, status) :=
    match opErr with
    | None => (DecisionAllow, EmptyString, "ok")
    | Some e => if refused e then (DecisionDeny, Error e, "denied")
                else (DecisionAllow, Error e, "failed")
    end in
  MkAuditEvent no_id None actorID jti hallID beamID action decision reason digest status
    sourceIP EmptyString EmptyString.
(** Append the event; a call that succeeded but could not be recorded fails. *)
Definition recorded_call {A} (ev : option error → AuditEvent) (r : error + A) : OM A :=
  logged_ ← attempt (in_store (Append (ev (match r with inl e => Some e | inr _ => None end))));
  match logged_, r with
  | inl err, inr _ =>
      throw (ErrAround "the call succeeded but could NOT be recorded on the audit chain: " err
               " — investigate the audit store before continuing")
  | _, r => of_sum r
  end.
Definition use_refused (e : error) : bool :=
  err_is ErrAppNotPublished e || err_is ErrAppNotLive e || err_is ErrNoAgentTools e
  || is_ambiguous e.

Definition UseApp (actor : Actor) (req : UseAppRequest) : OM UseAppResult :=
  if negb (has_appSigner o) || negb (has_appClient o) then
    throw (ErrMsg "app tools are not enabled on this appliance")
  else
  ok ← useAppAllow (Actor_ID actor);
  if negb ok then
    throw (ErrMsg ("you are calling apps faster than this appliance allows (max "
      +:+ format_int (useRatePerMinute o) +:+ " calls per minute) — retry in a moment"))
  else
  called ← useApp_ actor req;
  let '(hallID, beamID, r) := called in
  recorded_call (call_event (Actor_ID actor) (TokenJTI actor) "use_app" (useAppDigest req)
    (SourceIP actor) use_refused hallID beamID) r.

Definition tryBeamTool (actor : Actor) (beamhallID beamID : ID) (tool args : string)
    : OM UseAppResult :=
  if negb (has_appSigner o) || negb (has_appClient o) then
    throw (ErrMsg "app tools are not enabled on this appliance")
  else
  beam ← operableBeam beamhallID beamID;
  if decide (Beam_CurrentReleaseID beam = no_id) then
    throw (ErrMsg "no preview is running — deploy_beam first, then retry")
  else
  rel ← in_store (GetRelease (Beam_CurrentReleaseID beam));
  st ← wrapping "the preview workload is not reachable: " (outside (drv_Status (handleOf rel)));
  if decide (Status_State st = WorkloadPaused) then
    throw (ErrMsg "the preview is paused — resume_preview first, then retry")
  else if decide (Status_State st ≠ WorkloadRunning ∨ Status_BackendAddr st = EmptyString) then
    throw (ErrMsg ("the preview is not running (state " +:+ WorkloadState_string (Status_State st)
                   +:+ ") — deploy_beam to bring it up"))
  else callAppTool actor CallerUser beamhallID beamID (Status_BackendAddr st) "preview" tool args.
Definition TryBeamTool (actor : Actor) (beamhallID beamID : ID) (tool args : string)
    : OM UseAppResult :=
  authorize actor ActionUseBeamTools beamhallID beamID;;
  with_outcome actor ActionUseBeamTools beamhallID beamID
    (tryBeamTool actor beamhallID beamID tool args).

(** Orchestrator.UpdateBeam: the catalog copy of a beam. *)
Definition updateBeam (beamhallID beamID : ID) (upd : BeamUpdate) : OM Beam :=
  beam ← operableBeam beamhallID beamID;
  if decide (BU_Description upd = None ∧ BU_DisplayName upd = None) then
    throw (ErrMsg "nothing to change — pass description and/or display_name")
  else if decide (BU_DisplayName upd = Some EmptyString) then
    throw (ErrMsg "display_name cannot be empty (omit it to keep the current one)")
  else
    in_store (UpdateBeam
      (beam <| Beam_Description := default (Beam_Description beam) (BU_Description upd) |>
            <| Beam_DisplayName := default (Beam_DisplayName beam) (BU_DisplayName upd) |>)).
Definition UpdateBeam_ (actor : Actor) (beamhallID beamID : ID) (upd : BeamUpdate) : OM Beam :=
  authorize actor ActionUpdateBeam beamhallID beamID;;
  with_outcome actor ActionUpdateBeam beamhallID beamID (updateBeam beamhallID beamID upd).

(** * Grants between beams (c2c.go) *)

Definition syncEgress : OM () := if has_egressSync o then outside egress_sync else mret tt.

(** The peers of a grant, one by one: the targets and what the operator is told of them. *)
Fixpoint resolve_peers (self : ID) (seen : list ID) (refs : list string)
    : OM (list (ID * PeerTargetView)) :=
  match refs with
  | [] => mret []
  | ref :: refs =>
      match Cut (TrimSpace ref) "/" with
      | (_, None) => throw (ErrMsg ("peer " +:+ quoted ref +:+ ": use " +:+ q1 "<workspace>/<app>"))
      | (hallSlug, Some appSlug) =>
      if decide (hallSlug = EmptyString ∨ appSlug = EmptyString) then
        throw (ErrMsg ("peer " +:+ quoted ref +:+ ": use " +:+ q1 "<workspace>/<app>"))
      else
      hall ← attempt (in_store (GetBeamhallBySlug hallSlug));
      match hall with
      | inl _ => throw (ErrMsg ("peer " +:+ quoted ref +:+ ": no workspace " +:+ quoted hallSlug))
      | inr hall =>
      target ← attempt (in_store (GetBeamBySlug (Beamhall_ID hall) appSlug));
      match target with
      | inl _ => throw (ErrMsg ("peer " +:+ quoted ref +:+ ": no app " +:+ quoted appSlug
                                +:+ " in workspace " +:+ quoted hallSlug))
      | inr target =>
      if decide (Beam_ID target = self) then
        throw (ErrMsg ("peer " +:+ quoted ref
          +:+ " is the beam itself — an app never needs a grant to reach its own tools"))
      else if decide (Beam_ID target ∈ seen) then resolve_peers self seen refs
      else
      rest ← resolve_peers self (Beam_ID target :: seen) refs;
      mret ((Beam_ID target,
             MkPeerTargetView (Beamhall_Slug hall) (Beam_Slug target)
               (negb (bool_decide (Beam_LiveReleaseID target = no_id))) false) :: rest)
      end end end
  end.

Definition ensureC2CKey (beamhallID beamID by_ : ID) : OM bool :=
  if negb (has_netFacts o) then mret false
  else
  has ← in_store (HasC2CKey beamID);
  if (has : bool) then mret false
  else
  raw ← rand_bytes 32;
  let key := hex_encode raw in
  created ← in_store (InsertC2CKey beamID (sha256_hex key));
  if negb created then mret false
  else
  for_each [ChannelPreview; ChannelLive] (λ ch,
    wrapping "seal relay key: "
      (in_store (Vault_Set (MkSecretRef beamhallID beamID C2CKeyName ch) key by_));;
    mret tt);;
  mret true.

Definition setBeamPeers (actor : Actor) (beamhallID beamID : ID) (spec : PeerSpec)
    : OM SetBeamPeersResult :=
  beam ← operableBeam beamhallID beamID;
  if PS_Clear spec then
    in_store (DeleteBeamPeers beamID);;
    syncEgress;;
    mret (MkSetBeamPeersResult None [] false)
  else if decide (PS_Peers spec = [] ∧ PS_External spec = []) then
    throw (ErrMsg "nothing to grant — pass peers and/or external, or clear:true to revoke everything")
  else
  targets ← resolve_peers (Beam_ID beam) [] (PS_Peers spec);
  external ← of_sum (check_external (PS_External spec));
  let set := MkPeerSet (fst <$> targets) external in
  in_store (PutBeamPeers (MkBeamPeers (Beam_ID beam) beamhallID set (Actor_ID actor) None));;
  created ← ensureC2CKey beamhallID (Beam_ID beam) (Actor_ID actor);
  syncEgress;;
  mret (MkSetBeamPeersResult (Some (MkBeamPeers (Beam_ID beam) beamhallID set no_id None))
          (snd <$> targets) created).
Definition SetBeamPeers (actor : Actor) (beamhallID beamID : ID) (spec : PeerSpec)
    : OM SetBeamPeersResult :=
  it_only_beam actor "admin_set_beam_peers" beamhallID beamID
    (setBeamPeers actor beamhallID beamID spec).

(** The targets that are there: archived and vanished beams drop silently. *)
Definition peer_target (id : ID) : OM (option PeerTargetView) :=
  target ← attempt (in_store (GetBeam id));
  match target with
  | inl _ => mret None
  | inr target =>
  if decide (Beam_Status target ≠ BeamActive) then mret None
  else
  hall ← attempt (in_store (GetBeamhall (Beam_BeamhallID target)));
  match hall with
  | inl _ => mret None
  | inr hall =>
  if decide (Beamhall_Status hall ≠ BeamhallActive) then mret None
  else
  let view := MkPeerTargetView (Beamhall_Slug hall) (Beam_Slug target) in
  if decide (Beam_LiveReleaseID target = no_id) then mret (Some (view false false))
  else
  rel ← attempt (in_store (GetRelease (Beam_LiveReleaseID target)));
  mret (Some (view true (match rel with
    | inr rel => bool_decide (Rel_ConfigSnapshot rel !! "agent_tools" = Some "true")
    | inl _ => false
    end)))
  end end.
Definition resolvePeerTargets (ids : list ID) : OM (list PeerTargetView) :=
  found ← collect peer_target ids;
  mret (sort_targets (omap id found)).

Definition releaseHasKey (releaseID : ID) : OM bool :=
  if decide (releaseID = no_id) then mret false
  else
  rel ← attempt (in_store (GetRelease releaseID));
  mret (match rel with
        | inl _ => false
        | inr rel => existsb (λ r, bool_decide (Ref_Key r = C2CKeyName)) (Rel_SecretRefs rel)
        end).
Definition no_grant : BeamPeers := MkBeamPeers no_id no_id (MkPeerSet [] []) no_id None.
Definition showBeamPeers (beamhallID beamID : ID) : OM BeamPeersView :=
  beam ← operableBeam beamhallID beamID;
  grant ← or_zero no_grant (in_store (GetBeamPeers beamID));
  targets ← resolvePeerTargets (Peers_Beams (BP_Peers grant));
  minted ← in_store (HasC2CKey beamID);
  preview ← releaseHasKey (Beam_CurrentReleaseID beam);
  live ← releaseHasKey (Beam_LiveReleaseID beam);
  mret (MkBeamPeersView targets (Peers_External (BP_Peers grant)) minted preview live
          (negb (bool_decide (Beam_LiveReleaseID beam = no_id)))).
Definition ShowBeamPeers (actor : Actor) (beamhallID beamID : ID) : OM BeamPeersView :=
  authorize actor ActionShowBeamPeers beamhallID beamID;;
  with_outcome actor ActionShowBeamPeers beamhallID beamID (showBeamPeers beamhallID beamID).

(** * The relay (c2c.go) *)

(** The container whose address the call comes from belongs to the beam. *)
Definition owns_address (facts : NetworkFacts) (remoteIP : string) (beamID : ID) : bool :=
  existsb (λ ni, bool_decide (ni.2 = remoteIP)
                 && bool_decide (BeamIDFromContainerName ni.1 = Some beamID))
    (map_to_list (NF_ContainerIPs facts)).
Definition C2CAuthenticate (key remoteIP : string) : OM ID :=
  if negb (has_netFacts o) || negb (has_appSigner o) || negb (has_appClient o) then
    throw (ErrMsg "beam-to-beam is not enabled on this appliance")
  else if decide (key = EmptyString ∨ remoteIP = EmptyString) then throw ErrPeerAuth
  else map_error (λ _, ErrPeerAuth) (
    beamID ← in_store (GetC2CKeyBeam (sha256_hex key));
    beam ← in_store (GetBeam beamID);
    if decide (Beam_Status beam ≠ BeamActive) then throw ErrPeerAuth
    else
    facts ← outside (net_facts (networkName (Beam_BeamhallID beam)));
    if owns_address facts remoteIP beamID then mret beamID else throw ErrPeerAuth).

Definition c2cAllow (id : ID) : OM bool := allow "c2c" (c2cRatePerMinute o) id.
Definition c2cRateErr : error :=
  ErrMsg ("this beam is calling peers faster than the appliance allows (max "
    +:+ format_int (c2cRatePerMinute o) +:+ " calls per minute) — retry in a moment").
Definition C2CPeers (source : ID) : OM (list PeerTargetView) :=
  ok ← c2cAllow source;
  if negb ok then throw c2cRateErr
  else
  grant ← or_zero no_grant (in_store (GetBeamPeers source));
  resolvePeerTargets (Peers_Beams (BP_Peers grant)).

(** The in-flight bound: a slot taken and given back. *)
Definition inflight (m : Memory) (id : ID) : Z := default 0%Z (c2cInflight m !! id).
Definition count_call (id : ID) (d : Z) : OM () :=
  modify (λ w, w <| w_mem := w_mem w <| c2cInflight :=
    <[id := (inflight (w_mem w) id + d)%Z]> (c2cInflight (w_mem w)) |> |>).
Definition c2cAcquire (id : ID) : OM bool :=
  if decide (c2cMaxInflight o ≤ 0)%Z then mret true
  else
  n ← gets (λ w, inflight (w_mem w) id);
  if decide (c2cMaxInflight o ≤ n)%Z then mret false
  else count_call id 1;; mret true.
Definition c2cRelease (id : ID) : OM () :=
  if decide (c2cMaxInflight o ≤ 0)%Z then mret tt else count_call id (-1).

Definition c2cCall (source : ID) (targetWorkspace targetApp tool args : string)
    : OM (ID * ID * (error + UseAppResult)) :=
  grant ← attempt (in_store (GetBeamPeers source));
  match grant with
  | inl e => mret (no_id, no_id, inl (if is_not_found e then ErrPeerNotGranted else e))
  | inr grant =>
  hall ← attempt (in_store (GetBeamhallBySlug targetWorkspace));
  match hall with
  | inl _ => mret (no_id, no_id, inl ErrPeerNotGranted)
  | inr hall =>
  target ← attempt (in_store (GetBeamBySlug (Beamhall_ID hall) targetApp));
  match target with
  | inl _ => mret (no_id, no_id, inl ErrPeerNotGranted)
  | inr target =>
  if decide (Beam_Status target ≠ BeamActive ∨ AllowsBeam (BP_Peers grant) (Beam_ID target) = false)
  then mret (no_id, no_id, inl ErrPeerNotGranted)
  else at_ (Beamhall_ID hall) (Beam_ID target) (
    if decide (Beam_LiveReleaseID target = no_id) then throw ErrPeerNotLive
    else
    addr ← resolveLiveBackend target (Beamhall_Slug hall);
    callAppTool (MkActor source EmptyString false EmptyString [] EmptyString) CallerBeam
      (Beamhall_ID hall) (Beam_ID target) addr "live" tool args)
  end end end.
Definition peer_refused (e : error) : bool :=
  err_is ErrPeerNotGranted e || err_is ErrPeerNotLive e || err_is ErrNoAgentTools e.

Definition C2CCall (source : ID) (targetWorkspace targetApp tool args : string) : OM UseAppResult :=
  acquired ← c2cAcquire source;
  if negb acquired then
    throw (ErrMsg ("too many relay calls in flight for this beam (max "
      +:+ format_int (c2cMaxInflight o)
      +:+ ") — a peer call must finish before another starts"))
  else
  r ← attempt (
    ok ← c2cAllow source;
    if negb ok then throw c2cRateErr
    else
    called ← c2cCall source targetWorkspace targetApp tool args;
    let '(hallID, beamID, r) := called in
    recorded_call (call_event ("beam:" +:+ source) EmptyString "use_peer_tool"
      (c2cDigest targetWorkspace targetApp tool args) EmptyString peer_refused hallID beamID) r);
  c2cRelease source;;
  of_sum r.
End tools.
