(* ===== verification/OrchProvision.v ===== *)
(** The managed facilities of a beam as its builders and IT use them: databases, mail, sign-in,
    object storage and branding (internal/orch/database.go, email.go, auth.go, objectstore.go,
    branding.go), their reconciliation with the brokers and the pull of the brokers' audit
    events.  What the beam's lifecycle does to them is in Facility.v. *)
From S2P Require Import Prelude Regexp GoStrings Diagnose Domain Sha256 Gateway Store StoreOps.
From S2P Require Import AuditLog Policy Vault Outside Orch AppTools Facility OrchAdmin OrchSensitive.

Definition email_not_enabled : error := ErrMsg "mail: no delivery provider configured".
Definition s3_not_enabled : error := ErrMsg "s3: object store not available".

(** The non-empty entries, trimmed. *)
Definition clean_entries (l : list string) : list string :=
  filter (λ s, s ≠ EmptyString) (TrimSpace <$> l).
(** A comma-separated list of a resource's spec. *)
Definition spec_list (key : string) (r : Resource) : list string :=
  let s := TrimSpace (spec_get key r) in
  if decide (s = EmptyString) then [] else Split s ",".

(** * Branding (branding.go) *)

Definition maxLogoBytes : nat := 1024 * 1024.
Definition maxBrandHTMLBytes : nat := 16 * 1024.
Definition facilityOwner : string := "_".
Definition pngMagic : string :=
  String.string_of_list_byte [Byte.x89; Byte.x50; Byte.x4e; Byte.x47; Byte.x0d; Byte.x0a; Byte.x1a; Byte.x0a].
Definition is_letter (c : ascii) : bool := is_lower c || is_upper c.
Definition hex_class (c : ascii) : bool := is_digit c || in_range 65 70 c || in_range 97 102 c.
Definition color_arg (c : ascii) : bool :=
  is_letter c || is_digit c || one_of ".,%/+-" c || is_space c.
Definition colorRe : re :=
  Cat AtStart (Cat (Alts
    [Cat (Lit "#") (Between 3 8 (Class_ hex_class));
     Between 3 32 (Class_ is_letter);
     Cat (Alts [Lit "rgb"; Lit "rgba"; Lit "hsl"; Lit "hsla"])
       (Cat (Lit "(") (Cat (Between 1 48 (Class_ color_arg)) (Lit ")")))]) AtEnd).

Record BrandingSpec := MkBrandingSpec {
  BS_Branding : Branding;
  BS_LogoPNG : option string;
  BS_ClearLogo : bool;
  BS_Clear : bool}.

Definition palette (b : Branding) : list (string * string) :=
  [("primary_color", PrimaryColor b); ("secondary_color", SecondaryColor b);
   ("accent_color", AccentColor b); ("background_color", BackgroundColor b);
   ("text_color", TextColor b)].
Definition color_ok (v : string) : bool :=
  bool_decide (v = EmptyString) || MatchString colorRe v.
(** The palette is a map, ranged over in any order: here the order of the source decides
    which of several bad colours is named. *)
Definition validateBranding (b : Branding) : option error :=
  if decide (maxBrandHTMLBytes < String.length (HeaderHTML b)
             ∨ maxBrandHTMLBytes < String.length (FooterHTML b)) then
    Some (ErrMsg "header/footer HTML exceeds 16 KB")
  else match head (filter (λ nv, color_ok nv.2 = false) (palette b)) with
       | Some (name, v) => Some (ErrMsg (name +:+ " " +:+ quoted v
           +:+ " is not a valid CSS colour (use #hex, a colour name, or rgb()/hsl())"))
       | None => None
       end.
Definition check_logo (spec : BrandingSpec) : option error :=
  match BS_LogoPNG spec with
  | None => None
  | Some png =>
      if decide (maxLogoBytes < String.length png) then
        Some (ErrMsg "logo exceeds 1024 KB — use a smaller PNG")
      else if negb (HasPrefix png pngMagic) then
        Some (ErrMsg "logo must be a PNG image (SVG and other formats are not accepted)")
      else None
  end.

Section provision.
Context `{!Env, !Age, !Rand} {X C : Type} `{!Caddy C}.
Context `{!RuntimeDriver X, !Platform X, !DatabaseProvisioner X, !IdentityProvider X, !Brokers X}.
Context (o : Orchestrator).
Notation OM := (OM (X := X) (C := C)).

Definition setBranding (beamhallID : ID) (spec : BrandingSpec) : OM () :=
  if BS_Clear spec then in_store (ClearBrandingScope beamhallID)
  else
  check (validateBranding (BS_Branding spec));;
  check (check_logo spec);;
  in_store (PutBranding beamhallID (BS_Branding spec));;
  match BS_LogoPNG spec with
  | Some png =>
      in_store (PutBrandingLogo beamhallID
        (MkBrandingLogo png "image/png" (String.substring 0 16 (sha256_hex png)) None))
  | None => if BS_ClearLogo spec then in_store (DeleteBrandingLogo beamhallID) else mret tt
  end.
Definition SetBranding (actor : Actor) (beamhallID : ID) (spec : BrandingSpec) : OM () :=
  it_only actor "admin_set_branding" beamhallID (setBranding beamhallID spec).

Definition showBranding (beamhallID : ID) : OM BrandingInfo :=
  bh ← in_store (GetBeamhall beamhallID);
  resolvedBranding o (Beamhall_ID bh) (Beamhall_Slug bh).
Definition ShowBranding (actor : Actor) (beamhallID : ID) : OM BrandingInfo :=
  authorize actor ActionShowBranding beamhallID no_id;;
  with_outcome actor ActionShowBranding beamhallID no_id (showBranding beamhallID).

Definition ResolveBrandingByOwner (owner : string) : OM BrandingInfo :=
  if decide (owner = facilityOwner) then resolvedBranding o FacilityScope facilityOwner
  else
  bh ← in_store (GetBeamhallBySlug owner);
  resolvedBranding o (Beamhall_ID bh) (Beamhall_Slug bh).
Definition BrandingLogoByOwner (owner : string) : OM BrandingLogo :=
  if decide (owner = facilityOwner) then in_store (GetBrandingLogo FacilityScope)
  else
  bh ← in_store (GetBeamhallBySlug owner);
  r ← attempt (in_store (GetBrandingLogo (Beamhall_ID bh)));
  match r with
  | inr logo => mret logo
  | inl e => if is_not_found e then in_store (GetBrandingLogo FacilityScope) else throw e
  end.

(** * Databases (database.go) *)

(** Take back a database whose DSN or row could not be stored. *)
Definition drop_database (pr : Provisioned) : OM () := logged (outside (db_Drop pr)).
Definition createDatabase (actor : Actor) (beamhallID beamID : ID) (name : string) : OM string :=
  if negb (has_dbProv o) then
    throw (ErrMsg "no database provisioner configured on this backplane")
  else
  beam ← operableBeam beamhallID beamID;
  existing ← in_store (ListResourcesByBeamAndChannel beamID ChannelPreview);
  if existsb (λ r, is_type ResourceDatabase r && bool_decide (spec_get "name" r = name)) existing
  then mret (dbSecretKey name)
  else
  bh ← in_store (GetBeamhall beamhallID);
  in_store (CheckDatabaseQuota bh);;
  pr ← outside (db_Provision (MkDBRequest (Beamhall_Slug bh) (Beam_Slug beam) name
                               (networkName beamhallID)));
  let key := dbSecretKey name in
  let ref := MkSecretRef beamhallID beamID key ChannelPreview in
  set ← attempt (in_store (Vault_Set ref (DSN pr) (Actor_ID actor)));
  match set with
  | inl err => drop_database pr;; throw (ErrWrap "seal connection secret: " err)
  | inr _ =>
  created ← attempt (in_store (CreateResourceWithQuota
    (MkResource no_id beamhallID beamID ChannelPreview ResourceDatabase ResourceReady ref
       {["name" := name; "database" := Database pr; "role" := Role pr]} (Database pr) None None)
    (MaxDBCount (Beamhall_Quota bh))));
  match created with
  | inr _ => mret key
  | inl err =>
      drop_database pr;;
      logged (in_store (Vault_Delete ref));;
      (if is_quota err then in_store (CheckDatabaseQuota bh) else mret tt);;
      throw err
  end end.
Definition CreateDatabase (actor : Actor) (beamhallID beamID : ID) (name : string) : OM string :=
  authorize actor ActionCreateDatabase beamhallID beamID;;
  with_outcome actor ActionCreateDatabase beamhallID beamID
    (createDatabase actor beamhallID beamID name).

(** * Mail (email.go) *)

Definition EmailBrokerWired : bool := has_emailProv o.
Definition EmailEnabled : OM bool := gets (λ w, has_emailProv o && emailEnabled (w_mem w)).
Definition store_emailEnabled (b : bool) : OM () :=
  modify (λ w, w <| w_mem := w_mem w <| emailEnabled := b |> |>).

Definition provisionEmail (actor : Actor) (beamhallID beamID : ID) : OM (list string) :=
  enabled ← EmailEnabled;
  if negb enabled then throw email_not_enabled
  else
  operableBeam beamhallID beamID;;
  existing ← in_store (ListResourcesByBeam beamID);
  if existsb (is_type ResourceEmail) existing then mret emailSecretKeys
  else
  let cfg := emailCfg o in
  creds ← outside (email_Provision (MkMailRequest beamID [] (MkMailLimits (EC_PerDay cfg) (EC_Burst cfg))));
  let rollback := logged (outside (email_Deregister beamID)) in
  attached ← attempt (if EC_Attach cfg then outside (email_Attach (networkName beamhallID)) else mret tt);
  match attached with
  | inl err => rollback;; throw (ErrWrap "attach mail broker to beam network: " err)
  | inr _ =>
  cert ← attempt (outside email_CACert);
  let caPEM := match cert with inr pem => pem | inl _ => EmptyString end in
  sealed ← attempt (seal beamhallID beamID ChannelShared (Actor_ID actor)
    (λ key, "seal " +:+ key +:+ ": ")
    [("SMTP_HOST", EC_BeamHost cfg); ("SMTP_PORT", format_int (EC_BeamPort cfg));
     ("SMTP_USER", Mail_Username creds); ("SMTP_PASS", Mail_Password creds);
     ("SMTP_CA", caPEM)]);
  match sealed with
  | inl err => rollback;; throw err
  | inr _ =>
  in_store (CreateResource (MkResource no_id beamhallID beamID ChannelShared ResourceEmail
    ResourceReady (MkSecretRef beamhallID beamID "SMTP_PASS" ChannelShared)
    {["username" := Mail_Username creds; "pass_hash" := sha256_hex (Mail_Password creds);
      "senders" := EmptyString; "per_day" := format_int (EC_PerDay cfg);
      "burst" := format_int (EC_Burst cfg)]}
    (Mail_Username creds) None None));;
  mret emailSecretKeys
  end end.
Definition ProvisionEmail (actor : Actor) (beamhallID beamID : ID) : OM (list string) :=
  authorize actor ActionProvisionEmail beamhallID beamID;;
  with_outcome actor ActionProvisionEmail beamhallID beamID
    (provisionEmail actor beamhallID beamID).

Record EmailInfo := MkEmailInfo {
  EI_Provisioned : bool;
  EI_Host : string;
  EI_Port : Z;
  EI_Username : string;
  EI_AllowedSenders : list string;
  EI_RateLimitPerDay : Z}.
Definition no_email : EmailInfo := MkEmailInfo false EmptyString 0 EmptyString [] 0.
Definition showEmail (beamhallID beamID : ID) : OM EmailInfo :=
  operableBeam beamhallID beamID;;
  resources ← in_store (ListResourcesByBeam beamID);
  mret (match head (filter (is_type ResourceEmail) resources) with
        | None => no_email
        | Some r => MkEmailInfo true (EC_BeamHost (emailCfg o)) (EC_BeamPort (emailCfg o))
                      (spec_get "username" r) (spec_list "senders" r)
                      (ParseInt (spec_get "per_day" r))
        end).
Definition ShowEmail (actor : Actor) (beamhallID beamID : ID) : OM EmailInfo :=
  authorize actor ActionShowEmail beamhallID beamID;;
  with_outcome actor ActionShowEmail beamhallID beamID (showEmail beamhallID beamID).

Definition setEmailSenders (beamID : ID) (senders : list string) : OM () :=
  enabled ← EmailEnabled;
  if negb enabled then throw email_not_enabled
  else
  let clean := clean_entries senders in
  resources ← in_store (ListResourcesByBeam beamID);
  match head (filter (is_type ResourceEmail) resources) with
  | None => throw (ErrMsg "beam has no provisioned email — call provision_email first")
  | Some r =>
      wrapping "set senders at broker: " (outside (email_SetSenders beamID clean));;
      in_store (UpdateResource (r <| Res_Spec := <["senders" := Join clean ","]> (Res_Spec r) |>));;
      mret tt
  end.
Definition SetEmailSenders (actor : Actor) (beamhallID beamID : ID) (senders : list string) : OM () :=
  it_only actor "admin_set_email_senders" beamhallID (setEmailSenders beamID senders).

Definition setEmailProvider (smarthost username password : string) (startTLS : bool) : OM () :=
  if negb (has_emailProv o) then throw (ErrMsg "no mail broker is configured on this appliance")
  else
  let smarthost := TrimSpace smarthost in
  outside (email_SetProvider (MkMailProvider smarthost username password EmptyString
                                (negb startTLS) false));;
  store_emailEnabled (negb (bool_decide (smarthost = EmptyString))).
Definition SetEmailProvider (actor : Actor) (smarthost username password : string)
    (startTLS : bool) : OM () :=
  it_only actor "admin_set_email_provider" no_id (setEmailProvider smarthost username password startTLS).

(** The registration of a resource row, pushed again. *)
Definition push_email (r : Resource) : OM () :=
  logged (outside (email_RegisterHashed (Res_BeamID r) (spec_get "username" r)
    (spec_get "pass_hash" r) (spec_list "senders" r)
    (MkMailLimits (ParseInt (spec_get "per_day" r)) (ParseInt (spec_get "burst" r))))).
(** Every hall's resources of a type; a hall whose resources cannot be listed is skipped. *)
Definition each_resource (typ : ResourceType) (f : Resource → OM ()) : OM () :=
  halls ← in_store ListBeamhalls;
  for_each halls (λ h,
    r ← attempt (in_store (ListResourcesByBeamhall (Beamhall_ID h)));
    match r with
    | inl _ => mret tt
    | inr resources => for_each (filter (is_type typ) resources) f
    end).
Definition ReconcileEmail : OM () :=
  if negb EmailBrokerWired then mret tt
  else
  st ← wrapping "email broker status: " (outside email_Status);
  store_emailEnabled st.1;;
  if negb st.1 then mret tt else each_resource ResourceEmail push_email.

Definition EmailAuditCursor : OM Z :=
  if negb EmailBrokerWired then mret 0%Z
  else st ← outside email_Status; mret st.2.

(** The hall of a beam, empty when it cannot be read. *)
Definition hall_of (beamID : ID) : OM ID :=
  r ← attempt (in_store (GetBeam beamID));
  mret (match r with inr b => Beam_BeamhallID b | inl _ => no_id end).
Definition broker_event (action : string) (ok : bool) (beamhallID beamID : ID)
    (err result digest : string) : AuditEvent :=
  MkAuditEvent no_id None EmptyString EmptyString beamhallID beamID action
    (if ok then DecisionAllow else DecisionDeny) err digest result EmptyString EmptyString EmptyString.
Definition emailDigest (ev : MailEvent) : string :=
  "from=" +:+ ME_From ev +:+ " rcpts=" +:+ format_int (Z.of_nat (length (ME_To ev)))
  +:+ " size=" +:+ format_int (ME_Size ev) +:+ " subject=" +:+ quoted (ME_Subject ev)
  +:+ " message_id=" +:+ ME_MessageID ev.
Definition appendEmailAudit (se : SeqEvent MailEvent) : OM () :=
  let ev := SeqOf se in
  hall ← hall_of (ME_BeamID ev);
  logged (in_store (Append (broker_event "email_send" (bool_decide (ME_Result ev = "sent")) hall
    (ME_BeamID ev) (ME_Err ev) (ME_Result ev) (emailDigest ev)))).
(** The new cursor is the broker's, whether or not it is behind the old one. *)
Definition DrainEmailAudit (after : Z) : OM Z :=
  if negb EmailBrokerWired then mret after
  else
  pulled ← outside (email_PullEvents after);
  for_each pulled.1 appendEmailAudit;;
  mret pulled.2.

(** * Sign-in (auth.go) *)

Definition provisionAuth (actor : Actor) (beamhallID beamID : ID) : OM (list string) :=
  if negb (idpEnabled o) then throw idp_not_enabled
  else
  beam ← operableBeam beamhallID beamID;
  bh ← in_store (GetBeamhall beamhallID);
  existing ← in_store (ListResourcesByBeamAndChannel beamID ChannelPreview);
  if existsb (is_type ResourceAuthClient) existing then mret authSecretKeys
  else
  let clientID := authClientID (Beamhall_Slug bh) (Beam_Slug beam) ChannelPreview in
  client ← outside (idp_CreateClient (MkClientSpec clientID (redirectsFor (Beam_PreviewHost beam))
    (webOriginsFor (Beam_PreviewHost beam)) authTokenTTLSeconds (authAudience o)));
  sealed ← attempt (sealAuthSecrets o beamhallID beamID ChannelPreview client (Actor_ID actor));
  match sealed with
  | inl err => logged (outside (idp_DeleteClient (Client_UUID client)));; throw err
  | inr _ =>
  in_store (CreateResource (MkResource no_id beamhallID beamID ChannelPreview ResourceAuthClient
    ResourceReady (MkSecretRef beamhallID beamID authClientSecretKey ChannelPreview)
    {["client_id" := clientID; "audience" := clientID; "mode" := authMode; "issuer" := authIssuer o]}
    (Client_UUID client) None None));;
  mret authSecretKeys
  end.
Definition ProvisionAuth (actor : Actor) (beamhallID beamID : ID) : OM (list string) :=
  authorize actor ActionProvisionAuth beamhallID beamID;;
  with_outcome actor ActionProvisionAuth beamhallID beamID (provisionAuth actor beamhallID beamID).

Record AuthChannelInfo := MkAuthChannelInfo {
  AC_Channel : string;
  AC_ClientID : string;
  AC_Audience : string;
  AC_RedirectURIs : list string;
  AC_Groups : list string}.
Record AuthInfo := MkAuthInfo {
  AI_Provisioned : bool;
  AI_Mode : string;
  AI_Issuer : string;
  AI_Channels : list AuthChannelInfo}.
Definition auth_channel (beam : Beam) (bh : Beamhall) (r : Resource) : AuthChannelInfo :=
  let host := if decide (Res_Channel r = ChannelLive) then liveHost o (Beam_Slug beam) (Beamhall_Slug bh)
              else Beam_PreviewHost beam in
  MkAuthChannelInfo (Channel_string (Res_Channel r)) (spec_get "client_id" r) (spec_get "audience" r)
    (redirectsFor host) (spec_list "groups" r).
Definition showAuth (beamhallID beamID : ID) : OM AuthInfo :=
  beam ← operableBeam beamhallID beamID;
  bh ← in_store (GetBeamhall beamhallID);
  resources ← in_store (ListResourcesByBeam beamID);
  let clients := filter (is_type ResourceAuthClient) resources in
  mret (MkAuthInfo (negb (bool_decide (length clients = 0)))
          (match last clients with Some r => spec_get "mode" r | None => EmptyString end)
          (authIssuer o) (auth_channel beam bh <$> clients)).
Definition ShowAuth (actor : Actor) (beamhallID beamID : ID) : OM AuthInfo :=
  authorize actor ActionShowAuth beamhallID beamID;;
  with_outcome actor ActionShowAuth beamhallID beamID (showAuth beamhallID beamID).

Definition setAuthGroups (beamID : ID) (groups : list string) : OM () :=
  if negb (idpEnabled o) then throw idp_not_enabled
  else
  let clean := clean_entries groups in
  resources ← in_store (ListResourcesByBeam beamID);
  let clients := filter (is_type ResourceAuthClient) resources in
  for_each clients (λ r,
    wrapping ("set group roles on " +:+ Channel_string (Res_Channel r) +:+ " client: ")
      (outside (idp_SetClientGroupRoles (Res_BackingHandle r) clean));;
    in_store (UpdateResource (r <| Res_Spec := <["groups" := Join clean ","]> (Res_Spec r) |>));;
    mret tt);;
  if decide (length clients = 0) then
    throw (ErrMsg "beam has no provisioned auth — call provision_auth first")
  else mret tt.
Definition SetAuthGroups (actor : Actor) (beamhallID beamID : ID) (groups : list string) : OM () :=
  it_only actor "admin_set_auth_groups" beamhallID (setAuthGroups beamID groups).

(** * Object storage (objectstore.go) *)

Definition ObjectStoreBrokerWired : bool := has_objStoreProv o.
Definition ObjectStoreEnabled : OM bool := gets (λ w, has_objStoreProv o && objStoreEnabled (w_mem w)).
Definition objStoreEndpointURL : string :=
  "http://" +:+ OC_BeamHost (objStoreCfg o) +:+ ":" +:+ format_int (OC_BeamPort (objStoreCfg o)).
Definition objStoreAllKeys : list string := objStoreSharedKeys ++ objStoreChannelKeys.

Definition provisionObjectStore (actor : Actor) (beamhallID beamID : ID) : OM (list string) :=
  enabled ← ObjectStoreEnabled;
  if negb enabled then throw s3_not_enabled
  else
  operableBeam beamhallID beamID;;
  existing ← in_store (ListResourcesByBeamAndChannel beamID ChannelPreview);
  if existsb (is_type ResourceObjectStore) existing then mret objStoreAllKeys
  else
  let cfg := objStoreCfg o in
  let bucket := objStoreBucket beamID ChannelPreview in
  creds ← outside (obj_Provision (MkS3Request beamID (Channel_string ChannelPreview) bucket
                                    (OC_DefaultQuota cfg)));
  let rollback := deregisterObjStore o beamID ChannelPreview true in
  attached ← attempt (if OC_Attach cfg then outside (obj_Attach (networkName beamhallID)) else mret tt);
  match attached with
  | inl err => rollback;; throw (ErrWrap "attach object-store broker to beam network: " err)
  | inr _ =>
  shared ← attempt (seal beamhallID beamID ChannelShared (Actor_ID actor)
    (λ key, "seal " +:+ key +:+ ": ")
    [("S3_ENDPOINT", objStoreEndpointURL); ("S3_REGION", OC_Region cfg);
     ("S3_FORCE_PATH_STYLE", "true")]);
  match shared with
  | inl err => rollback;; throw err
  | inr _ =>
  sealed ← attempt (sealObjStoreChannel beamhallID beamID ChannelPreview bucket creds (Actor_ID actor));
  match sealed with
  | inl err => rollback;; throw err
  | inr _ =>
  in_store (CreateResource (MkResource no_id beamhallID beamID ChannelPreview ResourceObjectStore
    ResourceReady (MkSecretRef beamhallID beamID "S3_SECRET_KEY" ChannelPreview)
    {["access_key" := AccessKey creds; "bucket" := bucket;
      "quota_bytes" := format_int (OC_DefaultQuota cfg)]}
    (AccessKey creds) None None));;
  mret objStoreAllKeys
  end end end.
Definition ProvisionObjectStore (actor : Actor) (beamhallID beamID : ID) : OM (list string) :=
  authorize actor ActionProvisionObjectStore beamhallID beamID;;
  with_outcome actor ActionProvisionObjectStore beamhallID beamID
    (provisionObjectStore actor beamhallID beamID).

Record ObjectStoreChannelInfo := MkObjectStoreChannelInfo {
  OCI_Channel : string;
  OCI_Bucket : string;
  OCI_QuotaBytes : Z}.
Record ObjectStoreInfo := MkObjectStoreInfo {
  OI_Provisioned : bool;
  OI_Endpoint : string;
  OI_Region : string;
  OI_Channels : list ObjectStoreChannelInfo}.
Definition objStore_channel (r : Resource) : ObjectStoreChannelInfo :=
  MkObjectStoreChannelInfo (Channel_string (Res_Channel r)) (spec_get "bucket" r)
    (ParseInt (spec_get "quota_bytes" r)).
Definition showObjectStore (beamhallID beamID : ID) : OM ObjectStoreInfo :=
  operableBeam beamhallID beamID;;
  resources ← in_store (ListResourcesByBeam beamID);
  mret (match filter (is_type ResourceObjectStore) resources with
        | [] => MkObjectStoreInfo false EmptyString EmptyString []
        | l => MkObjectStoreInfo true objStoreEndpointURL (OC_Region (objStoreCfg o))
                 (objStore_channel <$> l)
        end).
Definition ShowObjectStore (actor : Actor) (beamhallID beamID : ID) : OM ObjectStoreInfo :=
  authorize actor ActionShowObjectStore beamhallID beamID;;
  with_outcome actor ActionShowObjectStore beamhallID beamID (showObjectStore beamhallID beamID).

(** The registration of a resource row with its secret from the vault, pushed again. *)
Definition push_objStore (r : Resource) : OM () :=
  secret ← attempt (in_store (Reveal
    (MkSecretRef (Res_BeamhallID r) (Res_BeamID r) "S3_SECRET_KEY" (Res_Channel r))));
  match secret with
  | inl _ => mret tt
  | inr secret =>
      logged (outside (obj_RegisterKey (MkS3Registration (Res_BeamID r)
        (Channel_string (Res_Channel r)) (spec_get "access_key" r) secret (spec_get "bucket" r)
        (ParseInt (spec_get "quota_bytes" r)))))
  end.
Definition ReconcileObjectStore : OM () :=
  if negb ObjectStoreBrokerWired then mret tt
  else
  st ← wrapping "object-store broker status: " (outside obj_Status);
  modify (λ w, w <| w_mem := w_mem w <| objStoreEnabled := st.1 |> |>);;
  if negb st.1 then mret tt else each_resource ResourceObjectStore push_objStore.

Definition setObjectStoreProvider (cfg : S3Provider) : OM () :=
  if negb (has_objStoreProv o) then
    throw (ErrMsg "no object-store broker is configured on this appliance")
  else outside (obj_SetProvider cfg);; ReconcileObjectStore.
Definition SetObjectStoreProvider (actor : Actor)
    (endpoint region bucket accessKey secretKey : string) (forcePathStyle useSSL : bool) : OM () :=
  it_only actor "admin_set_object_store_provider" no_id (setObjectStoreProvider
    (MkS3Provider (TrimSpace endpoint) region bucket accessKey secretKey forcePathStyle useSSL)).

Definition setObjectStoreQuota (beamID : ID) (maxBytes : Z) : OM () :=
  enabled ← ObjectStoreEnabled;
  if negb enabled then throw s3_not_enabled
  else
  resources ← in_store (ListResourcesByBeam beamID);
  let stores := filter (is_type ResourceObjectStore) resources in
  for_each stores (λ r,
    wrapping "set quota at broker: "
      (outside (obj_SetQuota beamID (Channel_string (Res_Channel r)) maxBytes));;
    in_store (UpdateResource (r <| Res_Spec := <["quota_bytes" := format_int maxBytes]> (Res_Spec r) |>));;
    mret tt);;
  if decide (length stores = 0) then
    throw (ErrMsg "beam has no provisioned object store — call provision_object_store first")
  else mret tt.
Definition SetObjectStoreQuota (actor : Actor) (beamhallID beamID : ID) (maxBytes : Z) : OM () :=
  it_only actor "admin_set_object_store_quota" beamhallID (setObjectStoreQuota beamID maxBytes).

Definition ObjectStoreAuditCursor : OM Z :=
  if negb ObjectStoreBrokerWired then mret 0%Z
  else st ← outside obj_Status; mret st.2.
Definition objStoreDigest (ev : S3Event) : string :=
  "op=" +:+ SE_Op ev +:+ " channel=" +:+ SE_Channel ev +:+ " bucket=" +:+ SE_Bucket ev
  +:+ " key=" +:+ quoted (SE_Key ev) +:+ " size=" +:+ format_int (SE_Size ev).
Definition appendObjectStoreAudit (se : SeqEvent S3Event) : OM () :=
  let ev := SeqOf se in
  hall ← hall_of (SE_BeamID ev);
  logged (in_store (Append (broker_event "object_store_op" (bool_decide (SE_Result ev = "ok")) hall
    (SE_BeamID ev) (SE_Err ev) (SE_Result ev) (objStoreDigest ev)))).
Definition DrainObjectStoreAudit (after : Z) : OM Z :=
  if negb ObjectStoreBrokerWired then mret after
  else
  pulled ← outside (obj_PullEvents after);
  for_each pulled.1 appendObjectStoreAudit;;
  mret pulled.2.
End provision.
