(* ===== verification/OrchBeam.v ===== *)
(** Beams and deploys (internal/orch/beam.go): create, secrets, the build steps, the
    bring-up of a workload and the deploy lifecycle. *)
From S2P Require Import Prelude GoStrings Regexp Diagnose Domain Gateway Store StoreOps.
From S2P Require Import AuditLog Policy Vault Scrub Outside Orch Facility.

Definition maxCrashLog : nat := 128 * 128.

Section beam.
Context `{!Env, !Age, !Rand} {X C : Type} `{!Caddy C}.
Context `{!RuntimeDriver X, !Platform X, !DatabaseProvisioner X, !IdentityProvider X, !Brokers X}.
Context (o : Orchestrator).
(** How many startup polls the caller's context lives through: its cancellation is the
    only other way out of the wait. *)
Context (polls : nat).
Notation OM := (OM (X := X) (C := C)).

(** * Create (beam.go) *)

Definition createBeam (actor : Actor) (beamhallID : ID)
    (slug displayName description runtimeHint : string) : OM Beam :=
  if negb (MatchString slugRe slug) then
    throw (ErrMsg ("invalid slug " +:+ quoted slug +:+
      ": lowercase letters, digits, and inner hyphens only (max 32)"))
  else
  bh ← in_store (GetBeamhall beamhallID);
  in_store (CheckBeamQuota bh);;
  let beam := MkBeam no_id beamhallID slug displayName description runtimeHint ModePreview
                StateCreated no_id no_id no_id StateNone TemplateWebApp (defaultPauseAfter o)
                None EmptyString EmptyString no_id BeamStatusUnset (Actor_ID actor) None None in
  r ← attempt (in_store (CreateBeamWithQuota beam (MaxBeams (Beamhall_Quota bh))));
  match r with
  | inr beam => mret beam
  | inl err =>
      (if is_quota err then in_store (CheckBeamQuota bh) else mret tt);;
      throw err
  end.
Definition CreateBeam_ (actor : Actor) (beamhallID : ID)
    (slug displayName description runtimeHint : string) : OM Beam :=
  authorize actor ActionCreateBeam beamhallID no_id;;
  r ← attempt (createBeam actor beamhallID slug displayName description runtimeHint);
  match r with
  | inr beam =>
      outcome actor ActionCreateBeam beamhallID (Beam_ID beam) None;; mret beam
  | inl e => outcome actor ActionCreateBeam beamhallID no_id (Some e);; throw e
  end.

(** * Secrets *)

Definition facility_of_key (key : string) : option (ResourceType * string) :=
  if decide (key ∈ emailSecretKeys) then Some (ResourceEmail, "provision_email")
  else if decide (key ∈ objStoreSharedKeys) then
    Some (ResourceObjectStore, "provision_object_store")
  else None.
Definition refuseFacilitySealedKey (beamID : ID) (key : string) : OM () :=
  match facility_of_key key with
  | None => mret tt
  | Some (typ, tool) =>
      resources ← in_store (ListResourcesByBeam beamID);
      if existsb (is_type typ) resources then
        throw (ErrMsg ("secret key " +:+ quoted key +:+ " is sealed by " +:+ tool +:+
          " on this beam — writing it would replace the platform-injected credential at /run/secrets/"
          +:+ key +:+ "; pick another name"))
      else mret tt
  end.
Definition setSecret (actor : Actor) (beamhallID beamID : ID) (key value : string) : OM () :=
  check (validateSecretKey key);;
  (if decide (beamID ≠ no_id) then
     operableBeam beamhallID beamID;; refuseFacilitySealedKey beamID key
   else mret tt);;
  in_store (Vault_Set (MkSecretRef beamhallID beamID key ChannelShared) value (Actor_ID actor));;
  mret tt.
Definition SetSecret (actor : Actor) (beamhallID beamID : ID) (key value : string) : OM () :=
  authorize actor ActionSetSecret beamhallID beamID;;
  with_outcome actor ActionSetSecret beamhallID beamID
    (setSecret actor beamhallID beamID key value).

(** * The build steps *)

Definition acquireBuildSlot : OM () := λ w,
  match buildSem o with
  | None => (inr tt, w)
  | Some cap =>
      if decide (w_builds w < cap) then (inr tt, w <| w_builds := S (w_builds w) |>)
      else (inl (ErrMsg ("the appliance is already running its maximum of "
                   +:+ pretty cap +:+ " concurrent builds; retry in a moment")), w)
  end.
Definition releaseBuildSlot : OM () :=
  modify (λ w, match buildSem o with
               | None => w
               | Some _ => w <| w_builds := w_builds w - 1 |>
               end).
(** The errors of a build pass the beam's scrubber; no scrubber, no build. *)
Definition scrubbedBuild (beamhallID beamID : ID) (run : ext X BuildResult) : OM BuildResult :=
  scrub ← wrapping "build refused: cannot construct the log scrubber: "
            (in_store (ScrubberFor beamhallID beamID));
  r ← attempt (outside run);
  match r with
  | inl e => throw (ErrMsg (Scrub scrub (Error e)))
  | inr res => mret res
  end.

Definition image_build (actor : Actor) (beam : Beam) (imageRef imageDigest : string) : Build :=
  MkBuild no_id (Beam_ID beam) EmptyString SourceImageRef EmptyString BuildSucceeded imageRef
    imageDigest EmptyString EmptyString no_id (Actor_ID actor) None None.
Definition source_build (actor : Actor) (beam : Beam) (res : BuildResult) : Build :=
  MkBuild no_id (Beam_ID beam) (BR_SourceSHA res) SourceManagedGit (BR_Builder res)
    BuildSucceeded (BR_ImageRef res) (BR_ImageDigest res) EmptyString EmptyString no_id
    (Actor_ID actor) None None.

(** buildStep: the Build row and the image reference to deploy. *)
Definition buildStep : Type := Beam → Beamhall → OM (Build * string).
Definition image_step (actor : Actor) (imageRef imageDigest : string) : buildStep := λ beam _,
  if decide (imageDigest = EmptyString) then
    throw (ErrMsg "deploy needs a pinned image digest or a source build (DeployBeamFromSource)")
  else mret (image_build actor beam imageRef imageDigest, imageDigest).
Definition source_step (actor : Actor) (beamhallID beamID : ID)
    (run : Beamhall → Beam → ext X BuildResult) : buildStep := λ beam bh,
  if negb (has_builder o) then
    throw (ErrMsg "no build pipeline configured on this backplane")
  else
  acquireBuildSlot;;
  r ← attempt (scrubbedBuild beamhallID beamID (run bh beam));
  releaseBuildSlot;;
  match r with
  | inl e => throw e
  | inr res => mret (source_build actor beam res, BR_PullRef res)
  end.

(** * Bringing a workload up *)

Definition time_after (a b : time) : bool :=
  match a, b with
  | Some x, Some y => bool_decide (y < x)%Z
  | Some _, None => true
  | None, _ => false
  end.

Definition crashLogs (beamhallID beamID : ID) (h : Handle) : OM string :=
  r ← attempt (outside (drv_Logs h (MkLogOptions false None 30 [])));
  match r with
  | inl _ => mret EmptyString
  | inr raw =>
      let raw := String.substring 0 maxCrashLog raw in
      if decide (raw = EmptyString) then mret EmptyString
      else
        s ← attempt (in_store (ScrubberFor beamhallID beamID));
        match s with
        | inl _ => mret EmptyString
        | inr scrub => mret (Scrub scrub raw)
        end
  end.

Fixpoint await_poll (beamhallID beamID : ID) (h : Handle) (deadline : time) (n : nat)
    : OM Status :=
  status ← outside (drv_Status h);
  if decide (Status_State status = WorkloadExited) then
    logs ← crashLogs beamhallID beamID h;
    throw (ErrMsg (StartFailure (Status_ExitCode status) logs))
  else
  t ← in_store now;
  if time_after t deadline then
    if decide (Status_State status = WorkloadRunning) then mret status
    else throw (ErrMsg ("workload did not reach running within the startup grace (state "
                  +:+ quoted (WorkloadState_string (Status_State status)) +:+ ")"))
  else
    match n with
    | O => throw (ErrExternal "context canceled")
    | S n => await_poll beamhallID beamID h deadline n
    end.
Definition awaitStartup (beamhallID beamID : ID) (h : Handle) : OM Status :=
  t ← in_store now;
  await_poll beamhallID beamID h (time_add t (startupGrace o)) polls.

Definition deploy_spec (beamhallID beamID : ID) (bh : Beamhall) (sc : SecurityContext)
    (pullRef : string) (mounts : list SecretMount) (bindings : list ResourceBinding)
    : DeploySpec :=
  MkDeploySpec beamID beamhallID pullRef []
    (MkDriverNetwork (networkName beamhallID)
       (bool_decide (NP_EgressMode (Beamhall_NetworkPolicy bh) = EgressDenyAll))
       (NP_EgressAllowlist (Beamhall_NetworkPolicy bh)))
    (profileOf sc) (limitsOf sc) mounts bindings (beamPort o).

(** What runs once the container exists, before it counts as up. *)
Definition bring_up (beamhallID beamID releaseID : ID) (h : Handle) : OM Status :=
  (if has_egressSync o then
     wrapping "egress policy could not be asserted for this beamhall's network: "
       (outside egress_sync)
   else mret tt);;
  in_store (SetReleaseWorkload releaseID (MkWorkloadHandle (DriverName h) (Ref h)));;
  outside (drv_Start h);;
  awaitStartup beamhallID beamID h.
Definition spawnWorkload (beamhallID beamID releaseID : ID) (bh : Beamhall)
    (sc : SecurityContext) (refs : list SecretRef) (pullRef : string) : OM Status :=
  mounts ← in_store (Inject refs);
  branding ← brandingBinding o bh;
  c2c ← c2cBinding o beamhallID refs;
  h ← outside (drv_Deploy (deploy_spec beamhallID beamID bh sc pullRef mounts
                             (branding ++ assertionBinding o beamID ++ c2c)));
  r ← attempt (bring_up beamhallID beamID releaseID h);
  match r with
  | inl err =>
      logged (outside (drv_Stop h 0%Z));;
      logged (outside (drv_Destroy h));;
      throw err
  | inr status =>
      probeAgentTools o beamID releaseID (Status_BackendAddr status);;
      resyncEgressForGrants o;;
      mret status
  end.

(** * Releases and routes *)

Definition failBeam {A} (beam : Beam) (ev : Event) (cause : error) : OM A :=
  match Apply beam ev with
  | inr beam => logged (in_store (UpdateBeam beam))
  | inl _ => mret tt
  end;;
  throw cause.
(** [if err != nil { return nil, o.failBeam(ctx, &beam, ev, err) }] *)
Definition or_fail {A} (beam : Beam) (ev : Event) (m : OM A) : OM A :=
  r ← attempt m;
  match r with inl e => failBeam beam ev e | inr a => mret a end.

Definition stop_and_destroy (rel : Release) : OM () :=
  if decide (Handle_Ref (Rel_Workload rel) = EmptyString) then mret tt
  else
    logged (outside (drv_Stop (handleOf rel) (10 * 10 ^ 9)%Z));;
    outside (drv_Destroy (handleOf rel)).
(** Take the route of a release down, if it is active. *)
Definition retire_route_of (rel : Release) : OM () :=
  if decide (Rel_RouteID rel = no_id) then mret tt
  else
    r ← attempt (in_store (GetRoute (Rel_RouteID rel)));
    match r with
    | inl _ => mret tt
    | inr rt =>
        if decide (Route_Status rt = RouteActive) then
          in_gw (Gw_Retire (Route_Hostname rt));;
          in_store (RetireRoute (Route_ID rt))
        else mret tt
    end.
Definition retireRelease (relID : ID) (status : ReleaseStatus) : OM () :=
  rel ← in_store (GetRelease relID);
  in_store (UpdateReleaseStatus relID status);;
  retire_route_of rel;;
  stop_and_destroy rel.

Definition mintRoute (beam : Beam) (relID : ID) (hostname : string) (kind : RouteKind)
    (backendAddr : string) : OM ID :=
  rt ← in_store (CreateRoute (MkRoute no_id (Beam_ID beam) relID kind hostname EmptyString
                   backendAddr EmptyString RouteActive None None));
  in_gw (Gw_Upsert (MkGwRoute hostname backendAddr kind));;
  in_store (SetReleaseRoute relID (Route_ID rt));;
  mret (Route_ID rt).

Definition finalizeActiveRelease (beam : Beam) (relID : ID) (backendAddr : string)
    : OM (string * Beam) :=
  hostname ← (if decide (Beam_PreviewHost beam = EmptyString) then previewHost o
              else mret (Beam_PreviewHost beam));
  let beam := beam <| Beam_PreviewHost := hostname |> in
  mintRoute beam relID hostname RoutePreview backendAddr;;
  at_ ← in_store now;
  let beam := beam <| Beam_CurrentReleaseID := relID |> <| Beam_DesiredReleaseID := no_id |>
                   <| Beam_ResumedAt := at_ |> in
  Arm (Beam_ID beam) (time_add at_ (pauseAfter o beam));;
  beam ← in_store (UpdateBeam beam);
  syncAuthRedirects o (Beam_ID beam) ChannelPreview hostname;;
  mret (hostname, beam).

(** * Deploy *)

Definition config_snapshot (pullRef : string) : gmap string string :=
  {["port" := format_int (beamPort o); "pull_ref" := pullRef]}.
Definition new_release (beamID buildID : ID) (ch : Channel) (pullRef : string)
    (refs : list SecretRef) (sc : SecurityContext) : Release :=
  MkRelease no_id beamID buildID 0 ch (config_snapshot pullRef) refs sc no_id
    (MkWorkloadHandle EmptyString EmptyString) ReleasePending None None.

Definition deploy (beamhallID beamID : ID) (step : buildStep) : OM Beam :=
  beam ← operableBeam beamhallID beamID;
  bh ← in_store (GetBeamhall beamhallID);
  sc ← in_store (GetSecurityContext beamhallID);
  let prevRelease := Beam_CurrentReleaseID beam in
  beam ← apply beam EvDeploy;
  beam ← in_store (UpdateBeam beam);
  bp ← or_fail beam EvBuildFail (step beam bh);
  let '(build, pullRef) := bp in
  build ← or_fail beam EvBuildFail (in_store (CreateBuild build));
  refs ← or_fail beam EvBuildFail (secretRefs beamhallID (Beam_ID beam) ChannelPreview);
  rel ← or_fail beam EvBuildFail (in_store (CreateRelease
          (new_release (Beam_ID beam) (Build_ID build) ChannelPreview pullRef refs sc)));
  beam ← apply beam EvBuildOK;
  beam ← in_store (UpdateBeam (beam <| Beam_DesiredReleaseID := Rel_ID rel |>));
  status ← or_fail beam EvStartFail
             (spawnWorkload beamhallID (Beam_ID beam) (Rel_ID rel) bh sc refs pullRef);
  beam ← apply beam EvStartOK;
  in_store (ActivateRelease (Rel_ID rel));;
  beam ← in_store (UpdateBeam (beam <| Beam_CurrentReleaseID := Rel_ID rel |>));
  (if decide (prevRelease = no_id) then mret tt
   else logged (retireRelease prevRelease ReleaseSuperseded));;
  hb ← finalizeActiveRelease beam (Rel_ID rel) (Status_BackendAddr status);
  mret hb.2.

Definition DeployBeam (actor : Actor) (beamhallID beamID : ID)
    (imageRef imageDigest : string) : OM Beam :=
  authorize actor ActionDeployBeam beamhallID beamID;;
  with_outcome actor ActionDeployBeam beamhallID beamID
    (deploy beamhallID beamID (image_step actor imageRef imageDigest)).
Definition DeployBeamFromSource (actor : Actor) (beamhallID beamID : ID) (srcDir : string)
    : OM Beam :=
  authorize actor ActionDeployBeam beamhallID beamID;;
  with_outcome actor ActionDeployBeam beamhallID beamID
    (deploy beamhallID beamID (source_step actor beamhallID beamID
       (λ bh beam, BuildFromDir (Beamhall_Slug bh) (Beam_Slug beam) srcDir))).
Definition DeployBeamFromGit (actor : Actor) (beamhallID beamID : ID) (sha : string)
    : OM Beam :=
  authorize actor ActionDeployBeam beamhallID beamID;;
  with_outcome actor ActionDeployBeam beamhallID beamID
    (deploy beamhallID beamID (source_step actor beamhallID beamID
       (λ bh beam, BuildFromCommit (Beamhall_Slug bh) (Beam_Slug beam) sha))).
End beam.
