(* ===== verification/OrchLife.v ===== *)
(** The rest of a beam's life (internal/orch/lifecycle.go, livechannel.go, rollback.go,
    promotion.go): pause and resume, promotion and its approval, rollback, destruction,
    and the restoration at boot. *)
From S2P Require Import Prelude GoStrings Domain Gateway Store StoreOps AuditLog Policy.
From S2P Require Import Vault Scrub Outside Orch Facility OrchBeam.

Section life.
Context `{!Env, !Age, !Rand} {X C : Type} `{!Caddy C}.
Context `{!RuntimeDriver X, !Platform X, !DatabaseProvisioner X, !IdentityProvider X, !Brokers X}.
Context (o : Orchestrator) (polls : nat).
Notation OM := (OM (X := X) (C := C)).

(** * Pause and resume (lifecycle.go) *)

Definition pause (beamhallID beamID : ID) (ev : Event) : OM () :=
  beam ← operableBeam beamhallID beamID;
  beam ← apply beam ev;
  rel ← wrapping "paused beam has no usable release: "
          (in_store (GetRelease (Beam_CurrentReleaseID beam)));
  outside (drv_Pause (handleOf rel));;
  retire_route_of rel;;
  let beam := beam <| Beam_PreviewHost := EmptyString |> in
  syncAuthRedirects o beamID ChannelPreview EmptyString;;
  in_store (UpdateBeam beam);;
  mret tt.

(** The function the scheduler fires. *)
Definition PauseFunc (beamID : ID) : OM () :=
  beam ← in_store (GetBeam beamID);
  r ← attempt (pause (Beam_BeamhallID beam) beamID EvPauseTimer);
  match r with
  | inr _ => mret tt
  | inl err => match as_transition err with Some _ => mret tt | None => throw err end
  end.

Definition PausePreview (actor : Actor) (beamhallID beamID : ID) : OM () :=
  authorize actor ActionPausePreview beamhallID beamID;;
  with_outcome actor ActionPausePreview beamhallID beamID
    (pause beamhallID beamID EvPausePreview;; Disarm beamID).

Definition resume (beamhallID beamID : ID) : OM string :=
  beam ← operableBeam beamhallID beamID;
  beam ← apply beam EvResumePreview;
  rel ← in_store (GetRelease (Beam_CurrentReleaseID beam));
  let h := handleOf rel in
  outside (drv_Resume h);;
  status ← outside (drv_Status h);
  hostname ← previewHost o;
  let beam := beam <| Beam_PreviewHost := hostname |> in
  mintRoute beam (Rel_ID rel) hostname RoutePreview (Status_BackendAddr status);;
  at_ ← in_store now;
  let beam := beam <| Beam_ResumedAt := at_ |> in
  Arm (Beam_ID beam) (time_add at_ (pauseAfter o beam));;
  syncAuthRedirects o (Beam_ID beam) ChannelPreview hostname;;
  in_store (UpdateBeam beam);;
  mret hostname.
Definition ResumePreview (actor : Actor) (beamhallID beamID : ID) : OM string :=
  authorize actor ActionResumePreview beamhallID beamID;;
  with_outcome actor ActionResumePreview beamhallID beamID (resume beamhallID beamID).

(** ShowLogs *)
Definition showLogs (beamhallID beamID : ID) (opts : LogOptions) : OM string :=
  beam ← operableBeam beamhallID beamID;
  if decide (Beam_CurrentReleaseID beam = no_id) then
    throw (ErrMsg ("beam " +:+ beamID +:+ " has never been deployed"))
  else
  rel ← in_store (GetRelease (Beam_CurrentReleaseID beam));
  raw ← outside (drv_Logs (handleOf rel) opts);
  scrub ← in_store (ScrubberFor beamhallID beamID);
  mret (Scrub scrub raw).
Definition ShowLogs (actor : Actor) (beamhallID beamID : ID) (opts : LogOptions) : OM string :=
  authorize actor ActionShowLogs beamhallID beamID;;
  with_outcome actor ActionShowLogs beamhallID beamID (showLogs beamhallID beamID opts).

(** * The live channel (livechannel.go) *)

Definition releaseSlot (beam : Beam) : OM () :=
  logged (in_store (UpdateBeam (beam <| Beam_Mode := ModePreview |>
                                     <| Beam_LiveState := StateNone |>))).
(** On a first promote, an error gives the reserved slot back. *)
Definition or_release {A} (firstPromote : bool) (beam : Beam) (m : OM A) : OM A :=
  r ← attempt m;
  match r with
  | inr a => mret a
  | inl e => (if firstPromote then releaseSlot beam else mret tt);; throw e
  end.

Definition retireLiveWorkload (relID : ID) : OM () :=
  rel ← in_store (GetRelease relID);
  in_store (UpdateReleaseStatus relID ReleaseSuperseded);;
  stop_and_destroy rel.

(** The active route row of a release, if any. *)
Definition active_route_of (relID : ID) : OM ID :=
  if decide (relID = no_id) then mret no_id
  else
    r ← attempt (in_store (GetRelease relID));
    match r with
    | inl _ => mret no_id
    | inr rel =>
        if decide (Rel_RouteID rel = no_id) then mret no_id
        else
          r ← attempt (in_store (GetRoute (Rel_RouteID rel)));
          match r with
          | inl _ => mret no_id
          | inr rt => if decide (Route_Status rt = RouteActive) then mret (Route_ID rt)
                      else mret no_id
          end
    end.
Definition finalizeLiveRelease (beam : Beam) (bh : Beamhall) (relID : ID) (backendAddr : string)
    : OM string :=
  let hostname := liveHost o (Beam_Slug beam) (Beamhall_Slug bh) in
  let prevLive := Beam_LiveReleaseID beam in
  oldRouteID ← active_route_of prevLive;
  wrapping "finalize live release: gateway upsert: "
    (in_gw (Gw_Upsert (MkGwRoute hostname backendAddr RouteLive)));;
  newRoute ← wrapping "finalize live release: swap route: "
    (in_store (SwapActiveRoute oldRouteID (MkRoute no_id (Beam_ID beam) relID RouteLive
       hostname EmptyString backendAddr EmptyString RouteActive None None)));
  in_store (SetReleaseRoute relID (Route_ID newRoute));;
  in_store (ActivateRelease relID);;
  (if decide (prevLive ≠ no_id ∧ prevLive ≠ relID) then logged (retireLiveWorkload prevLive)
   else mret tt);;
  let beam := beam <| Beam_LiveReleaseID := relID |> <| Beam_LiveState := StateLive |> in
  syncAuthRedirects o (Beam_ID beam) ChannelLive hostname;;
  in_store (UpdateBeam beam);;
  mret hostname.

Definition pull_ref (rel : Release) : string := default EmptyString (Rel_ConfigSnapshot rel !! "pull_ref").

Definition promote (actor : Actor) (beamhallID beamID : ID) : OM string :=
  beam ← operableBeam beamhallID beamID;
  bh ← in_store (GetBeamhall beamhallID);
  require beam EvPromote;;
  previewRel ← wrapping "promote needs a running preview release: "
                 (in_store (GetRelease (Beam_CurrentReleaseID beam)));
  let pullRef := pull_ref previewRel in
  if decide (pullRef = EmptyString) then
    throw (ErrMsg ("preview release " +:+ Rel_ID previewRel +:+
      " has no stored image reference; redeploy the preview first"))
  else
  let firstPromote := negb (bool_decide (Beam_Mode beam = ModeLive)) in
  beam ← (if firstPromote then
            in_store (PromoteBeam beamhallID beamID (EffectiveLiveSlotLimit bh));;
            mret (beam <| Beam_Mode := ModeLive |>)
          else mret beam);
  or_release firstPromote beam (reconcileLiveResources o actor bh (Beam_Slug beam) beamID);;
  liveRefs ← or_release firstPromote beam (secretRefs beamhallID beamID ChannelLive);
  rel ← or_release firstPromote beam (in_store (CreateRelease
          (new_release o beamID (Rel_BuildID previewRel) ChannelLive pullRef liveRefs
             (Rel_SecurityProfileSnap previewRel))));
  r ← attempt (spawnWorkload o polls beamhallID beamID (Rel_ID rel) bh
                 (Rel_SecurityProfileSnap rel) liveRefs pullRef);
  match r with
  | inl err =>
      logged (in_store (UpdateReleaseStatus (Rel_ID rel) ReleaseSuperseded));;
      if firstPromote then
        releaseSlot beam;;
        throw (ErrWrap "promote failed bringing up the live workload: " err)
      else
        throw (ErrWrap ("promote failed bringing up the new live workload "
                        +:+ "(current production left running): ") err)
  | inr status => finalizeLiveRelease beam bh (Rel_ID rel) (Status_BackendAddr status)
  end.
Definition PromoteToLive (actor : Actor) (beamhallID beamID : ID) : OM string :=
  authorize actor ActionPromoteToLive beamhallID beamID;;
  with_outcome actor ActionPromoteToLive beamhallID beamID (promote actor beamhallID beamID).

(** * Promotion requests (promotion.go) *)

Definition requestPromotion (actor : Actor) (beamhallID beamID : ID) : OM PromotionRequest :=
  beam ← operableBeam beamhallID beamID;
  require beam EvPromote;;
  r ← attempt (in_store (GetPendingPromotionByBeam beamID));
  match r with
  | inr existing =>
      throw (ErrMsg ("a promotion request (" +:+ PR_ID existing
                     +:+ ") is already pending for this beam"))
  | inl e =>
      if negb (is_not_found e) then throw e
      else in_store (CreatePromotionRequest (MkPromotionRequest no_id beamhallID beamID
             (Beam_CurrentReleaseID beam) (Actor_ID actor) PromotionPending EmptyString None
             no_id None))
  end.
Definition RequestPromotion (actor : Actor) (beamhallID beamID : ID) : OM PromotionRequest :=
  authorize actor ActionRequestPromote beamhallID beamID;;
  with_outcome actor ActionRequestPromote beamhallID beamID
    (requestPromotion actor beamhallID beamID).

(** The checks and the promotion of a request read under the beam's lock. *)
Definition decide_and_promote (actor : Actor) (requestID : ID) (req : PromotionRequest)
    : OM string :=
  if decide (PR_Status req ≠ PromotionPending) then
    throw (ErrMsg ("request " +:+ requestID +:+ " is already "
                   +:+ PromotionStatus_string (PR_Status req)))
  else if decide (PR_RequestedBy req = Actor_ID actor) then
    throw (ErrMsg "the requester cannot approve their own promotion (four-eyes)")
  else
  beam ← in_store (GetBeam (PR_BeamID req));
  if decide (Beam_CurrentReleaseID beam ≠ PR_ReleaseID req) then
    throw (ErrMsg ("the preview build has changed since this promotion was requested (requested "
      +:+ PR_ReleaseID req +:+ ", preview is now on " +:+ Beam_CurrentReleaseID beam
      +:+ ") — reject this request and have it re-requested against the current build"))
  else
  hostname ← promote actor (PR_BeamhallID req) (PR_BeamID req);
  in_store (DecidePromotionRequest (PR_ID req) PromotionApproved (Actor_ID actor) EmptyString);;
  mret hostname.
Definition no_request : PromotionRequest :=
  MkPromotionRequest no_id no_id no_id no_id no_id PromotionPending EmptyString None no_id None.
(** The request is returned beside the error: the decision is recorded under its
    beamhall. *)
Definition approvePromotion (actor : Actor) (requestID : ID)
    : OM ((error + string) * PromotionRequest) :=
  r ← attempt (in_store (GetPromotionRequest requestID));
  match r with
  | inl e => mret (inl e, no_request)
  | inr _ =>
      r ← attempt (in_store (GetPromotionRequest requestID));
      match r with
      | inl e => mret (inl e, no_request)
      | inr req =>
          r ← attempt (decide_and_promote actor requestID req);
          mret (r, req)
      end
  end.
Definition ApprovePromotion (actor : Actor) (requestID : ID) : OM string :=
  match requireIT actor with
  | Some err => itAudit actor "approve_promotion" no_id (Some err);; throw err
  | None =>
      rr ← approvePromotion actor requestID;
      match rr.1 with
      | inl e => itAudit actor "approve_promotion" (PR_BeamhallID rr.2) (Some e);; throw e
      | inr hostname =>
          itAudit actor "approve_promotion" (PR_BeamhallID rr.2) None;; mret hostname
      end
  end.

Definition RejectPromotion (actor : Actor) (requestID : ID) (reason : string) : OM () :=
  match requireIT actor with
  | Some err => itAudit actor "reject_promotion" no_id (Some err)
  | None =>
      r ← attempt (in_store (GetPromotionRequest requestID));
      match r with
      | inl e => itAudit actor "reject_promotion" no_id (Some e)
      | inr req =>
          op ← attempt (in_store (DecidePromotionRequest requestID PromotionRejected
                                    (Actor_ID actor) reason));
          itAudit actor "reject_promotion" (PR_BeamhallID req)
            (match op with inl e => Some e | inr _ => None end)
      end
  end.

(** * Rollback (rollback.go) *)

Definition rollback_refusal (beam : Beam) (beamID targetReleaseID : ID) (target : Release)
    : option error :=
  if decide (Rel_BeamID target ≠ beamID) then
    Some (ErrMsg ("release " +:+ targetReleaseID +:+ " does not belong to beam " +:+ beamID))
  else if decide (targetReleaseID = Beam_LiveReleaseID beam) then
    Some (ErrMsg ("release " +:+ targetReleaseID +:+ " is already serving production"))
  else if decide (targetReleaseID = Beam_CurrentReleaseID beam) then
    Some (ErrMsg ("release " +:+ targetReleaseID +:+ " is the preview build, not a prior "
      +:+ "production release; to roll production back, target a prior live release"))
  else if decide (Rel_Channel target ≠ ChannelLive) then
    Some (ErrMsg ("release " +:+ targetReleaseID +:+ " is a preview build, not a prior "
      +:+ "production release; to roll production back, target a prior live release"))
  else if decide (pull_ref target = EmptyString) then
    Some (ErrMsg ("release " +:+ targetReleaseID +:+ " has no stored image reference "
      +:+ "(it predates rollback support); redeploy instead"))
  else None.
Definition rollback (beamhallID beamID targetReleaseID : ID) : OM string :=
  beam ← operableBeam beamhallID beamID;
  bh ← in_store (GetBeamhall beamhallID);
  require beam EvRollback;;
  target ← in_store (GetRelease targetReleaseID);
  check (rollback_refusal beam beamID targetReleaseID target);;
  status ← wrapping "rollback bring-up failed (current production left running): "
    (spawnWorkload o polls beamhallID beamID (Rel_ID target) bh
       (Rel_SecurityProfileSnap target) (Rel_SecretRefs target) (pull_ref target));
  beam ← apply beam EvRollback;
  finalizeLiveRelease beam bh (Rel_ID target) (Status_BackendAddr status).
Definition RollbackBeam (actor : Actor) (beamhallID beamID targetReleaseID : ID) : OM string :=
  authorize actor ActionRollback beamhallID beamID;;
  with_outcome actor ActionRollback beamhallID beamID
    (rollback beamhallID beamID targetReleaseID).

(** * Destruction (rollback.go) *)

Definition sweep_release (swept : list ID) (rel : Release) : OM () :=
  if decide (Rel_ID rel ∈ swept ∨ Handle_Ref (Rel_Workload rel) = EmptyString
             ∨ Rel_Status rel = ReleaseSuperseded)
  then mret tt
  else logged (retireRelease (Rel_ID rel) ReleaseSuperseded).
Definition sweep_releases (beam : Beam) (beamID : ID) : OM () :=
  let cur := Beam_CurrentReleaseID beam in
  let live := Beam_LiveReleaseID beam in
  (if decide (cur = no_id) then mret tt else logged (retireRelease cur ReleaseSuperseded));;
  (if decide (live ≠ no_id ∧ live ≠ cur) then logged (retireRelease live ReleaseSuperseded)
   else mret tt);;
  r ← attempt (in_store (ListReleasesByBeam beamID));
  match r with
  | inl _ => mret tt
  | inr rels =>
      let swept := (if decide (cur = no_id) then [] else [cur])
                   ++ (if decide (live ≠ no_id ∧ live ≠ cur) then [live] else []) in
      for_each rels (sweep_release swept)
  end.
Definition destroy (beamhallID beamID : ID) (previewOnly : bool) : OM () :=
  beam ← in_store (GetBeam beamID);
  if decide (Beam_BeamhallID beam ≠ beamhallID) then
    throw (ErrMsg ("beam " +:+ beamID +:+ " is not in beamhall " +:+ beamhallID))
  else if previewOnly && bool_decide (Beam_Mode beam = ModeLive) then
    throw (ErrMsg ("beam " +:+ quoted (Beam_Slug beam) +:+
      " is live; archiving a live beam is IT-gated — ask IT to destroy_beam it"))
  else if decide (Beam_Status beam = BeamArchived) then
    throw (ErrMsg ("beam " +:+ beamID +:+ " is already destroyed"))
  else
  require beam EvDestroy;;
  sweep_releases beam beamID;;
  logged (Disarm beamID);;
  reclaimResources o beamID;;
  reclaimUserSecrets beamhallID beamID;;
  reclaimPeerGrants beamID;;
  (if has_repoRetire o then
     r ← attempt (in_store (GetBeamhall beamhallID));
     match r with
     | inl _ => mret tt
     | inr bh => logged (outside (repo_retire (Beamhall_Slug bh) (Beam_Slug beam) beamID))
     end
   else mret tt);;
  beam ← apply beam EvDestroy;
  in_store (UpdateBeam (beam <| Beam_Status := BeamArchived |>
    <| Beam_CurrentReleaseID := no_id |> <| Beam_DesiredReleaseID := no_id |>
    <| Beam_LiveReleaseID := no_id |> <| Beam_LiveState := StateNone |>));;
  mret tt.
Definition DestroyBeam (actor : Actor) (beamhallID beamID : ID) : OM () :=
  authorize actor ActionDestroyBeam beamhallID beamID;;
  with_outcome actor ActionDestroyBeam beamhallID beamID (destroy beamhallID beamID false).
Definition ArchiveBeam (actor : Actor) (beamhallID beamID : ID) : OM () :=
  authorize actor ActionArchiveBeam beamhallID beamID;;
  with_outcome actor ActionArchiveBeam beamhallID beamID (destroy beamhallID beamID true).

(** * Boot (lifecycle.go) *)

Definition fail_interrupted (beam : Beam) : OM () :=
  if decide (Beam_Status beam = BeamArchived) then mret tt
  else match Apply beam EvBuildFail with
       | inl _ => mret tt
       | inr beam => logged (in_store (UpdateBeam beam))
       end.
Definition restore_route (rt : Route) : OM () :=
  wrapping ("restore route " +:+ Route_Hostname rt +:+ ": ")
    (in_gw (Gw_Upsert (MkGwRoute (Route_Hostname rt) (Route_BackendAddr rt)
       (if decide (Route_Kind rt = RouteLive) then RouteLive else RoutePreview)))).
Definition Boot : OM () :=
  r ← attempt (in_store (ListBeamsByState StateBuilding));
  match r with
  | inl _ => mret tt
  | inr stuck => for_each stuck fail_interrupted
  end;;
  routes ← in_store ActiveRoutes;
  for_each routes restore_route;;
  wrapping "apply gateway config at boot: " (in_gw Gw_Apply).
End life.
