(* ===== verification/OrchFixtures.v ===== *)
(** A small outside world the orchestrator's witnesses run on: a container engine that
    keeps a table of containers, facilities that always answer, and a backplane serving
    the fixtures' running beam. *)
From S2P Require Import Prelude Domain Gateway GatewayProofs Store StoreInv Vault VaultProofs.
From S2P Require Import Outside Orch Fixtures.

(** The containers and their states, and the error Start answers with, if any. *)
Record Engine := MkEngine {
  en_containers : gmap string WorkloadState;
  en_start : option string }.
#[export] Instance Eta_Engine : Eta Engine := λ x, MkEngine (en_containers x) (en_start x).

(** A name longer than any in use. *)
Definition new_ref (m : gmap string WorkloadState) : string :=
  "c" +:+ foldr String.append EmptyString (map_to_list m).*1.

Lemma new_ref_fresh m : m !! new_ref m = None.
Proof.
  apply eq_None_not_Some. intros [s Hs].
  assert (∀ l r, r ∈ l → String.length r ≤ String.length (foldr String.append EmptyString l)) as Hl.
  { induction l as [|x l IH]; intros r; [by intros ?%not_elem_of_nil|].
    simpl. rewrite string_length_app. intros [->|H]%elem_of_cons; [lia|].
    specialize (IH r H). lia. }
  assert (new_ref m ∈ (map_to_list m).*1) as Hin.
  { apply list_elem_of_fmap. exists (new_ref m, s). by rewrite elem_of_map_to_list. }
  apply Hl in Hin. unfold new_ref in Hin. rewrite string_length_app in Hin. simpl in Hin. lia.
Qed.

(** Set the state of a container that exists. *)
Definition en_set (h : Handle) (s : WorkloadState) (e : Engine) : (string + ()) * Engine :=
  match en_containers e !! Ref h with
  | None => (inl "No such container", e)
  | Some _ => (inr tt, e <| en_containers := <[Ref h := s]> (en_containers e) |>)
  end.

#[export] Instance Engine_driver : RuntimeDriver Engine := {|
  drv_Deploy _ e :=
    let r := new_ref (en_containers e) in
    (inr (MkHandle "docker" r), e <| en_containers := <[r := WorkloadUnknown]> (en_containers e) |>);
  drv_Start h e :=
    match en_start e with
    | Some msg => (inl msg, e)
    | None => en_set h WorkloadRunning e
    end;
  drv_Pause h := en_set h WorkloadPaused;
  drv_Resume h := en_set h WorkloadRunning;
  drv_Stop h _ := en_set h WorkloadExited;
  drv_Destroy h e :=
    (inr tt, if decide (DriverName h = "docker")
             then e <| en_containers := delete (Ref h) (en_containers e) |> else e);
  drv_Logs _ _ e := (inr "listening on :8080", e);
  drv_Status h e :=
    (match en_containers e !! Ref h with
     | None => inl "No such container"
     | Some s => inr (MkStatus s None None "none" "10.0.0.9:8080")
     end, e) |}.

#[export] Instance Engine_databases : DatabaseProvisioner Engine := {|
  db_Provision r e := (inr (MkProvisioned "postgres://db" (DBR_Name r) (DBR_Name r)), e);
  db_Drop _ e := (inr tt, e) |}.
#[export] Instance Engine_idp : IdentityProvider Engine := {|
  idp_CreateClient s e := (inr (MkIdPClient "uuid" (CS_ClientID s) "client-secret"), e);
  idp_DeleteClient _ e := (inr tt, e);
  idp_SyncRedirectURIs _ _ _ e := (inr tt, e);
  idp_SetClientGroupRoles _ _ e := (inr tt, e) |}.
#[export] Instance Engine_brokers : Brokers Engine := {|
  email_Provision r e := (inr (MkMailCredentials ("beam-" +:+ MR_BeamID r) "pw"), e);
  email_RegisterHashed _ _ _ _ _ e := (inr tt, e);
  email_Deregister _ e := (inr tt, e);
  email_SetSenders _ _ e := (inr tt, e);
  email_SetProvider _ e := (inr tt, e);
  email_PullEvents after e := (inr ([], after), e);
  email_Status e := (inr (true, 0%Z), e);
  email_CACert e := (inr "PEM", e);
  email_Attach _ e := (inr tt, e);
  obj_Provision _ e := (inr (MkS3Credentials "AK" "SK"), e);
  obj_RegisterKey _ e := (inr tt, e);
  obj_Deregister _ _ _ e := (inr tt, e);
  obj_SetProvider _ e := (inr tt, e);
  obj_SetQuota _ _ _ e := (inr tt, e);
  obj_PullEvents after e := (inr ([], after), e);
  obj_Status e := (inr (true, 0%Z), e);
  obj_Attach _ e := (inr tt, e) |}.
Definition built : BuildResult :=
  MkBuildResult "0a1b" "paketo" "registry/crm" "sha256:2" "registry/crm@sha256:2".
#[export] Instance Engine_platform : Platform Engine := {|
  BuildFromDir _ _ _ e := (inr built, e);
  BuildFromCommit _ _ _ e := (inr built, e);
  egress_sync e := (inr tt, e);
  repo_retire _ _ _ e := (inr tt, e);
  net_facts _ e := (inr (MkNetworkFacts "br-hall" ["172.18.0.0/16"] "172.18.0.1"
                           {["bh_B1-0a1b" := "172.18.0.7"]}), e);
  BindingJSON b := b;
  jwt_SignedString c e := (inr ("jwt:" +:+ Claim_sub c), e);
  http_URL _ := None;
  http_Do r e := (inr (MkHTTPResponse 200 "200 OK" (ReqBody r) None), e);
  json_Manifest _ := inr (MkToolManifest 1 [MkTool "ping" "Answers." EmptyString]);
  limiter_Allow _ _ e := (true, e) |}.

#[export] Instance Engine_directory : Directory Engine := {|
  idp_CreateUser u e := (inr (MkUser "u1" (NU_Username u) (NU_Email u) (NU_Enabled u)), e);
  idp_ListUsers _ _ e := (inr [], e);
  idp_SetTemporaryPassword _ _ e := (inr tt, e);
  idp_SetUserEnabled _ _ e := (inr tt, e);
  idp_DeleteUser _ e := (inr tt, e);
  idp_CreateGroup n e := (inr (MkGroup "g1" n n), e);
  idp_ListGroups e := (inr [], e);
  idp_AddUserToGroup _ _ e := (inr tt, e);
  idp_RemoveUserFromGroup _ _ e := (inr tt, e);
  idp_DeleteGroup _ e := (inr tt, e);
  idp_FederateDirectory _ e := (inr tt, e);
  idp_UnfederateDirectory _ e := (inr tt, e) |}.
#[export] Instance Engine_appliance : Appliance Engine := {|
  os_MkdirAll _ e := (inr tt, e);
  os_Size _ e := (inr 1024%Z, e);
  os_ReadDir _ e := (inr (Some []), e);
  backup_Create _ _ _ _ e := (inr tt, e);
  backup_Verify _ e := (inr (MkManifest "2024-01-01T00:00:00Z" true true), e);
  CurrentVersion _ := "v0.1.10";
  upgrade_Stage v s e := (inr (MkStaged v "/staged" s "install" "rollback"), e) |}.
Definition slash_join (a b : string) : string := a +:+ "/" +:+ b.

#[export] Existing Instance TestAge.
#[export] Existing Instance TestRand.

(** No optional service but the build pipeline; a startup grace shorter than a step. *)
Definition Orch1 : Orchestrator :=
  MkOrchestrator "example.com" (3600 * 10 ^ 9)%Z 8080%Z 1%Z "https://idp" "backplane" false true
    false false false false false false false false 0%Z (Some 2)
    true "/var/lib/beamhall" "/etc/beamhall/secret.key" "/backups" false true false "https://example.com/mcp"
    60%Z 60%Z 4%Z (MkEmailConfig "bh-mail" 587 100 10 true)
    (MkObjectStoreConfig "bh-objstore" 9000 "us-east-1" (2 ^ 30) true).

Definition Alice : Actor := MkActor "ada" "jti-1" false "192.0.2.1" [] "ada@example.com".
Definition Root : Actor := MkActor "root" "jti-0" true "192.0.2.9" [] "root@example.com".

Definition Gateway1 : GWorld ScriptedCaddy :=
  let g := Gw_New [] in
  let g := g <| gw_routes := {["x1.example.com" := MkGwRoute "x1.example.com" "10.0.0.2:8080"
                                                     RoutePreview]} |> in
  MkGWorld g (MkScriptedCaddy (Some (render g)) []).
Definition Engine1 : Engine := MkEngine {["c1" := WorkloadRunning]} None.
Definition World_of (d : DB) : World Engine ScriptedCaddy :=
  MkWorld (MkStore 0 d) Gateway1 ∅ ∅ ∅ Engine1 0 (MkMemory true true ∅).
Definition World1 : World Engine ScriptedCaddy := World_of DB1.

(** ** A beam in production: R2 serves, R3 served before. *)
Definition BeamLive : Beam :=
  Beam1 <| Beam_Mode := ModeLive |> <| Beam_LiveState := StateLive |>
        <| Beam_LiveReleaseID := "R2" |>.
Definition Release2 : Release :=
  Release1 <| Rel_ID := "R2" |> <| Rel_Version := 3%Z |> <| Rel_Channel := ChannelLive |>
           <| Rel_RouteID := "RT2" |> <| Rel_Workload := MkWorkloadHandle "docker" "c2" |>.
Definition Release3 : Release :=
  Release2 <| Rel_ID := "R3" |> <| Rel_Version := 2%Z |> <| Rel_Status := ReleaseSuperseded |>
           <| Rel_RouteID := "RT3" |> <| Rel_Workload := MkWorkloadHandle "docker" "c0" |>.
Definition RouteLive2 : Route :=
  MkRoute "RT2" "B1" "R2" RouteLive "crm.sales.example.com" EmptyString "10.0.0.3:8080"
    EmptyString RouteActive T0 None.
Definition DB_live : DB :=
  DB1 <| db_beams := {["B1" := BeamLive]} |>
      <| db_releases := {["R1" := Release1; "R2" := Release2; "R3" := Release3]} |>
      <| db_routes := {["RT1" := Route1; "RT2" := RouteLive2]} |>.
Definition World_live : World Engine ScriptedCaddy :=
  World_of DB_live <| w_out :=
    MkEngine {["c1" := WorkloadRunning; "c2" := WorkloadRunning]} None |>.
(** The same when containers no longer start. *)
Definition World_live_broken : World Engine ScriptedCaddy :=
  World_live <| w_out := w_out World_live <| en_start := Some "OCI runtime error" |> |>.

(** The rows of a literal table, one by one. *)
Ltac in_literal H :=
  repeat match type of H with
  | <[_ := _]> _ !! _ = Some _ => apply lookup_insert_Some in H as [[<- <-]|[? H]]
  | {[_ := _]} !! _ = Some _ => apply lookup_singleton_Some in H as [<- <-]
  | ∅ !! _ = Some _ => by rewrite lookup_empty in H
  end.
Ltac literal_table :=
  split;
  [let Hx := fresh in intros ?? Hx; simpl in Hx; in_literal Hx; done
  |let Hx := fresh in let Hy := fresh in let Hc := fresh in
   intros ???? Hx Hy Hc; simpl in Hx, Hy; in_literal Hx; in_literal Hy;
   vm_compute in Hc; naive_solver].
Lemma DB_live_ok : db_ok DB_live.
Proof. split; literal_table. Qed.
