(* ===== verification/OrchScope.v ===== *)
(** What decides what a workload may see: secret keys and slugs, the secrets in scope of
    a channel, and the refusals that come before any effect. *)
From S2P Require Import Prelude Regexp GoStrings Domain Gateway Store StoreOps AuditLog.
From S2P Require Import Policy Vault VaultProofs Scrub Outside Orch Facility OrchBeam.
From S2P Require Import OrchLife Fixtures GatewayProofs OrchFixtures.

(** * Keys and slugs *)

Lemma secretKeyRe_spec key :
  MatchString secretKeyRe key = true ↔
  1 ≤ String.length key ≤ 64 ∧ all_bytes is_word key = true.
Proof.
  unfold secretKeyRe. rewrite MatchString_anchored. setoid_rewrite matches_cat. split.
  - intros (p & [prev1 s1] & Hm & [-> He]%matches_end). apply matches_between in Hm; [|lia].
    destruct Hm as (t & -> & Hl & Hf & _). simpl in *. subst. by rewrite string_app_nil_r.
  - intros [Hl Hf]. exists (Regexp.after None key, EmptyString), (Regexp.after None key, EmptyString).
    split; [|by apply matches_end]. apply matches_between; [lia|]. exists key.
    by rewrite string_app_nil_r.
Qed.

Lemma slugRe_spec s :
  MatchString slugRe s = true ↔
  1 ≤ String.length s ≤ 32 ∧ all_bytes slug_char s = true
  ∧ begins_with slug_end s = true ∧ ends_with slug_end s = true.
Proof.
  assert (∀ c, slug_end c = true → slug_char c = true) as Hec.
  { intros c. unfold slug_end, slug_char. by intros ->. }
  unfold slugRe. rewrite MatchString_anchored. setoid_rewrite matches_cat_assoc.
  setoid_rewrite matches_cat. setoid_rewrite (matches_label _ _ _ _ _ _ Hec). split.
  - intros (p & [prev1 s1] & (t & -> & _ & Ht) & [-> He]%matches_end). simpl in *. subst.
    by rewrite string_app_nil_r.
  - intros Ht. exists (Regexp.after None s, EmptyString), (Regexp.after None s, EmptyString).
    split; [|by apply matches_end]. exists s. by rewrite string_app_nil_r.
Qed.

(** What set_secret and create_beam accept as names is exactly what their messages
    say: a key is 1 to 64 letters, digits and underscores outside the BEAMHALL_
    namespace, so it is a plain file name under /run/secrets; a slug is a DNS label of
    at most 32 lowercase letters, digits and inner hyphens. *)
Theorem names_are_safe (key slug : string) :
  (validateSecretKey key = None ↔
     1 ≤ String.length key ≤ 64 ∧ all_bytes is_word key = true
     ∧ HasPrefix key "BEAMHALL_" = false)
  ∧ (MatchString slugRe slug = true ↔
     1 ≤ String.length slug ≤ 32 ∧ all_bytes slug_char slug = true
     ∧ begins_with slug_end slug = true ∧ ends_with slug_end slug = true).
Proof.
  split; [|apply slugRe_spec]. unfold validateSecretKey.
  pose proof (secretKeyRe_spec key) as Hk. destruct (MatchString secretKeyRe key); simpl.
  - destruct (HasPrefix key "BEAMHALL_"); naive_solver.
  - split; [done|]. intros (Hl & Hf & _). naive_solver.
Qed.

(** * The secrets of a channel *)

Lemma place_ref_keys ref refs :
  Ref_Key <$> place_ref ref refs =
    if decide (Ref_Key ref ∈ Ref_Key <$> refs) then Ref_Key <$> refs
    else (Ref_Key <$> refs) ++ [Ref_Key ref].
Proof.
  induction refs as [|r refs IH]; [done|]. csimpl.
  destruct (decide (Ref_Key r = Ref_Key ref)) as [Hk|Hk].
  - rewrite (decide_True (P := Ref_Key ref ∈ _)) by (rewrite Hk; left).
    destruct (decide (refSpecificity r < refSpecificity ref)); csimpl; congruence.
  - csimpl. rewrite IH. repeat case_decide; set_solver.
Qed.

Lemma elem_of_place_ref x ref refs : x ∈ place_ref ref refs → x = ref ∨ x ∈ refs.
Proof.
  induction refs as [|r refs IH]; simpl; [set_solver|].
  repeat case_decide; rewrite !elem_of_cons; naive_solver.
Qed.

(** Placing a reference covers it, and loses no specificity. *)
Lemma place_ref_covers ref refs :
  (∃ r, r ∈ place_ref ref refs ∧ Ref_Key r = Ref_Key ref
        ∧ refSpecificity ref ≤ refSpecificity r)
  ∧ ∀ x, x ∈ refs → ∃ r, r ∈ place_ref ref refs ∧ Ref_Key r = Ref_Key x
        ∧ refSpecificity x ≤ refSpecificity r.
Proof.
  induction refs as [|y refs [IH1 IH2]]; simpl; [set_solver|].
  case_decide as Hk; [case_decide as Hs|]; split.
  - exists ref. set_solver.
  - intros x [->|Hx]%elem_of_cons; [exists ref; split; [left|split; [done|lia]]|].
    exists x. set_solver.
  - exists y. split; [left|split; [done|lia]].
  - intros x Hx. exists x. set_solver.
  - destruct IH1 as (r & Hr & ?). exists r. split; [by right|done].
  - intros x [->|Hx]%elem_of_cons; [exists y; split; [left|done]|].
    destruct (IH2 x Hx) as (r & Hr & ?). exists r. split; [by right|done].
Qed.

(** Only rows of the channel or shared ones. *)
Lemma scope_refs_channel beamID ch metas r :
  r ∈ scope_refs beamID ch metas → Ref_Channel r = ChannelShared ∨ Ref_Channel r = ch.
Proof.
  unfold scope_refs. induction metas as [|m metas IH] using rev_ind; [by intros ?%not_elem_of_nil|].
  rewrite foldl_snoc. destruct (in_scope beamID ch m) eqn:Em; [|done].
  intros [->|Hr]%elem_of_place_ref; [|by apply IH].
  by apply bool_decide_eq_true in Em as [_ Hc].
Qed.

(** The secrets injected for a channel of a beam: at most one per key, so no two
    mounts share a path; each is a row of the beam's scope (its own or beamhall-wide,
    of that channel or shared: never the other channel's, never another beam's); no
    key in scope is missing; and for each key the most specific row wins, channel
    before beam. *)
Theorem secretRefs_exact (beamID : ID) (ch : Channel) (metas : list Secret) :
  let refs := scope_refs beamID ch metas in
  NoDup (MountPath ∘ Ref_Key <$> refs)
  ∧ (∀ r, r ∈ refs → ∃ m, m ∈ metas ∧ in_scope beamID ch m = true ∧ r = meta_ref m
       ∧ (Ref_Channel r = ChannelShared ∨ Ref_Channel r = ch)
       ∧ (Ref_BeamID r = no_id ∨ Ref_BeamID r = beamID)
       ∧ ∀ m', m' ∈ metas → in_scope beamID ch m' = true → Secret_Key m' = Ref_Key r →
           refSpecificity (meta_ref m') ≤ refSpecificity r)
  ∧ (∀ m, m ∈ metas → in_scope beamID ch m = true → Secret_Key m ∈ Ref_Key <$> refs).
Proof.
  intros refs.
  assert (NoDup (Ref_Key <$> refs)
    ∧ (∀ r, r ∈ refs → ∃ m, m ∈ metas ∧ in_scope beamID ch m = true ∧ r = meta_ref m)
    ∧ (∀ m, m ∈ metas → in_scope beamID ch m = true → ∃ r, r ∈ refs
         ∧ Ref_Key r = Secret_Key m ∧ refSpecificity (meta_ref m) ≤ refSpecificity r))
    as (Hnd & Hin & Hcov).
  { unfold refs, scope_refs. induction metas as [|m metas IH] using rev_ind; simpl.
    { split_and!; [constructor|set_solver..]. }
    rewrite foldl_snoc. destruct IH as (Hnd & Hin & Hcov).
    set (l := foldl _ _ metas) in *. destruct (in_scope beamID ch m) eqn:Em.
    - split_and!.
      + rewrite place_ref_keys. case_decide; [done|]. apply NoDup_app.
        split_and!; [done| |apply NoDup_singleton]. by intros x Hx ->%list_elem_of_singleton.
      + intros r [->|Hr]%elem_of_place_ref; [exists m; set_solver|].
        destruct (Hin r Hr) as (m' & ? & ?). exists m'. set_solver.
      + destruct (place_ref_covers (meta_ref m) l) as [(r & Hr & Hk & Hs) Hkeep].
        intros m' [Hm'|Hm']%elem_of_app Es.
        * destruct (Hcov m' Hm' Es) as (x & Hx & Hkx & Hsx).
          destruct (Hkeep x Hx) as (y & Hy & Hky & Hsy). exists y. split_and!; [done|congruence|lia].
        * apply list_elem_of_singleton in Hm' as ->. by exists r.
    - split_and!; [done| |].
      + intros r Hr. destruct (Hin r Hr) as (m' & ? & ?). exists m'. set_solver.
      + intros m' [Hm'|Hm']%elem_of_app Es; [by apply Hcov|].
        apply list_elem_of_singleton in Hm' as ->. congruence. }
  split_and!.
  - rewrite list_fmap_compose. apply NoDup_fmap_2; [|done].
    intros a b E. by apply (inj (String.append "/run/secrets/")) in E.
  - intros r Hr. destruct (Hin r Hr) as (m & Hm & Hs & ->). exists m.
    pose proof Hs as Hs'. unfold in_scope in Hs'. apply bool_decide_eq_true in Hs' as [Hb Hc].
    split_and!; [done..|naive_solver|naive_solver|].
    intros m' Hm' Es Hk. destruct (Hcov m' Hm' Es) as (x & Hx & Hkx & Hsx).
    assert (x = meta_ref m) as <-; [|done].
    apply list_elem_of_lookup in Hx as [i Hi]. apply list_elem_of_lookup in Hr as [j Hj].
    assert (i = j) as ->; [|congruence].
    eapply NoDup_lookup; [exact Hnd|rewrite list_lookup_fmap, Hi; done|].
    rewrite list_lookup_fmap, Hj. csimpl. rewrite Hkx, Hk. done.
  - intros m Hm Hs. destruct (Hcov m Hm Hs) as (r & Hr & <- & _). apply list_elem_of_fmap. eauto.
Qed.

(** * Refusals *)

Section refusals.
Context `{!Env, !Age, !Rand} {X C : Type} `{!Caddy C}.
Context `{!RuntimeDriver X, !Platform X, !DatabaseProvisioner X, !IdentityProvider X, !Brokers X}.
Context (o : Orchestrator) (polls : nat).
Notation World := (World X C).
Implicit Types (w : World).

(** Nothing happened but reads. *)
Record idle w w' : Prop := MkIdle {
  idle_db : w_db w' = w_db w;
  idle_gw : w_gw w' = w_gw w;
  idle_armed : w_armed w' = w_armed w;
  idle_inFlight : w_inFlight w' = w_inFlight w;
  idle_cancelled : w_cancelled w' = w_cancelled w;
  idle_out : w_out w' = w_out w;
  idle_builds : w_builds w' = w_builds w;
  idle_mem : w_mem w' = w_mem w }.
#[export] Instance idle_PreOrder : PreOrder idle.
Proof. split; [by split|]. intros w1 w2 w3 [] []. split; congruence. Qed.

Lemma idle_in_store w s : st_db s = w_db w → idle w (w <| w_store := s |>).
Proof. intros. by split. Qed.

(** A read of the store. *)
Lemma wp_read {A} (f : DB → option A) (Q : error + A → World → Prop) w :
  (∀ e w', idle w w' → Q (inl e) w') →
  (∀ a w', idle w w' → f (w_db w) = Some a → Q (inr a) w') →
  wp (in_store (X := X) (C := C) (exec (q_one f))) Q w.
Proof.
  intros He Ha. apply wp_lift, wp_exec.
  - intros e s' E. by apply He, idle_in_store.
  - intros a s' Hq. unfold q_one in Hq. destruct (f (w_db w)) eqn:E; [|done].
    injection Hq as -> Hs. apply Ha; [by apply idle_in_store|done].
Qed.

(** The beam of a request: present, in the claimed beamhall and not archived. *)
Definition operable (d : DB) (beamhallID beamID : ID) (beam : Beam) : Prop :=
  db_beams d !! beamID = Some beam ∧ Beam_BeamhallID beam = beamhallID
  ∧ Beam_Status beam ≠ BeamArchived.

Lemma wp_operableBeam beamhallID beamID (Q : error + Beam → World → Prop) w :
  (∀ e w', idle w w' → as_transition e = None → Q (inl e) w') →
  (∀ beam w', idle w w' → operable (w_db w) beamhallID beamID beam → Q (inr beam) w') →
  wp (operableBeam beamhallID beamID) Q w.
Proof.
  intros He Hok. apply wp_bind. unfold GetBeam.
  unfold wp, in_store, lift, exec, q_one. simpl.
  destruct (fault _); simpl; [by apply He|].
  destruct (db_beams (w_db w) !! beamID) as [beam|] eqn:E; simpl; [|by apply He].
  case_decide as Hb; [by apply He|]. case_decide as Ha; [by apply He|].
  apply Hok; [done|]. split_and!; [done| |done]. by destruct (decide (Beam_BeamhallID beam = beamhallID)).
Qed.

Inductive BeamOp :=
  | BDeploy (step : buildStep (X := X) (C := C))
  | BPause (ev : Event)
  | BResume
  | BPromote (actor : Actor)
  | BRollback (target : ID)
  | BRequestPromotion (actor : Actor)
  | BShowLogs (opts : LogOptions)
  | BDestroy (previewOnly : bool).

(** The operation behind a request, its result dropped. *)
Definition run_beam_op (beamhallID beamID : ID) (op : BeamOp) : M World error () :=
  match op with
  | BDeploy step => deploy o polls beamhallID beamID step;; mret tt
  | BPause ev => pause o beamhallID beamID ev
  | BResume => resume o beamhallID beamID;; mret tt
  | BPromote actor => promote o polls actor beamhallID beamID;; mret tt
  | BRollback target => rollback o polls beamhallID beamID target;; mret tt
  | BRequestPromotion actor => requestPromotion actor beamhallID beamID;; mret tt
  | BShowLogs opts => showLogs beamhallID beamID opts;; mret tt
  | BDestroy previewOnly => destroy o beamhallID beamID previewOnly
  end.

Lemma refused beamhallID beamID op w :
  (∀ beam, ¬ operable (w_db w) beamhallID beamID beam) →
  wp (run_beam_op beamhallID beamID op) (λ r w', is_inl r = true ∧ idle w w') w.
Proof.
  intros Hno.
  assert (∀ A (k : Beam → M World error A),
    wp (operableBeam beamhallID beamID ≫= k) (λ r w', is_inl r = true ∧ idle w w') w) as Hop.
  { intros A k. apply wp_bind, wp_operableBeam; [done|]. intros beam w' _ Hb. by destruct (Hno beam). }
  assert (∀ A (m : M World error A), wp m (λ r w', is_inl r = true ∧ idle w w') w →
    wp (m;; mret tt) (λ r w', is_inl r = true ∧ idle w w') w) as Hdrop.
  { intros A m Hm. apply wp_bind. eapply wp_mono; [exact Hm|]. by intros [e|a] w' []. }
  destruct op; cbn [run_beam_op]; try (apply Hdrop); try apply Hop.
  apply wp_bind, wp_read; [done|]. intros beam w' Hi E.
  case_decide as Hb; [done|].
  destruct (previewOnly && _); [by apply wp_throw|].
  case_decide as Ha; [by apply wp_throw|]. exfalso. eapply Hno. split_and!; [exact E| |done].
  by destruct (decide (Beam_BeamhallID beam = beamhallID)).
Qed.
End refusals.

(** A beam that does not exist, has been archived or belongs to another beamhall
    than the one the caller was authorized for cannot be operated on: deploy, pause,
    resume, promote, rollback, a promotion request, its logs, destruction all fail, and
    leave store, gateway, timers and workloads untouched. *)
Theorem archived_and_foreign_beams_refused `{!Env, !Age, !Rand} {X C : Type} `{!Caddy C}
    `{!RuntimeDriver X, !Platform X, !DatabaseProvisioner X, !IdentityProvider X, !Brokers X}
    (o : Orchestrator) (polls : nat) (beamhallID beamID : ID) (op : BeamOp (X := X) (C := C))
    (w : World X C) (Hno : ∀ beam, ¬ operable (w_db w) beamhallID beamID beam) :
  wp (run_beam_op o polls beamhallID beamID op) (λ r w', is_inl r = true ∧ idle w w') w.
Proof. by apply refused. Qed.

(** The running beam of the fixtures, archived. *)
Definition World1_archived : World Engine ScriptedCaddy :=
  World_of (DB1 <| db_beams := {["B1" := Beam1 <| Beam_Status := BeamArchived |>]} |>).
Lemma archived_and_foreign_beams_refused_witness :
  (∀ beam, ¬ operable (w_db World1_archived) "H1" "B1" beam)
  ∧ wp (run_beam_op Orch1 1 "H1" "B1" (BRollback "R1"))
      (λ r w', is_inl r = true ∧ idle World1_archived w') World1_archived.
Proof.
  assert (∀ beam, ¬ operable (w_db World1_archived) "H1" "B1" beam) as Hno.
  { intros beam (E & _ & Ha). vm_compute in E. injection E as <-. by apply Ha. }
  split; [exact Hno|].
  apply (archived_and_foreign_beams_refused Orch1 1 "H1" "B1" (BRollback "R1") World1_archived Hno).
Defined.
