(* ===== verification/OrchFrames.v ===== *)
(** What the orchestrator's operations may change, given as frames: a relation on the
    tables and one on the gateway that every store operation an orchestrator operation
    issues respects is respected by the operation itself. *)
From S2P Require Import Prelude GoStrings Regexp Diagnose Domain Gateway Store StoreOps.
From S2P Require Import StoreInv AuditLog Policy Vault Scrub Outside Orch AppTools Facility OrchBeam.
From S2P Require Import OrchLife.

Lemma frames_logged_inv {W E A} (R : relation W) (m : M W E A) :
  frames R (logged m) → frames R m.
Proof. done. Qed.

(** No constraint. *)
Definition anything {A} : relation A := λ _ _, True.
#[export] Instance anything_PreOrder {A} : PreOrder (@anything A).
Proof. by split. Qed.
Lemma frames_anything {W E A} (m : M W E A) : frames anything m.
Proof. by intros w. Qed.

Section world.
Context `{!Env} {X C : Type} (RD : relation DB) (RG : relation (GWorld C)).

Definition on_world : relation (World X C) := λ w w',
  RD (w_db w) (w_db w') ∧ RG (w_gw w) (w_gw w').
#[global] Instance on_world_PreOrder `{!PreOrder RD, !PreOrder RG} : PreOrder on_world.
Proof.
  split; unfold on_world; [by intros w; split|].
  intros w1 w2 w3 [] []. split; by etrans.
Qed.

Context `{!PreOrder RD, !PreOrder RG}.
Lemma frames_in_store {A} (m : SM A) : frames (db_rel RD) m → frames on_world (in_store m).
Proof. intros Hm w. split; [apply (Hm (w_store w))|simpl; reflexivity]. Qed.
Lemma frames_in_gw {A} (m : GM C A) : frames RG m → frames on_world (in_gw m).
Proof. intros Hm w. split; [simpl; reflexivity|apply (Hm (w_gw w))]. Qed.
Lemma frames_outside {A} (f : ext X A) : frames on_world (outside f).
Proof. intros w. unfold outside. destruct (f _) as [[e|a] x]; simpl; split; reflexivity. Qed.
End world.

(** [solve_frame], through the embedding of the store and wrapped errors. *)
Ltac world_step :=
  lazymatch goal with
  | |- frames _ (wrapping _ _) => unfold wrapping
  | |- frames _ (in_store (exec _)) => apply frames_in_store
  | |- frames _ (in_store (_ ≫= _)) => apply frames_in_store
  | |- frames _ (with_outcome _ _ _ _ _) => unfold with_outcome
  | |- frames _ (or_fail _ _ _) => unfold or_fail, failBeam
  | |- frames _ (or_release _ _ _) => unfold or_release, releaseSlot
  | |- frames _ (in_store (wrapping _ _)) => apply frames_in_store
  | |- frames _ (modify _) => apply frames_modify; intros ?; split; reflexivity
  | |- _ => frame_step
  end.
Ltac solve_world := repeat (progress world_step).

Section frames.
Context `{!Env, !Age, !Rand} {X C : Type} `{!Caddy C}.
Context `{!RuntimeDriver X, !Platform X, !DatabaseProvisioner X, !IdentityProvider X, !Brokers X}.
Context (RD : relation DB) `{!PreOrder RD} (RG : relation (GWorld C)) `{!PreOrder RG}.
Notation R := (on_world (X := X) RD RG).
Context (o : Orchestrator) (polls : nat).

Lemma frames_step_no : frames (db_rel RD) step_no.
Proof. intros s. unfold db_rel. simpl. reflexivity. Qed.
#[local] Hint Resolve frames_in_store frames_in_gw frames_outside frames_step_no : frame.

(** * Reads *)

Lemma frames_Inject refs : frames (db_rel RD) (Inject refs).
Proof.
  induction refs as [|ref refs IH]; simpl; unfold inject_one, get_secret, GetSecret,
    vault_value, GetSecretValue, decrypt; solve_world.
Qed.
Lemma frames_scrub_values b l : frames (db_rel RD) (scrub_values b l).
Proof.
  induction l as [|m l IH]; simpl; unfold vault_value, GetSecretValue, decrypt; solve_world.
Qed.
Lemma frames_ScrubberFor h b : frames (db_rel RD) (ScrubberFor h b).
Proof. pose proof frames_scrub_values. unfold ScrubberFor, ListSecretsByBeamhall. solve_world. Qed.
#[local] Hint Resolve frames_Inject frames_ScrubberFor : frame.

Lemma frames_operableBeam h b : frames R (operableBeam h b).
Proof. unfold operableBeam, GetBeam. solve_world. Qed.
Lemma frames_apply beam ev : frames R (apply beam ev).
Proof. unfold apply. solve_world. Qed.
Lemma frames_require beam ev : frames R (require beam ev).
Proof. unfold require. solve_world. Qed.
Lemma frames_previewHost : frames R (previewHost o).
Proof. unfold previewHost. solve_world. Qed.
Lemma frames_secretRefs h b ch : frames R (secretRefs h b ch).
Proof. unfold secretRefs, ListSecretsByBeamhall. solve_world. Qed.
#[local] Hint Resolve frames_operableBeam frames_apply frames_require frames_previewHost
  frames_secretRefs : frame.

Lemma frames_resolvedBranding h owner : frames R (resolvedBranding o h owner).
Proof.
  unfold resolvedBranding, or_zero, resolveLogo, GetBranding, GetBrandingLogoMeta. solve_world.
Qed.
#[local] Hint Resolve frames_resolvedBranding : frame.
Lemma frames_brandingBinding bh : frames R (brandingBinding o bh).
Proof. unfold brandingBinding. solve_world. Qed.
Lemma frames_c2cBinding h refs : frames R (c2cBinding o h refs).
Proof. unfold c2cBinding. solve_world. Qed.
Lemma frames_resyncEgressForGrants : frames R (resyncEgressForGrants o).
Proof. unfold resyncEgressForGrants, ListBeamPeers. solve_world. Qed.
Lemma frames_syncAuthRedirects b ch host : frames R (syncAuthRedirects o b ch host).
Proof.
  unfold syncAuthRedirects, ListResourcesByBeamAndChannel, list_resources. solve_world.
Qed.
Lemma frames_crashLogs h b hd : frames R (crashLogs h b hd).
Proof. unfold crashLogs. solve_world. Qed.
#[local] Hint Resolve frames_brandingBinding frames_c2cBinding frames_resyncEgressForGrants
  frames_syncAuthRedirects frames_crashLogs : frame.
Lemma frames_await_poll h b hd t n : frames R (await_poll h b hd t n).
Proof. induction n; simpl; solve_world. Qed.
#[local] Hint Resolve frames_await_poll : frame.
Lemma frames_awaitStartup h b hd : frames R (awaitStartup o polls h b hd).
Proof. unfold awaitStartup. solve_world. Qed.
Lemma frames_active_route_of id : frames R (active_route_of id).
Proof. unfold active_route_of, GetRelease, GetRoute. solve_world. Qed.
#[local] Hint Resolve frames_awaitStartup frames_active_route_of : frame.

(** * The app-tools client: only what is outside *)

Lemma frames_of_sum {A} (r : error + A) : frames R (of_sum r).
Proof. unfold of_sum. solve_world. Qed.
#[local] Hint Resolve frames_of_sum : frame.
Lemma frames_Mint issuer a : frames R (Mint issuer a).
Proof. unfold Mint, rand_bytes. solve_world. Qed.
Lemma frames_FetchManifest addr assertion : frames R (FetchManifest addr assertion).
Proof. unfold FetchManifest, send. solve_world. Qed.
Lemma frames_Invoke addr tool assertion args : frames R (Invoke addr tool assertion args).
Proof. unfold Invoke, send. solve_world. Qed.
#[local] Hint Resolve frames_Mint frames_FetchManifest frames_Invoke : frame.

(** * Bringing a workload up: only its release row *)
Section spawn.
Context (r : ID).
Context (Hworkload : ∀ h, frames (db_rel RD) (SetReleaseWorkload r h)).
Context (Htools : ∀ on, frames (db_rel RD) (SetReleaseAgentTools r on)).

Lemma frames_bring_up h b hd : frames R (bring_up o polls h b r hd).
Proof. unfold bring_up. solve_world. Qed.
Lemma frames_probeAgentTools b addr : frames R (probeAgentTools o b r addr).
Proof. unfold probeAgentTools, GetRelease. solve_world. Qed.
#[local] Hint Resolve frames_bring_up frames_probeAgentTools : frame.
Lemma frames_spawnWorkload h b bh sc refs pull :
  frames R (spawnWorkload o polls h b r bh sc refs pull).
Proof. unfold spawnWorkload. solve_world. Qed.
End spawn.

(** * The vault: only the two tables of secrets *)
Section vault.
Context (Hvalue : ∀ ref ct, frames (db_rel RD) (PutSecretValue ref ct)).
Context (Hput : ∀ sec, frames (db_rel RD) (PutSecret sec)).
Context (Hdelv : ∀ ref, frames (db_rel RD) (DeleteSecretValue ref)).
Context (Hdel : ∀ h b k ch, frames (db_rel RD) (DeleteSecret h b k ch)).

Lemma frames_Vault_Set ref v by_ : frames (db_rel RD) (Vault_Set ref v by_).
Proof. unfold Vault_Set, encrypt, get_secret, GetSecret, newRef. solve_world. Qed.
Lemma frames_Vault_Delete ref : frames (db_rel RD) (Vault_Delete ref).
Proof. unfold Vault_Delete, get_secret, GetSecret. solve_world. Qed.
#[local] Hint Resolve frames_Vault_Set frames_Vault_Delete : frame.

Lemma frames_seal h b ch by_ what kvs : frames R (seal h b ch by_ what kvs).
Proof. unfold seal. solve_world. Qed.
Lemma frames_unseal h b ch keys : frames R (unseal h b ch keys).
Proof. unfold unseal. solve_world. Qed.
Lemma frames_reclaimUserSecrets h b : frames R (reclaimUserSecrets h b).
Proof. unfold reclaimUserSecrets, ListSecretsByBeamhall. solve_world. Qed.
#[local] Hint Resolve frames_seal frames_unseal : frame.

(** ** And the resources: the live mirrors and their reclaim *)
Section resources.
Context (Hcreate : ∀ r, frames (db_rel RD) (CreateResource r)).
Context (Hdelete : ∀ id, frames (db_rel RD) (DeleteResource id)).

Lemma frames_reconcileLiveResources actor bh slug b :
  frames R (reconcileLiveResources o actor bh slug b).
Proof.
  unfold reconcileLiveResources, mirrorLiveAuthClient, reconcileLiveObjectStore, mirror_bucket,
    mirror_database, sealAuthSecrets, sealObjStoreChannel, deregisterObjStore,
    ListResourcesByBeamAndChannel, list_resources. solve_world.
Qed.
Lemma frames_reclaimResources b : frames R (reclaimResources o b).
Proof.
  unfold reclaimResources, reclaim_resource, reclaimAuthClient, reclaimEmail,
    reclaimObjectStore, deregisterObjStore, ListResourcesByBeam, list_resources. solve_world.
Qed.
End resources.
End vault.
End frames.

#[export] Hint Resolve frames_in_store frames_in_gw frames_outside frames_step_no
  frames_Inject frames_ScrubberFor
  frames_operableBeam frames_apply frames_require frames_previewHost frames_secretRefs
  frames_brandingBinding frames_c2cBinding frames_resyncEgressForGrants
  frames_syncAuthRedirects frames_crashLogs frames_awaitStartup frames_active_route_of
  frames_now frames_of_sum frames_Mint frames_FetchManifest frames_Invoke
  frames_spawnWorkload frames_Vault_Set frames_Vault_Delete frames_seal frames_unseal
  frames_reclaimUserSecrets frames_reconcileLiveResources frames_reclaimResources : frame.
