(* ===== verification/OrchRun.v ===== *)
(** The orchestrator's operations as one type, so that what holds of every operation is
    said of every history of them: the schema's invariant, the audit chain's, and the
    immutability of releases. *)
From S2P Require Import Prelude Regexp GoStrings Diagnose Domain Gateway GatewayProofs Store.
From S2P Require Import StoreOps Fixtures StoreInv AuditLog AuditProofs Policy Vault Scrub.
From S2P Require Import Outside Orch Facility OrchAdmin OrchTools OrchProvision OrchBeam OrchLife.
From S2P Require Import OrchFixtures OrchFrames PolicyProofs.

(** * Every operation *)

Inductive OrchOp :=
  | OCreateBeam (actor : Actor) (beamhallID : ID) (slug displayName description hint : string)
  | OSetSecret (actor : Actor) (beamhallID beamID : ID) (key value : string)
  | ODeployBeam (actor : Actor) (beamhallID beamID : ID) (imageRef imageDigest : string)
  | ODeployBeamFromSource (actor : Actor) (beamhallID beamID : ID) (srcDir : string)
  | ODeployBeamFromGit (actor : Actor) (beamhallID beamID : ID) (sha : string)
  | OPauseFunc (beamID : ID)
  | OPausePreview (actor : Actor) (beamhallID beamID : ID)
  | OResumePreview (actor : Actor) (beamhallID beamID : ID)
  | OShowLogs (actor : Actor) (beamhallID beamID : ID) (opts : LogOptions)
  | OPromoteToLive (actor : Actor) (beamhallID beamID : ID)
  | ORequestPromotion (actor : Actor) (beamhallID beamID : ID)
  | OApprovePromotion (actor : Actor) (requestID : ID)
  | ORejectPromotion (actor : Actor) (requestID : ID) (reason : string)
  | ORollbackBeam (actor : Actor) (beamhallID beamID target : ID)
  | ODestroyBeam (actor : Actor) (beamhallID beamID : ID)
  | OArchiveBeam (actor : Actor) (beamhallID beamID : ID)
  | OUpdateBeam (actor : Actor) (beamhallID beamID : ID) (upd : BeamUpdate)
  | OCreateDatabase (actor : Actor) (beamhallID beamID : ID) (name : string)
  | OProvisionEmail (actor : Actor) (beamhallID beamID : ID)
  | OProvisionAuth (actor : Actor) (beamhallID beamID : ID)
  | OProvisionObjectStore (actor : Actor) (beamhallID beamID : ID)
  | OShowEmail (actor : Actor) (beamhallID beamID : ID)
  | OShowAuth (actor : Actor) (beamhallID beamID : ID)
  | OShowObjectStore (actor : Actor) (beamhallID beamID : ID)
  | OShowBranding (actor : Actor) (beamhallID : ID)
  | OShowBeamPeers (actor : Actor) (beamhallID beamID : ID)
  | OTryBeamTool (actor : Actor) (beamhallID beamID : ID) (tool args : string)
  | OUseApp (actor : Actor) (req : UseAppRequest)
  | OC2CCall (source : ID) (workspace app tool args : string)
  | OReconcileEmail
  | OReconcileObjectStore
  | ODrainEmailAudit (after : Z)
  | ODrainObjectStoreAudit (after : Z)
  | OBoot.

Section run.
Context `{!Env, !Age, !Rand} {X C : Type} `{!Caddy C}.
Context `{!RuntimeDriver X, !Platform X, !DatabaseProvisioner X, !IdentityProvider X, !Brokers X}.
Context (o : Orchestrator) (polls : nat).

(** One operation, its result dropped. *)
Definition run_orch (op : OrchOp) : M (World X C) error () :=
  match op with
  | OCreateBeam a h s n d t => CreateBeam_ o a h s n d t;; mret tt
  | OSetSecret a h b k v => SetSecret a h b k v
  | ODeployBeam a h b r d => DeployBeam o polls a h b r d;; mret tt
  | ODeployBeamFromSource a h b d => DeployBeamFromSource o polls a h b d;; mret tt
  | ODeployBeamFromGit a h b s => DeployBeamFromGit o polls a h b s;; mret tt
  | OPauseFunc b => PauseFunc o b
  | OPausePreview a h b => PausePreview o a h b
  | OResumePreview a h b => ResumePreview o a h b;; mret tt
  | OShowLogs a h b opts => ShowLogs a h b opts;; mret tt
  | OPromoteToLive a h b => PromoteToLive o polls a h b;; mret tt
  | ORequestPromotion a h b => RequestPromotion a h b;; mret tt
  | OApprovePromotion a r => ApprovePromotion o polls a r;; mret tt
  | ORejectPromotion a r why => RejectPromotion a r why
  | ORollbackBeam a h b t => RollbackBeam o polls a h b t;; mret tt
  | ODestroyBeam a h b => DestroyBeam o a h b
  | OArchiveBeam a h b => ArchiveBeam o a h b
  | OUpdateBeam a h b upd => UpdateBeam_ a h b upd;; mret tt
  | OCreateDatabase a h b name => CreateDatabase o a h b name;; mret tt
  | OProvisionEmail a h b => ProvisionEmail o a h b;; mret tt
  | OProvisionAuth a h b => ProvisionAuth o a h b;; mret tt
  | OProvisionObjectStore a h b => ProvisionObjectStore o a h b;; mret tt
  | OShowEmail a h b => ShowEmail o a h b;; mret tt
  | OShowAuth a h b => ShowAuth o a h b;; mret tt
  | OShowObjectStore a h b => ShowObjectStore o a h b;; mret tt
  | OShowBranding a h => ShowBranding o a h;; mret tt
  | OShowBeamPeers a h b => ShowBeamPeers a h b;; mret tt
  | OTryBeamTool a h b tool args => TryBeamTool o a h b tool args;; mret tt
  | OUseApp a req => UseApp o a req;; mret tt
  | OC2CCall source ws app tool args => C2CCall o source ws app tool args;; mret tt
  | OReconcileEmail => ReconcileEmail o
  | OReconcileObjectStore => ReconcileObjectStore o
  | ODrainEmailAudit after => DrainEmailAudit o after;; mret tt
  | ODrainObjectStoreAudit after => DrainObjectStoreAudit o after;; mret tt
  | OBoot => Boot
  end.
Definition run_orchs (ops : list OrchOp) : M (World X C) error () :=
  for_each ops (λ op, logged (run_orch op)).

(** The request a user's operation authorizes first; none for the scheduler's, the
    boot's, IT's own, the using tier's, the relay's and the brokers' reconciliation. *)
Definition gate_of (op : OrchOp) : option (Actor * Action * ID * ID) :=
  match op with
  | OCreateBeam a h _ _ _ _ => Some (a, ActionCreateBeam, h, no_id)
  | OSetSecret a h b _ _ => Some (a, ActionSetSecret, h, b)
  | ODeployBeam a h b _ _ | ODeployBeamFromSource a h b _ | ODeployBeamFromGit a h b _ =>
      Some (a, ActionDeployBeam, h, b)
  | OPausePreview a h b => Some (a, ActionPausePreview, h, b)
  | OResumePreview a h b => Some (a, ActionResumePreview, h, b)
  | OShowLogs a h b _ => Some (a, ActionShowLogs, h, b)
  | OPromoteToLive a h b => Some (a, ActionPromoteToLive, h, b)
  | ORequestPromotion a h b => Some (a, ActionRequestPromote, h, b)
  | ORollbackBeam a h b _ => Some (a, ActionRollback, h, b)
  | ODestroyBeam a h b => Some (a, ActionDestroyBeam, h, b)
  | OArchiveBeam a h b => Some (a, ActionArchiveBeam, h, b)
  | OUpdateBeam a h b _ => Some (a, ActionUpdateBeam, h, b)
  | OCreateDatabase a h b _ => Some (a, ActionCreateDatabase, h, b)
  | OProvisionEmail a h b => Some (a, ActionProvisionEmail, h, b)
  | OProvisionAuth a h b => Some (a, ActionProvisionAuth, h, b)
  | OProvisionObjectStore a h b => Some (a, ActionProvisionObjectStore, h, b)
  | OShowEmail a h b => Some (a, ActionShowEmail, h, b)
  | OShowAuth a h b => Some (a, ActionShowAuth, h, b)
  | OShowObjectStore a h b => Some (a, ActionShowObjectStore, h, b)
  | OShowBranding a h => Some (a, ActionShowBranding, h, no_id)
  | OShowBeamPeers a h b => Some (a, ActionShowBeamPeers, h, b)
  | OTryBeamTool a h b _ _ => Some (a, ActionUseBeamTools, h, b)
  | OPauseFunc _ | OApprovePromotion _ _ | ORejectPromotion _ _ _ | OUseApp _ _
  | OC2CCall _ _ _ _ _ | OReconcileEmail | OReconcileObjectStore | ODrainEmailAudit _
  | ODrainObjectStoreAudit _ | OBoot => None
  end.
(** The log ends with the outcome "ok" of the actor's action. *)
Definition recorded (a : Actor) (act : Action) (h : ID) (d : DB) : Prop :=
  ∃ d0 b seq, appended d0 d (outcome_event a act h b None) seq.

(** The writes only IT's operations make. *)
Definition it_op (op : Op) : bool :=
  match op with
  | OpCreateIdentity _ | OpUpdateIdentity _ | OpDeleteIdentity _ | OpCreateMembership _
  | OpDeleteMembership _ | OpUpdateMembershipRole _ _ _ _ | OpCreateBeamhall _ _
  | OpUpdateBeamhall _ | OpUpdateSecurityContext _ | OpPutBeamAudience _
  | OpDeleteBeamAudience _ | OpCreateAdminActionRequest _ | OpDecideAdminActionRequest _ _ _ _ _
  | OpPutBranding _ _ | OpDeleteBranding _ | OpPutBrandingLogo _ _ | OpDeleteBrandingLogo _
  | OpClearBrandingScope _ | OpPutControlKey _ _ | OpPutBeamPeers _ | OpInsertC2CKey _ _ => true
  | _ => false
  end.

(** A relation that the other store operations and audit appends respect, and one that the
    gateway's operations respect, are respected by every operation. *)
Section framed.
Context (RD : relation DB) `{!PreOrder RD} (RG : relation (GWorld C)) `{!PreOrder RG}.
Notation R := (on_world (X := X) RD RG).
Context (Hop : ∀ op, it_op op = false → frames (db_rel RD) (run_op op)).
Context (Hlog : ∀ ev, Ev_At ev = None → frames (db_rel RD) (Append ev)).
Context (Hgw : ∀ r, frames RG (Gw_Upsert r)) (Hret : ∀ h, frames RG (Gw_Retire h)).
Context (Happly : frames RG Gw_Apply).

#[local] Hint Extern 1 (frames _ (CreateBeamWithQuota _ _)) =>
  exact (Hop (OpCreateBeamWithQuota _ _) eq_refl) : frame.
#[local] Hint Extern 1 (frames _ (PromoteBeam _ _ _)) => exact (Hop (OpPromoteBeam _ _ _) eq_refl) : frame.
#[local] Hint Extern 1 (frames _ (UpdateBeam _)) => exact (Hop (OpUpdateBeam _) eq_refl) : frame.
#[local] Hint Extern 1 (frames _ (CreateBuild _)) => exact (Hop (OpCreateBuild _) eq_refl) : frame.
#[local] Hint Extern 1 (frames _ (CreateRelease _)) => exact (Hop (OpCreateRelease _) eq_refl) : frame.
#[local] Hint Extern 1 (frames _ (ActivateRelease _)) => exact (Hop (OpActivateRelease _) eq_refl) : frame.
#[local] Hint Extern 1 (frames _ (UpdateReleaseStatus _ _)) =>
  exact (Hop (OpUpdateReleaseStatus _ _) eq_refl) : frame.
#[local] Hint Extern 1 (frames _ (SetReleaseRoute _ _)) => exact (Hop (OpSetReleaseRoute _ _) eq_refl) : frame.
#[local] Hint Extern 1 (frames _ (SetReleaseWorkload _ _)) =>
  exact (Hop (OpSetReleaseWorkload _ _) eq_refl) : frame.
#[local] Hint Extern 1 (frames _ (SetReleaseAgentTools _ _)) =>
  exact (Hop (OpSetReleaseAgentTools _ _) eq_refl) : frame.
#[local] Hint Extern 1 (frames _ (CreateRoute _)) => exact (Hop (OpCreateRoute _) eq_refl) : frame.
#[local] Hint Extern 1 (frames _ (RetireRoute _)) => exact (Hop (OpRetireRoute _) eq_refl) : frame.
#[local] Hint Extern 1 (frames _ (SwapActiveRoute _ _)) => exact (Hop (OpSwapActiveRoute _ _) eq_refl) : frame.
#[local] Hint Extern 1 (frames _ (CreateResource _)) => exact (Hop (OpCreateResource _) eq_refl) : frame.
#[local] Hint Extern 1 (frames _ (CreateResourceWithQuota _ _)) =>
  exact (Hop (OpCreateResourceWithQuota _ _) eq_refl) : frame.
#[local] Hint Extern 1 (frames _ (UpdateResource _)) => exact (Hop (OpUpdateResource _) eq_refl) : frame.
#[local] Hint Extern 1 (frames _ (DeleteResource _)) => exact (Hop (OpDeleteResource _) eq_refl) : frame.
#[local] Hint Extern 1 (frames _ (PutSecret _)) => exact (Hop (OpPutSecret _) eq_refl) : frame.
#[local] Hint Extern 1 (frames _ (DeleteSecret _ _ _ _)) =>
  exact (Hop (OpDeleteSecret _ _ _ _) eq_refl) : frame.
#[local] Hint Extern 1 (frames _ (PutSecretValue _ _)) => exact (Hop (OpPutSecretValue _ _) eq_refl) : frame.
#[local] Hint Extern 1 (frames _ (DeleteSecretValue _)) =>
  exact (Hop (OpDeleteSecretValue _) eq_refl) : frame.
#[local] Hint Extern 1 (frames _ (CreatePromotionRequest _)) =>
  exact (Hop (OpCreatePromotionRequest _) eq_refl) : frame.
#[local] Hint Extern 1 (frames _ (DecidePromotionRequest _ _ _ _)) =>
  exact (Hop (OpDecidePromotionRequest _ _ _ _) eq_refl) : frame.
#[local] Hint Extern 1 (frames _ (DeleteBeamPeers _)) => exact (Hop (OpDeleteBeamPeers _) eq_refl) : frame.
#[local] Hint Extern 1 (frames _ (DeleteC2CKey _)) => exact (Hop (OpDeleteC2CKey _) eq_refl) : frame.
#[local] Hint Extern 1 (frames _ (Pause_Save _ _)) => exact (Hop (OpSavePause _ _) eq_refl) : frame.
#[local] Hint Extern 1 (frames _ (Pause_Delete _)) => exact (Hop (OpDeletePause _) eq_refl) : frame.

#[local] Hint Extern 1 (frames _ (Append _)) =>
  apply Hlog; unfold it_event; repeat case_match; simplify_eq; reflexivity : frame.

#[local] Hint Unfold GetBeam GetBeamhall GetRelease GetRoute GetIdentity GetMembership
  GetSecurityContext GetPendingPromotionByBeam GetPromotionRequest ListReleasesByBeam
  ListResourcesByBeam list_resources ListBeamsByState ActiveRoutes CheckBeamQuota CountBeamsByBeamhall : reads.

Lemma frames_Authorize req : frames (db_rel RD) (Authorize req).
Proof. unfold Authorize, decision. autounfold with reads. solve_world. Qed.
#[local] Hint Resolve frames_Authorize : frame.
Lemma frames_outcome a act h b e : frames R (outcome a act h b e).
Proof. unfold outcome. solve_world. Qed.
#[local] Hint Resolve frames_outcome : frame.
Lemma frames_itAudit a act h e : frames R (itAudit a act h e).
Proof. unfold itAudit, itAuditBeam. solve_world. Qed.
#[local] Hint Resolve frames_itAudit : frame.
Lemma frames_Arm b t : frames R (Arm b t).
Proof. unfold Arm. solve_world. Qed.
Lemma frames_Disarm b : frames R (Disarm b).
Proof. unfold Disarm. solve_world. Qed.
Lemma frames_retireRelease id st : frames R (retireRelease id st).
Proof. unfold retireRelease, retire_route_of, stop_and_destroy. autounfold with reads. solve_world. Qed.
Lemma frames_mintRoute beam rel h k addr : frames R (mintRoute beam rel h k addr).
Proof. unfold mintRoute. solve_world. Qed.
#[local] Hint Resolve frames_Arm frames_Disarm frames_retireRelease frames_mintRoute : frame.
Lemma frames_finalizeActiveRelease beam rel addr : frames R (finalizeActiveRelease o beam rel addr).
Proof. unfold finalizeActiveRelease. solve_world. Qed.
#[local] Hint Resolve frames_finalizeActiveRelease : frame.
Lemma frames_deploy h b (step : buildStep) :
  (∀ beam bh, frames R (step beam bh)) → frames R (deploy o polls h b step).
Proof. intros Hs. unfold deploy. autounfold with reads. solve_world. Qed.
Lemma frames_source_step a h b run beam bh : frames R (source_step o a h b run beam bh).
Proof.
  unfold source_step, acquireBuildSlot, releaseBuildSlot, scrubbedBuild. solve_world.
  - intros w. repeat case_match; simpl; by split.
  - intros w. destruct (buildSem o); simpl; by split.
Qed.
Lemma frames_image_step a r d beam bh : frames R (image_step a r d beam bh).
Proof. unfold image_step. solve_world. Qed.
#[local] Hint Resolve frames_deploy frames_source_step frames_image_step : frame.
Lemma frames_pause h b ev : frames R (pause o h b ev).
Proof. unfold pause, retire_route_of. autounfold with reads. solve_world. Qed.
#[local] Hint Resolve frames_pause : frame.
Lemma frames_finalizeLiveRelease beam bh rel addr : frames R (finalizeLiveRelease o beam bh rel addr).
Proof.
  unfold finalizeLiveRelease, retireLiveWorkload, stop_and_destroy. autounfold with reads.
  solve_world.
Qed.
#[local] Hint Resolve frames_finalizeLiveRelease : frame.
Lemma frames_promote a h b : frames R (promote o polls a h b).
Proof. unfold promote, releaseSlot. autounfold with reads. solve_world. Qed.
#[local] Hint Resolve frames_promote : frame.
Lemma frames_rollback h b t : frames R (rollback o polls h b t).
Proof. unfold rollback. autounfold with reads. solve_world. Qed.
Lemma frames_destroy h b p : frames R (destroy o h b p).
Proof.
  unfold destroy, sweep_releases, sweep_release, reclaimPeerGrants. autounfold with reads.
  solve_world.
Qed.
#[local] Hint Resolve frames_rollback frames_destroy : frame.

(** ** The facilities and the brokered calls *)
Lemma frames_EmailEnabled : frames R (EmailEnabled o).
Proof. unfold EmailEnabled. solve_world. Qed.
Lemma frames_store_emailEnabled b : frames R (store_emailEnabled b).
Proof. unfold store_emailEnabled. solve_world. Qed.
Lemma frames_ObjectStoreEnabled : frames R (ObjectStoreEnabled o).
Proof. unfold ObjectStoreEnabled. solve_world. Qed.
Lemma frames_drop_database pr : frames R (drop_database pr).
Proof. unfold drop_database. solve_world. Qed.
Lemma frames_hall_of b : frames R (hall_of b).
Proof. unfold hall_of. autounfold with reads. solve_world. Qed.
#[local] Hint Resolve frames_EmailEnabled frames_store_emailEnabled frames_ObjectStoreEnabled
  frames_drop_database frames_hall_of frames_resolvedBranding : frame.
#[local] Hint Unfold CheckDatabaseQuota CountResourcesByType ListResourcesByBeamAndChannel
  ListResourcesByBeamhall ListBeamhalls ListBeamAudiences GetBeamhallBySlug GetBeamBySlug
  GetBeamPeers : reads.
Lemma frames_createDatabase a h b name : frames R (createDatabase o a h b name).
Proof. unfold createDatabase. autounfold with reads. solve_world. Qed.
Lemma frames_provisionEmail a h b : frames R (provisionEmail o a h b).
Proof. unfold provisionEmail. autounfold with reads. solve_world. Qed.
Lemma frames_provisionAuth a h b : frames R (provisionAuth o a h b).
Proof. unfold provisionAuth, sealAuthSecrets. autounfold with reads. solve_world. Qed.
Lemma frames_provisionObjectStore a h b : frames R (provisionObjectStore o a h b).
Proof.
  unfold provisionObjectStore, sealObjStoreChannel, deregisterObjStore. autounfold with reads.
  solve_world.
Qed.
Lemma frames_each_resource typ f : (∀ r, frames R (f r)) → frames R (each_resource typ f).
Proof. intros Hf. unfold each_resource. autounfold with reads. solve_world. Qed.
#[local] Hint Resolve frames_createDatabase frames_provisionEmail frames_provisionAuth
  frames_provisionObjectStore frames_each_resource : frame.
Lemma frames_ReconcileEmail : frames R (ReconcileEmail o).
Proof. unfold ReconcileEmail, push_email. solve_world. Qed.
Lemma frames_Reveal ref : frames (db_rel RD) (Reveal ref).
Proof. unfold Reveal, get_secret, GetSecret, vault_value, GetSecretValue, decrypt. solve_world. Qed.
#[local] Hint Resolve frames_Reveal : frame.
Lemma frames_ReconcileObjectStore : frames R (ReconcileObjectStore o).
Proof.
  assert (∀ r, frames R (push_objStore r)) by (unfold push_objStore; solve_world).
  unfold ReconcileObjectStore. solve_world.
Qed.
Lemma frames_callAppTool a ct h b addr ch tool args :
  frames R (callAppTool o a ct h b addr ch tool args).
Proof. unfold callAppTool. solve_world. Qed.
Lemma frames_driver_backend beam : frames R (driver_backend beam).
Proof. unfold driver_backend. autounfold with reads. solve_world. Qed.
#[local] Hint Resolve frames_ReconcileEmail frames_ReconcileObjectStore frames_callAppTool
  frames_driver_backend : frame.
Lemma frames_resolveLiveBackend beam slug : frames R (resolveLiveBackend o beam slug).
Proof. unfold resolveLiveBackend, live_backend, GetActiveRouteByHostname. solve_world. Qed.
Lemma frames_allow which rate id : frames R (allow which rate id).
Proof.
  unfold allow. case_decide; [solve_world|]. intros w. destruct (limiter_Allow _ _ _); by split.
Qed.
Lemma frames_recorded_call {A} ev (r : error + A) :
  (∀ e, Ev_At (ev e) = None) → frames R (recorded_call ev r).
Proof.
  intros Hev. assert (∀ e, frames (db_rel RD) (Append (ev e))) as Ha by (intros; by apply Hlog).
  unfold recorded_call. solve_world.
Qed.
Lemma call_event_at actor jti act digest ip refused h b e :
  Ev_At (call_event actor jti act digest ip refused h b e) = None.
Proof. unfold call_event. by repeat case_match; simplify_eq. Qed.
#[local] Hint Resolve frames_resolveLiveBackend frames_allow frames_recorded_call call_event_at : frame.
Lemma frames_appView pub : frames R (appView o pub).
Proof. unfold appView, beamSignIn. autounfold with reads. solve_world. Qed.
Lemma frames_visible_apps a pubs : frames R (visible_apps o a pubs).
Proof. pose proof frames_appView. induction pubs; simpl; unfold visible; solve_world. Qed.
#[local] Hint Resolve frames_visible_apps : frame.
Lemma frames_useApp a req : frames R (useApp_ o a req).
Proof. unfold useApp_, resolvePublishedApp, at_. autounfold with reads. solve_world. Qed.
Lemma frames_c2cCall src ws app tool args : frames R (c2cCall o src ws app tool args).
Proof. unfold c2cCall, at_. autounfold with reads. solve_world. Qed.
#[local] Hint Resolve frames_useApp frames_c2cCall : frame.
Lemma frames_UseApp a req : frames R (UseApp o a req).
Proof. unfold UseApp, useAppAllow. solve_world. Qed.
Lemma frames_C2CCall src ws app tool args : frames R (C2CCall o src ws app tool args).
Proof. unfold C2CCall, c2cAcquire, c2cRelease, count_call, c2cAllow. solve_world. Qed.
Lemma frames_peer_target id : frames R (peer_target id).
Proof. unfold peer_target. autounfold with reads. solve_world. Qed.
Lemma frames_collect {A B} (f : A → OM (X := X) (C := C) B) l :
  (∀ a, frames R (f a)) → frames R (collect f l).
Proof. intros Hf. induction l; simpl; solve_world. Qed.
#[local] Hint Resolve frames_UseApp frames_C2CCall frames_peer_target frames_collect : frame.
Lemma frames_showBeamPeers h b : frames R (showBeamPeers h b).
Proof.
  unfold showBeamPeers, or_zero, resolvePeerTargets, HasC2CKey, releaseHasKey.
  autounfold with reads. solve_world.
Qed.
#[local] Hint Resolve frames_showBeamPeers : frame.

Lemma frames_run_orch op : frames R (run_orch op).
Proof.
  destruct op; simpl;
    unfold CreateBeam_, createBeam, SetSecret, setSecret, refuseFacilitySealedKey, DeployBeam,
      DeployBeamFromSource, DeployBeamFromGit, PauseFunc, PausePreview, ResumePreview, resume,
      ShowLogs, showLogs, PromoteToLive, RequestPromotion, requestPromotion, ApprovePromotion,
      approvePromotion, decide_and_promote, RejectPromotion, RollbackBeam, DestroyBeam,
      ArchiveBeam, Boot, fail_interrupted, restore_route, UpdateBeam_, updateBeam, CreateDatabase,
      ProvisionEmail, ProvisionAuth, ProvisionObjectStore, ShowEmail, showEmail, ShowAuth,
      showAuth, ShowObjectStore, showObjectStore, ShowBranding, showBranding, TryBeamTool,
      tryBeamTool, DrainEmailAudit, appendEmailAudit, DrainObjectStoreAudit,
      appendObjectStoreAudit, ShowBeamPeers, authorize;
    autounfold with reads; solve_world.
Qed.
Lemma frames_run_orchs ops : frames R (run_orchs ops).
Proof. apply frames_for_each; [tc_solve|]. intros op. apply frames_logged, frames_run_orch. Qed.

Lemma wp_outcome_ok {A} a act h b (x : A) (Q : error + A → World X C → Prop) w :
  (∀ r w', R w w' → (is_inl r = false → recorded a act h (w_db w')) → Q r w') →
  wp (outcome a act h b None;; mret x) Q w.
Proof.
  intros HQ. apply wp_bind, wp_bind, wp_attempt.
  pose proof (frames_in_store (X := X) RD RG _ (Hlog (outcome_event a act h b None) eq_refl) w) as Hf.
  pose proof (Append_adds (outcome_event a act h b None) (w_store w)) as Ha. unfold wp in *.
  cbn in Hf |- *. destruct (Append _ _) as [[e|seq] s'] eqn:E; cbn in Hf, Ha |- *; apply HQ; try done.
  intros _. eexists _, b, seq. exact Ha.
Qed.
Lemma wp_with_outcome {A} a act h b (m : M (World X C) error A)
    (Q : error + A → World X C → Prop) w :
  frames R m →
  (∀ r w', R w w' → (is_inl r = false → recorded a act h (w_db w')) → Q r w') →
  wp (with_outcome a act h b m) Q w.
Proof.
  intros Hm HQ. apply wp_bind, wp_attempt. specialize (Hm w). unfold wp at 1.
  destruct (m w) as [[e|x] w1]; cbn in Hm |- *.
  - apply wp_bind. pose proof (frames_outcome a act h b (Some e) w1) as Ho. unfold wp at 1.
    destruct (outcome a act h b (Some e) w1) as [[e2|[]] w2]; cbn in Ho |- *;
      apply HQ; try done; by etrans.
  - apply wp_outcome_ok. intros r w2 H2 Hr. apply HQ; [by etrans|done].
Qed.

(** A user's operation: the authorization first; what follows respects the relations and
    a success ends with its outcome on record. *)
Lemma wp_gated op (Q : error + () → World X C → Prop) w :
  match gate_of op with
  | None => True
  | Some (a, act, h, b) =>
      wp (authorize a act h b) (λ r w1,
        match r with
        | inl e => Q (inl e) w1
        | inr _ => ∀ r w2, R w1 w2 → (is_inl r = false → recorded a act h (w_db w2)) → Q r w2
        end) w →
      wp (run_orch op) Q w
  end.
Proof.
  destruct op; simpl; try done; intros Ha;
    first [apply wp_bind, wp_bind; eapply wp_mono; [exact Ha|]|
           apply wp_bind; eapply wp_mono; [exact Ha|]].
  all: intros [e|_] w1 HQ; [done|].
  1: { apply wp_bind, wp_attempt.
    assert (frames R (createBeam o actor beamhallID slug displayName description hint)) as Hc.
    { unfold createBeam. autounfold with reads. solve_world. }
    specialize (Hc w1). unfold wp at 1.
    destruct (createBeam _ _ _ _ _ _ _ w1) as [[e|beam] w2]; cbn in Hc |- *.
    - apply wp_bind. pose proof (frames_outcome actor ActionCreateBeam beamhallID no_id (Some e) w2) as Ho.
      unfold wp at 1. destruct (outcome _ _ _ _ _ w2) as [[e2|[]] w3]; cbn in Ho |- *;
        apply HQ; try done; by etrans.
    - apply wp_outcome_ok. intros [e|x] w3 H3 Hr; (apply HQ; [by etrans|]); [done|]. intros _. by apply Hr. }
  all: apply wp_with_outcome;
    [unfold setSecret, refuseFacilitySealedKey, resume, showLogs, requestPromotion, updateBeam,
       showEmail, showAuth, showObjectStore, showBranding, tryBeamTool;
     autounfold with reads; solve_world|].
  all: by intros [e|x] w2 H2 Hr; apply HQ.
Qed.
End framed.
End run.

(** * Releases are immutable *)

(** What a release pins: everything but its route, its workload, its status and the
    advertised agent tools. *)
Definition pinned (r : Release) : ID * ID * Z * Channel * string * list SecretRef * SecurityContext :=
  (Rel_BeamID r, Rel_BuildID r, Rel_Version r, Rel_Channel r, pull_ref r, Rel_SecretRefs r,
   Rel_SecurityProfileSnap r).
(** Every release is still there, pinning what it pinned. *)
Definition releases_kept : relation DB := λ d d',
  ∀ id r, db_releases d !! id = Some r → pinned <$> db_releases d' !! id = Some (pinned r).
#[export] Instance releases_kept_PreOrder : PreOrder releases_kept.
Proof.
  split; unfold releases_kept; [intros d id r Hr; by rewrite Hr|].
  intros d1 d2 d3 H12 H23 id r Hr. specialize (H12 id r Hr).
  destruct (db_releases d2 !! id) as [r2|] eqn:E; [|done].
  by rewrite (H23 id r2 E).
Qed.

Lemma releases_same d d' : db_releases d' = db_releases d → releases_kept d d'.
Proof. intros E id r Hr. by rewrite E, Hr. Qed.
Lemma releases_insert d d' id r :
  db_releases d !! id = None → db_releases d' = <[id := r]> (db_releases d) → releases_kept d d'.
Proof. intros Hn E i x Hx. rewrite E, lookup_insert_ne, Hx; [done|congruence]. Qed.
Lemma releases_update f id n d d' :
  (∀ r, pinned (f r) = pinned r) → q_update db_releases id f d = inr (n, d') → releases_kept d d'.
Proof.
  intros Hf Hq. apply q_update_inv in Hq as [(_ & -> & _)|(x & Hx & -> & _)]; [reflexivity|].
  intros i y Hy. simpl. destruct (decide (id = i)) as [->|Hne].
  - rewrite lookup_insert_eq. simpl. rewrite Hf. congruence.
  - by rewrite lookup_insert_ne, Hy.
Qed.

(** A statement on another table; an INSERT into releases, an UPDATE of unpinned columns. *)
Ltac other_table :=
  repeat match goal with
  | H : context [match ?x with _ => _ end] |- _ => destruct x eqn:?; try discriminate
  | H : q_insert _ _ _ _ _ _ = inr _ |- _ => apply q_insert_inv in H as (_ & _ & _ & ->)
  | H : q_update _ _ _ _ = inr _ |- _ =>
      apply q_update_inv in H as [(_ & -> & _)|(? & _ & -> & _)]
  | H : q_delete _ _ _ = inr _ |- _ => injection H as _ <-
  | H : inr _ = inr _ |- _ => injection H as ? ?; subst
  | H : UpsertSecret _ _ = _ |- _ => unfold UpsertSecret in H
  | H : UpsertBeamAudience _ _ = _ |- _ => unfold UpsertBeamAudience in H
  end; reflexivity.
Ltac release_statement :=
  let Hq := fresh "Hq" in intros ? ? ? Hq;
  first [eapply releases_update; [|exact Hq]; reflexivity
        |apply q_insert_inv in Hq as (? & _ & _ & ->); eapply releases_insert; [eassumption|reflexivity]
        |apply releases_same; other_table].

Section immutable.
Context `{!Env}.

Lemma SetReleaseAgentTools_releases id on :
  frames (db_rel releases_kept) (SetReleaseAgentTools id on).
Proof.
  intros s. unfold db_rel.
  change (wp (SetReleaseAgentTools id on) (λ _ s', releases_kept (st_db s) (st_db s')) s).
  unfold SetReleaseAgentTools, GetRelease. apply wp_withTx.
  { intros _ s' ->. reflexivity. }
  intros s1 E1. apply wp_bind, wp_exec; [done|]. intros r s2 Hr.
  apply wp_affected, wp_exec; [done|]. intros n s3 Hu.
  assert (releases_kept (st_db s) (st_db s3)) as Hk.
  { unfold q_one in Hr. destruct (db_releases (st_db s1) !! id) as [r1|] eqn:E; [|done].
    injection Hr as -> Hs. rewrite <-E1.
    apply q_update_inv in Hu as [(_ & E3 & _)|(x & Hx & E3 & _)]; rewrite E3, <-Hs; [reflexivity|].
    rewrite <-Hs, E in Hx. injection Hx as <-. intros i y Hy. simpl.
    destruct (decide (id = i)) as [->|Hne]; [|by rewrite lookup_insert_ne, Hy].
    rewrite lookup_insert_eq. assert (y = r) as -> by congruence. unfold pinned, pull_ref. simpl.
    destruct on; [by rewrite lookup_insert_ne|by rewrite lookup_delete_ne]. }
  case_decide; [done|]. intros s4 E4. by rewrite E4.
Qed.

Lemma run_op_releases op : frames (db_rel releases_kept) (run_op op).
Proof.
  destruct op; simpl; try (apply frames_logged, SetReleaseAgentTools_releases);
    autounfold with store_ops; solve_frame.
  all: release_statement.
Qed.

Lemma Append_releases ev : frames (db_rel releases_kept) (Append ev).
Proof.
  unfold Append, AuditChainAppend, fillAuditEvent, prev_hash. solve_frame.
  all: intros ? ? ? Hq; apply releases_same; unfold q_append_audit in Hq; case_match; [done|];
    by injection Hq as _ <-.
Qed.
End immutable.

(** Whatever operations the orchestrator runs and whichever of their steps fail, no
    release is ever deleted and none changes its beam, build, version, channel, image
    reference, secret references or security profile: what a rollback brings up again is
    what was released. *)
Theorem releases_immutable `{!Env, !Age, !Rand} {X C : Type} `{!Caddy C}
    `{!RuntimeDriver X, !Platform X, !DatabaseProvisioner X, !IdentityProvider X, !Brokers X}
    (o : Orchestrator) (polls : nat) (ops : list OrchOp) (w : World X C) :
  releases_kept (w_db w) (w_db (snd (run_orchs o polls ops w))).
Proof.
  assert (frames (on_world releases_kept anything) (run_orchs (C := C) o polls ops)) as Hf.
  { apply frames_run_orchs; try tc_solve; intros; first [apply frames_anything|apply run_op_releases|apply Append_releases]. }
  apply (Hf w).
Qed.

(** * Authorization and the record of the orchestrator's operations *)

Section audit.
Context `{!Env, !Age, !Rand} {X C : Type} `{!Caddy C}.
Context `{!RuntimeDriver X, !Platform X, !DatabaseProvisioner X, !IdentityProvider X, !Brokers X}.

(** The tables but the audit log. *)
Definition unlogged (d : DB) : DB := d <| db_audit := [] |> <| db_audit_seq := 0%Z |>.
(** Only the audit log may have changed. *)
Record untouched (w w' : World X C) : Prop := MkUntouched {
  unt_db : unlogged (w_db w') = unlogged (w_db w);
  unt_gw : w_gw w' = w_gw w;
  unt_armed : w_armed w' = w_armed w;
  unt_inFlight : w_inFlight w' = w_inFlight w;
  unt_cancelled : w_cancelled w' = w_cancelled w;
  unt_out : w_out w' = w_out w;
  unt_builds : w_builds w' = w_builds w;
  unt_mem : w_mem w' = w_mem w }.

(** The log only grows. *)
Definition log_grows : relation DB := λ d d', db_audit d `prefix_of` db_audit d'.
#[export] Instance log_grows_PreOrder : PreOrder log_grows.
Proof. split; unfold log_grows; [by intros d|]. intros d1 d2 d3. apply transitivity. Qed.

Lemma log_same d d' : db_audit d' = db_audit d → log_grows d d'.
Proof. unfold log_grows. by intros ->. Qed.
Lemma run_op_log op : frames (db_rel log_grows) (run_op op).
Proof.
  destruct op; simpl; autounfold with store_ops; solve_frame.
  all: intros ? ? ? Hq; apply log_same; other_table.
Qed.
Lemma Append_log ev : frames (db_rel log_grows) (Append ev).
Proof.
  intros s. pose proof (Append_adds ev s) as Ha. unfold wp, db_rel, log_grows in *.
  destruct (Append ev s) as [[e|seq] s']; cbn in *; [by rewrite Ha|].
  destruct Ha as (id & t & prev & ->). cbn. by apply prefix_app_r.
Qed.

Definition request_of (a : Actor) (act : Action) (h b : ID) : Request :=
  MkRequest (Actor_ID a) (TokenJTI a) (ITAdmin a) h b act (SourceIP a) EmptyString.

Lemma appended_unlogged d d' ev seq : appended d d' ev seq → unlogged d' = unlogged d.
Proof. by intros (id & t & prev & ->). Qed.

Lemma wp_authorize a act h b (Q : error + () → World X C → Prop) w :
  (∀ e w', untouched w w' → Q (inl e) w') →
  (∀ w', untouched w w' → allowed (w_db w) (request_of a act h b) = true →
     (∃ reason seq, appended (w_db w) (w_db w')
                      (decision_event (request_of a act h b) true reason) seq) →
     Q (inr tt) w') →
  wp (authorize a act h b) Q w.
Proof.
  intros He Hok. apply wp_lift. eapply wp_mono; [apply Authorize_spec|].
  intros [e|[]] s' [Hd Ha].
  - apply He. destruct Hd as [_ [E|(reason & seq & Hd)]]; split; try done; cbn; [by rewrite E|].
    by eapply appended_unlogged.
  - destruct Hd as (reason & seq & Hd). apply Hok; [split; try done|by apply Ha|by exists reason, seq].
    by eapply appended_unlogged.
Qed.

(** C7: nothing a user's operation does goes unauthorized or unrecorded: either it
    fails having changed nothing but the audit log, or the policy allows the request,
    its allow decision was appended to the log before anything else changed and is still
    there at the end; and an operation that reports success has left its outcome as the
    log's last event. *)
Theorem no_effect_without_record (o : Orchestrator) (polls : nat) (op : OrchOp) (w : World X C) :
  match gate_of op with
  | None => True
  | Some (a, act, h, b) =>
      wp (run_orch o polls op) (λ r w',
        (is_inl r = true ∧ untouched w w')
        ∨ (allowed (w_db w) (request_of a act h b) = true
           ∧ (∃ d reason seq,
                appended (w_db w) d (decision_event (request_of a act h b) true reason) seq
                ∧ db_audit d `prefix_of` db_audit (w_db w'))
           ∧ (is_inl r = false → recorded a act h (w_db w')))) w
  end.
Proof.
  assert (∀ A (m : GM C A), frames anything m) as Hany by (intros; apply frames_anything).
  pose proof (λ Q, wp_gated (X := X) o polls log_grows anything (λ op _, run_op_log op)
    (λ ev _, Append_log ev) (λ r, Hany _ (Gw_Upsert r)) (λ h, Hany _ (Gw_Retire h)) op Q w) as Hgate.
  destruct (gate_of op) as [[[[a act] h] b]|]; [|done]. apply Hgate, wp_authorize.
  - intros e w' Hw. by left.
  - intros w1 _ Hall (reason & seq & Hd) r w2 [Hlog _] Hr. right.
    split; [done|]. split; [|done]. exists (w_db w1), reason, seq. by split.
Qed.
End audit.
