(* ===== verification/OrchWorkload.v ===== *)
(** Bringing a workload up, against the contract of the runtime driver: it leaks no
    container, and one it reports up is running and recorded on its release. *)
From S2P Require Import Prelude Regexp GoStrings Diagnose Domain Gateway Store StoreOps StoreInv.
From S2P Require Import AuditLog Policy Vault Scrub Outside Orch AppTools Facility OrchBeam OrchLife.
From S2P Require Import OrchFrames Fixtures GatewayProofs VaultProofs OrchFixtures.

#[export] Instance Handle_countable : Countable Handle.
Proof.
  refine (inj_countable' (λ h, (DriverName h, Ref h)) (λ p, MkHandle p.1 p.2) _).
  by intros [].
Qed.

(** What the driver's interface promises of the containers there are: Deploy creates one,
    only Destroy removes one, and nothing else the bring-up calls creates or removes any. *)
Class DriverLaws (X : Type) `{!RuntimeDriver X, !Platform X} := {
  containers : X → gset Handle;
  Deploy_creates spec x : match drv_Deploy spec x with
    | (inr h, x') => h ∉ containers x ∧ containers x' = {[h]} ∪ containers x
    | (inl _, x') => containers x' = containers x
    end;
  Destroy_removes h x : h ∈ containers x → match drv_Destroy h x with
    | (inr _, x') => containers x' = containers x ∖ {[h]}
    | (inl _, x') => containers x' = containers x ∨ containers x' = containers x ∖ {[h]}
    end;
  Start_keeps h x : containers (drv_Start h x).2 = containers x;
  Stop_keeps h d x : containers (drv_Stop h d x).2 = containers x;
  Logs_keeps h opts x : containers (drv_Logs h opts x).2 = containers x;
  Status_keeps h x : containers (drv_Status h x).2 = containers x;
  egress_keeps x : containers (egress_sync x).2 = containers x;
  facts_keep n x : containers (net_facts n x).2 = containers x;
  sign_keeps c x : containers (jwt_SignedString c x).2 = containers x;
  http_keeps r x : containers (http_Do r x).2 = containers x }.

Lemma wp_frames {W E A} (R : relation W) (m : M W E A) (Q : E + A → W → Prop) w :
  frames R m → wp m Q w → wp m (λ r w', R w w' ∧ Q r w') w.
Proof. intros Hm HQ. split; [apply Hm|exact HQ]. Qed.

(** What the calls around the creation of a container do to the outside. *)
Section calls.
Context `{!Env, !Age, !Rand} {X C : Type} `{!Caddy C, !RuntimeDriver X, !Platform X}.
Context (o : Orchestrator) (polls : nat) (R : relation X) `{!PreOrder R}.
Context (Rstart : ∀ h x, R x (drv_Start h x).2) (Rlogs : ∀ h opts x, R x (drv_Logs h opts x).2).
Context (Rstatus : ∀ h x, R x (drv_Status h x).2) (Regress : ∀ x, R x (egress_sync x).2).
Context (Rfacts : ∀ n x, R x (net_facts n x).2) (Rsign : ∀ c x, R x (jwt_SignedString c x).2).
Context (Rhttp : ∀ r x, R x (http_Do r x).2).
Definition on_outside : relation (World X C) := λ w w', R (w_out w) (w_out w').
#[export] Instance on_outside_PreOrder : PreOrder on_outside.
Proof. split; unfold on_outside; [by intros w|]. intros w1 w2 w3. apply transitivity. Qed.
Notation R' := on_outside.

Lemma calls_in_store {A} (m : SM A) : frames R' (in_store m).
Proof. intros w. unfold on_outside. simpl. reflexivity. Qed.
Lemma calls_outside {A} (f : ext X A) : (∀ x, R x (f x).2) → frames R' (outside f).
Proof.
  intros Hf w. unfold outside, on_outside. specialize (Hf (w_out w)). by destruct (f (w_out w)) as [[e|a] x].
Qed.
#[local] Hint Resolve calls_in_store calls_outside Rstart Rlogs Rstatus Regress Rfacts Rsign Rhttp : frame.
Ltac solve_calls := repeat (progress first [apply calls_in_store|world_step]).

Lemma calls_brandingBinding bh : frames R' (brandingBinding o bh).
Proof. unfold brandingBinding, resolvedBranding, or_zero, resolveLogo. solve_calls. Qed.
Lemma calls_c2cBinding h refs : frames R' (c2cBinding o h refs).
Proof. unfold c2cBinding. solve_calls. Qed.
Lemma calls_crashLogs h b hd : frames R' (crashLogs h b hd).
Proof. unfold crashLogs. solve_calls. Qed.
#[local] Hint Resolve calls_brandingBinding calls_c2cBinding calls_crashLogs : frame.
Lemma calls_await_poll h b hd t n : frames R' (await_poll h b hd t n).
Proof. induction n; simpl; solve_calls. Qed.
#[local] Hint Resolve calls_await_poll : frame.
Lemma calls_bring_up h b r hd : frames R' (bring_up o polls h b r hd).
Proof. unfold bring_up, awaitStartup. solve_calls. Qed.
Lemma calls_FetchManifest addr assertion : frames R' (FetchManifest addr assertion).
Proof. unfold FetchManifest, send, of_sum. solve_calls. Qed.
Lemma calls_Mint issuer a : frames R' (Mint issuer a).
Proof. unfold Mint, rand_bytes. solve_calls. Qed.
#[local] Hint Resolve calls_FetchManifest calls_Mint : frame.
Lemma calls_probeAgentTools b r addr : frames R' (probeAgentTools o b r addr).
Proof. unfold probeAgentTools. solve_calls. Qed.
Lemma calls_resync : frames R' (resyncEgressForGrants o).
Proof. unfold resyncEgressForGrants. solve_calls. Qed.
End calls.

Section workload.
Context `{!Env, !Age, !Rand} {X C : Type} `{!Caddy C, !RuntimeDriver X, !Platform X, !DriverLaws X}.
Context (o : Orchestrator) (polls : nat).
Notation World := (World X C).

(** The containers of a world, and the relation that keeps them. *)
Definition alive (w : World) : gset Handle := containers (w_out w).
Definition kept_containers : relation X := λ x x', containers x' = containers x.
#[local] Instance kept_containers_PreOrder : PreOrder kept_containers.
Proof. split; unfold kept_containers; [by intros x|congruence]. Qed.
Definition same_containers : relation World := on_outside kept_containers.
#[local] Hint Resolve Start_keeps Stop_keeps Logs_keeps Status_keeps egress_keeps facts_keep sign_keeps http_keeps : frame.
Ltac by_calls H := apply H; try tc_solve; intros; unfold kept_containers; auto with frame.

Lemma containers_in_store {A} (m : SM A) : frames same_containers (in_store m).
Proof. by intros w. Qed.
Lemma containers_outside {A} (f : ext X A) :
  (∀ x, containers (f x).2 = containers x) → frames same_containers (outside f).
Proof. intros Hf. by_calls @calls_outside. Qed.
Lemma containers_brandingBinding bh : frames same_containers (brandingBinding o bh).
Proof. by_calls @calls_brandingBinding. Qed.
Lemma containers_c2cBinding h refs : frames same_containers (c2cBinding o h refs).
Proof. by_calls @calls_c2cBinding. Qed.
Lemma containers_bring_up h b r hd : frames same_containers (bring_up o polls h b r hd).
Proof. by_calls @calls_bring_up. Qed.
Lemma containers_probeAgentTools b r addr : frames same_containers (probeAgentTools o b r addr).
Proof. by_calls @calls_probeAgentTools. Qed.
Lemma containers_resync : frames same_containers (resyncEgressForGrants o).
Proof. by_calls @calls_resync. Qed.

(** The release [id] records the workload [hd]. *)
Definition records (id : ID) (hd : Handle) (d : DB) : Prop :=
  ∃ rel, db_releases d !! id = Some rel ∧ handleOf rel = hd.
(** Only releases' rows have changed. *)
Definition but_releases (d : DB) : DB := d <| db_releases := ∅ |>.

Lemma update_records f id i n hd d d' :
  (∀ r, handleOf (f r) = handleOf r) → q_update db_releases i f d = inr (n, d') →
  records id hd d → records id hd d'.
Proof.
  intros Hf Hq (rel & Hrel & Hh).
  apply q_update_inv in Hq as [(_ & -> & _)|(x & Hx & -> & _)]; [by exists rel|].
  unfold records. simpl. destruct (decide (i = id)) as [->|Hne].
  - exists (f x). rewrite lookup_insert_eq. split; [done|]. rewrite Hf. congruence.
  - exists rel. by rewrite lookup_insert_ne.
Qed.
Lemma tools_records id hd i on :
  frames (db_rel (keeping (records id hd))) (SetReleaseAgentTools i on).
Proof.
  unfold SetReleaseAgentTools, GetRelease. solve_frame. intros d n d' Hq Hd.
  by eapply update_records; [|exact Hq|exact Hd].
Qed.
Lemma but_releases_update f i : q_frames (same but_releases) (q_update db_releases i f).
Proof. intros d n d' [(_ & -> & _)|(x & _ & -> & _)]%q_update_inv; [done|reflexivity]. Qed.
Lemma workload_but_releases i h : frames (db_rel (same but_releases)) (SetReleaseWorkload i h).
Proof. unfold SetReleaseWorkload. solve_frame. apply but_releases_update. Qed.
Lemma tools_but_releases i on : frames (db_rel (same but_releases)) (SetReleaseAgentTools i on).
Proof. unfold SetReleaseAgentTools, GetRelease. solve_frame. apply but_releases_update. Qed.

Lemma await_poll_running h b hd t n (w : World) :
  wp (await_poll h b hd t n)
    (λ r _, ∀ st, r = inr st → Status_State st = WorkloadRunning) w.
Proof.
  revert w. induction n as [|n IH]; intros w; cbn [await_poll]; apply wp_bind;
    unfold wp at 1; destruct (outside _ w) as [[e|st] w1]; cbn -[crashLogs]; try done.
  all: case_decide; [apply wp_bind; unfold wp at 1; by destruct (crashLogs _ _ _ w1) as [[e|l] w2]|].
  all: apply wp_bind, wp_lift, wp_now; intros t1 s1 _; destruct (time_after _ _); [|done || apply IH].
  all: case_decide; [by apply wp_ret; intros ? [= <-]|done].
Qed.
Lemma bring_up_records h b r hd (w : World) :
  wp (bring_up o polls h b r hd) (λ res w', ∀ st, res = inr st →
    Status_State st = WorkloadRunning ∧ records r hd (w_db w')) w.
Proof.
  unfold bring_up. apply wp_bind. eapply (wp_mono _ (λ _ _, True)); [done|].
  intros [e|[]] w1 _; [done|].
  apply wp_bind. unfold SetReleaseWorkload. apply wp_lift, wp_affected, wp_exec; [done|].
  intros n s2 Hq. case_decide as Hn; [done|].
  assert (records r hd (st_db s2)) as Hr.
  { apply q_update_inv in Hq as [(_ & _ & ->)|(x & Hx & -> & _)]; [done|].
    eexists. simpl. rewrite lookup_insert_eq. split; [done|]. by destruct hd. }
  assert (∀ A (m : M World error A), frames (on_world (keeping (records r hd)) anything) m →
    ∀ w1 (Q : error + A → World → Prop), records r hd (w_db w1) →
      wp m (λ res w2, records r hd (w_db w2) → Q res w2) w1 → wp m Q w1) as Hkeep.
  { intros A m Hm w2 Q Hw2 HQ. apply HQ. by apply (Hm w2). }
  apply wp_bind, Hkeep; [apply frames_outside; tc_solve|exact Hr|].
  eapply (wp_mono _ (λ _ _, True)); [done|]. intros [e|[]] w2 _ Hr2; [done|].
  apply Hkeep; [apply frames_awaitStartup; tc_solve|done|].
  unfold awaitStartup. apply wp_bind, wp_lift, wp_now. intros t s _.
  eapply wp_mono; [apply await_poll_running|]. intros res w' Hst Hw' st ->.
  split; [by apply Hst|done].
Qed.

(** What becomes of the containers: one more, running and recorded on the release; or as
    before; or one more that Destroy refused to remove. *)
Definition brought_up (r : ID) (w w' : World) (res : error + Status) : Prop :=
  match res with
  | inr status =>
      Status_State status = WorkloadRunning
      ∧ ∃ hd, hd ∉ alive w ∧ alive w' = {[hd]} ∪ alive w ∧ records r hd (w_db w')
  | inl _ =>
      alive w' = alive w
      ∨ ∃ hd x, hd ∉ alive w ∧ alive w' = {[hd]} ∪ alive w ∧ is_inl (drv_Destroy hd x).1 = true
  end.

(** Calls whose errors are all swallowed. *)
Definition total {W E A} (m : M W E A) : Prop := ∀ w, ∃ a, fst (m w) = inr a.
Lemma total_ret {W E A} (a : A) : total (W := W) (E := E) (mret a).
Proof. intros w. by exists a. Qed.
Lemma total_logged {W E A} (m : M W E A) : total (logged m).
Proof. intros w. by exists tt. Qed.
Lemma total_attempt {W E A B} (m : M W E A) (k : E + A → M W E B) :
  (∀ r, total (k r)) → total (attempt m ≫= k).
Proof. intros Hk w. apply Hk. Qed.
Lemma probeAgentTools_total b r addr : total (probeAgentTools (X := X) (C := C) o b r addr).
Proof.
  unfold probeAgentTools. case_match; [apply total_ret|]. apply total_attempt. intros [e|rel];
    [apply total_ret|]. apply total_attempt. intros [e|[]]; [apply total_ret|apply total_logged].
Qed.
Lemma resync_total : total (resyncEgressForGrants (X := X) (C := C) o).
Proof.
  unfold resyncEgressForGrants. case_match; [|apply total_ret]. apply total_attempt.
  intros [e|grants]; [apply total_ret|]. case_match; [apply total_logged|apply total_ret].
Qed.
(** A swallowing step that keeps the containers and a release's workload. *)
Lemma wp_aside (m : M World error ()) r hd (Q : error + () → World → Prop) w :
  total m → frames same_containers m → frames (on_world (keeping (records r hd)) anything) m →
  records r hd (w_db w) →
  (∀ w', records r hd (w_db w') → alive w' = alive w → Q (inr tt) w') → wp m Q w.
Proof.
  intros Ht Hc Hf Hr HQ. unfold wp. destruct (Ht w) as [[] ->].
  apply HQ; [by apply (Hf w)|apply Hc].
Qed.

(** A step that keeps the containers. *)
Lemma wp_keeps_containers {A} (m : M World error A) (Q : error + A → World → Prop) w :
  frames same_containers m →
  (∀ r w', alive w' = alive w → Q r w') → wp m Q w.
Proof. intros Hm HQ. apply HQ, Hm. Qed.

Lemma clean_up hd (err : error) w w0 r :
  hd ∉ alive w0 → alive w = {[hd]} ∪ alive w0 →
  wp (logged (outside (drv_Stop hd 0%Z));; logged (outside (drv_Destroy hd));; throw err)
    (λ res w', brought_up r w0 w' res) w.
Proof.
  intros Hnew Hw. apply wp_bind, wp_logged, wp_keeps_containers.
  { apply containers_outside, Stop_keeps. }
  intros _ w1 Ew1. apply wp_bind, wp_logged. unfold wp, outside.
  pose proof (Destroy_removes hd (w_out w1)) as Hd. fold (alive w1) in Hd.
  specialize (Hd ltac:(rewrite Ew1, Hw; set_solver)).
  destruct (drv_Destroy hd (w_out w1)) as [[e|[]] x] eqn:E; cbn -[union difference].
  - destruct Hd as [Hd|Hd].
    + right. exists hd, (w_out w1). rewrite E. unfold alive at 2. cbn. rewrite Hd, Ew1. auto.
    + left. unfold alive at 1. cbn. rewrite Hd, Ew1, Hw. set_solver.
  - left. unfold alive at 1. cbn. rewrite Hd, Ew1, Hw. set_solver.
Qed.

Lemma spawn_containers h b r bh sc refs pull (w : World) :
  wp (spawnWorkload o polls h b r bh sc refs pull) (λ res w', brought_up r w w' res) w.
Proof.
  unfold spawnWorkload. apply wp_bind, wp_keeps_containers; [apply containers_in_store|].
  intros [e|mounts] w1 Ew1; [by left|].
  apply wp_bind, wp_keeps_containers; [apply containers_brandingBinding|].
  intros [e|branding] w2 Ew2; [left; congruence|].
  apply wp_bind, wp_keeps_containers; [apply containers_c2cBinding|].
  intros [e|c2c] w3 Ew3; [left; congruence|].
  assert (alive w3 = alive w) as Ew0 by congruence. clear Ew1 Ew2 Ew3.
  apply wp_bind. unfold outside at 1, wp at 1.
  match goal with |- context [drv_Deploy ?spec] => pose proof (Deploy_creates spec (w_out w3)) as Hd end.
  fold (alive w3) in Hd. rewrite Ew0 in Hd.
  destruct (drv_Deploy _ _) as [[e|hd] x]; cbn -[union]; [by left|].
  destruct Hd as [Hnew Hx]. apply wp_bind, wp_attempt.
  eapply (wp_mono _ (λ res w', same_containers (w3 <| w_out := x |>) w' ∧
    ∀ st, res = inr st → Status_State st = WorkloadRunning ∧ records r hd (w_db w'))).
  { apply wp_frames; [apply containers_bring_up|apply bring_up_records]. }
  intros [err|status] w4 [Ew4 Hup]; change (alive w4 = alive (w3 <| w_out := x |>)) in Ew4.
  { apply clean_up; [done|]. rewrite Ew4. exact Hx. }
  destruct (Hup status eq_refl) as [Hrun Hrec].
  assert (alive w4 = {[hd]} ∪ alive w) as Hw4 by (rewrite Ew4; exact Hx).
  apply wp_bind, (wp_aside _ r hd); [apply probeAgentTools_total|apply containers_probeAgentTools
    |apply frames_probeAgentTools; [tc_solve..|apply tools_records]|done|].
  intros w5 Hrec5 Ew5. apply wp_bind, (wp_aside _ r hd); [apply resync_total|apply containers_resync
    |apply frames_resyncEgressForGrants; tc_solve|done|].
  intros w6 Hrec6 Ew6. apply wp_ret. split; [done|]. exists hd. rewrite Ew6, Ew5. auto.
Qed.
End workload.

(** Bringing a workload up against a driver that keeps its interface's promises
    leaks nothing: on success there is exactly one container more, it runs and its
    release records it; on an error there is none more, unless the driver refused to
    remove the one created.  Either way no table but releases changes, and no route. *)
Theorem spawn_leaks_nothing `{!Env, !Age, !Rand} {X C : Type} `{!Caddy C}
    `{!RuntimeDriver X, !Platform X, !DriverLaws X} (o : Orchestrator) (polls : nat)
    (h b r : ID) (bh : Beamhall) (sc : SecurityContext) (refs : list SecretRef) (pull : string)
    (w : World X C) :
  wp (spawnWorkload o polls h b r bh sc refs pull) (λ res w',
    but_releases (w_db w') = but_releases (w_db w) ∧ w_gw w' = w_gw w
    ∧ brought_up r w w' res) w.
Proof.
  eapply (wp_mono _ (λ res w', on_world (same but_releases) (flip eq) w w' ∧ brought_up r w w' res)).
  { apply wp_frames; [|apply spawn_containers].
    apply frames_spawnWorkload; [tc_solve..|apply workload_but_releases|apply tools_but_releases]. }
  intros res w' [[Hdb Hgw] Hup]. done.
Qed.

(** The fixtures' engine keeps the driver's promises. *)
Definition en_handles (e : Engine) : gset Handle :=
  set_map (MkHandle "docker") (dom (en_containers e)).
Lemma elem_of_en_handles h e :
  h ∈ en_handles e ↔ DriverName h = "docker" ∧ is_Some (en_containers e !! Ref h).
Proof.
  unfold en_handles. rewrite elem_of_map. setoid_rewrite elem_of_dom. split.
  - by intros (r & -> & Hr).
  - destruct h as [n r]. simpl. intros [-> Hr]. by exists r.
Qed.
Lemma en_set_handles h s e : en_handles (en_set h s e).2 = en_handles e.
Proof.
  unfold en_set. destruct (en_containers e !! Ref h) eqn:E; [|done].
  unfold en_handles. simpl. f_equal. rewrite dom_insert_lookup_L; [done|]. by rewrite E.
Qed.
#[export, refine] Instance Engine_laws : DriverLaws Engine := {| containers := en_handles |}.
Proof.
  - intros spec x. cbn. split.
    + rewrite elem_of_en_handles. simpl. rewrite new_ref_fresh. intros [_ []]; done.
    + unfold en_handles. simpl. by rewrite dom_insert_L, set_map_union_L, set_map_singleton_L.
  - intros h x _. cbn. apply set_eq. intros h'. rewrite elem_of_difference, elem_of_singleton.
    destruct (decide (DriverName h = "docker")) as [Hd|Hd]; rewrite !elem_of_en_handles; simpl.
    + destruct (decide (Ref h' = Ref h)) as [Hr|Hr].
      * rewrite Hr, lookup_delete_eq. split; [intros [_ []]; done|]. intros [[Hn _] Hne].
        exfalso. apply Hne. destruct h, h'. simpl in *. congruence.
      * rewrite lookup_delete_ne by done. naive_solver.
    + naive_solver.
  - intros h x. cbn. destruct (en_start x); [done|apply en_set_handles].
  - intros h d x. apply en_set_handles.
  - done.
  - done.
  - done.
  - done.
  - done.
  - done.
Defined.

(** A workload brought up for the fixtures' release; and one whose Start fails. *)
Definition World1_broken : World Engine ScriptedCaddy :=
  World1 <| w_out := Engine1 <| en_start := Some "OCI runtime error" |> |>.
Lemma spawn_leaks_nothing_witness :
  let spawn := spawnWorkload Orch1 3 "H1" "B1" "R1" Hall1 Context1 [] "sha256:1" in
  is_inl (spawn World1).1 = false ∧ is_inl (spawn World1_broken).1 = true
  ∧ wp spawn (λ res w', but_releases (w_db w') = but_releases (w_db World1_broken)
      ∧ w_gw w' = w_gw World1_broken ∧ brought_up "R1" World1_broken w' res) World1_broken.
Proof.
  intros spawn. split; [vm_compute; reflexivity|split; [vm_compute; reflexivity|]].
  apply (spawn_leaks_nothing Orch1 3 "H1" "B1" "R1" Hall1 Context1 [] "sha256:1" World1_broken).
Defined.
