(* ===== verification/OrchAdminRun.v ===== *)
(** The administration operations as one type: every one is for administrators only and on
    the record, and what holds of every history of them and of the users' operations. *)
From S2P Require Import Prelude GoStrings Domain Gateway Store StoreOps StoreInv AuditLog.
From S2P Require Import AuditProofs Policy PolicyProofs Vault Outside Orch Facility OrchAdmin.
From S2P Require Import OrchSensitive OrchTools OrchProvision OrchBeam OrchLife OrchFrames.
From S2P Require Import OrchRun.

Inductive AdminOp :=
  | ACreateBeamhall (spec : NewBeamhallSpec)
  | ARegisterIdentity (issuer subject email displayName : string)
  | AGrantMembership (identityID beamhallID : ID) (role : MembershipRole)
  | ASetEgress (beamhallID : ID) (mode : EgressMode) (allowlist : list string)
  | ARevokeMembership (identityID beamhallID : ID)
  | ASetMembershipRole (identityID beamhallID : ID) (role : MembershipRole)
  | ASetIdentityStatus (identityID : ID) (status : string + IdentityStatus)
  | ADeregisterIdentity (identityID : ID)
  | AUpdateBeamhall (slug : string) (upd : BeamhallUpdate)
  | ACreateUser (u : NewUser)
  | ASetUserPassword (userID password : string)
  | ASetUserEnabled (userID : string) (enabled : bool)
  | ACreateGroup (name : string)
  | AAddUserToGroup (userID groupID : string)
  | ARemoveUserFromGroup (userID groupID : string)
  | ADeleteUser (userID : string)
  | ADeleteGroup (groupID : string)
  | ABackupNow (now : time)
  | ARequestFederate (d : DirectoryFederation)
  | ARequestUnfederate (name : string)
  | ARequestSetSecurityContext (slug : string) (rc : RuntimeClass)
  | ARequestPruneAudit (throughSeq : Z)
  | ARequestRestoreBackup (name : string)
  | ARequestUpgrade (version sha : string)
  | AApprove (id : ID)
  | AReject (id : ID) (reason : string)
  | ASetAppAudience (beamhallID beamID : ID) (spec : AudienceSpec)
  | ASetBeamPeers (beamhallID beamID : ID) (spec : PeerSpec)
  | ASetBranding (beamhallID : ID) (spec : BrandingSpec)
  | ASetAuthGroups (beamhallID beamID : ID) (groups : list string)
  | ASetEmailSenders (beamhallID beamID : ID) (senders : list string)
  | ASetEmailProvider (smarthost username password : string) (startTLS : bool)
  | ASetObjectStoreProvider (endpoint region bucket accessKey secretKey : string)
      (forcePathStyle useSSL : bool)
  | ASetObjectStoreQuota (beamhallID beamID : ID) (maxBytes : Z).

(** The action an operation is recorded under; an approval names the type of what it
    approved. *)
Definition admin_action (op : AdminOp) (act : string) : Prop :=
  match op with
  | ACreateBeamhall _ => act = "admin_create_beamhall"
  | ARegisterIdentity _ _ _ _ => act = "admin_register_identity"
  | AGrantMembership _ _ _ => act = "admin_grant_membership"
  | ASetEgress _ _ _ => act = "admin_set_egress"
  | ARevokeMembership _ _ => act = "admin_revoke_membership"
  | ASetMembershipRole _ _ _ => act = "admin_set_membership_role"
  | ASetIdentityStatus _ _ => act = "admin_set_identity_status"
  | ADeregisterIdentity _ => act = "admin_deregister_identity"
  | AUpdateBeamhall _ _ => act = "admin_update_beamhall"
  | ACreateUser _ => act = "admin_create_user"
  | ASetUserPassword _ _ => act = "admin_set_user_password"
  | ASetUserEnabled _ _ => act = "admin_set_user_enabled"
  | ACreateGroup _ => act = "admin_create_group"
  | AAddUserToGroup _ _ => act = "admin_add_user_to_group"
  | ARemoveUserFromGroup _ _ => act = "admin_remove_user_from_group"
  | ADeleteUser _ => act = "admin_delete_user"
  | ADeleteGroup _ => act = "admin_delete_group"
  | ABackupNow _ => act = "admin_backup_now"
  | ARequestFederate _ => act = "admin_request_federate_directory"
  | ARequestUnfederate _ => act = "admin_request_unfederate_directory"
  | ARequestSetSecurityContext _ _ => act = "admin_request_set_security_context"
  | ARequestPruneAudit _ => act = "admin_request_prune_audit"
  | ARequestRestoreBackup _ => act = "admin_request_restore_backup"
  | ARequestUpgrade _ _ => act = "admin_request_upgrade"
  | AApprove _ => ∃ req, act = approve_action_name req
  | AReject _ _ => act = "admin_reject_action"
  | ASetAppAudience _ _ _ => act = "admin_set_app_audience"
  | ASetBeamPeers _ _ _ => act = "admin_set_beam_peers"
  | ASetBranding _ _ => act = "admin_set_branding"
  | ASetAuthGroups _ _ _ => act = "admin_set_auth_groups"
  | ASetEmailSenders _ _ _ => act = "admin_set_email_senders"
  | ASetEmailProvider _ _ _ _ => act = "admin_set_email_provider"
  | ASetObjectStoreProvider _ _ _ _ _ _ _ => act = "admin_set_object_store_provider"
  | ASetObjectStoreQuota _ _ _ => act = "admin_set_object_store_quota"
  end.

Section run.
Context `{!Env, !Age, !Rand} {X C : Type} `{!Caddy C}.
Context `{!RuntimeDriver X, !Platform X, !Directory X, !Appliance X}.
Context `{!DatabaseProvisioner X, !IdentityProvider X, !Brokers X}.
Context (o : Orchestrator) (path_join : string → string → string) (goos_goarch : string).
Notation World := (World X C).
Implicit Types (w : World).

(** An administrator's operation, its result dropped. *)
Definition run_admin (a : Actor) (op : AdminOp) : OM (X := X) (C := C) () :=
  match op with
  | ACreateBeamhall spec => Admin_CreateBeamhall a spec;; mret tt
  | ARegisterIdentity i s e d => RegisterIdentity a i s e d;; mret tt
  | AGrantMembership i h r => GrantMembership a i h r
  | ASetEgress h m l => SetEgress o a h m l
  | ARevokeMembership i h => RevokeMembership a i h
  | ASetMembershipRole i h r => SetMembershipRole a i h r
  | ASetIdentityStatus i s => SetIdentityStatus a i s
  | ADeregisterIdentity i => DeregisterIdentity a i
  | AUpdateBeamhall s u => AdminUpdateBeamhall a s u;; mret tt
  | ACreateUser u => AdminCreateUser o a u;; mret tt
  | ASetUserPassword u p => AdminSetUserPassword o a u p
  | ASetUserEnabled u b => AdminSetUserEnabled o a u b
  | ACreateGroup n => AdminCreateGroup o a n;; mret tt
  | AAddUserToGroup u g => AdminAddUserToGroup o a u g
  | ARemoveUserFromGroup u g => AdminRemoveUserFromGroup o a u g
  | ADeleteUser u => AdminDeleteUser o a u
  | ADeleteGroup g => AdminDeleteGroup o a g
  | ABackupNow t => AdminBackupNow o path_join a t;; mret tt
  | ARequestFederate d => RequestFederateDirectory o a d;; mret tt
  | ARequestUnfederate n => RequestUnfederateDirectory o a n;; mret tt
  | ARequestSetSecurityContext s rc => RequestSetSecurityContext o a s rc;; mret tt
  | ARequestPruneAudit n => RequestPruneAudit o a n;; mret tt
  | ARequestRestoreBackup n => RequestRestoreBackup o path_join a n;; mret tt
  | ARequestUpgrade v s => RequestUpgrade o goos_goarch a v s;; mret tt
  | AApprove i => ApproveAdminAction o path_join a i;; mret tt
  | AReject i r => RejectAdminAction a i r
  | ASetAppAudience h b s => SetAppAudience a h b s
  | ASetBeamPeers h b s => SetBeamPeers o a h b s;; mret tt
  | ASetBranding h s => SetBranding a h s
  | ASetAuthGroups h b l => SetAuthGroups o a h b l
  | ASetEmailSenders h b l => SetEmailSenders o a h b l
  | ASetEmailProvider host u p tls => SetEmailProvider o a host u p tls
  | ASetObjectStoreProvider e r b ak sk path ssl => SetObjectStoreProvider o a e r b ak sk path ssl
  | ASetObjectStoreQuota h b n => SetObjectStoreQuota o a h b n
  end.

(** * Gate and record *)

Lemma untouched_refl w : untouched w w.
Proof. done. Qed.

(** What a call of itAuditBeam leaves. *)
Definition it_logged (a : Actor) (act : string) (h b : ID) (err : option error) w
    (r : error + ()) w' : Prop :=
  untouched w w'
  ∧ match err with
    | Some _ => is_inl r = true
    | None => is_inl r = false → ∃ seq, appended (w_db w) (w_db w') (it_event a act h b None) seq
    end.
Lemma wp_itAuditBeam a act h b err (Q : error + () → World → Prop) w :
  (∀ r w', it_logged a act h b err w r w' → Q r w') →
  wp (itAuditBeam a act h b err) Q w.
Proof.
  intros HQ. apply wp_bind, wp_attempt, wp_lift. eapply wp_mono; [apply Append_adds|].
  intros r s' Ha.
  assert (untouched w (w <| w_store := s' |>)) as Hu.
  { split; try done. simpl. destruct r; [by rewrite Ha|by eapply appended_unlogged]. }
  destruct r as [e|seq], err as [err|]; first [apply wp_throw|apply wp_ret]; apply HQ;
    by repeat split; try apply Hu; eauto.
Qed.

(** What is promised of an operation recorded as [act]. *)
Definition gated (a : Actor) (act : string → Prop) w {A} (r : error + A) w' : Prop :=
  (ITAdmin a = false → is_inl r = true ∧ untouched w w')
  ∧ (is_inl r = false → ∃ d act' h b seq,
       act act' ∧ appended d (w_db w') (it_event a act' h b None) seq).

Lemma gated_error a act w A (e : error) w' :
  (ITAdmin a = false → untouched w w') → gated a act w (inl e : error + A) w'.
Proof. intros Hu. split; [auto|done]. Qed.
Lemma wp_refuse a act1 act h b err {A} w0 w :
  (ITAdmin a = false → untouched w0 w) →
  wp (itAuditBeam a act1 h b (Some err);; throw err) (@gated a act w0 A) w.
Proof.
  intros Hu. apply wp_bind, wp_itAuditBeam. intros r w' [Hu' Hr].
  destruct r as [e|[]]; [|done]. apply gated_error. intros Ha. specialize (Hu Ha).
  destruct Hu, Hu'. split; congruence.
Qed.
Lemma wp_record a act1 (act : string → Prop) h b {A} (x : A) w0 w :
  ITAdmin a = true → act act1 →
  wp (itAuditBeam a act1 h b None;; mret x) (gated a act w0) w.
Proof.
  intros Ha Hact. apply wp_bind, wp_itAuditBeam. intros r w' [_ Hr].
  destruct r as [e|[]]; [by apply gated_error; rewrite Ha|]. apply wp_ret.
  destruct (Hr eq_refl) as [seq Hs]. split; [by rewrite Ha|]. intros _. eauto 10.
Qed.
Lemma requireIT_Some a err : requireIT a = Some err → ITAdmin a = false.
Proof. unfold requireIT. by destruct (ITAdmin a). Qed.
Lemma requireIT_None a : requireIT a = None → ITAdmin a = true.
Proof. unfold requireIT. by destruct (ITAdmin a). Qed.

(** Whatever the call did. *)
Lemma wp_attempted {A} (m : OM A) (Q : error + (error + A) → World → Prop) w :
  (∀ r w', Q (inr r) w') → wp (attempt m) Q w.
Proof. intros HQ. apply HQ. Qed.

Lemma wp_it_only_beam a act1 (act : string → Prop) h b {A} (m : OM A) w0 w :
  (ITAdmin a = false → w0 = w) → act act1 →
  wp (it_only_beam a act1 h b m) (gated a act w0) w.
Proof.
  intros Hw Hact. unfold it_only_beam. destruct (requireIT a) as [err|] eqn:E.
  - apply requireIT_Some in E. apply wp_refuse. by rewrite (Hw E).
  - apply requireIT_None in E. apply wp_bind, wp_attempted.
    intros [err|x] w1.
    + apply wp_refuse. by rewrite E.
    + by apply wp_record.
Qed.
Lemma wp_drop a act {A} (m : OM A) w : wp m (gated a act w) w → wp (m;; mret tt) (gated a act w) w.
Proof.
  intros Hm. apply wp_bind. eapply wp_mono; [exact Hm|]. intros [e|x] w' [Hno Hrec]; [by split|].
  apply wp_ret. split; [|done]. intros Ha. by destruct (Hno Ha).
Qed.

Lemma run_admin_gated a op w : wp (run_admin a op) (gated a (admin_action op) w) w.
Proof.
  destruct op; simpl; try apply wp_drop; try by apply wp_it_only_beam.
  - unfold Admin_CreateBeamhall. destruct (requireIT a) as [err|] eqn:E; [by apply wp_refuse|].
    apply requireIT_None in E. apply wp_bind, wp_attempted. intros [err|x] w1;
      [apply wp_refuse; by rewrite E|by apply wp_record].
  - unfold AdminUpdateBeamhall. destruct (requireIT a) as [err|] eqn:E; [by apply wp_refuse|].
    apply requireIT_None in E. apply wp_bind, wp_attempted. intros found w1.
    apply wp_bind, wp_attempted. intros [err|x] w2;
      [apply wp_refuse; by rewrite E|by apply wp_record].
  - unfold RequestSetSecurityContext. destruct (requireIT a) as [err|] eqn:E; [by apply wp_refuse|].
    apply requireIT_None in E.
    destruct (requireSensitiveTier o); [by apply wp_refuse|].
    destruct rc; [..|by apply wp_refuse].
    all: apply wp_bind, wp_attempted; intros [e|bh] w1;
      [apply wp_refuse; by rewrite E|apply wp_it_only_beam; [by rewrite E|done]].
  - unfold ApproveAdminAction. destruct (requireIT a) as [err|] eqn:E; [by apply wp_refuse|].
    apply requireIT_None in E. apply wp_bind, wp_attempted. intros [e|req] w1;
      [apply wp_refuse; by rewrite E|].
    apply wp_bind. eapply wp_mono; [apply (wp_it_only_beam a _ (admin_action (AApprove id)));
      [by rewrite E|by exists req]|].
    intros [err|x] w2 [Hno Hrec]; [by apply gated_error; rewrite E|]. apply wp_ret.
    split; [by rewrite E|]. exact Hrec.
Qed.
End run.
