(* ===== verification/OrchGovern.v ===== *)
(** What IT decides and users cannot: the hardening of workloads and the egress a beamhall
    may be given, as invariants of every history of user and administrator operations; and
    the tables only administrators change. *)
From S2P Require Import Prelude Regexp GoStrings Domain Gateway GatewayProofs Store StoreOps.
From S2P Require Import Fixtures StoreInv AuditLog AuditProofs Policy PolicyProofs Vault.
From S2P Require Import VaultProofs Outside Egress EgressProofs Orch AppTools Facility OrchAdmin.
From S2P Require Import OrchSensitive OrchTools OrchProvision OrchBeam OrchLife OrchFixtures.
From S2P Require Import OrchScope OrchFrames OrchRun OrchAdminRun.

Inductive AnyOp :=
  | ByUser (op : OrchOp)
  | ByAdmin (a : Actor) (op : AdminOp).

Section history.
Context `{!Env, !Age, !Rand} {X C : Type} `{!Caddy C}.
Context `{!RuntimeDriver X, !Platform X, !Directory X, !Appliance X}.
Context `{!DatabaseProvisioner X, !IdentityProvider X, !Brokers X}.
Context (o : Orchestrator) (polls : nat).
Context (path_join : string → string → string) (goos_goarch : string).
Notation World := (World X C).
Implicit Types (w : World).

Definition run_any (op : AnyOp) : OM (X := X) (C := C) () :=
  match op with
  | ByUser op => run_orch o polls op
  | ByAdmin a op => run_admin o path_join goos_goarch a op
  end.
Definition run_anys (ops : list AnyOp) : OM () := for_each ops (λ op, logged (run_any op)).

(** * What administrator operations respect *)

(** The writes a relation may treat specially: those whose row the caller computed. *)
Definition computed_op (op : Op) : bool :=
  match op with
  | OpCreateBeamhall _ _ | OpUpdateBeamhall _ | OpUpdateSecurityContext _ | OpPutBranding _ _
  | OpPutBeamPeers _ => true
  | _ => false
  end.

Section framed.
Context (RD : relation DB) `{!PreOrder RD}.
Notation R := (on_world (X := X) (C := C) RD anything).
Context (Hop : ∀ op, computed_op op = false → frames (db_rel RD) (run_op op)).
Context (Hlog : ∀ ev, frames (db_rel RD) (Append ev)).
Context (Hprune : ∀ n by_, frames (db_rel RD) (PruneAuditThrough n by_)).
Context (Hcreate : ∀ spec, frames R (createBeamhall spec)).
Context (Hegress : ∀ h m l, frames R (set_egress o h m l)).
Context (Hedit : ∀ a slug upd, frames R (AdminUpdateBeamhall a slug upd)).
Context (Hsc : ∀ slug rc, frames R (set_security_context slug rc)).
Context (Hbrand : ∀ h spec, frames R (setBranding h spec)).
Context (Hpeers : ∀ a h b spec, frames R (setBeamPeers o a h b spec)).

#[local] Hint Extern 1 (frames _ (CreateIdentity _)) => exact (Hop (OpCreateIdentity _) eq_refl) : frame.
#[local] Hint Extern 1 (frames _ (UpdateIdentity _)) => exact (Hop (OpUpdateIdentity _) eq_refl) : frame.
#[local] Hint Extern 1 (frames _ (DeleteIdentity _)) => exact (Hop (OpDeleteIdentity _) eq_refl) : frame.
#[local] Hint Extern 1 (frames _ (CreateMembership _)) => exact (Hop (OpCreateMembership _) eq_refl) : frame.
#[local] Hint Extern 1 (frames _ (DeleteMembership _)) => exact (Hop (OpDeleteMembership _) eq_refl) : frame.
#[local] Hint Extern 1 (frames _ (UpdateMembershipRole _ _ _ _)) =>
  exact (Hop (OpUpdateMembershipRole _ _ _ _) eq_refl) : frame.
#[local] Hint Extern 1 (frames _ (CreateAdminActionRequest _)) =>
  exact (Hop (OpCreateAdminActionRequest _) eq_refl) : frame.
#[local] Hint Extern 1 (frames _ (DecideAdminActionRequest _ _ _ _ _)) =>
  exact (Hop (OpDecideAdminActionRequest _ _ _ _ _) eq_refl) : frame.
#[local] Hint Extern 1 (frames _ (PutBeamAudience _)) => exact (Hop (OpPutBeamAudience _) eq_refl) : frame.
#[local] Hint Extern 1 (frames _ (DeleteBeamAudience _)) =>
  exact (Hop (OpDeleteBeamAudience _) eq_refl) : frame.
#[local] Hint Extern 1 (frames _ (UpdateBeam _)) => exact (Hop (OpUpdateBeam _) eq_refl) : frame.
#[local] Hint Extern 1 (frames _ (UpdateResource _)) => exact (Hop (OpUpdateResource _) eq_refl) : frame.
#[local] Hint Resolve frames_in_store frames_outside frames_step_no frames_operableBeam
  Hbrand Hpeers Hlog Hprune Hcreate Hegress Hedit Hsc : frame.

Lemma frames_it_audit_beam a act h b e : frames R (itAuditBeam a act h b e).
Proof. unfold itAuditBeam. solve_world. Qed.
#[local] Hint Resolve frames_it_audit_beam : frame.
Lemma frames_it_only_beam a act h b {A} (m : OM A) :
  frames R m → frames R (it_only_beam a act h b m).
Proof. intros Hm. unfold it_only_beam, itAudit. solve_world. Qed.
Lemma frames_idp {A} (f : ext X A) : frames R (idp o f).
Proof. unfold idp. solve_world. Qed.
Lemma frames_describeBackup name : frames R (describeBackup o path_join name).
Proof. unfold describeBackup. solve_world. Qed.
Lemma frames_Seal s : frames (db_rel RD) (Seal s).
Proof. unfold Seal, encrypt. solve_world. Qed.
Lemma frames_Open s : frames (db_rel RD) (Open s).
Proof. unfold Open, decrypt. solve_world. Qed.
#[local] Hint Resolve frames_idp frames_describeBackup frames_Seal frames_Open : frame.
Lemma frames_requestSensitive a s p : frames R (requestSensitive a s p).
Proof. unfold requestSensitive. solve_world. Qed.
#[local] Hint Resolve frames_requestSensitive : frame.
Lemma frames_executeAdminAction by_ typ raw : frames R (executeAdminAction o path_join by_ typ raw).
Proof.
  assert (∀ p, frames R (execute_payload o path_join by_ p)) as Hp.
  { intros p. unfold execute_payload, executeRestoreBackup, executeSelfUpgrade. solve_world. }
  unfold executeAdminAction. destruct (decode_payload typ raw); destruct typ; solve_world.
Qed.
#[local] Hint Resolve frames_executeAdminAction : frame.

Lemma frames_reveal ref : frames (db_rel RD) (Reveal ref).
Proof. unfold Reveal, get_secret, GetSecret, vault_value, GetSecretValue, decrypt. solve_world. Qed.
#[local] Hint Resolve frames_reveal : frame.
Lemma frames_setObjectStoreProvider cfg : frames R (setObjectStoreProvider o cfg).
Proof.
  assert (∀ r, frames R (push_objStore r)) by (unfold push_objStore; solve_world).
  unfold setObjectStoreProvider, ReconcileObjectStore, each_resource, ListBeamhalls,
    ListResourcesByBeamhall, list_resources. solve_world.
Qed.
#[local] Hint Resolve frames_setObjectStoreProvider : frame.

Lemma frames_run_admin a op : frames R (run_admin o path_join goos_goarch a op).
Proof.
  destruct op; simpl; try (apply frames_bind; [tc_solve| |solve_world]);
    try (apply frames_it_only_beam); auto with frame nocore.
  all: unfold Admin_CreateBeamhall, register_identity, GetIdentityByIssuerSubject,
    RequestSetSecurityContext, ApproveAdminAction, decide_action, it_only, setAppAudience, itAudit,
    GetIdentity, GetBeamhall, GetMembership, ListMembershipsByIdentity, GetBeamhallBySlug,
    GetAdminActionRequest, setAuthGroups, setEmailSenders, setEmailProvider,
    setObjectStoreQuota, EmailEnabled, store_emailEnabled, ObjectStoreEnabled,
    ListResourcesByBeam, list_resources; solve_world.
  all: apply frames_it_only_beam; solve_world.
Qed.
End framed.

(** * The invariant *)

(** The floor every security context stands on. *)
Record hardened (sc : SecurityContext) : Prop := MkHardened {
  hd_userns : SC_UsernsRemap sc = true;
  hd_drop : SC_CapDrop sc = ["ALL"];
  hd_add : SC_CapAdd sc ⊆ ["NET_BIND_SERVICE"; "CHOWN"; "DAC_OVERRIDE"];
  hd_seccomp : SC_SeccompProfile sc = "default";
  hd_privs : SC_NoNewPrivileges sc = true;
  hd_rootfs : SC_ReadOnlyRootfs sc = true;
  hd_tmpfs : SC_Tmpfs sc = ["/tmp"];
  hd_limits : MemBytes (SC_CgroupLimits sc) ≠ 0%Z ∧ CPUQuota (SC_CgroupLimits sc) ≠ 0%Z
              ∧ PidsMax (SC_CgroupLimits sc) = 256%Z }.
Definition allowlist_ok (bh : Beamhall) : Prop :=
  Forall (λ e, ValidateAllowEntry e = None) (NP_EgressAllowlist (Beamhall_NetworkPolicy bh)).
(** Text that can close neither a declaration nor the block it stands in. *)
Definition css_char (c : ascii) : bool := color_arg c || one_of "#()" c.
Definition palette_ok (b : Branding) : Prop :=
  Forall (λ nv, all_bytes css_char nv.2 = true) (palette b).
Definition grant_ok (g : BeamPeers) : Prop := Forall destination (Peers_External (BP_Peers g)).
Record governed (d : DB) : Prop := MkGoverned {
  gov_contexts : map_Forall (λ _, hardened) (db_security_contexts d);
  gov_allowlists : map_Forall (λ _, allowlist_ok) (db_beamhalls d);
  gov_palettes : map_Forall (λ _, palette_ok) (db_branding d);
  gov_grants : map_Forall (λ _, grant_ok) (db_beam_peers d) }.

Lemma governed_same d d' :
  db_security_contexts d' = db_security_contexts d → db_beamhalls d' = db_beamhalls d →
  db_branding d' = db_branding d → db_beam_peers d' = db_beam_peers d →
  governed d → governed d'.
Proof. intros E1 E2 E3 E4 []. split; by rewrite ?E1, ?E2, ?E3, ?E4. Qed.
Lemma governed_fewer d d' :
  db_security_contexts d' = db_security_contexts d → db_beamhalls d' = db_beamhalls d →
  db_branding d' ⊆ db_branding d → db_beam_peers d' ⊆ db_beam_peers d →
  governed d → governed d'.
Proof.
  intros E1 E2 E3 E4 [Hc Ha Hp Hg]. split; rewrite ?E1, ?E2; [done|done|..]; intros i x Hx.
  - eapply Hp, lookup_weaken; [exact Hx|done].
  - eapply Hg, lookup_weaken; [exact Hx|done].
Qed.

Lemma color_ok_css v : color_ok v = true → all_bytes css_char v = true.
Proof.
  intros [->%bool_decide_eq_true|Hm]%orb_true_iff; [done|].
  unfold colorRe in Hm. apply MatchString_anchored in Hm as [p' Hm].
  apply matches_cat in Hm as (p2 & Hm & [-> Hend]%matches_end).
  apply (matches_over css_char) in Hm as (t & Ht & Ha).
  - simpl in Ht. by rewrite Hend, string_app_nil_r in Ht; subst.
  - assert (∀ c, hex_class c = true → css_char c = true) as Hhex.
    { intros [[] [] [] [] [] [] [] []]; vm_compute; done. }
    assert (∀ c, is_letter c = true → css_char c = true) as Hlet.
    { intros [[] [] [] [] [] [] [] []]; vm_compute; done. }
    assert (∀ c, color_arg c = true → css_char c = true) as Harg.
    { intros c Hc. unfold css_char. by rewrite Hc. }
    repeat first [apply re_over_Lit; reflexivity|apply re_over_Between; assumption|split].
Qed.
Lemma validateBranding_ok b : validateBranding b = None → palette_ok b.
Proof.
  unfold validateBranding. case_decide; [done|].
  destruct (filter _ (palette b)) as [|[n v] l] eqn:E; [|done]. intros _. apply Forall_forall.
  intros nv Hin. destruct (color_ok nv.2) eqn:Hc; [by apply color_ok_css|].
  assert (nv ∈ filter (λ nv, color_ok nv.2 = false) (palette b)) as Hf.
  { by apply list_elem_of_filter. }
  rewrite E in Hf. by apply not_elem_of_nil in Hf.
Qed.
Lemma check_external_ok l l' : check_external l = inr l' → Forall destination l'.
Proof.
  revert l'. induction l as [|e l IH]; intros l' E; simpl in E; [by injection E as <-|].
  destruct (ValidateAllowEntry e) eqn:Hv; [done|].
  destruct (check_external l) as [|l1]; [done|]. injection E as <-.
  constructor; [by apply validated_entry|by apply IH].
Qed.

Lemma securityContextFor_hardened tmpl rc q : hardened (securityContextFor tmpl rc q).
Proof.
  split; simpl; try done.
  - destruct tmpl; set_solver.
  - repeat case_decide; done.
Qed.
Lemma hardened_ids sc i h rc :
  hardened sc → hardened (sc <| SC_ID := i |> <| SC_BeamhallID := h |> <| SC_RuntimeClass := rc |>).
Proof. by intros []. Qed.
Lemma validateAllowlist_spec l :
  validateAllowlist l = None ↔ Forall (λ e, ValidateAllowEntry e = None) l.
Proof.
  induction l as [|e l IH]; simpl; [by split|]. rewrite Forall_cons, <-IH.
  destruct (ValidateAllowEntry e); naive_solver.
Qed.

(** The other statements are on other tables. *)
Ltac ungoverned_statement :=
  let Hq := fresh "Hq" in let Hg := fresh "Hg" in
  intros ? ? ? Hq Hg;
  first [refine (governed_same _ _ _ _ _ _ Hg); solve [other_table]
        |injection Hq as _ <-; refine (governed_fewer _ _ _ _ _ _ Hg); first [done|apply delete_subseteq]].
Lemma run_op_governed op : computed_op op = false → frames (db_rel (keeping governed)) (run_op op).
Proof.
  destruct op; try done; intros _; simpl; autounfold with store_ops; solve_frame.
  all: ungoverned_statement.
Qed.
Lemma Append_governed ev : frames (db_rel (keeping governed)) (Append ev).
Proof.
  unfold Append, AuditChainAppend, fillAuditEvent, prev_hash. solve_frame.
  all: intros ? ? ? Hq Hg; unfold q_append_audit in Hq; case_match; [done|];
    injection Hq as _ <-; by refine (governed_same _ _ _ _ _ _ Hg).
Qed.
Lemma Prune_governed n by_ : frames (db_rel (keeping governed)) (PruneAuditThrough n by_).
Proof. unfold PruneAuditThrough. solve_frame. all: ungoverned_statement. Qed.

(** ** The writes whose row was computed *)

Lemma wp_CreateBeamhall bh sc (Q : error + (Beamhall * SecurityContext) → Store → Prop) s :
  (∀ e s', st_db s' = st_db s → Q (inl e) s') →
  (∀ r s' wid scid bh', Beamhall_NetworkPolicy bh' = Beamhall_NetworkPolicy bh →
     st_db s' = st_db s <| db_beamhalls := <[wid := bh']> (db_beamhalls (st_db s)) |>
       <| db_security_contexts := <[scid := sc <| SC_ID := scid |> <| SC_BeamhallID := wid |>]>
            (db_security_contexts (st_db s)) |> → Q (inr r) s') →
  wp (CreateBeamhall bh sc) Q s.
Proof.
  intros He Hok. unfold CreateBeamhall.
  apply wp_bind, wp_fill_id. intros wid s1 E1. apply wp_bind, wp_fill_id. intros scid s2 E2.
  apply wp_bind, wp_fill_time. intros t s3 E3. apply wp_bind, wp_withTx.
  { intros e s4 E4. apply He. congruence. }
  intros s4 E4. apply wp_bind, wp_exec; [done|]. intros [] s5 H5. apply wp_exec; [done|].
  intros [] s6 H6 s7 E7. apply wp_ret.
  apply q_insert_inv in H5 as (_ & _ & _ & H5). apply q_insert_inv in H6 as (_ & _ & _ & H6).
  assert (st_db s4 = st_db s) as E by congruence.
  eapply (Hok _ _ wid scid); [|rewrite E7, H6, H5, E; reflexivity]. done.
Qed.

Lemma wp_UpdateBeamhall bh (Q : error + Beamhall → Store → Prop) s :
  (∀ e s', st_db s' = st_db s → Q (inl e) s') →
  (∀ r s' bh', Beamhall_NetworkPolicy bh' = Beamhall_NetworkPolicy bh →
     st_db s' = st_db s <| db_beamhalls := <[Beamhall_ID bh := bh']> (db_beamhalls (st_db s)) |> →
     Q (inr r) s') →
  wp (UpdateBeamhall bh) Q s.
Proof.
  intros He Hok. unfold UpdateBeamhall. apply wp_bind, wp_now. intros t s1 E1.
  apply wp_bind, wp_affected, wp_exec; [intros e s2 E2; apply He; congruence|].
  intros n s2 Hq. rewrite E1 in Hq.
  apply q_update_inv in Hq as [(_ & E2 & ->)|(x & _ & E2 & ->)]; simpl; [by apply He|].
  apply wp_ret. eapply Hok; [|exact E2]. done.
Qed.

Lemma governed_put_beamhall d id bh :
  allowlist_ok bh → governed d → governed (d <| db_beamhalls := <[id := bh]> (db_beamhalls d) |>).
Proof. intros Hbh []. split; simpl; try done. by apply map_Forall_insert_2. Qed.

Notation R := (on_world (X := X) (C := C) (keeping governed) anything).
Lemma frames_governed {A} (m : OM A) :
  (∀ w, governed (w_db w) → wp m (λ _ w', governed (w_db w')) w) → frames R m.
Proof. intros Hm w. split; [exact (Hm w)|done]. Qed.

Lemma createBeamhall_governed spec : frames R (createBeamhall spec).
Proof.
  apply frames_governed. intros w Hg. unfold createBeamhall. case_match; [by apply wp_throw|].
  apply wp_bind. unfold check. destruct (validateAllowlist _) eqn:Hv; [by apply wp_throw|].
  apply wp_ret, wp_bind, wp_lift, wp_CreateBeamhall; [intros e s' E; simpl; by rewrite E|].
  intros r s' wid scid bh' Hnp E. apply wp_ret. simpl. rewrite E.
  destruct Hg as [Hsc Hbh Hp Hgr]. split; simpl; try apply map_Forall_insert_2; try done.
  - exact (hardened_ids _ scid wid (default RuntimeRunc (NB_RuntimeClass spec))
      (securityContextFor_hardened (default TemplateWebApp (NB_Template spec))
         (default RuntimeRunc (NB_RuntimeClass spec)) (NB_Quota spec))).
  - unfold allowlist_ok. rewrite Hnp. by apply validateAllowlist_spec.
Qed.

Lemma set_egress_governed h m l : frames R (set_egress o h m l).
Proof.
  apply frames_governed. intros w Hg. unfold set_egress. apply wp_bind. unfold check.
  destruct (validateAllowlist l) eqn:Hv; [by apply wp_throw|]. apply wp_ret, wp_bind.
  apply wp_read; [intros e w' Hi; by rewrite (idle_db _ _ Hi)|].
  intros bh w1 Hi _. apply wp_bind, wp_lift, wp_UpdateBeamhall.
  { intros e s' E. simpl. by rewrite E, (idle_db _ _ Hi). }
  intros r s' bh' Hnp E.
  assert (governed (w_db (w1 <| w_store := s' |>))) as Hg'.
  { simpl. rewrite E, (idle_db _ _ Hi). apply governed_put_beamhall; [|done].
    unfold allowlist_ok. rewrite Hnp. by apply validateAllowlist_spec. }
  destruct (has_egressSync o); [|by apply wp_ret].
  unfold wp, outside. by destruct (egress_sync _) as [[e|[]] x].
Qed.

Lemma update_beamhall_policy upd bh bh' :
  update_beamhall upd bh = inr bh' → Beamhall_NetworkPolicy bh' = Beamhall_NetworkPolicy bh.
Proof.
  unfold update_beamhall. destruct upd as [mb ml md st dn dp]; simpl.
  destruct (negative mb), (negative md), (negative ml); try done.
  destruct st as [[s|st]|]; simpl; [done|..]; destruct ml, dn, dp; by intros [= <-].
Qed.
Lemma frames_itAudit_governed a act h e : frames R (itAudit a act h e).
Proof. apply frames_it_audit_beam; [tc_solve|apply Append_governed]. Qed.
Lemma wp_governed_audit a act h e {A} (m : OM A) w :
  governed (w_db w) → (∀ w', governed (w_db w') → wp m (λ _ w', governed (w_db w')) w') →
  wp (itAudit a act h e;; m) (λ _ w', governed (w_db w')) w.
Proof.
  intros Hg Hm. apply wp_bind. unfold wp at 1.
  destruct (frames_itAudit_governed a act h e w) as [Hw _]. specialize (Hw Hg).
  destruct (itAudit a act h e w) as [[err|[]] w']; [done|by apply Hm].
Qed.

Lemma AdminUpdateBeamhall_governed a slug upd : frames R (AdminUpdateBeamhall a slug upd).
Proof.
  apply frames_governed. intros w Hg. unfold AdminUpdateBeamhall.
  destruct (requireIT a); [by apply wp_governed_audit; [|intros; by apply wp_throw]|].
  apply wp_bind, wp_attempt, wp_read.
  { intros e w' Hi. apply wp_bind, wp_attempt, wp_throw, wp_governed_audit;
      [by rewrite (idle_db _ _ Hi)|intros; by apply wp_throw]. }
  intros bh w1 Hi Hbh. apply select_one_Some in Hbh as (_ & id & Hbh).
  assert (governed (w_db w1)) as Hg1 by (by rewrite (idle_db _ _ Hi)).
  apply wp_bind, wp_attempt. unfold edit_beamhall.
  destruct (update_beamhall upd bh) as [err|bh2] eqn:E.
  { apply wp_throw, wp_governed_audit; [done|]. intros; by apply wp_throw. }
  apply wp_lift, wp_UpdateBeamhall.
  { intros e s' Es. apply wp_governed_audit; [simpl; by rewrite Es|intros; by apply wp_throw]. }
  intros r s' bh' Hnp Es. apply wp_governed_audit; [|intros; by apply wp_ret].
  simpl. rewrite Es. apply governed_put_beamhall; [|done].
  unfold allowlist_ok. rewrite Hnp, (update_beamhall_policy _ _ _ E).
  by apply (gov_allowlists _ Hg id).
Qed.

Lemma set_security_context_governed slug rc : frames R (set_security_context slug rc).
Proof.
  apply frames_governed. intros w Hg. unfold set_security_context.
  apply wp_bind, wp_attempt, wp_read.
  { intros e w' Hi. apply wp_throw. by rewrite (idle_db _ _ Hi). }
  intros bh w1 Hi1 _. apply wp_bind, wp_read.
  { intros e w' Hi. by rewrite (idle_db _ _ Hi), (idle_db _ _ Hi1). }
  intros sc w2 Hi2 Hsc. apply select_one_Some in Hsc as (_ & id & Hsc).
  rewrite (idle_db _ _ Hi1) in Hsc. pose proof (gov_contexts _ Hg id sc Hsc) as Hh.
  apply wp_lift. unfold UpdateSecurityContext. apply wp_affected, wp_exec.
  { intros e s' E. simpl. by rewrite E, (idle_db _ _ Hi2), (idle_db _ _ Hi1). }
  intros n s' Hq. rewrite (idle_db _ _ Hi2), (idle_db _ _ Hi1) in Hq.
  assert (governed (st_db s')) as Hg'; [|by case_decide].
  apply q_update_inv in Hq as [(_ & -> & _)|(x & Hx & -> & _)]; [done|].
  destruct Hg as [Hc Ha Hp Hgr]. split; simpl; [|done..]. apply map_Forall_insert_2; [|done].
  destruct Hh. by split.
Qed.

Lemma governed_now : frames (db_rel (keeping governed)) now.
Proof. intros s. by unfold db_rel. Qed.
Lemma PutBranding_governed h b : palette_ok b → frames (db_rel (keeping governed)) (PutBranding h b).
Proof.
  intros Hb. unfold PutBranding. pose proof governed_now. solve_frame.
  intros d [] d' Hq []. injection Hq as <-. split; simpl; try done. by apply map_Forall_insert_2.
Qed.
Lemma PutBeamPeers_governed g : grant_ok g → frames (db_rel (keeping governed)) (PutBeamPeers g).
Proof.
  intros Hok. unfold PutBeamPeers. pose proof governed_now. solve_frame.
  intros d [] d' Hq []. simpl in Hq. case_match;
    [injection Hq as <-|apply q_insert_inv in Hq as (_ & _ & _ & ->)]; split; simpl; try done;
    by apply map_Forall_insert_2.
Qed.
Lemma setBranding_governed h spec : frames R (setBranding h spec).
Proof.
  assert (∀ op, computed_op op = false → frames R (in_store (run_op op))) as Hop.
  { intros op Ho. apply frames_in_store; [tc_solve|by apply run_op_governed]. }
  unfold setBranding. destruct (BS_Clear spec).
  { exact (Hop (OpClearBrandingScope h) eq_refl). }
  destruct (validateBranding _) eqn:Hv; [by intros w; split|].
  apply frames_bind; [tc_solve|by intros w; split|]. intros _.
  apply frames_bind; [tc_solve|solve_world|]. intros _.
  apply frames_bind; [tc_solve| |].
  { apply frames_in_store; [tc_solve|by apply PutBranding_governed, validateBranding_ok]. }
  intros _. repeat case_match; [..|solve_world].
  - exact (Hop (OpPutBrandingLogo h _) eq_refl).
  - exact (Hop (OpDeleteBrandingLogo h) eq_refl).
Qed.
#[local] Hint Extern 1 (frames _ (DeleteBeamPeers _)) =>
  exact (run_op_governed (OpDeleteBeamPeers _) eq_refl) : frame.
#[local] Hint Extern 1 (frames _ (InsertC2CKey _ _)) =>
  exact (run_op_governed (OpInsertC2CKey _ _) eq_refl) : frame.
#[local] Hint Extern 1 (frames _ (PutSecret _)) => exact (run_op_governed (OpPutSecret _) eq_refl) : frame.
#[local] Hint Extern 1 (frames _ (PutSecretValue _ _)) =>
  exact (run_op_governed (OpPutSecretValue _ _) eq_refl) : frame.
#[local] Hint Extern 1 (frames _ (DeleteSecretValue _)) =>
  exact (run_op_governed (OpDeleteSecretValue _) eq_refl) : frame.
Lemma frames_of_sum_bind {A B} (r : error + A) (k : A → OM (X := X) (C := C) B) :
  (∀ a, r = inr a → frames R (k a)) → frames R (of_sum r ≫= k).
Proof. intros Hk. destruct r as [e|a]; [by intros w; split|]. intros w. by apply (Hk a). Qed.
Lemma setBeamPeers_governed a h b spec : frames R (setBeamPeers o a h b spec).
Proof.
  assert (∀ self seen refs, frames R (resolve_peers self seen refs)) as Hres.
  { intros self seen refs. revert seen. induction refs as [|r refs IH]; intros seen; simpl;
      unfold GetBeamhallBySlug, GetBeamBySlug; solve_world. }
  assert (∀ h b by_, frames R (ensureC2CKey o h b by_)) as Hkey.
  { intros. unfold ensureC2CKey, rand_bytes, HasC2CKey. solve_world. }
  unfold setBeamPeers, syncEgress. apply frames_bind; [tc_solve|solve_world|]. intros beam.
  destruct (PS_Clear spec); [solve_world|]. case_decide; [solve_world|].
  apply frames_bind; [tc_solve|solve_world|]. intros targets.
  apply frames_of_sum_bind. intros ext E. apply check_external_ok in E.
  apply frames_bind; [tc_solve| |solve_world].
  apply frames_in_store; [tc_solve|by apply PutBeamPeers_governed].
Qed.

Lemma run_admin_governed a op : frames R (run_admin o path_join goos_goarch a op).
Proof.
  apply frames_run_admin.
  - tc_solve.
  - apply run_op_governed.
  - apply Append_governed.
  - apply Prune_governed.
  - apply createBeamhall_governed.
  - apply set_egress_governed.
  - apply AdminUpdateBeamhall_governed.
  - apply set_security_context_governed.
  - apply setBranding_governed.
  - apply setBeamPeers_governed.
Qed.

(** ** What users' operations leave alone *)

Definition it_tables (d : DB) :=
  (db_identities d, db_memberships d, db_beamhalls d, db_security_contexts d,
   db_admin_actions d, db_audiences d, db_branding d, db_branding_logos d, db_control_keys d).
Lemma run_op_it_tables op : it_op op = false → frames (db_rel (same it_tables)) (run_op op).
Proof.
  destruct op; try done; intros _; simpl; autounfold with store_ops; solve_frame.
  all: intros ? ? ? Hq; unfold same, it_tables; other_table.
Qed.
Lemma Append_it_tables ev : frames (db_rel (same it_tables)) (Append ev).
Proof.
  unfold Append, AuditChainAppend, fillAuditEvent, prev_hash. solve_frame.
  all: intros ? ? ? Hq; unfold q_append_audit in Hq; case_match; [done|]; by injection Hq as _ <-.
Qed.
Lemma frames_run_orch_it op : frames (on_world (same it_tables) anything) (run_orch (C := C) o polls op).
Proof.
  apply frames_run_orch; try tc_solve; intros;
    first [apply frames_anything|by apply run_op_it_tables|apply Append_it_tables].
Qed.
Lemma it_computed op : it_op op = false → computed_op op = false.
Proof. by destruct op. Qed.
Lemma run_any_governed op : frames R (run_any op).
Proof.
  destruct op as [op|a op]; [|apply run_admin_governed].
  apply frames_run_orch; try tc_solve; intros; first [apply frames_anything
    |by apply run_op_governed, it_computed|apply Append_governed].
Qed.
End history.

(** C9: hardening and egress are IT's, whatever is done and whatever fails.  In every
    history of users' and administrators' operations, approvals of sensitive changes
    included, every security context keeps the floor (user namespace remapped, all
    capabilities dropped and at most three named ones added back, default seccomp, no new
    privileges, read-only root, bounded memory, CPU and processes); every entry of a
    beamhall's stored allowlist is one the egress check accepts and every external target a
    beam is granted is an address, a block or a host name; and every stored palette is of
    colours that cannot close a declaration or a block of a style sheet. *)
Theorem hardening_floor `{!Env, !Age, !Rand} {X C : Type} `{!Caddy C}
    `{!RuntimeDriver X, !Platform X, !Directory X, !Appliance X}
    `{!DatabaseProvisioner X, !IdentityProvider X, !Brokers X}
    (o : Orchestrator) (polls : nat) (path_join : string → string → string)
    (goos_goarch : string) (ops : list AnyOp) (w : World X C) (Hg : governed (w_db w)) :
  governed (w_db (snd (run_anys o polls path_join goos_goarch ops w))).
Proof.
  assert (frames (on_world (keeping governed) anything)
    (run_anys (C := C) o polls path_join goos_goarch ops)) as Hf.
  { apply frames_for_each; [tc_solve|]. intros op. apply frames_logged, run_any_governed. }
  by apply (Hf w).
Qed.

(** Users do not administer.  No sequence of users' operations, whatever fails, changes
    an identity, a membership, a beamhall, a security context, a sensitive request, an
    app's audience, the branding or a control key. *)
Theorem users_do_not_administer `{!Env, !Age, !Rand} {X C : Type} `{!Caddy C}
    `{!RuntimeDriver X, !Platform X, !DatabaseProvisioner X, !IdentityProvider X, !Brokers X}
    (o : Orchestrator) (polls : nat) (ops : list OrchOp) (w : World X C) :
  it_tables (w_db (snd (run_orchs o polls ops w))) = it_tables (w_db w).
Proof.
  assert (frames (on_world (same it_tables) anything) (run_orchs (C := C) o polls ops)) as Hf.
  { apply frames_for_each; [tc_solve|]. intros op. apply frames_logged, frames_run_orch_it. }
  apply (Hf w).
Qed.

(** C8: administration is for administrators and on the record.  An operation called by
    anyone else fails and changes nothing but the audit log, not even outside; and one
    that reports success has left, as the log's last event, that this administrator did
    it. *)
Theorem admin_gated_and_recorded `{!Env, !Age, !Rand} {X C : Type} `{!Caddy C}
    `{!RuntimeDriver X, !Platform X, !Directory X, !Appliance X}
    `{!IdentityProvider X, !Brokers X}
    (o : Orchestrator) (path_join : string → string → string) (goos_goarch : string)
    (a : Actor) (op : AdminOp) (w : World X C) :
  wp (run_admin o path_join goos_goarch a op) (λ r w',
    (ITAdmin a = false → is_inl r = true ∧ untouched w w')
    ∧ (is_inl r = false → ∃ d act h b seq,
         admin_action op act ∧ appended d (w_db w') (it_event a act h b None) seq)) w.
Proof. apply run_admin_gated. Qed.

(** The fixtures' beamhall and one created by IT. *)
Definition Spec1 : NewBeamhallSpec :=
  MkNewBeamhallSpec "ops" "Operations" "IT" (Some RuntimeRunsc) (Some TemplateDatabaseInit)
    (MkResourceQuota 3 1 1 0 0 0) 1 (Some EgressAllowSet) ["10.0.0.0/8"; "api.example.com"].
Definition Ops1 : list AnyOp :=
  [ByAdmin Root (ACreateBeamhall Spec1); ByUser (ODeployBeam Alice "H1" "B1" "img" "sha256:1");
   ByAdmin Root (ASetEgress "H1" EgressAllowSet ["x y"]); ByAdmin Alice (ACreateBeamhall Spec1)].
Lemma hardening_floor_witness :
  governed DB1
  ∧ size (db_security_contexts (w_db (snd (run_anys Orch1 3 slash_join "linux_amd64" Ops1 World1)))) = 2
  ∧ governed (w_db (snd (run_anys Orch1 3 slash_join "linux_amd64" Ops1 World1))).
Proof.
  assert (governed DB1) as Hg.
  { split.
    - intros id sc Hsc. simpl in Hsc. in_literal Hsc. split; try reflexivity; try set_solver.
      all: vm_compute; naive_solver.
    - intros id bh Hbh. simpl in Hbh. in_literal Hbh. apply Forall_nil_2.
    - apply map_Forall_empty.
    - apply map_Forall_empty. }
  split; [exact Hg|]. split; [vm_compute; reflexivity|].
  apply (hardening_floor Orch1 3 slash_join "linux_amd64" Ops1 World1 Hg).
Defined.
