(* ===== verification/OrchProduction.v ===== *)
(** The live channel: rollback and promotion either switch production to a workload
    that is up, or leave it as it was. *)
From S2P Require Import Prelude GoStrings Domain Gateway Store StoreOps StoreInv AuditLog.
From S2P Require Import Policy Vault Scrub Outside Orch Facility OrchBeam OrchLife OrchFrames.
From S2P Require Import OrchScope OrchWorkload Fixtures GatewayProofs VaultProofs OrchFixtures.

(** An error of the store, of the state machine or of a call outside: not one the
    orchestrator wrapped. *)
Definition unwrapped (e : error) : Prop :=
  match e with ErrWrap _ _ | ErrAround _ _ _ => False | _ => True end.

Section steps.
Context `{!Env}.

(** The steps of a store operation, with what they may answer. *)
Lemma wp_exec' {A} (q : query A) (Q : error + A → Store → Prop) s :
  (∀ e s', st_db s' = st_db s → unwrapped e → Q (inl e) s') →
  (∀ a s', q (st_db s) = inr (a, st_db s') → Q (inr a) s') →
  wp (exec q) Q s.
Proof.
  intros He Ha. unfold wp, exec. destruct (fault _); simpl; [by apply He|].
  destruct (q (st_db s)) as [[]|[a d]] eqn:E; simpl; [by apply He..|by apply Ha].
Qed.

(** UPDATE of one row by its key. *)
Lemma wp_update {A} (table : DB → gmap ID A) `{!Setter table} id f (Q : error + () → Store → Prop) s :
  (∀ e s', st_db s' = st_db s → unwrapped e → Q (inl e) s') →
  (∀ x s', table (st_db s) !! id = Some x →
     st_db s' = st_db s <| table := <[id := f x]> (table (st_db s)) |> → Q (inr tt) s') →
  wp (affected (exec (q_update table id f))) Q s.
Proof.
  intros He Ha. apply wp_affected, wp_exec'; [done|]. intros n s' Hq.
  apply q_update_inv in Hq as [(_ & Hdb & ->)|(x & Hx & Hdb & ->)]; simpl; [by apply He|by eapply Ha].
Qed.

Lemma wp_UpdateBeam a (Q : error + Beam → Store → Prop) s :
  (∀ e s', st_db s' = st_db s → unwrapped e → Q (inl e) s') →
  (∀ x at_ a' s', db_beams (st_db s) !! Beam_ID a = Some x →
     a' = (let b := a <| Beam_UpdatedAt := at_ |> in
           if decide (Beam_Status b = BeamStatusUnset) then b <| Beam_Status := BeamActive |> else b) →
     st_db s' = st_db s <| db_beams := <[Beam_ID a := updated_beam a' x]> (db_beams (st_db s)) |> →
     Q (inr a') s') →
  wp (UpdateBeam a) Q s.
Proof.
  intros He Ha. unfold UpdateBeam. apply wp_bind, wp_now. intros t s1 E1.
  set (a' := if decide _ then _ else _).
  assert (Beam_ID a' = Beam_ID a) as Hid by (unfold a'; by destruct (decide _)).
  apply wp_bind, wp_affected, wp_exec'.
  { intros e s' E. apply He. congruence. }
  intros n s2 Hq. rewrite E1 in Hq.
  destruct (db_beams (st_db s) !! Beam_ID a') as [x|] eqn:Hx.
  2: { injection Hq as <- Hs. simpl. apply He; [congruence|done]. }
  destruct (exists_row _ _); [done|].
  apply q_update_inv in Hq as [(Hn & _ & ->)|(y & Hy & Hdb & ->)]; simpl.
  { rewrite Hx in Hn. done. }
  rewrite Hid in Hx, Hy, Hdb. apply wp_ret. eapply Ha; [exact Hx|reflexivity|].
  rewrite Hdb. by replace y with x by congruence.
Qed.
End steps.

(** * Switching production *)

Section production.
Context `{!Env, !Age, !Rand} {X C : Type} `{!Caddy C}.
Context `{!RuntimeDriver X, !Platform X, !DatabaseProvisioner X, !IdentityProvider X, !Brokers X}.
Context (o : Orchestrator) (polls : nat).
Notation World := (World X C).
Implicit Types (w : World).

(** The live host is served by a backend: one active route row of the release, and the
    gateway's entry. *)
Definition serving (host : string) (rel : ID) (addr : string) w : Prop :=
  (∃ id rt, db_routes (w_db w) !! id = Some rt ∧ serves host rt
     ∧ Route_ReleaseID rt = rel ∧ Route_BackendAddr rt = addr
     ∧ ∀ id' rt', db_routes (w_db w) !! id' = Some rt' → serves host rt' → id' = id)
  ∧ gw_routes (gw (w_gw w)) !! host = Some (MkGwRoute host addr RouteLive).
(** Production as it was: the gateway, the routes, the beams and every release but
    [id]. *)
Definition but_release (id : ID) : relation DB := λ d d',
  but_releases d' = but_releases d
  ∧ ∀ i, i ≠ id → db_releases d' !! i = db_releases d !! i.
#[export] Instance but_release_PreOrder id : PreOrder (but_release id).
Proof.
  split; [by split|]. intros d1 d2 d3 [E1 Hd1] [E2 Hd2]. split; [congruence|].
  intros i Hi. by rewrite Hd2, Hd1.
Qed.
Definition kept (id : ID) : relation World := on_world (but_release id) (flip eq).

Lemma but_release_update id f : q_frames (but_release id) (q_update db_releases id f).
Proof.
  intros d n d' [(_ & -> & _)|(x & _ & -> & _)]%q_update_inv; [reflexivity|].
  split; [reflexivity|]. intros i Hi. simpl. by rewrite lookup_insert_ne.
Qed.
Lemma spawn_kept h b r bh sc refs pull :
  frames (kept r) (spawnWorkload o polls h b r bh sc refs pull).
Proof.
  apply frames_spawnWorkload; [tc_solve..| |].
  - intros hd. unfold SetReleaseWorkload. solve_frame. apply but_release_update.
  - intros on. unfold SetReleaseAgentTools, GetRelease. solve_frame. apply but_release_update.
Qed.

(** The two errors finalizeLiveRelease wraps; any other is the store's. *)
Definition finalize_error (e : error) : Prop :=
  unwrapped e ∨ ∃ e', e = ErrWrap "finalize live release: gateway upsert: " e'
                     ∨ e = ErrWrap "finalize live release: swap route: " e'.

Lemma wp_Gw_Upsert r g (Q : error + () → GWorld C → Prop) :
  (∀ e g', Q (inl e) g') →
  (∀ c, Q (inr tt) (MkGWorld (gw g <| gw_routes := <[Gw_Hostname r := r]> (gw_routes (gw g)) |>) c)) →
  wp (Gw_Upsert r) Q g.
Proof.
  intros He Ho. unfold Gw_Upsert. apply wp_bind, wp_gets. case_decide; [by apply wp_throw|].
  apply wp_bind, wp_modify, wp_bind, wp_gets. unfold wp, gw_load.
  destruct (caddy_load _ _) as [[e|] c]; [apply He|apply Ho].
Qed.

(** Routes, beams and the gateway, which the tail of a switch leaves alone. *)
Definition facade (d : DB) := (db_routes d, db_beams d).
Definition facade_kept : relation World := on_world (same facade) (flip eq).
#[export] Instance facade_kept_PreOrder : PreOrder facade_kept.
Proof. unfold facade_kept. tc_solve. Qed.
Lemma facade_update f i : q_frames (same facade) (q_update db_releases i f).
Proof. intros d n d' [(_ & -> & _)|(x & _ & -> & _)]%q_update_inv; reflexivity. Qed.
Lemma facade_UpdateReleaseStatus i st : frames (db_rel (same facade)) (UpdateReleaseStatus i st).
Proof. unfold UpdateReleaseStatus. solve_frame. apply facade_update. Qed.
Lemma facade_SetReleaseRoute i r : frames (db_rel (same facade)) (SetReleaseRoute i r).
Proof. unfold SetReleaseRoute. solve_frame. apply facade_update. Qed.
Lemma facade_ActivateRelease i : frames (db_rel (same facade)) (ActivateRelease i).
Proof. unfold ActivateRelease. solve_frame. apply facade_update. Qed.
#[local] Hint Resolve facade_UpdateReleaseStatus facade_SetReleaseRoute facade_ActivateRelease : frame.
Lemma facade_retireLiveWorkload i : frames facade_kept (retireLiveWorkload i).
Proof. unfold facade_kept, retireLiveWorkload, stop_and_destroy, GetRelease. solve_world. Qed.

Lemma active_route_of_total i : total (active_route_of (X := X) (C := C) i).
Proof.
  unfold active_route_of. case_decide; [apply total_ret|]. apply total_attempt. intros [e|rel];
    [apply total_ret|]. case_decide; [apply total_ret|]. apply total_attempt. intros [e|rt];
    [apply total_ret|]. case_decide; apply total_ret.
Qed.
Lemma total_for_each {W E A} (l : list A) (f : A → M W E ()) :
  (∀ x, total (f x)) → total (for_each l f).
Proof.
  intros Hf. induction l as [|x l IH]; simpl; [apply total_ret|]. intros w.
  destruct (Hf x w) as [a Ha]. unfold mbind, M_bind. destruct (f x w) as [r w']. simpl in Ha.
  subst r. apply IH.
Qed.
Lemma syncAuthRedirects_total b ch host : total (syncAuthRedirects (X := X) (C := C) o b ch host).
Proof.
  unfold syncAuthRedirects. case_match; [|apply total_ret]. apply total_attempt.
  intros [e|l]; [apply total_ret|]. apply total_for_each. intros r. apply total_logged.
Qed.
(** A total step that respects a relation. *)
Lemma wp_total {A} (R : relation World) (m : M World error A) (Q : error + A → World → Prop) w :
  total m → frames R m → (∀ a w', R w w' → Q (inr a) w') → wp m Q w.
Proof. intros Ht Hf HQ. unfold wp. destruct (Ht w) as [a ->]. apply HQ, Hf. Qed.

Definition same_db_gw : relation World := on_world (flip eq) (flip eq).

Lemma serving_same host rel addr w w' :
  db_routes (w_db w') = db_routes (w_db w) → w_gw w' = w_gw w →
  serving host rel addr w → serving host rel addr w'.
Proof. unfold serving. by intros -> ->. Qed.
Lemma serving_facade host rel addr w w' :
  facade_kept w w' → serving host rel addr w → serving host rel addr w'.
Proof.
  intros [Hf Hg]. unfold same, facade, flip in Hf, Hg. injection Hf as Hr _.
  by apply serving_same.
Qed.

Lemma SwapActiveRoute_beams old r : frames (db_rel (same db_beams)) (SwapActiveRoute old r).
Proof.
  unfold SwapActiveRoute, InsertRoute, q_retire_route. solve_frame.
  all: intros ? ? ? Hq; first [apply q_insert_inv in Hq as (_ & _ & _ & ->)
                              |apply q_update_inv in Hq as [(_ & -> & _)|(? & _ & -> & _)]]; reflexivity.
Qed.

(** The gateway and the route row switch together. *)
Lemma wp_switch {A} beam host rel addr old (k : Route → M World error A)
    (Q : error + A → World → Prop) w :
  (∀ e w', db_beams (w_db w') = db_beams (w_db w) → finalize_error e → Q (inl e) w') →
  (∀ rt w', db_beams (w_db w') = db_beams (w_db w) → serving host rel addr w' → wp (k rt) Q w') →
  wp (wrapping "finalize live release: gateway upsert: "
        (in_gw (Gw_Upsert (MkGwRoute host addr RouteLive)));;
      newRoute ← wrapping "finalize live release: swap route: "
        (in_store (SwapActiveRoute old (MkRoute no_id (Beam_ID beam) rel RouteLive
           host EmptyString addr EmptyString RouteActive None None)));
      k newRoute) Q w.
Proof.
  intros He Hok. apply wp_bind, wp_map_error, wp_lift, wp_Gw_Upsert.
  { intros e g'. apply He; [done|]. right. eauto. }
  intros c. apply wp_bind, wp_map_error, wp_lift.
  set (w1 := w <| w_gw := _ |>).
  set (row := MkRoute _ _ _ _ _ _ _ _ _ _ _).
  eapply wp_mono.
  { apply (wp_frames (E := error) (db_rel (same db_beams)));
      [apply SwapActiveRoute_beams|by apply SwapActiveRoute_swaps]. }
  intros [e|rt] s' [Hb Hr]; [apply He; [exact Hb|right; eauto]|].
  destruct Hr as (id & created & -> & Hrow & Huniq & _).
  apply Hok; [exact Hb|]. split; [|apply lookup_insert_eq].
  eexists _, _. split_and!; [exact Hrow|by apply bool_decide_pack|done|done|].
  intros id' rt' Hrt' Hs. by eapply Huniq.
Qed.

(** A store step that touches releases only. *)
Lemma wp_aside_store {A} (m : SM A) (Q : error + A → World → Prop) w :
  frames (db_rel (same facade)) m →
  (∀ s, wp m (λ r _, ∀ e, r = inl e → unwrapped e) s) →
  (∀ e w', facade_kept w w' → unwrapped e → Q (inl e) w') →
  (∀ a w', facade_kept w w' → Q (inr a) w') → wp (in_store m) Q w.
Proof.
  intros Hf Hu He Ha. specialize (Hf (w_store w)). specialize (Hu (w_store w)).
  unfold wp, in_store, lift in *. destruct (m (w_store w)) as [[e|a] s']; cbn in *.
  - apply He; [by split|by apply Hu].
  - apply Ha. by split.
Qed.
Lemma SetReleaseRoute_unwrapped i r s :
  wp (SetReleaseRoute i r) (λ r _, ∀ e, r = inl e → unwrapped e) s.
Proof. apply wp_update; [by intros e s' _ He ? [= <-]|done]. Qed.
Lemma ActivateRelease_unwrapped i s :
  wp (ActivateRelease i) (λ r _, ∀ e, r = inl e → unwrapped e) s.
Proof. apply wp_bind, wp_now. intros t s' _. apply wp_update; [by intros e s2 _ He ? [= <-]|done]. Qed.

Lemma finalizeLive_spec beam bh rel addr w :
  wp (finalizeLiveRelease o beam bh rel addr) (λ r w',
    match r with
    | inl e => db_beams (w_db w') = db_beams (w_db w) ∧ finalize_error e
    | inr host => host = liveHost o (Beam_Slug beam) (Beamhall_Slug bh)
        ∧ serving host rel addr w'
        ∧ ∃ y, db_beams (w_db w') = <[Beam_ID beam := y]> (db_beams (w_db w))
               ∧ Beam_LiveReleaseID y = rel ∧ Beam_LiveState y = StateLive
               ∧ Beam_Mode y = Beam_Mode beam
    end) w.
Proof.
  unfold finalizeLiveRelease. set (host := liveHost _ _ _).
  apply wp_bind, (wp_total same_db_gw);
    [apply active_route_of_total|apply frames_active_route_of; first [tc_solve|exact o]|].
  intros old w1 [Hdb1 Hgw1]. unfold flip in Hdb1, Hgw1.
  apply wp_switch. { intros e w2 H2 He. by rewrite H2, Hdb1. }
  intros rt w2 Hb2 Hs2. rewrite Hdb1 in Hb2. clear Hdb1 Hgw1.
  (* What follows keeps the routes, the gateway and, until its last step, the beams. *)
  assert (∀ w', facade_kept w2 w' →
    db_beams (w_db w') = db_beams (w_db w) ∧ serving host rel addr w') as Htail.
  { intros w' Hk. split; [|by eapply serving_facade]. destruct Hk as [Hf _].
    unfold same, facade in Hf. injection Hf as _ ->. exact Hb2. }
  clear Hb2 Hs2.
  apply wp_bind, wp_aside_store; [apply facade_SetReleaseRoute|apply SetReleaseRoute_unwrapped| |].
  { intros e w3 Hk He. split; [by apply Htail|by left]. }
  intros [] w3 Hk3.
  apply wp_bind, wp_aside_store; [apply facade_ActivateRelease|apply ActivateRelease_unwrapped| |].
  { intros e w4 Hk He. split; [apply Htail; by etrans|by left]. }
  intros [] w4 Hk4. apply wp_bind, (wp_total facade_kept).
  { case_decide; [apply total_logged|apply total_ret]. }
  { case_decide; [apply frames_logged, facade_retireLiveWorkload|apply frames_ret; tc_solve]. }
  intros [] w5 Hk5. apply wp_bind, (wp_total facade_kept);
    [apply syncAuthRedirects_total|apply frames_syncAuthRedirects; tc_solve|].
  intros [] w6 Hk6. assert (facade_kept w2 w6) as Hk by (do 3 (etrans; [eassumption|]); done).
  destruct (Htail w6 Hk) as [Hb Hs]. clear Htail. apply wp_bind, wp_lift, wp_UpdateBeam.
  { intros e s' E He. split; [by simpl; rewrite E|by left]. }
  intros x t a' s' Hx -> E. apply wp_ret. split; [done|]. split.
  { eapply serving_same; [| |exact Hs]; [simpl; by rewrite E|done]. }
  eexists. split; [simpl; rewrite E; simpl; by rewrite Hb|]. by destruct (decide _).
Qed.

(** * Rollback *)

(** What a rollback is allowed on: an operable live beam and a release of its own that
    was a production release, neither the one serving nor the preview's, and whose image
    is known. *)
Record eligible w (h b t : ID) (beam : Beam) (bh : Beamhall) (target : Release) : Prop := MkEligible {
  el_operable : operable (w_db w) h b beam;
  el_beamhall : db_beamhalls (w_db w) !! h = Some bh;
  el_live : Beam_Mode beam = ModeLive;
  el_target : db_releases (w_db w) !! t = Some target;
  el_own : Rel_BeamID target = b;
  el_not_serving : t ≠ Beam_LiveReleaseID beam;
  el_not_preview : t ≠ Beam_CurrentReleaseID beam;
  el_channel : Rel_Channel target = ChannelLive;
  el_image : pull_ref target ≠ EmptyString }.

Lemma rollback_refusal_None beam b t target :
  rollback_refusal beam b t target = None →
  Rel_BeamID target = b ∧ t ≠ Beam_LiveReleaseID beam ∧ t ≠ Beam_CurrentReleaseID beam
  ∧ Rel_Channel target = ChannelLive ∧ pull_ref target ≠ EmptyString.
Proof.
  unfold rollback_refusal. by repeat case_decide.
Qed.

Lemma wp_require beam ev (Q : error + () → World → Prop) w :
  (∀ e, Q (inl e) w) → (∀ s, Can beam ev = inr s → Q (inr tt) w) → wp (require beam ev) Q w.
Proof. unfold require. intros He Ho. destruct (Can beam ev) eqn:E; [by apply wp_throw|by eapply Ho]. Qed.

(** The checks, before anything happens. *)
Lemma wp_rollback_checks {A} h b t (k : Beam → Beamhall → Release → M World error A)
    (Q : error + A → World → Prop) w :
  (∀ e w', idle w w' → Q (inl e) w') →
  (∀ beam bh target w', idle w w' → eligible w h b t beam bh target →
     wp (k beam bh target) Q w') →
  wp (beam ← operableBeam h b;
      bh ← in_store (GetBeamhall h);
      require beam EvRollback;;
      target ← in_store (GetRelease t);
      check (rollback_refusal beam b t target);;
      k beam bh target) Q w.
Proof.
  intros He Hk. apply wp_bind, wp_operableBeam; [by intros; apply He|]. intros beam w1 Hi1 Hop.
  apply wp_bind, wp_read; [intros e w2 Hi2; apply He; by etrans|]. intros bh w2 Hi2 Hbh.
  apply wp_bind, wp_require; [intros e; apply He; by etrans|]. intros s Hs.
  apply wp_bind, wp_read; [intros e w3 Hi3; apply He; by transitivity w1; [|transitivity w2]|].
  intros target w3 Hi3 Ht. assert (idle w w3) as Hi by (transitivity w1; [|transitivity w2]; done).
  apply wp_bind, wp_check; [by intros; apply He|]. intros Hr.
  rewrite (idle_db _ _ Hi1) in Hbh. rewrite (idle_db _ _ Hi2), (idle_db _ _ Hi1) in Ht.
  apply rollback_refusal_None in Hr as (? & ? & ? & ? & ?).
  assert (Beam_Mode beam = ModeLive) as Hm by (revert Hs; simpl; by case_decide).
  apply Hk; [done|]. by split.
Qed.

(** Production switched to the release [t]: the live host is served by its backend, and
    the beam points to it. *)
Definition switched w w' (b t : ID) (beam : Beam) (bh : Beamhall) (host : string) : Prop :=
  host = liveHost o (Beam_Slug beam) (Beamhall_Slug bh)
  ∧ (∃ addr, serving host t addr w')
  ∧ (∃ y, db_beams (w_db w') !! b = Some y
          ∧ Beam_LiveReleaseID y = t ∧ Beam_LiveState y = StateLive)
  ∧ ∀ i, i ≠ b → db_beams (w_db w') !! i = db_beams (w_db w) !! i.

Definition rollback_bringup : string :=
  "rollback bring-up failed (current production left running): ".

Lemma idle_kept w w' id : idle w w' → kept id w w'.
Proof. intros Hi. split; [by rewrite (idle_db _ _ Hi)|apply (idle_gw _ _ Hi)]. Qed.
Lemma kept_beams w w' id : kept id w w' → db_beams (w_db w') = db_beams (w_db w).
Proof. intros [[Hk _] _]. by apply (f_equal db_beams) in Hk. Qed.
Lemma idle_serving_beams w w' : idle w w' → db_beams (w_db w') = db_beams (w_db w).
Proof. intros Hi. by rewrite (idle_db _ _ Hi). Qed.

Lemma rollback_spec `{!DriverLaws X} h b t w :
  db_ok (w_db w) →
  wp (rollback o polls h b t) (λ r w',
    match r with
    | inl e => db_beams (w_db w') = db_beams (w_db w)
        ∧ (idle w w'
           ∨ (∃ beam bh target, eligible w h b t beam bh target)
             ∧ ((∃ e', e = ErrWrap rollback_bringup e') ∧ kept t w w' ∧ alive w ⊆ alive w'
                ∨ finalize_error e))
    | inr host => ∃ beam bh target, eligible w h b t beam bh target ∧ switched w w' b t beam bh host
    end) w.
Proof.
  intros Hok. apply (wp_rollback_checks h b t (λ beam bh target, _)).
  { intros e w1 Hi. split; [by apply idle_serving_beams|by left]. }
  intros beam bh target w1 Hi He.
  assert (Rel_ID target = t) as Ht
    by (eapply table_keyed; [apply ok_releases, Hok|apply (el_target _ _ _ _ _ _ _ He)]).
  assert (Beam_ID beam = b) as Hb
    by (eapply table_keyed; [apply ok_beams, Hok|apply (el_operable _ _ _ _ _ _ _ He)]).
  rewrite Ht. apply wp_bind, wp_map_error. eapply wp_mono.
  { apply (wp_frames (E := error) (kept t)); [apply spawn_kept|apply spawn_containers]. }
  intros res w2 [Hk Hup].
  assert (kept t w w2) as Hk2 by (transitivity w1; [by apply idle_kept|done]).
  assert (alive w1 = alive w) as Ha by (unfold alive; by rewrite (idle_out _ _ Hi)).
  destruct res as [e|status].
  { split; [by eapply kept_beams|]. right. split; [eauto|]. left. split; [eauto|]. split; [done|].
    rewrite <-Ha. destruct Hup as [->|(hd & x & _ & -> & _)]; set_solver. }
  unfold apply, Apply. destruct (Can beam EvRollback) as [te|st].
  { split; [by eapply kept_beams|]. right. split; [eauto|]. right. by left. }
  cbn [mbind M_bind]. rewrite <-(kept_beams _ _ _ Hk2).
  eapply wp_mono; [apply finalizeLive_spec|]. intros [e|host] w3.
  - intros [Hb3 He3]. split; [done|]. right. split; [eauto|by right].
  - intros (-> & Hs & y & Hy & Hl & Hst & _). exists beam, bh, target. split; [done|].
    simpl in Hy. rewrite Hb, (kept_beams _ _ _ Hk2) in Hy. split; [done|]. split; [eauto|].
    rewrite Hy, lookup_insert_eq. split; [by eexists|]. intros i Hi'. by rewrite lookup_insert_ne.
Qed.
End production.


