(* ===== verification/OrchPromote.v ===== *)
(** Promotion: what goes live, and who must agree. *)
From S2P Require Import Prelude GoStrings Domain Gateway Store StoreOps StoreInv AuditLog.
From S2P Require Import Policy Vault Scrub Outside Orch Facility OrchBeam OrchLife OrchFrames.
From S2P Require Import OrchRun OrchScope OrchWorkload OrchProduction Fixtures GatewayProofs.
From S2P Require Import VaultProofs OrchFixtures.

(** * Store steps *)

Section steps.
Context `{!Env}.

Lemma wp_CreateRelease r (Q : error + Release → Store → Prop) s :
  (∀ e s', st_db s' = st_db s → Q (inl e) s') →
  (∀ id created v s', db_releases (st_db s) !! id = None →
     let r' := r <| Rel_ID := id |> <| Rel_CreatedAt := created |> <| Rel_Version := v |> in
     st_db s' = st_db s <| db_releases := <[id := release_row r']> (db_releases (st_db s)) |> →
     Q (inr r') s') →
  wp (CreateRelease r) Q s.
Proof.
  intros He Ho. unfold CreateRelease. apply wp_bind, wp_fill_id. intros id s1 E1.
  apply wp_bind, wp_fill_time. intros created s2 E2.
  apply wp_withTx; [intros e s3 E3; apply He; congruence|]. intros s3 E3.
  apply wp_bind, wp_exec; [done|]. intros v s4 [= _ E4].
  apply wp_bind, wp_exec; [done|]. intros [] s5 Hi. apply wp_ret. intros s6 E6.
  apply q_insert_inv in Hi as (Hfree & _ & _ & Hdb).
  assert (st_db s4 = st_db s) as E by congruence. rewrite E in Hfree, Hdb.
  by apply Ho; [|rewrite E6, Hdb].
Qed.

Lemma wp_PromoteBeam h b limit (Q : error + () → Store → Prop) s :
  (∀ e s', st_db s' = st_db s → Q (inl e) s') →
  (∀ x at_ s', db_beams (st_db s) !! b = Some x →
     st_db s' = st_db s <| db_beams :=
       <[b := x <| Beam_Mode := ModeLive |> <| Beam_UpdatedAt := at_ |>]> (db_beams (st_db s)) |> →
     Q (inr tt) s') →
  wp (PromoteBeam h b limit) Q s.
Proof.
  intros He Ho. unfold PromoteBeam, CountLiveBeamsByBeamhall.
  apply wp_withTx; [done|]. intros s1 E1. apply wp_bind, wp_exec; [done|].
  intros n s2 [= _ E2]. case_decide; [done|]. apply wp_bind, wp_now. intros t s3 E3.
  apply wp_update; [done|]. intros x s4 Hx Hdb s5 E5.
  assert (st_db s3 = st_db s) as E by congruence. rewrite E in Hx, Hdb.
  eapply Ho; [exact Hx|]. by rewrite E5, Hdb.
Qed.
End steps.

(** * The front of a beam *)

(** Routes and beams stay, and releases keep what they pin. *)
Definition calm_db : relation DB := λ d d', same facade d d' ∧ releases_kept d d'.
#[export] Instance calm_db_PreOrder : PreOrder calm_db.
Proof. split; [by split|]. intros d1 d2 d3 [] []. split; by etrans. Qed.
(** Routes, the beams' live pointers and every beam but [b] stay. *)
Record front_db (b : ID) (d d' : DB) : Prop := MkFront {
  front_routes : db_routes d' = db_routes d;
  front_live i : Beam_LiveReleaseID <$> db_beams d' !! i = Beam_LiveReleaseID <$> db_beams d !! i;
  front_others i : i ≠ b → db_beams d' !! i = db_beams d !! i;
  front_releases : releases_kept d d' }.
#[export] Instance front_db_PreOrder b : PreOrder (front_db b).
Proof.
  split; [by split|]. intros d1 d2 d3 [R1 P1 O1 K1] [R2 P2 O2 K2]. split.
  - congruence.
  - intros i. by rewrite P2.
  - intros i Hi. by rewrite O2, O1.
  - by etrans.
Qed.
Lemma calm_front b d d' : calm_db d d' → front_db b d d'.
Proof. intros [Hf Hk]. unfold same, facade in Hf. injection Hf as Hr Hb. by split; rewrite ?Hr, ?Hb. Qed.

Section frames.
Context `{!Env}.
Lemma frames_calm {A} (m : SM A) :
  frames (db_rel (same facade)) m → frames (db_rel releases_kept) m → frames (db_rel calm_db) m.
Proof. intros Hf Hk s. split; [apply Hf|apply Hk]. Qed.

(** The operations on releases, resources and secrets. *)
Lemma calm_op op : match op with
  | OpCreateRelease _ | OpUpdateReleaseStatus _ _ | OpSetReleaseWorkload _ _
  | OpSetReleaseAgentTools _ _ | OpCreateResource _ | OpPutSecret _ | OpPutSecretValue _ _
  | OpDeleteSecretValue _ => frames (db_rel calm_db) (run_op op)
  | _ => True
  end.
Proof.
  destruct op; try done; (apply frames_calm; [|apply run_op_releases]);
    simpl; autounfold with store_ops; solve_frame.
  all: intros ? ? ? Hq; unfold same; other_table.
Qed.
End frames.

Section promote.
Context `{!Env, !Age, !Rand} {X C : Type} `{!Caddy C}.
Context `{!RuntimeDriver X, !Platform X, !DatabaseProvisioner X, !IdentityProvider X, !Brokers X}.
Context (o : Orchestrator) (polls : nat).
Notation World := (World X C).
Implicit Types (w : World).

Definition calm : relation World := on_world calm_db (flip eq).
Definition front (b : ID) : relation World := on_world (front_db b) (flip eq).
#[export] Instance calm_PreOrder : PreOrder calm.
Proof. unfold calm. tc_solve. Qed.
#[export] Instance front_PreOrder b : PreOrder (front b).
Proof. unfold front. tc_solve. Qed.
Lemma calm_front_world b w w' : calm w w' → front b w w'.
Proof. intros [Hd Hg]. split; [by apply calm_front|done]. Qed.
Lemma idle_calm w w' : idle w w' → calm w w'.
Proof. intros Hi. split; [by rewrite (idle_db _ _ Hi)|apply (idle_gw _ _ Hi)]. Qed.

Lemma calm_reconcile actor bh slug b :
  frames calm (reconcileLiveResources (C := C) o actor bh slug b).
Proof.
  apply frames_reconcileLiveResources; try tc_solve.
  - intros ref ct. apply (calm_op (OpPutSecretValue ref ct)).
  - intros sec. apply (calm_op (OpPutSecret sec)).
  - intros ref. apply (calm_op (OpDeleteSecretValue ref)).
  - intros r. apply (calm_op (OpCreateResource r)).
Qed.
Lemma calm_spawn h b r bh sc refs pull :
  frames calm (spawnWorkload (C := C) o polls h b r bh sc refs pull).
Proof.
  apply frames_spawnWorkload; try tc_solve.
  - intros hd. apply (calm_op (OpSetReleaseWorkload r hd)).
  - intros on. apply (calm_op (OpSetReleaseAgentTools r on)).
Qed.

(** The slot given back: the row of the beam, its live pointer as it was. *)
Lemma releaseSlot_front b beam w0 w :
  front b w0 w → Beam_ID beam = b →
  (∀ x, db_beams (w_db w0) !! b = Some x → Beam_LiveReleaseID x = Beam_LiveReleaseID beam) →
  wp (releaseSlot beam) (λ r w', r = inr tt ∧ front b w0 w') w.
Proof.
  intros Hf Hid Hl. unfold releaseSlot. apply wp_logged, wp_lift, wp_UpdateBeam.
  { intros e s' E _. split; [done|]. etrans; [exact Hf|]. split; [by simpl; rewrite E|done]. }
  intros x t a' s' Hx -> E. split; [done|]. simpl in Hx. rewrite Hid in Hx. simpl in E. rewrite Hid in E.
  destruct Hf as [[Hr Hp Ho Hk] Hg]. split; [|done]. split; simpl; rewrite E; simpl; try done.
  - intros i. destruct (decide (b = i)) as [<-|Hne]; [|by rewrite lookup_insert_ne].
    rewrite lookup_insert_eq. specialize (Hp b). rewrite Hx in Hp. simpl in Hp |- *.
    destruct (db_beams (w_db w0) !! b) as [x0|] eqn:E0; [|done]. simpl.
    rewrite (Hl x0 eq_refl). by destruct (decide _).
  - intros i Hi. rewrite lookup_insert_ne by done. by apply Ho.
Qed.

Lemma wp_or_release {A} b first beam (m : M World error A) (Q : error + A → World → Prop) w0 w :
  front b w0 w → Beam_ID beam = b →
  (∀ x, db_beams (w_db w0) !! b = Some x → Beam_LiveReleaseID x = Beam_LiveReleaseID beam) →
  frames calm m →
  (∀ e w', front b w0 w' → Q (inl e) w') →
  wp m (λ r w', ∀ a, r = inr a → calm w w' → front b w0 w' → Q (inr a) w') w →
  wp (or_release first beam m) Q w.
Proof.
  intros Hf Hid Hl Hm He Ha. unfold or_release. apply wp_bind, wp_attempt.
  specialize (Hm w). unfold wp in Ha |- * at 1. destruct (m w) as [[e|a] w1]; cbn in Hm, Ha |- *.
  - assert (front b w0 w1) as Hf1 by (etrans; [exact Hf|by apply calm_front_world]).
    destruct first; [|by apply wp_bind, wp_ret, wp_throw, He].
    apply wp_bind. eapply wp_mono; [by apply (releaseSlot_front b beam w0)|].
    intros r w2 [-> Hf2]. by apply wp_throw, He.
  - apply Ha; [done|done|]. etrans; [exact Hf|by apply calm_front_world].
Qed.

(** What promotion makes of the preview release [prev]: a new release, of the same beam,
    build, image and security profile, on the live channel, none of whose secrets is a
    preview's. *)
Definition production_of (b rel : ID) (prev : Release) w w' : Prop :=
  db_releases (w_db w) !! rel = None
  ∧ ∃ row, db_releases (w_db w') !! rel = Some row
      ∧ Rel_BeamID row = b ∧ Rel_BuildID row = Rel_BuildID prev ∧ Rel_Channel row = ChannelLive
      ∧ pull_ref row = pull_ref prev ∧ Rel_SecurityProfileSnap row = Rel_SecurityProfileSnap prev
      ∧ ∀ r, r ∈ Rel_SecretRefs row → Ref_Channel r ≠ ChannelPreview.
(** The checks of a promotion. *)
Record promotable w (h b : ID) (beam : Beam) (bh : Beamhall) (prev : Release) : Prop := MkPromotable {
  pm_operable : operable (w_db w) h b beam;
  pm_beamhall : db_beamhalls (w_db w) !! h = Some bh;
  pm_running : Beam_State beam = StateRunning;
  pm_release : db_releases (w_db w) !! Beam_CurrentReleaseID beam = Some prev;
  pm_image : pull_ref prev ≠ EmptyString }.

Lemma wp_promote_checks {A} h b (f : Release → error) (k : Beam → Beamhall → Release → M World error A)
    (Q : error + A → World → Prop) w :
  (∀ e w', idle w w' → Q (inl e) w') →
  (∀ beam bh prev w', idle w w' → promotable w h b beam bh prev → wp (k beam bh prev) Q w') →
  wp (beam ← operableBeam h b;
      bh ← in_store (GetBeamhall h);
      require beam EvPromote;;
      previewRel ← wrapping "promote needs a running preview release: "
                     (in_store (GetRelease (Beam_CurrentReleaseID beam)));
      let pullRef := pull_ref previewRel in
      if decide (pullRef = EmptyString) then throw (f previewRel)
      else k beam bh previewRel) Q w.
Proof.
  intros He Hk. apply wp_bind, wp_operableBeam; [by intros; apply He|]. intros beam w1 Hi1 Hop.
  apply wp_bind, wp_read; [intros e w2 Hi2; apply He; by transitivity w1|]. intros bh w2 Hi2 Hbh.
  assert (idle w w2) as Hi by (by transitivity w1).
  apply wp_bind, wp_require; [by intros e; apply He|]. intros s Hs.
  apply wp_bind, wp_map_error, wp_read; [intros e w3 Hi3; apply He; by transitivity w2|].
  intros prev w3 Hi3 Hprev. rewrite (idle_db _ _ Hi1) in Hbh. rewrite (idle_db _ _ Hi) in Hprev.
  assert (idle w w3) as Hi' by (by transitivity w2). cbv zeta. case_decide; [by apply wp_throw, He|].
  apply Hk; [done|]. split; try done. revert Hs. simpl. by case_decide.
Qed.

(** A promotion once its slot is reserved. *)
Lemma releases_finalizeLive beam bh rel addr :
  frames (on_world releases_kept anything) (finalizeLiveRelease (X := X) (C := C) o beam bh rel addr).
Proof.
  apply frames_finalizeLiveRelease; try tc_solve; intros;
    first [apply frames_anything|apply run_op_releases|apply Append_releases].
Qed.

Definition promoted_or_kept w (h b : ID) (r : error + string) w' : Prop :=
  match r with
  | inl e => (∀ i, Beam_LiveReleaseID <$> db_beams (w_db w') !! i
                   = Beam_LiveReleaseID <$> db_beams (w_db w) !! i)
      ∧ (front b w w' ∨ finalize_error e)
  | inr host => ∃ beam bh prev rel, promotable w h b beam bh prev
      ∧ switched o w w' b rel beam bh host ∧ production_of b rel prev w w'
  end.

Lemma promoted_front w h b e w' : front b w w' → promoted_or_kept w h b (inl e) w'.
Proof. intros Hf. split; [apply (front_live _ _ _ (proj1 Hf))|by left]. Qed.

(** The release just created, which later steps keep. *)
Definition new_live (b rel : ID) (prev : Release) w : Prop :=
  ∃ row, db_releases (w_db w) !! rel = Some row
      ∧ pinned row = (b, Rel_BuildID prev, Rel_Version row, ChannelLive, pull_ref prev,
                      Rel_SecretRefs row, Rel_SecurityProfileSnap prev)
      ∧ ∀ r, r ∈ Rel_SecretRefs row → Ref_Channel r ≠ ChannelPreview.
Lemma new_live_kept b rel prev w w' :
  releases_kept (w_db w) (w_db w') → new_live b rel prev w → new_live b rel prev w'.
Proof.
  intros Hk (row & Hrow & Hp & Hs). specialize (Hk rel row Hrow).
  destruct (db_releases (w_db w') !! rel) as [row'|] eqn:E; [|done]. injection Hk as Hpin.
  exists row'. split; [done|]. unfold pinned in Hp |- *. split; [congruence|].
  intros r Hr. apply Hs. congruence.
Qed.

Lemma promote_bring_up w w4 h b beam beam1 bh prev rel refs first :
  front b w w4 → promotable w h b beam bh prev → Beam_ID beam1 = b →
  Beam_LiveReleaseID beam1 = Beam_LiveReleaseID beam → Beam_Slug beam1 = Beam_Slug beam →
  db_releases (w_db w) !! Rel_ID rel = None → new_live b (Rel_ID rel) prev w4 →
  wp (r ← attempt (spawnWorkload o polls h b (Rel_ID rel) bh (Rel_SecurityProfileSnap rel) refs
                     (pull_ref prev));
      match r with
      | inl err =>
          logged (in_store (UpdateReleaseStatus (Rel_ID rel) ReleaseSuperseded));;
          if first : bool then
            releaseSlot beam1;;
            throw (ErrWrap "promote failed bringing up the live workload: " err)
          else
            throw (ErrWrap ("promote failed bringing up the new live workload "
                            +:+ "(current production left running): ") err)
      | inr status => finalizeLiveRelease o beam1 bh (Rel_ID rel) (Status_BackendAddr status)
      end) (promoted_or_kept w h b) w4.
Proof.
  intros Hf Hp Hid Hl Hslug Hfresh Hnew. apply wp_bind, wp_attempt.
  pose proof (calm_spawn h b (Rel_ID rel) bh (Rel_SecurityProfileSnap rel) refs (pull_ref prev) w4) as Hc.
  unfold wp at 1. destruct (spawnWorkload _ _ _ _ _ _ _ _ _ w4) as [[err|status] w5]; cbn in Hc |- *.
  - assert (front b w w5) as Hf5 by (etrans; [exact Hf|by apply calm_front_world]).
    apply wp_bind, wp_logged.
    assert (frames calm (in_store (C := C) (X := X) (UpdateReleaseStatus (Rel_ID rel) ReleaseSuperseded))) as Hu
      by (apply frames_in_store; [tc_solve..|apply (calm_op (OpUpdateReleaseStatus _ _))]).
    specialize (Hu w5). unfold wp. destruct (in_store _ w5) as [r6 w6]. cbn in Hu |- *.
    assert (front b w w6) as Hf6 by (etrans; [exact Hf5|by apply calm_front_world]).
    destruct first; [|by apply promoted_front].
    apply wp_bind. eapply wp_mono; [apply (releaseSlot_front b beam1 w); [done..|]|].
    { intros x Hx. destruct (pm_operable _ _ _ _ _ _ Hp) as [Hb _]. congruence. }
    intros r7 w7 [-> Hf7]. by apply wp_throw, promoted_front.
  - assert (front b w w5) as Hf5 by (etrans; [exact Hf|by apply calm_front_world]).
    eapply wp_mono.
    { apply (wp_frames (E := error)); [apply releases_finalizeLive|apply finalizeLive_spec]. }
    intros [e|host] w6 [[Hk _] Hfin].
    + destruct Hfin as [Hb He]. split; [|by right]. intros i. rewrite Hb.
      apply (front_live _ _ _ (proj1 Hf5)).
    + destruct Hfin as (-> & Hs & y & Hy & Hyl & Hys & _).
      exists beam, bh, prev, (Rel_ID rel). split; [done|]. rewrite Hslug, Hid in *. split.
      * split; [done|]. split; [eauto|]. rewrite Hy, lookup_insert_eq. split; [eauto|].
        intros i Hi. rewrite lookup_insert_ne by done. by apply (front_others _ _ _ (proj1 Hf5)).
      * split; [done|].
        assert (new_live b (Rel_ID rel) prev w6) as (row & Hrow & Hpin & Hsec).
        { eapply new_live_kept; [exact Hk|]. eapply new_live_kept; [apply Hc|done]. }
        exists row. unfold pinned in Hpin. simplify_eq. done.
Qed.

(** From the reserved slot on. *)
Lemma promote_reserved w w1 h b actor beam beam1 bh prev first :
  front b w w1 → promotable w h b beam bh prev → Beam_ID beam1 = b →
  Beam_LiveReleaseID beam1 = Beam_LiveReleaseID beam → Beam_Slug beam1 = Beam_Slug beam →
  wp (or_release first beam1 (reconcileLiveResources o actor bh (Beam_Slug beam1) b);;
      liveRefs ← or_release first beam1 (secretRefs h b ChannelLive);
      rel ← or_release first beam1 (in_store (CreateRelease
              (new_release o b (Rel_BuildID prev) ChannelLive (pull_ref prev) liveRefs
                 (Rel_SecurityProfileSnap prev))));
      r ← attempt (spawnWorkload o polls h b (Rel_ID rel) bh (Rel_SecurityProfileSnap rel) liveRefs
                     (pull_ref prev));
      match r with
      | inl err =>
          logged (in_store (UpdateReleaseStatus (Rel_ID rel) ReleaseSuperseded));;
          if first : bool then
            releaseSlot beam1;;
            throw (ErrWrap "promote failed bringing up the live workload: " err)
          else
            throw (ErrWrap ("promote failed bringing up the new live workload "
                            +:+ "(current production left running): ") err)
      | inr status => finalizeLiveRelease o beam1 bh (Rel_ID rel) (Status_BackendAddr status)
      end) (promoted_or_kept w h b) w1.
Proof.
  intros Hf Hp Hid Hl Hslug.
  assert (∀ x, db_beams (w_db w) !! b = Some x → Beam_LiveReleaseID x = Beam_LiveReleaseID beam1) as Hx.
  { intros x Hx. destruct (pm_operable _ _ _ _ _ _ Hp) as [Hb _]. congruence. }
  apply wp_bind, (wp_or_release b _ _ _ _ w); [done..|apply calm_reconcile|by intros; apply promoted_front|].
  eapply (wp_mono _ (λ _ _, True)); [done|]. intros _ w2 _ [] _ _ Hf2.
  apply wp_bind, (wp_or_release b _ _ _ _ w);
    [done..|apply frames_secretRefs; first [tc_solve|exact o]|by intros; apply promoted_front|].
  apply wp_bind, wp_lift. unfold ListSecretsByBeamhall. apply wp_exec; [done|].
  intros metas s3 _. apply wp_ret. intros refs Hrefs _ Hf3.
  injection Hrefs as Hrefs. assert (∀ r, r ∈ refs → Ref_Channel r ≠ ChannelPreview) as Hsec.
  { intros r Hr. rewrite <-Hrefs in Hr. by apply scope_refs_channel in Hr as [-> | ->]. }
  clear Hrefs metas.
  apply wp_bind, (wp_or_release b _ _ _ _ w); [done..| |by intros; apply promoted_front|].
  { apply frames_in_store; [tc_solve..|apply (calm_op (OpCreateRelease _))]. }
  apply wp_lift, wp_CreateRelease; [done|]. intros id created v s4 Hnone rel0 Hdb rel Hrel _ Hf4.
  injection Hrel as <-. subst rel0.
  apply (promote_bring_up w _ h b beam beam1); try done.
  - destruct (db_releases (w_db w) !! id) as [r0|] eqn:E; [|done].
    pose proof (front_releases _ _ _ (proj1 Hf3) _ _ E) as Hk. simpl in Hk, Hnone.
    by rewrite Hnone in Hk.
  - unfold new_live. simpl. rewrite Hdb. simpl. rewrite lookup_insert_eq. eexists. split; [done|].
    split; [done|]. exact Hsec.
Qed.

Lemma promote_spec actor h b w :
  db_ok (w_db w) → wp (promote o polls actor h b) (promoted_or_kept w h b) w.
Proof.
  intros Hok. apply (wp_promote_checks h b _ (λ beam bh prev, _)).
  { intros e w1 Hi. by apply promoted_front, calm_front_world, idle_calm. }
  intros beam bh prev w1 Hi Hp.
  assert (front b w w1) as Hf1 by (by apply calm_front_world, idle_calm).
  assert (Beam_ID beam = b) as Hid
    by (eapply table_keyed; [apply ok_beams, Hok|apply (pm_operable _ _ _ _ _ _ Hp)]).
  apply wp_bind. destruct (negb _) eqn:Efirst.
  - apply wp_bind, wp_lift, wp_PromoteBeam.
    { intros e s2 E. apply promoted_front. etrans; [exact Hf1|]. split; [by simpl; rewrite E|done]. }
    intros x t s2 Hx E. apply wp_ret, promote_reserved with beam; try done.
    etrans; [exact Hf1|]. split; [|done]. split; simpl; rewrite E; simpl; try done.
    + intros i. destruct (decide (b = i)) as [<-|Hne]; [|by rewrite lookup_insert_ne].
      by rewrite lookup_insert_eq, Hx.
    + intros i Hne. by rewrite lookup_insert_ne.
    + by apply releases_same.
  - apply wp_ret, promote_reserved with beam; done.
Qed.
End promote.

(** C5: promotion is exact and never loses production.  It succeeds only for an operable
    running beam whose preview release has an image, and then the live host is served, in
    the store and the gateway, by a new release of exactly that build, image and security
    profile, with production secrets only, and the beam points to it.  On any error no
    beam's live pointer has moved; and unless the error comes from the final switch
    itself, every route, the gateway, every other beam and what every release pins are as
    they were. *)
Theorem promote_ships_the_preview_build `{!Env, !Age, !Rand} {X C : Type} `{!Caddy C}
    `{!RuntimeDriver X, !Platform X, !DatabaseProvisioner X, !IdentityProvider X, !Brokers X}
    (o : Orchestrator) (polls : nat) (actor : Actor) (h b : ID) (w : World X C)
    (Hok : db_ok (w_db w)) :
  wp (promote o polls actor h b) (promoted_or_kept o w h b) w.
Proof. by apply promote_spec. Qed.

(** The fixtures' live beam promoted to its preview build; and when nothing starts. *)
Lemma promote_ships_the_preview_build_witness :
  db_ok (w_db World_live)
  ∧ (promote Orch1 3 Alice "H1" "B1" World_live).1 = inr "crm.sales.example.com"
  ∧ is_inl (promote Orch1 3 Alice "H1" "B1" World_live_broken).1 = true
  ∧ wp (promote Orch1 3 Alice "H1" "B1") (promoted_or_kept Orch1 World_live "H1" "B1") World_live.
Proof.
  split; [exact DB_live_ok|]. split; [vm_compute; reflexivity|]. split; [vm_compute; reflexivity|].
  apply (promote_ships_the_preview_build Orch1 3 Alice "H1" "B1" World_live DB_live_ok).
Defined.
