(* ===== verification/OrchApprove.v ===== *)
(** The four-eyes rule: a requested promotion goes live only when an administrator who is
    not the requester approves the very build that was requested. *)
From S2P Require Import Prelude GoStrings Domain Gateway Store StoreOps StoreInv AuditLog.
From S2P Require Import Policy Vault Outside Orch Facility OrchBeam OrchLife OrchFrames.
From S2P Require Import OrchRun OrchScope OrchWorkload OrchProduction OrchPromote Fixtures.
From S2P Require Import GatewayProofs VaultProofs OrchFixtures AuditProofs.

(** The tables production is made of. *)
Definition production (d : DB) := (db_routes d, db_beams d, db_releases d).

Section steps.
Context `{!Env}.
Lemma production_Append ev : frames (db_rel (same production)) (Append ev).
Proof.
  intros s. pose proof (Append_adds ev s) as Ha. unfold wp, db_rel, same in *.
  destruct (Append ev s) as [[e|seq] s']; cbn in *; [by rewrite Ha|].
  by destruct Ha as (id & t & prev & ->).
Qed.
Lemma promotions_Append ev : frames (db_rel (same db_promotions)) (Append ev).
Proof.
  intros s. pose proof (Append_adds ev s) as Ha. unfold wp, db_rel, same in *.
  destruct (Append ev s) as [[e|seq] s']; cbn in *; [by rewrite Ha|].
  by destruct Ha as (id & t & prev & ->).
Qed.

Lemma wp_DecidePromotionRequest id status by_ reason (Q : error + () → Store → Prop) s :
  (∀ e s', st_db s' = st_db s → Q (inl e) s') →
  (∀ r at_ s', db_promotions (st_db s) !! id = Some r → PR_Status r = PromotionPending →
     st_db s' = st_db s <| db_promotions :=
       <[id := r <| PR_Status := status |> <| PR_Reason := reason |>
                 <| PR_DecidedBy := by_ |> <| PR_DecidedAt := at_ |>]> (db_promotions (st_db s)) |> →
     Q (inr tt) s') →
  wp (DecidePromotionRequest id status by_ reason) Q s.
Proof.
  intros He Ho. unfold DecidePromotionRequest. apply wp_bind, wp_now. intros t s1 E1.
  apply wp_affected, wp_exec; [intros e s2 E2; apply He; congruence|]. intros n s2 Hq.
  rewrite E1 in Hq. destruct (db_promotions (st_db s) !! id) as [r|] eqn:Er.
  2: { injection Hq as <- E. by apply He. }
  destruct (decide _) as [Hp|]; [|injection Hq as <- E; by apply He].
  apply q_update_inv in Hq as [(Hn & _)|(x & Hx & Hdb & ->)]; [by rewrite Er in Hn|].
  simpl. rewrite Er in Hx. injection Hx as <-. by eapply Ho.
Qed.
End steps.

Section approve.
Context `{!Env, !Age, !Rand} {X C : Type} `{!Caddy C}.
Context `{!RuntimeDriver X, !Platform X, !DatabaseProvisioner X, !IdentityProvider X, !Brokers X}.
Context (o : Orchestrator) (polls : nat).
Notation World := (World X C).
Implicit Types (w : World).

(** Production untouched: no route, beam or release, and not the gateway. *)
Definition production_kept : relation World := on_world (same production) (flip eq).
#[export] Instance production_kept_PreOrder : PreOrder production_kept.
Proof. unfold production_kept. tc_solve. Qed.

Lemma idle_production w w' : idle w w' → production_kept w w'.
Proof. intros Hi. split; [unfold same; by rewrite (idle_db _ _ Hi)|apply (idle_gw _ _ Hi)]. Qed.
Lemma production_inv w w' : production_kept w w' →
  db_routes (w_db w') = db_routes (w_db w) ∧ db_beams (w_db w') = db_beams (w_db w)
  ∧ db_releases (w_db w') = db_releases (w_db w) ∧ w_gw w' = w_gw w.
Proof. intros [Hp Hg]. unfold same, production, flip in *. by simplify_eq. Qed.

Lemma switched_kept w w1 w2 b t beam bh host :
  production_kept w1 w2 → switched o w w1 b t beam bh host → switched o w w2 b t beam bh host.
Proof.
  intros (Hr & Hb & _ & Hg)%production_inv (-> & (addr & Hs) & Hy & Ho).
  split; [done|]. split; [exists addr; by eapply serving_same|]. by rewrite Hb.
Qed.
Lemma production_of_kept w w1 w2 b rel prev :
  production_kept w1 w2 → production_of b rel prev w w1 → production_of b rel prev w w2.
Proof. intros (_ & _ & Hr & _)%production_inv. unfold production_of. by rewrite Hr. Qed.

(** What the rule asks of an approval. *)
Record four_eyes w (actor : Actor) (id : ID) (req : PromotionRequest) (beam : Beam) : Prop :=
  MkFourEyes {
  fe_admin : ITAdmin actor = true;
  fe_request : db_promotions (w_db w) !! id = Some req;
  fe_pending : PR_Status req = PromotionPending;
  fe_other : PR_RequestedBy req ≠ Actor_ID actor;
  fe_beam : db_beams (w_db w) !! PR_BeamID req = Some beam;
  fe_build : Beam_CurrentReleaseID beam = PR_ReleaseID req }.

(** The request as the approval leaves it. *)
Definition approved_by (actor : Actor) (id : ID) w : Prop :=
  ∃ req, db_promotions (w_db w) !! id = Some req ∧ PR_Status req = PromotionApproved
         ∧ PR_DecidedBy req = Actor_ID actor.

(** The beam of a request promoted. *)
Definition shipped w w' (req : PromotionRequest) (beam : Beam) (host : string) : Prop :=
  ∃ bh prev rel, promotable w (PR_BeamhallID req) (PR_BeamID req) beam bh prev
    ∧ switched o w w' (PR_BeamID req) rel beam bh host
    ∧ production_of (PR_BeamID req) rel prev w w'.

Definition approval w (actor : Actor) (id : ID) (r : error + string) w' : Prop :=
  match r with
  | inl _ => production_kept w w' ∨ ∃ req beam, four_eyes w actor id req beam
  | inr host => ∃ req beam, four_eyes w actor id req beam ∧ shipped w w' req beam host
      ∧ approved_by actor id w'
  end.

Lemma approval_kept w w1 w2 actor id r :
  on_world (same production) (flip eq) w1 w2 → db_promotions (w_db w2) = db_promotions (w_db w1) →
  approval w actor id r w1 → approval w actor id r w2.
Proof.
  intros Hk Hp. destruct r as [e|host]; simpl.
  - intros [Hk1|Hf]; [left; by etrans|by right].
  - intros (req & beam & Hf & (bh & prev & rel & Hpr & Hs & Hof) & Ha).
    exists req, beam. split; [done|]. split; [|by unfold approved_by; rewrite Hp].
    exists bh, prev, rel. split; [done|]. split; [by eapply switched_kept|by eapply production_of_kept].
Qed.

Lemma approve_reads {A} (f : DB → option A) (k : A → M World error string) w w0 actor id :
  idle w0 w → (∀ a w', idle w0 w' → f (w_db w0) = Some a → wp (k a) (approval w0 actor id) w') →
  wp (a ← in_store (exec (q_one f)); k a) (approval w0 actor id) w.
Proof.
  intros Hi Hk. apply wp_bind, wp_read.
  - intros e w' Hi'. left. apply idle_production. by etrans.
  - intros a w' Hi' Hf. rewrite (idle_db _ _ Hi) in Hf. apply Hk; [by etrans|done].
Qed.

Lemma decide_and_promote_spec actor id req w0 w :
  db_ok (w_db w0) → idle w0 w → ITAdmin actor = true → db_promotions (w_db w0) !! id = Some req →
  wp (decide_and_promote o polls actor id req) (approval w0 actor id) w.
Proof.
  intros Hok Hi Hadmin Hreq. unfold decide_and_promote.
  assert (∀ e, approval w0 actor id (inl e) w) as He by (intros e; left; by apply idle_production).
  destruct (decide (PR_Status req ≠ _)) as [|Hst%dec_stable]; [by apply wp_throw|].
  destruct (decide (PR_RequestedBy req = _)) as [|Hother]; [by apply wp_throw|].
  apply approve_reads; [done|]. intros beam w1 Hi1 Hbeam.
  destruct (decide (Beam_CurrentReleaseID beam ≠ _)) as [|Hrel%dec_stable].
  { apply wp_throw. left. by apply idle_production. }
  assert (four_eyes w0 actor id req beam) as Hfe by done.
  apply wp_bind. eapply wp_mono; [apply promote_spec; by rewrite (idle_db _ _ Hi1)|].
  intros [e|host] w2; [by right; eauto|].
  intros (beam' & bh & prev & rel & Hp & Hs & Hof).
  assert (beam' = beam) as ->.
  { destruct (pm_operable _ _ _ _ _ _ Hp) as [Hb _]. rewrite (idle_db _ _ Hi1) in Hb. congruence. }
  assert (PR_ID req = id) as -> by (eapply table_keyed; [apply ok_promotions, Hok|done]).
  apply wp_bind, wp_lift, wp_DecidePromotionRequest; [by right; eauto|].
  intros r t s3 Hr Hpend Hdb. apply wp_ret. exists req, beam. split; [done|]. split.
  - exists bh, prev, rel. destruct Hi1 as [Edb Egw _ _ _ _ _].
    assert (production_kept w2 (w2 <| w_store := s3 |>)) as Hk
      by (split; [unfold same; simpl; by rewrite Hdb|done]).
    split; [by destruct Hp; split; rewrite <-?Edb|].
    split; [|].
    + eapply switched_kept; [exact Hk|]. destruct Hs as (? & ? & ? & Ho). split; [done|].
      split; [done|]. split; [done|]. by rewrite <-Edb.
    + eapply production_of_kept; [exact Hk|]. unfold production_of. by rewrite <-Edb.
  - eexists. simpl. rewrite Hdb. simpl. by rewrite lookup_insert_eq.
Qed.

Lemma wp_itAudit actor act h err w0 id r w :
  approval w0 actor id r w →
  wp (itAudit actor act h err) (λ a w', approval w0 actor id r w'
    ∧ match err with Some _ => is_inl a = true | None => True end) w.
Proof.
  intros Ha. unfold itAudit, itAuditBeam. apply wp_bind, wp_attempt. set (ev := it_event _ _ _ _ _).
  pose proof (production_Append ev (w_store w)) as Hp. pose proof (promotions_Append ev (w_store w)) as Hq.
  unfold wp at 1. simpl. destruct (Append ev (w_store w)) as [res s']. simpl in Hp, Hq |- *.
  assert (approval w0 actor id r (w <| w_store := s' |>)) by (by apply (approval_kept w0 w)).
  destruct res, err; by apply wp_ret || apply wp_throw.
Qed.

Lemma approval_error w0 actor id r e w :
  approval w0 actor id r w → approval w0 actor id (inl e) w.
Proof. destruct r as [e'|host]; [done|]. intros (req & beam & Hf & _). right. eauto. Qed.
Lemma wp_itAudit_throw actor act h err w0 id r w :
  approval w0 actor id r w →
  wp (itAudit actor act h (Some err);; throw err) (approval w0 actor id) w.
Proof.
  intros Ha. apply wp_bind. eapply wp_mono; [by apply wp_itAudit|].
  intros [e|[]] w' [Hw Herr]; [by eapply approval_error|done].
Qed.

Lemma ApprovePromotion_spec actor id w :
  db_ok (w_db w) → wp (ApprovePromotion o polls actor id) (approval w actor id) w.
Proof.
  intros Hok. unfold ApprovePromotion, requireIT. destruct (ITAdmin actor) eqn:Hadmin.
  2: { apply wp_itAudit_throw with (r := inl (ErrMsg EmptyString)). left. reflexivity. }
  apply wp_bind. unfold approvePromotion, GetPromotionRequest.
  match goal with |- wp _ ?q _ => set (Q := q) end.
  assert (∀ r req w', approval w actor id r w' → Q (inr (r, req)) w') as HQ.
  { intros r req w' Ha. unfold Q. simpl. destruct r as [e|host]; [by eapply wp_itAudit_throw|].
    apply wp_bind. eapply wp_mono; [by apply wp_itAudit|]. intros [e|[]] w2 [Hw _]; [|done].
    by eapply approval_error. }
  apply wp_bind, wp_attempt, wp_read.
  { intros e w1 Hi. apply wp_ret, HQ. left. by apply idle_production. }
  intros req0 w1 Hi1 _. apply wp_bind, wp_attempt, wp_read.
  { intros e w2 Hi2. apply wp_ret, HQ. left. apply idle_production. by etrans. }
  intros req w2 Hi2 Hreq. rewrite (idle_db _ _ Hi1) in Hreq. apply wp_bind, wp_attempt.
  eapply wp_mono; [apply (decide_and_promote_spec actor id req w); try done; by etrans|].
  intros r w3 Ha. by apply wp_ret, HQ.
Qed.
End approve.

(** C1: no production change by approval without four eyes.  If an approval changes any
    route, beam, release or the gateway, then the caller is an administrator, the request
    was pending, someone else made it, and the beam's preview is still on the build it
    asks for; and an approval that succeeds has put exactly that build live on the beam,
    and left the request approved in the caller's name. *)
Theorem approval_needs_four_eyes `{!Env, !Age, !Rand} {X C : Type} `{!Caddy C}
    `{!RuntimeDriver X, !Platform X, !DatabaseProvisioner X, !IdentityProvider X, !Brokers X}
    (o : Orchestrator) (polls : nat) (actor : Actor) (id : ID) (w : World X C)
    (Hok : db_ok (w_db w)) :
  wp (ApprovePromotion o polls actor id) (approval o w actor id) w.
Proof. by apply ApprovePromotion_spec. Qed.

(** The live beam of the fixtures with a request Alice made. *)
Definition Request1 : PromotionRequest :=
  MkPromotionRequest "P1" "H1" "B1" "R1" "ada" PromotionPending EmptyString T0 no_id None.
Definition World_requested : World Engine ScriptedCaddy :=
  World_live <| w_store := MkStore 0 (DB_live <| db_promotions := {["P1" := Request1]} |>) |>.
Lemma approval_needs_four_eyes_witness :
  db_ok (w_db World_requested)
  ∧ (ApprovePromotion Orch1 3 Root "P1" World_requested).1 = inr "crm.sales.example.com"
  ∧ is_inl (ApprovePromotion Orch1 3 Alice "P1" World_requested).1 = true
  ∧ is_inl (ApprovePromotion Orch1 3 (MkActor "ada" "jti-2" true "192.0.2.1" [] "ada@example.com") "P1" World_requested).1 = true
  ∧ wp (ApprovePromotion Orch1 3 Root "P1") (approval Orch1 World_requested Root "P1")
      World_requested.
Proof.
  assert (db_ok (w_db World_requested)) as Hok by (split; literal_table).
  split; [exact Hok|]. split; [vm_compute; reflexivity|]. split; [vm_compute; reflexivity|].
  split; [vm_compute; reflexivity|].
  apply (approval_needs_four_eyes Orch1 3 Root "P1" World_requested Hok).
Defined.
