(* ===== verification/OrchFourEyes.v ===== *)
(** The four-eyes rule of the sensitive tier: what one administrator asked for is what
    another's approval executes, and nothing is executed without the two of them. *)
From S2P Require Import Prelude GoStrings Json Domain Gateway GatewayProofs Store StoreOps.
From S2P Require Import Fixtures StoreInv AuditLog AuditProofs Policy Vault VaultProofs Outside.
From S2P Require Import Orch Facility OrchAdmin OrchSensitive OrchBeam OrchLife OrchFixtures.
From S2P Require Import OrchScope OrchFrames OrchRun OrchAdminRun.

(** * The payload survives the vault *)

Lemma decode_members p : Forall (λ kv, val_ok kv.2) (payload_members p) →
  decode_payload (payload_type p) (Marshal (payload_members p)) = Some p.
Proof.
  intros Hok. unfold decode_payload. rewrite Unmarshal_Marshal by done.
  by destruct p as [[]| | | | |].
Qed.

Section sensitive.
Context `{!Env, !Age, !Rand} {X C : Type} `{!Caddy C}.
Context `{!RuntimeDriver X, !Platform X, !Directory X, !Appliance X}.
Context (o : Orchestrator) (path_join : string → string → string).
Notation World := (World X C).
Implicit Types (w : World).

(** A request holds the intent [p]: whoever opens it with the vault's key reads it. *)
Definition holds (req : AdminActionRequest) (p : Payload) : Prop :=
  AAR_ActionType req = payload_type p
  ∧ ∃ plain, age_open (AAR_PayloadCipher req) = inr plain
      ∧ decode_payload (AAR_ActionType req) plain = Some p.

Lemma wp_CreateAdminActionRequest r (Q : error + AdminActionRequest → Store → Prop) s :
  (∀ e s', st_db s' = st_db s → Q (inl e) s') →
  (∀ id t s', db_admin_actions (st_db s) !! id = None →
     st_db s' = st_db s <| db_admin_actions := <[id :=
       MkAdminActionRequest id (AAR_ActionType r) (AAR_Summary r) (AAR_PayloadCipher r)
         (AAR_RequestedBy r) AdminActionPending EmptyString EmptyString (col_time t) no_id None]>
         (db_admin_actions (st_db s)) |> →
     Q (inr (r <| AAR_ID := id |> <| AAR_CreatedAt := t |>)) s') →
  wp (CreateAdminActionRequest r) Q s.
Proof.
  intros He Ho. unfold CreateAdminActionRequest. apply wp_bind, wp_fill_id. intros id s1 E1.
  apply wp_bind, wp_fill_time. intros t s2 E2. apply wp_bind, wp_exec.
  { intros e s3 E3. apply He. congruence. }
  intros [] s3 Hq. apply q_insert_inv in Hq as (Hn & _ & _ & E3). apply wp_ret.
  assert (st_db s2 = st_db s) as E by congruence. rewrite E in *. by apply Ho.
Qed.

Lemma requestSensitive_spec `{!AgeLaws} actor summary p w :
  Forall (λ kv, val_ok kv.2) (payload_members p) →
  wp (requestSensitive actor summary p) (λ r w',
    match r with
    | inl _ => w_db w' = w_db w
    | inr req => ∃ row, db_admin_actions (w_db w) !! AAR_ID req = None
        ∧ w_db w' = w_db w <| db_admin_actions := <[AAR_ID req := row]> (db_admin_actions (w_db w)) |>
        ∧ AAR_Status row = AdminActionPending ∧ AAR_RequestedBy row = Actor_ID actor
        ∧ AAR_Summary row = summary ∧ holds row p
    end) w.
Proof.
  intros Hok. unfold requestSensitive, Seal. apply wp_bind, wp_map_error, wp_lift.
  unfold encrypt. apply wp_bind. unfold wp at 1. simpl.
  destruct (age_seal _ _) as [[e|e|e]|ct] eqn:Es; try by apply wp_throw.
  apply wp_ret, wp_lift, wp_CreateAdminActionRequest; [done|]. simpl. intros id t s' Hn E.
  eexists. split; [done|]. split; [exact E|]. split_and!; try done.
  split; [done|]. exists (Marshal (payload_members p)). split; [by eapply age_open_seal|].
  by apply decode_members.
Qed.

(** * Approval *)

(** What must hold for an approval to execute anything. *)
Record may_execute w (actor : Actor) (id : ID) (req : AdminActionRequest) (p : Payload) : Prop :=
  MkMayExecute {
  me_admin : ITAdmin actor = true;
  me_tier : idpSensitive o = true;
  me_request : db_admin_actions (w_db w) !! id = Some req;
  me_pending : AAR_Status req = AdminActionPending;
  me_other : AAR_RequestedBy req ≠ Actor_ID actor;
  me_payload : holds req p }.
Lemma decode_payload_type typ raw p : decode_payload typ raw = Some p → typ = payload_type p.
Proof.
  unfold decode_payload. destruct (Unmarshal raw) as [m|]; [|done]. simpl.
  destruct typ; intros Hp; simplify_option_eq; done.
Qed.

(** The world an execution left, but for the decision and the audit log. *)
Definition decided_by (actor : Actor) (id : ID) (result : string) w' : Prop :=
  ∃ row, db_admin_actions (w_db w') !! id = Some row ∧ AAR_Status row = AdminActionApproved
    ∧ AAR_DecidedBy row = Actor_ID actor ∧ AAR_Result row = result.
Definition executed w actor id p (result : string) w' : Prop :=
  ∃ w1 w2, idle w w1 ∧ execute_payload o path_join (Actor_ID actor) p w1 = (inr result, w2)
    ∧ w_out w' = w_out w2 ∧ w_gw w' = w_gw w2 ∧ decided_by actor id result w'.

Lemma wp_DecideAdminActionRequest id status by_ reason result (Q : error + () → Store → Prop) s :
  (∀ e s', st_db s' = st_db s → Q (inl e) s') →
  (∀ r t s', db_admin_actions (st_db s) !! id = Some r → AAR_Status r = AdminActionPending →
     st_db s' = st_db s <| db_admin_actions :=
       <[id := r <| AAR_Status := status |> <| AAR_Reason := reason |> <| AAR_Result := result |>
                 <| AAR_DecidedBy := by_ |> <| AAR_DecidedAt := t |>]> (db_admin_actions (st_db s)) |> →
     Q (inr tt) s') →
  wp (DecideAdminActionRequest id status by_ reason result) Q s.
Proof.
  intros He Ho. unfold DecideAdminActionRequest. apply wp_bind, wp_now. intros t s1 E1.
  apply wp_affected, wp_exec; [intros e s2 E2; apply He; congruence|]. intros n s2 Hq.
  rewrite E1 in Hq. destruct (db_admin_actions (st_db s) !! id) as [r|] eqn:Er.
  2: { injection Hq as <- E. by apply He. }
  destruct (decide _) as [Hp|]; [|injection Hq as <- E; by apply He].
  apply q_update_inv in Hq as [(Hn & _)|(x & Hx & Hdb & ->)]; [by rewrite Er in Hn|].
  simpl. rewrite Er in Hx. injection Hx as <-. by eapply Ho.
Qed.

(** The decision itself, before its record. *)
Definition approval_core w actor id (req : AdminActionRequest)
    (r : error + (AdminActionRequest * string)) w' : Prop :=
  (is_inl r = true ∧ idle w w')
  ∨ ∃ p, may_execute w actor id req p
      ∧ match r with
        | inl _ => True
        | inr (_, result) => executed w actor id p result w'
        end.
Lemma decide_action_spec actor id req w w0 :
  idle w w0 → ITAdmin actor = true → db_admin_actions (w_db w) !! id = Some req →
  wp (decide_action o path_join actor id req) (approval_core w actor id req) w0.
Proof.
  intros Hi Hadmin Hreq. unfold decide_action.
  assert (∀ e w', idle w w' → approval_core w actor id req (inl e) w') as He by (intros; by left).
  destruct (decide (AAR_Status req ≠ _)) as [|Hst%dec_stable]; [by apply wp_throw, He|].
  apply wp_bind. unfold requireSensitiveTier, check.
  destruct (idpSensitive o) eqn:Htier; [apply wp_ret|by apply wp_throw, He].
  destruct (decide (AAR_RequestedBy req = _)) as [|Hother]; [by apply wp_throw, He|].
  apply wp_bind, wp_map_error, wp_lift. unfold Open, decrypt.
  destruct (age_open (AAR_PayloadCipher req)) as [[e|e]|plain] eqn:Ho;
    [apply wp_throw, He; by destruct w0..|apply wp_ret].
  assert (w0 <| w_store := w_store w0 |> = w0) as -> by (by destruct w0).
  apply wp_bind. unfold executeAdminAction.
  destruct (decode_payload (AAR_ActionType req) plain) as [p|] eqn:Hp.
  2: { destruct (AAR_ActionType req); by apply wp_throw, He. }
  assert (may_execute w actor id req p) as Hme.
  { split; try done. split; [by eapply decode_payload_type|by exists plain]. }
  pose proof (decode_payload_type _ _ _ Hp) as Htyp.
  assert (match AAR_ActionType req with
          | AdminActionOther s => throw (ErrMsg ("unknown sensitive admin action " +:+ quoted s))
          | _ => execute_payload o path_join (Actor_ID actor) p
          end = execute_payload (C := C) o path_join (Actor_ID actor) p) as ->.
  { rewrite Htyp. by destruct p. }
  unfold wp at 1. destruct (execute_payload _ _ _ p w0) as [[e|result] w2] eqn:Hx; cbn.
  { right. by exists p. }
  apply wp_bind, wp_lift, wp_DecideAdminActionRequest; [intros; right; by exists p|].
  intros r t s' Hr _ Hdb. apply wp_ret. right. exists p. split; [done|].
  exists w0, w2. split_and!; try done. eexists. simpl. rewrite Hdb. simpl.
  by rewrite lookup_insert_eq.
Qed.

(** The whole approval. *)
Definition sensitive_approval w actor id (r : error + AdminActionRequest) w' : Prop :=
  (is_inl r = true ∧ untouched w w')
  ∨ ∃ req p, may_execute w actor id req p
      ∧ match r with
        | inl _ => True
        | inr req' => executed w actor id p (AAR_Result req') w'
        end.

Lemma idle_untouched w w' : idle w w' → untouched w w'.
Proof. intros [Hd]. split; try done. by rewrite Hd. Qed.
Lemma untouched_trans w1 w2 w3 : untouched w1 w2 → untouched w2 w3 → untouched w1 w3.
Proof. intros [] []. split; congruence. Qed.
Lemma untouched_actions w w' : untouched w w' → db_admin_actions (w_db w') = db_admin_actions (w_db w).
Proof. intros [Hd]. unfold unlogged in Hd. by injection Hd. Qed.

Lemma wp_audit_throw actor act h err {A} w w0 :
  untouched w w0 →
  wp (itAudit (X := X) (C := C) actor act h (Some err);; throw err : OM A)
     (λ r w', is_inl r = true ∧ untouched w w') w0.
Proof.
  intros Hu. apply wp_bind, wp_itAuditBeam. intros r w' [Hu' Hr]. destruct r as [e|[]]; [|done].
  split; [done|]. by eapply untouched_trans.
Qed.

Lemma ApproveAdminAction_spec actor id w :
  wp (ApproveAdminAction o path_join actor id) (sensitive_approval w actor id) w.
Proof.
  unfold ApproveAdminAction, requireIT.
  assert (∀ act e w0, untouched w w0 → wp (itAudit (X := X) (C := C) actor act no_id (Some e);; throw e : OM _)
    (sensitive_approval w actor id) w0) as Hfail.
  { intros act e w0 Hu. eapply wp_mono; [by apply (wp_audit_throw _ _ _ _ w w0)|].
    intros r w' (Hr & Hw). by left. }
  destruct (ITAdmin actor) eqn:Hadmin; [|by apply Hfail].
  apply wp_bind, wp_attempt. unfold GetAdminActionRequest. apply wp_read.
  { intros e w1 Hi. by apply Hfail, idle_untouched. }
  intros req w1 Hi1 Hreq. apply wp_bind. unfold it_only, it_only_beam, requireIT. rewrite Hadmin.
  apply wp_bind, wp_attempt. eapply wp_mono; [by apply (decide_action_spec actor id req w w1)|].
  intros [e|[req' result]] w2 [(Hl & Hi2)|(p & Hme & Hx)]; try done.
  - apply wp_bind, wp_itAuditBeam. intros r w3 [Hu Hr]. destruct r as [e'|[]]; [|done].
    left. split; [done|]. eapply untouched_trans; [by apply idle_untouched|done].
  - apply wp_bind, wp_itAuditBeam. intros r w3 [Hu Hr]. destruct r as [e'|[]]; [|done].
    right. by exists req, p.
  - apply wp_bind, wp_itAuditBeam. intros r w3 [Hu Hr].
    destruct r as [e'|[]]; [right; by exists req, p|]. apply wp_ret, wp_ret. right. exists req, p.
    split; [done|]. simpl. destruct Hx as (v1 & v2 & Hv1 & Hv2 & Hout & Hgw & row & Hrow & Hd).
    exists v1, v2. split_and!; try done.
    + by rewrite (unt_out _ _ Hu).
    + by rewrite (unt_gw _ _ Hu).
    + exists row. by rewrite (untouched_actions _ _ Hu).
Qed.
End sensitive.

(** A request holds one intent. *)
Lemma holds_one `{!Age} req p p' : holds req p → holds req p' → p = p'.
Proof. intros (_ & b & Hb & Hp) (_ & b' & Hb' & Hp'). congruence. Qed.

(** Sensitive actions need two administrators.  An approval either fails having changed
    nothing but the audit log, or the caller is an administrator, the sensitive tier is on,
    the request was pending and another administrator's, and its sealed payload opened to an
    intent of the request's type; a success means exactly that intent was executed and the
    request is decided, by this administrator, with the execution's result. *)
Theorem sensitive_four_eyes `{!Env, !Age, !Rand} {X C : Type} `{!Caddy C}
    `{!RuntimeDriver X, !Platform X, !Directory X, !Appliance X}
    (o : Orchestrator) (path_join : string → string → string) (actor : Actor) (id : ID)
    (w : World X C) :
  wp (ApproveAdminAction o path_join actor id) (λ r w',
    (is_inl r = true ∧ untouched w w')
    ∨ ∃ req p, may_execute o w actor id req p
        ∧ match r with
          | inl _ => True
          | inr req' => executed o path_join w actor id p (AAR_Result req') w'
          end) w.
Proof. apply ApproveAdminAction_spec. Qed.


(** The tier is on, and there are two administrators. *)
Definition Orch_sensitive : Orchestrator := Orch1 <| idpSensitive := true |>.
Definition Root2 : Actor := MkActor "eve" "jti-2" true "192.0.2.10" [] "eve@example.com".
Definition Harden : Payload := SetSecurityContextPayload "sales" "runsc".
Definition Requested : (error + AdminActionRequest) * World Engine ScriptedCaddy :=
  requestSensitive Root "sales to runsc" Harden World1.
Definition Approved : (error + AdminActionRequest) * World Engine ScriptedCaddy :=
  match fst Requested with
  | inl e => (inl e, snd Requested)
  | inr req => ApproveAdminAction Orch_sensitive slash_join Root2 (AAR_ID req) (snd Requested)
  end.
