(* ===== verification/OrchOffboard.v ===== *)
(** Taking access away: once an administrator has disabled or removed an identity, or
    revoked a membership, no operation users can perform brings the access back. *)
From S2P Require Import Prelude GoStrings Domain Gateway GatewayProofs Store StoreOps Fixtures.
From S2P Require Import StoreInv AuditLog AuditProofs Policy PolicyProofs Vault VaultProofs.
From S2P Require Import Outside Orch Facility OrchAdmin OrchSensitive OrchBeam OrchLife.
From S2P Require Import OrchFixtures OrchScope OrchFrames OrchRun OrchAdminRun.
From S2P Require Import OrchGovern.

Inductive Offboarding :=
  | Disable (identityID : ID)
  | Deregister (identityID : ID)
  | Revoke (identityID beamhallID : ID).
Definition offboard_op (x : Offboarding) : AdminOp :=
  match x with
  | Disable i => ASetIdentityStatus i (inr IdentityDisabled)
  | Deregister i => ADeregisterIdentity i
  | Revoke i h => ARevokeMembership i h
  end.
(** The requests it is to stop: everything the identity asks for, or what it asks for in
    the beamhall without being an administrator. *)
Definition concerns (x : Offboarding) (req : Request) : Prop :=
  match x with
  | Disable i | Deregister i => Req_Actor req = i
  | Revoke i h => Req_Actor req = i ∧ Req_BeamhallID req = h ∧ Req_ITAdmin req = false
  end.

(** What the offboarding leaves in the tables. *)
Definition gone (x : Offboarding) (d : DB) : Prop :=
  match x with
  | Disable i => ∀ r, db_identities d !! i = Some r → Identity_Status r = IdentityDisabled
  | Deregister i => db_identities d !! i = None
  | Revoke i h => select_one (membership_of i h) (db_memberships d) = None
  end.

Lemma gone_refused x d req : gone x d → concerns x req → allowed d req = false.
Proof.
  unfold allowed. destruct x as [i|i|i h]; simpl.
  - intros Hg <-. destruct (db_identities d !! Req_Actor req) as [r|] eqn:E; [|by rewrite andb_false_r].
    rewrite (Hg r eq_refl). by rewrite andb_false_r.
  - intros Hg <-. rewrite Hg. by rewrite andb_false_r.
  - intros Hg (<- & <- & ->). by rewrite Hg, andb_false_r.
Qed.

Lemma gone_same x d d' : it_tables d' = it_tables d → gone x d → gone x d'.
Proof. intros E. assert (db_identities d' = db_identities d ∧ db_memberships d' = db_memberships d)
  as [E1 E2] by (by injection E). by destruct x; simpl; rewrite ?E1, ?E2. Qed.

(** The unique index: with its row deleted no membership of the pair is left. *)
Lemma membership_deleted i h m d :
  db_ok d → select_one (membership_of i h) (db_memberships d) = Some m →
  select_one (membership_of i h) (delete (Membership_ID m) (db_memberships d)) = None.
Proof.
  intros Hok Hm. apply select_one_Some in Hm as [Hp [k Hk]].
  destruct (ok_memberships _ Hok) as [Hid Huniq]. apply select_one_None. intros k' m' Hk' Hp'.
  apply lookup_delete_Some in Hk' as [Hne Hk'].
  assert (k = k') as ->.
  { apply (Huniq _ _ _ _ Hk Hk'). unfold membership_of in *.
    apply bool_decide_unpack in Hp as [-> ->]. by apply bool_decide_unpack in Hp' as [-> ->]. }
  apply Hne. by apply Hid in Hk.
Qed.

Section offboarding.
Context `{!Env, !Age, !Rand} {X C : Type} `{!Caddy C}.
Context `{!RuntimeDriver X, !Platform X, !Directory X, !Appliance X}.
Context `{!IdentityProvider X, !Brokers X}.
Context (o : Orchestrator) (path_join : string → string → string) (goos_goarch : string).
Notation World := (World X C).
Implicit Types (w : World).

Lemma untouched_it_tables w w' : untouched w w' → it_tables (w_db w') = it_tables (w_db w).
Proof.
  intros [Hd]. change (it_tables (unlogged (w_db w')) = it_tables (w_db w)). by rewrite Hd.
Qed.
(** Whatever the first call did. *)
Lemma wp_whatever {A B} (m : OM A) (k : A → OM B) (Q : error + B → World → Prop) w :
  (∀ e w', Q (inl e) w') → (∀ a w', wp (k a) Q w') → wp (m ≫= k) Q w.
Proof.
  intros He Hk. apply wp_bind. unfold wp at 1. destruct (fst (m w)); [apply He|apply Hk].
Qed.

(** A gated operation that succeeds leaves what its body left. *)
Lemma wp_it_only_done a act h b x (m : OM ()) w :
  wp m (λ r w', is_inl r = false → gone x (w_db w')) w →
  wp (it_only_beam a act h b m) (λ r w', is_inl r = false → gone x (w_db w')) w.
Proof.
  intros Hm. unfold it_only_beam. destruct (requireIT a) as [err|].
  { apply wp_bind, wp_itAuditBeam. intros [e|[]] w' [_ Hr]; [done|]. by apply wp_throw. }
  apply wp_bind, wp_attempt. eapply wp_mono; [exact Hm|]. intros [e|[]] w1 Hg.
  - apply wp_bind, wp_itAuditBeam. intros [e'|[]] w' [_ Hr]; [done|]. by apply wp_throw.
  - apply wp_bind, wp_itAuditBeam. intros [e'|[]] w' [Hu _]; [done|]. apply wp_ret. intros _.
    eapply gone_same; [by apply untouched_it_tables|by apply Hg].
Qed.

Lemma offboard_gone a x w :
  db_ok (w_db w) →
  wp (run_admin o path_join goos_goarch a (offboard_op x))
     (λ r w', is_inl r = false → gone x (w_db w')) w.
Proof.
  intros Hok. destruct x as [i|i|i h]; apply (wp_it_only_done _ _ _ _ _).
  - apply wp_bind, wp_map_error, wp_read; [done|]. intros r w1 Hi1 Hr. simpl.
    apply wp_lift, wp_affected, wp_exec; [done|]. intros n s' Hq. rewrite (idle_db _ _ Hi1) in Hq.
    assert (Identity_ID r = i) as Hid by (by eapply table_keyed; [apply ok_identities|]).
    simpl in Hq. rewrite Hid in Hq.
    apply q_update_inv in Hq as [(_ & _ & ->)|(y & _ & E & ->)]; [done|]. simpl. intros _ r' Hr'.
    rewrite E in Hr'. simpl in Hr'. rewrite lookup_insert_eq in Hr'. by injection Hr' as <-.
  - apply wp_whatever; [done|]. intros [e|r] w1; [by apply wp_throw|].
    apply wp_whatever; [done|]. intros ms w2. case_decide; [by apply wp_throw|].
    apply wp_lift, wp_exec; [done|]. intros [] s' Hq _. case_match; [done|].
    injection Hq as E. simpl. rewrite <-E. simpl. by rewrite lookup_delete_eq.
  - apply wp_bind, wp_attempt, wp_read; [intros; by apply wp_throw|]. intros m w1 Hi1 Hm.
    apply wp_lift, wp_exec; [done|]. intros [] s' Hq _. injection Hq as E. simpl.
    rewrite <-E, (idle_db _ _ Hi1). by apply membership_deleted.
Qed.
End offboarding.

(** C13: offboarding is effective and lasting.  Once an administrator has successfully disabled
    or deregistered an identity, or revoked a membership, then after any sequence of users'
    operations, whatever fails, the enforcement point refuses every request it concerns:
    all of the identity's, even with an administrator's token, or all it makes in the
    beamhall. *)
Theorem offboarding_is_effective `{!Env, !Age, !Rand} {X C : Type} `{!Caddy C}
    `{!RuntimeDriver X, !Platform X, !Directory X, !Appliance X}
    `{!DatabaseProvisioner X, !IdentityProvider X, !Brokers X}
    (o : Orchestrator) (polls : nat) (path_join : string → string → string)
    (goos_goarch : string) (a : Actor) (x : Offboarding) (ops : list OrchOp) (req : Request)
    (w w1 : World X C)
    (Hok : db_ok (w_db w))
    (Hdone : run_admin o path_join goos_goarch a (offboard_op x) w = (inr tt, w1))
    (Hreq : concerns x req) :
  wp (Authorize req) (λ r _, is_inl r = true) (w_store (snd (run_orchs o polls ops w1))).
Proof.
  pose proof (offboard_gone o path_join goos_goarch a x w Hok) as Hg.
  unfold wp in Hg. rewrite Hdone in Hg. specialize (Hg eq_refl). simpl in Hg.
  assert (frames (on_world (same it_tables) anything) (run_orchs (C := C) o polls ops)) as Hf.
  { apply frames_for_each; [tc_solve|]. intros op. apply frames_logged, frames_run_orch_it. }
  destruct (Hf w1) as [Ht _].
  eapply wp_mono; [apply Authorize_spec|]. intros r s' [_ Hr].
  destruct (is_inl r); [done|]. specialize (Hr eq_refl).
  change (allowed (w_db (snd (run_orchs o polls ops w1))) req = true) in Hr.
  rewrite (gone_refused x) in Hr; [done| |done]. by eapply gone_same.
Qed.

(** Bob could deploy; disabled, he no longer can, whatever the other users do. *)
Lemma offboarding_is_effective_witness :
  let w1 := snd (run_admin Orch1 slash_join "linux_amd64" Root (offboard_op (Disable "bob")) World1) in
  let w2 := snd (run_orchs Orch1 3 [ODeployBeam Alice "H1" "B1" "img" "sha256:1"] w1) in
  is_inl (fst (Authorize (TestRequest ActionDeployBeam) (w_store World1))) = false
  ∧ wp (Authorize (TestRequest ActionDeployBeam)) (λ r _, is_inl r = true) (w_store w2).
Proof.
  intros w1 w2. split; [vm_compute; reflexivity|].
  apply (offboarding_is_effective Orch1 3 slash_join "linux_amd64" Root (Disable "bob")
    [ODeployBeam Alice "H1" "B1" "img" "sha256:1"] (TestRequest ActionDeployBeam) World1 w1).
  - split; literal_table.
  - vm_compute. reflexivity.
  - reflexivity.
Defined.
