(* ===== verification/OrchUsing.v ===== *)
(** The using tier cannot probe: what a person finds depends only on the apps published to
    them, so an app that is not theirs and an app that does not exist look the same. *)
From S2P Require Import Prelude GoStrings Domain Gateway GatewayProofs Store StoreOps Fixtures.
From S2P Require Import AuditLog Policy Vault VaultProofs Outside Orch Facility OrchAdmin.
From S2P Require Import OrchFixtures OrchScope.

(** * Equal answers on two databases *)

Section indist.
Context `{!Env, !Age, !Rand} {X C : Type} `{!Caddy C}.
Context `{!RuntimeDriver X, !Platform X}.
Notation World := (World X C).
Implicit Types (w : World) (d : DB).

(** Run at the same step on [d1] and on [d2], the call gives the same answer and leaves
    both as they were. *)
Definition indist d1 d2 {A} (m : OM (X := X) (C := C) A) : Prop := ∀ w1 w2,
  w_db w1 = d1 → w_db w2 = d2 → st_step (w_store w1) = st_step (w_store w2) →
  (m w1).1 = (m w2).1 ∧ w_db (m w1).2 = d1 ∧ w_db (m w2).2 = d2
  ∧ st_step (w_store (m w1).2) = st_step (w_store (m w2).2).

Context (d1 d2 : DB).
Lemma indist_ret {A} (a : A) : indist d1 d2 (mret a).
Proof. done. Qed.
Lemma indist_throw {A} e : indist d1 d2 (throw e : OM A).
Proof. done. Qed.
Lemma indist_bind {A B} (m : OM A) (k : A → OM B) :
  indist d1 d2 m → (∀ a, indist d1 d2 (k a)) → indist d1 d2 (m ≫= k).
Proof.
  intros Hm Hk w1 w2 Hw1 Hw2 Hs. destruct (Hm w1 w2 Hw1 Hw2 Hs) as (Hr & E1 & E2 & Es).
  unfold mbind, M_bind. destruct (m w1) as [r1 v1], (m w2) as [r2 v2]. simpl in *. subst r2.
  destruct r1 as [e|a]; [done|]. by apply Hk.
Qed.
Lemma indist_attempt {A} (m : OM A) : indist d1 d2 m → indist d1 d2 (attempt m).
Proof.
  intros Hm w1 w2 Hw1 Hw2 Hs. destruct (Hm w1 w2 Hw1 Hw2 Hs) as (Hr & Hrest).
  unfold attempt. simpl. by rewrite Hr.
Qed.
(** A statement that reads, and reads the same. *)
Lemma indist_query {A} (q : query A) (r : db_error + A) :
  (∀ d, d = d1 ∨ d = d2 → q d = match r with inl e => inl e | inr a => inr (a, d) end) →
  indist d1 d2 (in_store (exec q)).
Proof.
  intros Hq w1 w2 <- <- Hs. unfold in_store, lift, exec. simpl. rewrite <-Hs.
  destruct (fault _); simpl; [done|]. rewrite !Hq by auto. by destruct r.
Qed.
Lemma indist_one {A} (f : DB → option A) : f d1 = f d2 → indist d1 d2 (in_store (exec (q_one f))).
Proof.
  intros Hf. apply (indist_query _ (match f d1 with Some a => inr a | None => inl NoRows end)).
  intros d Hd. unfold q_one. assert (f d = f d1) as -> by (destruct Hd; congruence).
  by destruct (f d1).
Qed.
Lemma indist_read {A} (f : DB → A) : f d1 = f d2 → indist d1 d2 (in_store (exec (q_read f))).
Proof.
  intros Hf. apply (indist_query _ (inr (f d1))). intros d Hd. unfold q_read.
  assert (f d = f d1) as -> by (destruct Hd; congruence). done.
Qed.
(** A row looked up, whose error is looked at. *)
Lemma indist_find {A B} (f : DB → option A) (k : error + A → OM B) :
  f d1 = f d2 → (∀ e, indist d1 d2 (k (inl e))) →
  (∀ a, f d1 = Some a → indist d1 d2 (k (inr a))) →
  indist d1 d2 (attempt (in_store (exec (q_one f))) ≫= k).
Proof.
  intros Hf He Ha w1 w2 Hw1 Hw2 Hs.
  destruct (indist_attempt _ (indist_one f Hf) w1 w2 Hw1 Hw2 Hs) as (Hr & E1 & E2 & Es).
  unfold mbind, M_bind.
  assert (∀ a, (attempt (in_store (exec (q_one f))) w1).1 = inr (inr a) → f d1 = Some a) as Hfound.
  { intros a. unfold attempt, in_store, lift, exec, q_one. simpl. rewrite Hw1.
    destruct (fault _); simpl; [done|]. destruct (f d1); simpl; congruence. }
  destruct (attempt _ w1) as [r1 v1], (attempt _ w2) as [r2 v2]. simpl in *. subst r2.
  destruct r1 as [e|[e|a]]; [done|by apply He|by apply (Ha a (Hfound a eq_refl))].
Qed.
(** Rows read: what follows may rely on them. *)
Lemma indist_rows {A B} (f : DB → A) (k : A → OM B) :
  f d1 = f d2 → indist d1 d2 (k (f d1)) → indist d1 d2 (in_store (exec (q_read f)) ≫= k).
Proof.
  intros Hf Hk w1 w2 Hw1 Hw2 Hs.
  destruct (indist_read f Hf w1 w2 Hw1 Hw2 Hs) as (Hr & E1 & E2 & Es). unfold mbind, M_bind.
  assert (∀ a, (in_store (exec (q_read f)) w1).1 = inr a → a = f d1) as Hread.
  { intros a. unfold in_store, lift, exec, q_read. simpl. rewrite Hw1.
    destruct (fault _); simpl; congruence. }
  destruct (in_store _ w1) as [r1 v1], (in_store _ w2) as [r2 v2]. simpl in *. subst r2.
  destruct r1 as [e|a]; [done|]. rewrite (Hread a eq_refl). by apply Hk.
Qed.
End indist.

(** * What a caller may know *)

Section tier.
Context `{!Env, !Age, !Rand} {X C : Type} `{!Caddy C}.
Context `{!RuntimeDriver X, !Platform X}.
Context (o : Orchestrator) (actor : Actor).
Notation OM := (OM (X := X) (C := C)).

Definition published (d : DB) : list BeamAudience :=
  order_by_int (λ ba, ns (BA_PublishedAt ba)) (rows (db_audiences d)).
Definition for_actor (pub : BeamAudience) : bool :=
  Allows (BA_Audience pub) (Actor_ID actor) (Actor_Groups actor).
(** The publications the caller is in the audience of. *)
Definition published_to (d : DB) : list BeamAudience :=
  filter (λ pub, for_actor pub = true) (published d).
(** What is shown of one app. *)
Definition resources_of (d : DB) (b : ID) : list Resource :=
  order_by_int (λ r, ns (Res_CreatedAt r)) (select (λ r, bool_decide (Res_BeamID r = b)) (db_resources d)).
Record same_app (d1 d2 : DB) (pub : BeamAudience) : Prop := MkSameApp {
  sa_beam : db_beams d1 !! BA_BeamID pub = db_beams d2 !! BA_BeamID pub;
  sa_hall : db_beamhalls d1 !! BA_BeamhallID pub = db_beamhalls d2 !! BA_BeamhallID pub;
  sa_more : ∀ beam, db_beams d1 !! BA_BeamID pub = Some beam →
    resources_of d1 (Beam_ID beam) = resources_of d2 (Beam_ID beam)
    ∧ db_releases d1 !! Beam_LiveReleaseID beam = db_releases d2 !! Beam_LiveReleaseID beam }.
(** Two databases that agree on the apps published to the caller. *)
Record same_apps (d1 d2 : DB) : Prop := MkSameApps {
  sas_pubs : published_to d1 = published_to d2;
  sas_app : ∀ pub, pub ∈ published_to d1 → same_app d1 d2 pub }.

Lemma appView_indist d1 d2 pub : same_app d1 d2 pub → indist d1 d2 (appView o pub : OM _).
Proof.
  intros [Hb Hh Hm]. unfold appView, GetBeam, GetBeamhall, GetRelease, beamSignIn,
    ListResourcesByBeam, list_resources.
  apply indist_find; [done|intros; apply indist_ret|]. intros beam Hbeam.
  destruct (Hm beam Hbeam) as [Hres Hrel]. case_decide; [apply indist_ret|].
  apply indist_find; [done|intros; apply indist_ret|]. intros bh _.
  case_decide; [apply indist_ret|].
  apply indist_bind.
  { apply indist_bind; [by apply indist_attempt, indist_read|]. intros r. apply indist_ret. }
  intros signIn. destruct (negb _); [apply indist_ret|]. case_decide; [apply indist_ret|].
  apply indist_bind; [by apply indist_attempt, indist_one|]. intros rel. apply indist_ret.
Qed.

(** Publications that are not the caller's are passed over without a look. *)
Lemma visible_apps_own pubs w :
  visible_apps o actor pubs w
  = visible_apps (X := X) (C := C) o actor (filter (λ pub, for_actor pub = true) pubs) w.
Proof.
  revert w. induction pubs as [|pub pubs IH]; intros w; [done|]. rewrite filter_cons.
  destruct (decide (for_actor pub = true)) as [Hf|Hf]; simpl.
  - unfold mbind, M_bind. destruct (visible o actor pub w) as [[e|v] w']; [done|]. by rewrite IH.
  - unfold visible at 1. unfold for_actor in Hf. destruct (Allows _ _ _); [done|].
    rewrite <-IH. unfold mbind, M_bind. simpl.
    by destruct (visible_apps o actor pubs w) as [[e|l] w'].
Qed.
Lemma visible_apps_indist d1 d2 pubs : (∀ pub, pub ∈ pubs → same_app d1 d2 pub) →
  indist d1 d2 (visible_apps o actor pubs : OM _).
Proof.
  induction pubs as [|pub pubs IH]; intros Hs; [apply indist_ret|]. simpl. apply indist_bind.
  { unfold visible. destruct (Allows _ _ _); [|apply indist_ret]. apply appView_indist, Hs. left. }
  intros v. apply indist_bind; [apply IH; intros p Hp; apply Hs; by right|]. intros rest.
  apply indist_ret.
Qed.

(** The answer after the publications were read. *)
Lemma published_apps_indist d1 d2 {A} (k : list (BeamAudience * AppView) → OM A) :
  same_apps d1 d2 → (∀ l, indist d1 d2 (k l)) →
  indist d1 d2 (pubs ← in_store ListBeamAudiences; apps ← visible_apps o actor pubs; k apps).
Proof.
  intros [Hp Ha] Hk w1 w2 Hw1 Hw2 Hs.
  assert (∀ w, (pubs ← in_store ListBeamAudiences; apps ← visible_apps o actor pubs; k apps) w
    = (pubs ← in_store (exec (q_read published_to)); apps ← visible_apps o actor pubs; k apps) w) as Hown.
  { intros w. unfold ListBeamAudiences, mbind, M_bind, in_store, lift, exec, q_read. simpl.
    destruct (fault _); simpl; [done|]. by rewrite visible_apps_own. }
  rewrite !Hown. apply (indist_rows d1 d2 published_to); [done| |done..].
  apply indist_bind; [by apply visible_apps_indist|done].
Qed.
End tier.

(** C14: the using tier cannot probe.  Whatever its calls answer (the list of apps, the
    description of one, which of several, "not published to you", a failure) depends only
    on the apps published to the caller: on two databases that agree on those, each call
    gives the same answer at the same step.  So an app published to others, one that is
    not published and one that does not exist cannot be told apart.  Nothing is written. *)
Theorem using_tier_cannot_probe `{!Env, !Age, !Rand} {X C : Type} `{!Caddy C}
    `{!RuntimeDriver X, !Platform X} (o : Orchestrator) (actor : Actor) (w1 w2 : World X C)
    (Hsame : same_apps actor (w_db w1) (w_db w2))
    (Hstep : st_step (w_store w1) = st_step (w_store w2)) :
  (ListApps o actor w1).1 = (ListApps o actor w2).1
  ∧ (∀ app workspace, (DescribeApp o actor app workspace w1).1 = (DescribeApp o actor app workspace w2).1)
  ∧ (∀ app workspace, w_db (DescribeApp o actor app workspace w1).2 = w_db w1)
  ∧ w_db (ListApps o actor w1).2 = w_db w1.
Proof.
  assert (indist (w_db w1) (w_db w2) (ListApps (X := X) (C := C) o actor)) as Hl.
  { apply published_apps_indist; [done|]. intros l. apply indist_ret. }
  assert (∀ app ws, indist (w_db w1) (w_db w2) (DescribeApp (X := X) (C := C) o actor app ws)) as Hd.
  { intros app ws. apply indist_bind; [|intros; apply indist_ret].
    apply published_apps_indist; [done|]. intros l.
    destruct (filter _ l) as [|pv [|pv2 l']]; [apply indist_throw|apply indist_ret|apply indist_throw]. }
  destruct (Hl w1 w2) as (? & ? & _ & _); [done..|]. split; [done|].
  split; [|split; [|done]]; intros app ws; by destruct (Hd app ws w1 w2) as (? & ? & _ & _).
Qed.

(** Alice, in no group; the fixtures' beam published to her, and another to a group. *)
Definition BeamPayroll : Beam :=
  Beam1 <| Beam_ID := "B2" |> <| Beam_Slug := "payroll" |> <| Beam_DisplayName := "Payroll" |>.
Definition PubCRM : BeamAudience := MkBeamAudience "B1" "H1" (MkAudience false [] ["ada"]) "root" T0 T0.
Definition PubPayroll : BeamAudience := MkBeamAudience "B2" "H1" (MkAudience false ["hr"] []) "root" T0 T0.
Definition World_published : World Engine ScriptedCaddy :=
  World_of (DB_live <| db_audiences := {["B1" := PubCRM]} |>).
Definition World_secret : World Engine ScriptedCaddy :=
  World_of (DB_live <| db_beams := {["B1" := BeamLive; "B2" := BeamPayroll]} |>
                    <| db_audiences := {["B1" := PubCRM; "B2" := PubPayroll]} |>).
Lemma using_tier_cannot_probe_witness :
  same_apps Alice (w_db World_published) (w_db World_secret)
  ∧ (DescribeApp Orch1 Alice "payroll" EmptyString World_published).1 = inl ErrAppNotPublished
  ∧ (DescribeApp Orch1 Alice "payroll" EmptyString World_published).1
    = (DescribeApp Orch1 Alice "payroll" EmptyString World_secret).1
  ∧ AV_App <$> match (ListApps Orch1 Alice World_secret).1 with inr l => l | inl _ => [] end = ["crm"].
Proof.
  assert (same_apps Alice (w_db World_published) (w_db World_secret)) as Hs.
  { split; [vm_compute; reflexivity|]. intros pub Hin. vm_compute in Hin.
    apply list_elem_of_singleton in Hin as ->. split; [reflexivity|reflexivity|].
    intros beam Hb. vm_compute in Hb. injection Hb as <-. split; vm_compute; reflexivity. }
  split; [exact Hs|]. split; [vm_compute; reflexivity|].
  destruct (using_tier_cannot_probe Orch1 Alice World_published World_secret Hs eq_refl) as (_ & Hd & _ & _).
  split; [apply Hd|vm_compute; reflexivity].
Defined.
