(* ===== verification/OrchRelay.v ===== *)
(** What the brokered calls guarantee: a beam reaches only what it was granted and cannot
    tell the rest apart, the relay believes only a beam's own container, and what an app
    answers leaves the appliance without the secrets of its beam. *)
From S2P Require Import Prelude GoStrings Sha256 Domain Gateway GatewayProofs Store StoreOps.
From S2P Require Import Fixtures StoreInv AuditLog AuditProofs Policy PolicyProofs Vault.
From S2P Require Import VaultProofs Scrub ScrubProofs Outside Orch AppTools Facility OrchAdmin.
From S2P Require Import OrchTools OrchBeam OrchLife OrchFixtures OrchScope OrchFrames OrchRun.
From S2P Require Import OrchUsing.

(** * The errors a computation may raise *)
Section raises.
Context {W : Type} (P : error → Prop).
Definition raises {A} (m : M W error A) : Prop := ∀ w e, (m w).1 = inl e → P e.

Lemma raises_ret {A} (a : A) : raises (mret a).
Proof. done. Qed.
Lemma raises_throw {A} e : P e → raises (A:=A) (throw e).
Proof. by intros Hp w e' [= <-]. Qed.
Lemma raises_bind {A B} (m : M W error A) (k : A → M W error B) :
  raises m → (∀ a, raises (k a)) → raises (m ≫= k).
Proof.
  intros Hm Hk w e. unfold mbind, M_bind. specialize (Hm w).
  destruct (m w) as [[e'|a] w']; simpl in *; [|by apply Hk]. intros [= <-]. by apply Hm.
Qed.
Lemma raises_attempt {A} (m : M W error A) : raises (attempt m).
Proof. done. Qed.
Lemma raises_map_error {A} f (m : M W error A) : (∀ e, P (f e)) → raises (map_error f m).
Proof. intros Hf w e. unfold map_error. destruct (m w).1; [|done]. by intros [= <-]. Qed.
End raises.

(** Errors that are not an app's own. *)
Definition not_app_tool (e : error) : Prop := ∀ n body, e ≠ ErrAppTool n body.

Ltac raises_step :=
  lazymatch goal with
  | |- ∀ _, _ => intros
  | |- raises _ (mret _) => apply raises_ret
  | |- raises _ (throw _) => apply raises_throw; try done
  | |- raises _ (_ ≫= _) => apply raises_bind
  | |- raises _ (attempt _) => apply raises_attempt
  | |- raises _ (wrapping _ _) => apply raises_map_error; done
  | |- raises _ (match _ with _ => _ end) => case_match; subst
  | |- _ => idtac
  end; try solve [auto with raises nocore].
Ltac solve_raises := repeat (progress raises_step).

(** * Secrets do not leave *)

(** [v] is a secret value injected into the beam: its own or its beamhall's. *)
Definition secret_of `{!Age} (d : DB) (beamhallID beamID : ID) (v : string) : Prop :=
  ∃ id sec ct, db_secrets d !! id = Some sec ∧ Secret_BeamhallID sec = beamhallID
    ∧ (Secret_BeamID sec = no_id ∨ Secret_BeamID sec = beamID)
    ∧ db_secret_values d !! Secret_ValueRef sec = Some ct ∧ age_open ct = inr v.
(** No such value occurs in the text, short ones and parts of the mask excepted. *)
Definition hidden `{!Age} (d : DB) (beamhallID beamID : ID) (text : string) : Prop :=
  ∀ v, secret_of d beamhallID beamID v → minScrubLen ≤ String.length v → starless v →
    ¬ occurs v Mask → ¬ occurs v text.
Definition secrets_of (d : DB) := (db_secrets d, db_secret_values d).
Lemma hidden_same `{!Age} d d' h b text : secrets_of d' = secrets_of d → hidden d h b text → hidden d' h b text.
Proof.
  intros [= E1 E2] Hh v Hv. apply Hh. unfold secret_of in *. by rewrite <-E1, <-E2.
Qed.

Section scrubber.
Context `{!Env, !Age}.

Lemma wp_scrub_values b metas (Q : error + list string → Store → Prop) s :
  (∀ e s', st_db s' = st_db s → not_app_tool e → Q (inl e) s') →
  (∀ vals s', st_db s' = st_db s →
     (∀ sec ct v, sec ∈ metas → (Secret_BeamID sec = no_id ∨ Secret_BeamID sec = b) →
        db_secret_values (st_db s) !! Secret_ValueRef sec = Some ct → age_open ct = inr v →
        v ∈ vals) →
     Q (inr vals) s') →
  wp (scrub_values b metas) Q s.
Proof.
  revert Q s. induction metas as [|m metas IH]; intros Q s He Ho; simpl.
  { apply wp_ret, Ho; [done|]. by intros sec ct v ?%not_elem_of_nil. }
  case_decide as Hm.
  { apply IH; [done|]. intros vals s' E Hv. apply Ho; [done|].
    intros sec ct v [->|Hin]%elem_of_cons Hs; [naive_solver|by eapply Hv]. }
  apply wp_bind, wp_map_error, wp_bind, wp_exec; [intros e s' E; by apply He|].
  intros ct0 s1 Hq. unfold q_one in Hq.
  destruct (db_secret_values (st_db s) !! Secret_ValueRef m) as [ct1|] eqn:Ect; [|done].
  injection Hq as -> E1. unfold decrypt. destruct (age_open ct0) as [[e|e]|p] eqn:Eo.
  1,2: apply wp_throw, He; [by rewrite <-E1|done].
  apply wp_ret, wp_bind, IH; [intros e s' E; apply He; congruence|].
  intros vals s2 E2 Hv. apply wp_ret, Ho; [congruence|].
  intros sec ct v [->|Hin]%elem_of_cons Hs Hct Hop.
  - rewrite Ect in Hct. injection Hct as <-. rewrite Eo in Hop. injection Hop as <-. left.
  - right. eapply Hv; [done..| |done]. by rewrite <-E1.
Qed.

Lemma wp_ScrubberFor h b (Q : error + Scrubber → Store → Prop) s :
  (∀ e s', st_db s' = st_db s → not_app_tool e → Q (inl e) s') →
  (∀ scrub s', st_db s' = st_db s → (∀ text, hidden (st_db s) h b (Scrub scrub text)) →
     Q (inr scrub) s') →
  wp (ScrubberFor h b) Q s.
Proof.
  intros He Ho. apply wp_bind. unfold ListSecretsByBeamhall, wp at 1, exec.
  destruct (fault _); simpl; [by apply He|]. apply wp_bind, wp_scrub_values.
  { intros e s' E Hn. by apply He. }
  intros vals s' E Hv. apply wp_ret, Ho; [done|].
  intros text v (id & sec & ct & Hsec & Hh & Hb & Hct & Hop) Hlen Hstar Hmask.
  apply (Scrub_hides _ _ _ true); [|done..]. eapply Hv; [|done..].
  rewrite !elem_of_order_by. apply elem_of_select. split; [by rewrite bool_decide_true|by exists id].
Qed.
End scrubber.

Section broker.
Context `{!Env, !Age, !Rand} {X C : Type} `{!Caddy C}.
Context `{!RuntimeDriver X, !Platform X}.
Context (o : Orchestrator).
Notation World := (World X C).
Notation OM := (OM (X := X) (C := C)).
Implicit Types (w : World).

(** What a call leaves alone: everything but what is outside. *)
Record quiet w w' : Prop := MkQuiet {
  quiet_db : w_db w' = w_db w;
  quiet_gw : w_gw w' = w_gw w;
  quiet_armed : w_armed w' = w_armed w;
  quiet_mem : w_mem w' = w_mem w }.
#[export] Instance quiet_PreOrder : PreOrder quiet.
Proof. split; [by split|]. intros w1 w2 w3 [] []. split; congruence. Qed.

Lemma quiet_outside {A} (f : ext X A) : frames quiet (outside (C := C) f).
Proof. intros w. unfold outside. by destruct (f _) as [[e|a] x]. Qed.
Lemma quiet_reads {A} (m : SM A) : frames (db_rel (λ d d', d' = d)) m → frames quiet (in_store (X := X) (C := C) m).
Proof. intros Hm w. by split; [apply (Hm (w_store w))|..]. Qed.
Lemma quiet_one {A} (f : DB → option A) : frames quiet (in_store (X := X) (C := C) (exec (q_one f))).
Proof.
  apply quiet_reads. intros s. unfold db_rel, exec, q_one. destruct (fault _); [done|]. simpl.
  by destruct (f (st_db s)).
Qed.
Lemma quiet_read {A} (f : DB → A) : frames quiet (in_store (X := X) (C := C) (exec (q_read f))).
Proof. apply quiet_reads. intros s. unfold db_rel, exec. by destruct (fault _). Qed.
Lemma quiet_now : frames quiet (in_store (X := X) (C := C) now).
Proof. by intros w. Qed.
Lemma quiet_step_no : frames quiet (in_store (X := X) (C := C) step_no).
Proof. by intros w. Qed.
Lemma quiet_of_sum {A} (r : error + A) : frames quiet (of_sum (X := X) (C := C) r).
Proof. destruct r; by intros w. Qed.
#[local] Hint Resolve quiet_outside quiet_one quiet_read quiet_now quiet_step_no quiet_of_sum : frame.
Lemma quiet_Mint issuer a : frames quiet (Mint (X := X) (C := C) issuer a).
Proof. unfold Mint, rand_bytes. solve_frame. Qed.
Lemma quiet_FetchManifest addr a : frames quiet (FetchManifest (X := X) (C := C) addr a).
Proof. unfold FetchManifest, send, wrapping. solve_frame. Qed.
Lemma quiet_Invoke addr tool a args : frames quiet (Invoke (X := X) (C := C) addr tool a args).
Proof. unfold Invoke, send, wrapping. solve_frame. Qed.
Lemma quiet_driver_backend beam : frames quiet (driver_backend (X := X) (C := C) beam).
Proof. unfold driver_backend, GetRelease. solve_frame. Qed.
#[local] Hint Resolve quiet_Mint quiet_FetchManifest quiet_Invoke quiet_driver_backend : frame.
Lemma quiet_resolveLiveBackend beam slug : frames quiet (resolveLiveBackend (X := X) (C := C) o beam slug).
Proof. unfold resolveLiveBackend, live_backend, GetActiveRouteByHostname. solve_frame. Qed.
#[local] Hint Resolve quiet_resolveLiveBackend : frame.

(** One call after another. *)
Lemma wp_quiet {A B} (m : OM A) (k : A → OM B) (Q : error + B → World → Prop) w :
  frames quiet m → (∀ e w', (m w).1 = inl e → quiet w w' → Q (inl e) w') →
  (∀ a w', quiet w w' → wp (k a) Q w') → wp (m ≫= k) Q w.
Proof.
  intros Hm He Ho. apply wp_bind. specialize (Hm w). unfold wp at 1.
  destruct (m w) as [[e|a] w']; simpl in *; [by apply He|by apply Ho].
Qed.

(** An answer whose app-authored parts hide the secrets of the app's beam: what the app
    answered, or its error's body, or the descriptions of its tools. *)
Definition answer_hidden (d : DB) (h b : ID) (r : error + UseAppResult) : Prop :=
  match r with
  | inl (ErrAppTool _ body) => hidden d h b body
  | inl _ => True
  | inr res =>
      (hidden d h b (UA_Result res) ∨ UA_Result res = EmptyString)
      ∧ ∀ m t, UA_Menu res = Some m → t ∈ TM_Tools m → hidden d h b (Tool_Description t)
  end.
Lemma answer_other d h b e : not_app_tool e → answer_hidden d h b (inl e).
Proof. intros Hn. destruct e; try done. by destruct (Hn status body). Qed.

Lemma raises_exec {A} (q : query A) : raises not_app_tool (in_store (X := X) (C := C) (exec q)).
Proof.
  intros w e. unfold in_store, lift, exec. simpl. destruct (fault _); simpl; [by intros [= <-]|].
  destruct (q _) as [[]|[a d]]; simpl; by intros [= <-].
Qed.
Lemma raises_outside {A} (f : ext X A) : raises not_app_tool (outside (C := C) f).
Proof. intros w e. unfold outside. destruct (f _) as [[e'|a] x]; by intros [= <-]. Qed.
#[local] Hint Resolve raises_exec raises_outside : raises.
Lemma raises_of_sum {A} (r : error + A) : (∀ e, r = inl e → not_app_tool e) →
  raises not_app_tool (of_sum (X := X) (C := C) r).
Proof. intros Hr w e. destruct r as [e'|a]; [|done]. intros [= <-]. by apply Hr. Qed.
Lemma raises_send r : raises not_app_tool (send (X := X) (C := C) r).
Proof. unfold send. solve_raises. Qed.
Lemma check_tools_error seen tools e : check_tools seen tools = Some e → not_app_tool e.
Proof.
  revert seen. induction tools as [|t tools IH]; intros seen; simpl; [done|].
  repeat case_match; try (by intros [= <-]); apply IH.
Qed.
Lemma ParseManifest_error json b e : ParseManifest json b = inl e → not_app_tool e.
Proof.
  unfold ParseManifest. destruct (json b); [by intros [= <-]|]. case_decide; [by intros [= <-]|].
  case_decide; [by intros [= <-]|]. destruct (check_tools _ _) eqn:E; [|done]. intros [= <-].
  by eapply check_tools_error.
Qed.
Lemma raises_FetchManifest addr a : raises not_app_tool (FetchManifest (X := X) (C := C) addr a).
Proof.
  pose proof raises_send. unfold FetchManifest. solve_raises; try done.
  apply raises_of_sum, ParseManifest_error.
Qed.
Lemma raises_resolveLiveBackend beam slug :
  raises not_app_tool (resolveLiveBackend (X := X) (C := C) o beam slug).
Proof. unfold resolveLiveBackend, live_backend, driver_backend. solve_raises. Qed.
Lemma raises_Invoke addr tool a args : raises not_app_tool (Invoke (X := X) (C := C) addr tool a args).
Proof. pose proof raises_send. unfold Invoke. solve_raises; done. Qed.

Lemma callAppTool_hides actor ct h b addr ch tool args w :
  wp (callAppTool (C := C) o actor ct h b addr ch tool args)
     (λ r w', quiet w w' ∧ answer_hidden (w_db w) h b r) w.
Proof.
  unfold callAppTool. apply wp_quiet; [unfold wrapping; solve_frame|..].
  { intros e w' He Hq. split; [done|]. unfold wrapping, map_error in He. destruct (Mint _ _ w).1; [|done].
    by injection He as <-. }
  intros assertion w1 Hq1. apply wp_bind, wp_lift, wp_ScrubberFor.
  { intros e s' E Hn. split; [|by apply answer_other]. etrans; [exact Hq1|]. by split. }
  intros scrub s' E Hh. rewrite (quiet_db _ _ Hq1) in Hh.
  assert (quiet w (w1 <| w_store := s' |>)) as Hq by (etrans; [exact Hq1|by split]).
  case_decide.
  - apply wp_quiet; [solve_frame|..].
    + intros e w' He Hq2. split; [by etrans|]. eapply answer_other, raises_FetchManifest, He.
    + intros m w' Hq2. apply wp_ret. split; [by etrans|]. split; [by right|].
      intros m' t [= <-] Ht. simpl in Ht. apply list_elem_of_fmap in Ht as (t0 & -> & _). apply Hh.
  - apply wp_quiet; [solve_frame|..].
    + intros e w' He Hq2. split; [by etrans|]. unfold map_error in He.
      pose proof (raises_Invoke addr tool assertion args (w1 <| w_store := s' |>)) as Hr.
      destruct (Invoke _ _ _ _ _).1 as [e0|]; [|done]. injection He as <-.
      specialize (Hr e0 eq_refl). destruct e0; try done; [apply Hh|by destruct (Hr status body)].
    + intros out w' Hq2. apply wp_ret. split; [by etrans|]. split; [left; apply Hh|done].
Qed.

(** * The relay *)

(** A row looked up, with what a failure says. *)
Lemma wp_lookup {A} (f : DB → option A) (Q : error + A → World → Prop) w :
  (∀ n msg w', idle w w' → fault n = Some msg → Q (inl (ErrExternal msg)) w') →
  (∀ w', idle w w' → f (w_db w) = None → Q (inl (ErrNotFound ": sql: no rows in result set")) w') →
  (∀ a w', idle w w' → f (w_db w) = Some a → Q (inr a) w') →
  wp (in_store (X := X) (C := C) (exec (q_one f))) Q w.
Proof.
  intros He Hn Ha. unfold wp, in_store, lift, exec, q_one. simpl.
  destruct (fault _) eqn:Ef; simpl; [by eapply He|].
  destruct (f (w_db w)) eqn:E; simpl; [by apply Ha|by apply Hn].
Qed.
Lemma idle_quiet w w' : idle w w' → quiet w w'.
Proof. intros []. by split. Qed.

(** The beam may call the app: a grant names it, and it is there and active. *)
Definition peer (d : DB) (source : ID) (ws app : string) (hall : Beamhall) (target : Beam) : Prop :=
  select_one (λ h, bool_decide (Beamhall_Slug h = ws)) (db_beamhalls d) = Some hall
  ∧ select_one (λ a, active_in (Beamhall_ID hall) a && bool_decide (Beam_Slug a = app)) (db_beams d)
    = Some target
  ∧ Beam_Status target = BeamActive
  ∧ ∃ grant, db_beam_peers d !! source = Some grant
      ∧ AllowsBeam (BP_Peers grant) (Beam_ID target) = true.
(** The answers that say nothing of the target. *)
Definition inflight_error : error :=
  ErrMsg ("too many relay calls in flight for this beam (max "
    +:+ format_int (c2cMaxInflight o)
    +:+ ") — a peer call must finish before another starts").
Definition uniform (e : error) : Prop :=
  e = ErrPeerNotGranted ∨ e = c2cRateErr o ∨ e = inflight_error
  ∨ ∃ n msg, fault n = Some msg ∧ e = ErrExternal msg.

(** A call got as far as its target. *)
Definition reached w source ws app (h b : ID) (r : error + UseAppResult) : Prop :=
  ∃ hall target, peer (w_db w) source ws app hall target
    ∧ h = Beamhall_ID hall ∧ b = Beam_ID target ∧ answer_hidden (w_db w) h b r
    ∧ (is_inl r = false → Beam_LiveReleaseID target ≠ no_id).
(** Or was refused before anything outside was called. *)
Definition called w source ws app (r : error + (ID * ID * (error + UseAppResult))) w' : Prop :=
  quiet w w' ∧
  match r with
  | inl _ => False
  | inr (h, b, r) => (w_out w' = w_out w ∧ ∃ e, r = inl e ∧ uniform e)
                     ∨ reached w source ws app h b r
  end.
Lemma c2cCall_spec source ws app tool args w :
  wp (c2cCall (C := C) o source ws app tool args) (called w source ws app) w.
Proof.
  unfold c2cCall, GetBeamPeers, GetBeamhallBySlug, GetBeamBySlug.
  assert (∀ w', idle w w' → called w source ws app (inr (no_id, no_id, inl ErrPeerNotGranted)) w') as Hno.
  { intros w' Hi. split; [by apply idle_quiet|]. left. split; [apply Hi|]. exists ErrPeerNotGranted.
    split; [done|by left]. }
  apply wp_bind, wp_attempt, wp_lookup.
  { intros n msg w' Hi Hf. apply wp_ret. split; [by apply idle_quiet|]. left. split; [apply Hi|].
    eexists. split; [done|]. right; right; right. eauto. }
  { intros w' Hi _. by apply wp_ret, Hno. }
  intros grant w1 Hi1 Hgrant.
  apply wp_bind, wp_attempt, wp_read; [intros e w' Hi; apply wp_ret, Hno; by etrans|].
  intros hall w2 Hi2 Hhall. assert (idle w w2) as Hi by (by etrans).
  apply wp_bind, wp_attempt, wp_read; [intros e w' Hi'; apply wp_ret, Hno; by etrans|].
  intros target w3 Hi3 Htarget. assert (idle w w3) as Hi' by (by etrans).
  rewrite (idle_db _ _ Hi1) in Hhall. rewrite (idle_db _ _ Hi) in Htarget.
  case_decide as Hr; [by apply wp_ret, Hno|].
  assert (peer (w_db w) source ws app hall target) as Hpeer.
  { split_and!; [done..|destruct (decide (Beam_Status target = BeamActive)); naive_solver|].
    exists grant. split; [done|]. destruct (AllowsBeam _ _); naive_solver. }
  apply wp_bind, wp_attempt.
  assert (∀ r w', quiet w w' → answer_hidden (w_db w) (Beamhall_ID hall) (Beam_ID target) r →
    (is_inl r = false → Beam_LiveReleaseID target ≠ no_id) →
    wp (mret (Beamhall_ID hall, Beam_ID target, r) : OM _) (called w source ws app) w') as Hdone.
  { intros r w' Hq Hh Hl. apply wp_ret. split; [done|]. right. by exists hall, target. }
  case_decide as Hlive; [by apply wp_throw, Hdone; [apply idle_quiet|..]|].
  apply wp_quiet; [apply quiet_resolveLiveBackend|..].
  - intros e w4 He Hq. apply Hdone; [|apply answer_other|done].
    + etrans; [by apply idle_quiet|done].
    + by eapply raises_resolveLiveBackend.
  - intros addr w4 Hq. assert (quiet w w4) as Hq4 by (etrans; [by apply idle_quiet|done]).
    eapply wp_mono; [apply callAppTool_hides|]. intros r w5 [Hq5 Hh]. apply Hdone; [by etrans| |done].
    by rewrite (quiet_db _ _ Hq4) in Hh.
Qed.

Lemma wp_recorded_call {A} ev (r : error + A) (Q : error + A → World → Prop) w :
  (∀ e w', r = inl e → untouched w w' → Q (inl e) w') →
  (∀ a err w', r = inr a → untouched w w' → Q (inl (ErrAround
     "the call succeeded but could NOT be recorded on the audit chain: " err
     " — investigate the audit store before continuing")) w') →
  (∀ a w' seq, r = inr a → untouched w w' → appended (w_db w) (w_db w') (ev None) seq →
     Q (inr a) w') →
  wp (recorded_call ev r) Q w.
Proof.
  intros He Hu Ho. apply wp_bind, wp_attempt, wp_lift. eapply wp_mono; [apply Append_adds|].
  intros l s' Ha. assert (untouched w (w <| w_store := s' |>)) as Hw.
  { split; try done. simpl. destruct l; [by rewrite Ha|by eapply appended_unlogged]. }
  destruct r as [e|a], l as [err|seq]; try (apply wp_throw); [by apply He..|by eapply Hu|].
  by apply wp_ret, (Ho a _ seq).
Qed.

Definition throttled w source w' : Prop :=
  w_out w' = w_out w ∨ w_out w' = (limiter_Allow "c2c" source (w_out w)).2.
Lemma wp_c2cAllow source (Q : error + bool → World → Prop) w :
  (∀ ok w', quiet w w' → throttled w source w' → Q (inr ok) w') → wp (c2cAllow o source) Q w.
Proof.
  intros HQ. unfold c2cAllow, allow. case_decide; [apply wp_ret, HQ; [done|by left]|].
  unfold wp. destruct (limiter_Allow _ _ _) as [ok x] eqn:E. simpl. apply HQ; [by split|].
  right. by rewrite E.
Qed.

(** A relayed call from [w0], its slot taken or given back. *)
Definition relayed w source ws app tool args (r : error + UseAppResult) w' : Prop :=
  unlogged (w_db w') = unlogged (w_db w)
  ∧ ((∃ e, r = inl e ∧ uniform e ∧ throttled w source w')
     ∨ ∃ hall target, peer (w_db w) source ws app hall target
         ∧ answer_hidden (w_db w) (Beamhall_ID hall) (Beam_ID target) r
         ∧ (is_inl r = false → Beam_LiveReleaseID target ≠ no_id
              ∧ ∃ seq, appended (w_db w) (w_db w')
                  (call_event ("beam:" +:+ source) EmptyString "use_peer_tool"
                     (c2cDigest ws app tool args) EmptyString peer_refused (Beamhall_ID hall)
                     (Beam_ID target) None) seq)).
(** What happens between taking the slot and giving it back. *)
Definition slot_held source ws app tool args : OM UseAppResult :=
  ok ← c2cAllow o source;
  if negb ok then throw (c2cRateErr o)
  else
  called ← c2cCall o source ws app tool args;
  let '(hallID, beamID, r) := called in
  recorded_call (call_event ("beam:" +:+ source) EmptyString "use_peer_tool"
    (c2cDigest ws app tool args) EmptyString peer_refused hallID beamID) r.
Lemma slot_held_spec source ws app tool args w :
  wp (slot_held source ws app tool args)
     (λ r w', w_mem w' = w_mem w ∧ relayed w source ws app tool args r w') w.
Proof.
  apply wp_bind, wp_c2cAllow. intros ok w1 Hq1 Ht. pose proof (quiet_db _ _ Hq1) as Edb.
  pose proof (quiet_mem _ _ Hq1) as Emem. destruct ok; simpl.
  2: { apply wp_throw. split; [done|]. split; [by rewrite Edb|]. left. exists (c2cRateErr o).
       split_and!; [done| |done]. right; by left. }
  apply wp_bind. eapply wp_mono; [apply c2cCall_spec|]. intros [e|[[h b] r]] w2 [Hq2 Hr]; [done|].
  assert (w_db w2 = w_db w) as Edb2 by (by rewrite (quiet_db _ _ Hq2)).
  assert (w_mem w2 = w_mem w) as Emem2 by (by rewrite (quiet_mem _ _ Hq2)).
  assert (∀ r' w', untouched w2 w' →
    unlogged (w_db w') = unlogged (w_db w) →
    (r' = r ∧ is_inl r = true ∨ is_inl r = false ∧
       ((∃ err, r' = inl (ErrAround "the call succeeded but could NOT be recorded on the audit chain: " err
         " — investigate the audit store before continuing")) ∨ r' = r ∧
        ∃ seq, appended (w_db w) (w_db w') (call_event ("beam:" +:+ source) EmptyString
          "use_peer_tool" (c2cDigest ws app tool args) EmptyString peer_refused h b None) seq)) →
    w_mem w' = w_mem w ∧ relayed w source ws app tool args r' w') as Hdone.
  { intros r' w' Hu Hun Hr'. split; [by rewrite (unt_mem _ _ Hu)|]. split; [done|].
    destruct Hr as [(Hout & e & -> & Hun2)|(hall & target & Hp & -> & -> & Hh & Hl)].
    - left. destruct Hr' as [[-> _]|[? _]]; [|done]. exists e. split_and!; [done..|].
      unfold throttled. rewrite (unt_out _ _ Hu), Hout. exact Ht.
    - right. exists hall, target. rewrite Edb in Hp, Hh. split; [done|].
      destruct Hr' as [[-> Hl']|[Hl' [[err ->]|[-> Hseq]]]]; [|done|].
      + split; [done|]. by rewrite Hl'.
      + split; [done|]. intros _. split; [by apply Hl|done]. }
  apply wp_recorded_call.
  - intros e w' -> Hu. apply Hdone; [done|by rewrite (unt_db _ _ Hu), Edb2|by left].
  - intros a err w' -> Hu. apply Hdone; [done|by rewrite (unt_db _ _ Hu), Edb2|].
    right. split; [done|]. left. by exists err.
  - intros a w' seq -> Hu Hs. apply Hdone; [done|by rewrite (unt_db _ _ Hu), Edb2|].
    right. split; [done|]. right. split; [done|]. exists seq. by rewrite Edb2 in Hs.
Qed.

(** Every beam's count of calls in flight. *)
Definition same_inflight w w' : Prop := ∀ id, inflight (w_mem w') id = inflight (w_mem w) id.
Lemma inflight_count m id d i :
  inflight (m <| c2cInflight := <[id := (inflight m id + d)%Z]> (c2cInflight m) |>) i
  = (inflight m i + if decide (i = id) then d else 0)%Z.
Proof.
  unfold inflight at 1. simpl. destruct (decide (i = id)) as [->|Hne].
  - by rewrite lookup_insert_eq.
  - rewrite lookup_insert_ne by done. unfold inflight. lia.
Qed.

Lemma C2CCall_spec source ws app tool args w :
  wp (C2CCall (C := C) o source ws app tool args)
     (λ r w', same_inflight w w' ∧ relayed w source ws app tool args r w') w.
Proof.
  unfold C2CCall. fold (slot_held source ws app tool args). unfold c2cAcquire, c2cRelease.
  destruct (decide (c2cMaxInflight o ≤ 0)%Z) as [Hoff|Hon].
  - apply wp_bind, wp_ret. simpl. apply wp_bind, wp_attempt.
    eapply wp_mono; [apply slot_held_spec|]. intros r w' [Hm Hr]. apply wp_bind, wp_ret.
    assert (same_inflight w w') as Hs by (intros id; by rewrite Hm).
    by destruct r; [apply wp_throw|apply wp_ret].
  - apply wp_bind, wp_bind, wp_gets. case_decide as Hfull.
    { apply wp_ret. simpl. apply wp_throw. split; [done|]. split; [done|]. left.
      exists inflight_error. split_and!; [done|right; right; by left|by left]. }
    apply wp_bind, wp_modify, wp_ret. simpl. apply wp_bind, wp_attempt.
    eapply wp_mono; [apply slot_held_spec|]. intros r w' [Hm Hr].
    apply wp_bind, wp_modify.
    assert (same_inflight w (w' <| w_mem := w_mem w' <| c2cInflight :=
      <[source := (inflight (w_mem w') source + -1)%Z]> (c2cInflight (w_mem w')) |> |>)) as Hs.
    { intros id. etrans; [exact (inflight_count (w_mem w') source (-1) id)|]. rewrite Hm.
      etrans; [apply f_equal2; [exact (inflight_count (w_mem w) source 1 id)|done]|].
      case_decide; lia. }
    by destruct r; [apply wp_throw|apply wp_ret].
Qed.

(** ** Who may speak to the relay *)

Lemma C2CAuthenticate_spec key remoteIP w :
  has_netFacts o = true → has_appSigner o = true → has_appClient o = true →
  wp (C2CAuthenticate (C := C) o key remoteIP) (λ r w', quiet w w' ∧
    match r with
    | inl e => e = ErrPeerAuth
    | inr b => db_c2c_keys (w_db w) !! b = Some (sha256_hex key)
        ∧ (∃ beam, db_beams (w_db w) !! b = Some beam ∧ Beam_Status beam = BeamActive
            ∧ ∃ facts x, (net_facts (networkName (Beam_BeamhallID beam)) x).1 = inr facts
                ∧ ∃ name, NF_ContainerIPs facts !! name = Some remoteIP
                    ∧ BeamIDFromContainerName name = Some b)
    end) w.
Proof.
  intros H1f H2f H3f. unfold C2CAuthenticate. rewrite H1f, H2f, H3f. simpl.
  case_decide; [by apply wp_throw|]. apply wp_map_error, wp_bind. unfold GetC2CKeyBeam.
  apply wp_read; [intros e w' Hi; split; [by apply idle_quiet|done]|]. intros b w1 Hi1 Hb.
  apply wp_bind, wp_read; [intros e w' Hi; split; [apply idle_quiet; by etrans|done]|].
  intros beam w2 Hi2 Hbeam. assert (quiet w w2) as Hq by (apply idle_quiet; by etrans).
  assert (db_c2c_keys (w_db w) !! b = Some (sha256_hex key)) as Hkey.
  { destruct (head _) as [[k v]|] eqn:E in Hb; [|done]. injection Hb as <-.
    apply head_Some_elem_of, list_elem_of_filter in E as [Hv Hin]. simpl in Hv. subst v.
    by apply elem_of_map_to_list in Hin. }
  case_decide as Hst; [by apply wp_throw|]. apply wp_bind. unfold wp at 1, outside.
  destruct (net_facts _ (w_out w2)) as [[e|facts] x] eqn:Ef; simpl.
  { split; [etrans; [exact Hq|by split]|done]. }
  assert (quiet w (w2 <| w_out := x |>)) as Hq' by (etrans; [exact Hq|by split]).
  destruct (owns_address facts remoteIP b) eqn:Eo; [|by apply wp_throw].
  apply wp_ret. split; [done|]. split; [done|]. exists beam. rewrite (idle_db _ _ Hi1) in Hbeam.
  split; [done|]. split; [by destruct (decide (Beam_Status beam = BeamActive))|].
  exists facts, (w_out w2). rewrite Ef. split; [done|].
  unfold owns_address in Eo. apply existsb_exists in Eo as ([n ip] & Hin & Hn).
  apply andb_true_iff in Hn as [Hip Hn]. apply bool_decide_eq_true in Hip, Hn. simpl in *. subst ip.
  exists n. split; [|done]. apply elem_of_map_to_list. by apply list_elem_of_In.
Qed.

(** ** Relay calls in flight, interleaved *)

(** The calls running, as the beams that made them: one begins (its slot taken, or
    refused), one ends (its slot given back), or anything else happens. *)
Inductive relay_step : World * list ID → World * list ID → Prop :=
  | relay_begin w l id b w' :
      c2cAcquire o id w = (inr b, w') →
      relay_step (w, l) (w', if (b : bool) then id :: l else l)
  | relay_end w l1 id l2 w' :
      c2cRelease o id w = (inr tt, w') → relay_step (w, l1 ++ id :: l2) (w', l1 ++ l2)
  | relay_other w l w' : w_mem w' = w_mem w → relay_step (w, l) (w', l).
Definition running (id : ID) (l : list ID) : Z := Z.of_nat (length (filter (λ i, i = id) l)).
Lemma running_cons id i l : running id (i :: l) = (running id l + if decide (id = i) then 1 else 0)%Z.
Proof. unfold running. rewrite filter_cons. repeat case_decide; simpl; try congruence; lia. Qed.
Lemma running_mid id i l1 l2 : running id (l1 ++ i :: l2) = running id (i :: l1 ++ l2).
Proof. unfold running. by rewrite <-Permutation_middle. Qed.

Definition slots_ok (s : World * list ID) : Prop := ∀ id,
  inflight (w_mem s.1) id = running id s.2 ∧ (running id s.2 ≤ c2cMaxInflight o)%Z.
Lemma relay_step_ok s s' : (0 < c2cMaxInflight o)%Z → relay_step s s' → slots_ok s → slots_ok s'.
Proof.
  intros Hmax Hstep Hok. destruct Hstep as [w l i b w' E|w l1 i l2 w' E|w l w' E]; intros id.
  - unfold c2cAcquire in E. rewrite decide_False in E by lia.
    unfold mbind, M_bind, gets, count_call, modify, mret, M_ret in E. simpl in E.
    destruct (Hok i) as [Hi Hle]. simpl in Hi, Hle. case_decide as Hf; simplify_eq.
    + apply Hok.
    + simpl. destruct (Hok id) as [Hid Hle']. simpl in Hid, Hle'. split.
      * etrans; [exact (inflight_count (w_mem w) i 1 id)|]. rewrite running_cons. lia.
      * rewrite running_cons. case_decide; [subst|]; lia.
  - unfold c2cRelease in E. rewrite decide_False in E by lia. unfold count_call, modify in E.
    simplify_eq. destruct (Hok id) as [Hid Hle]. simpl in Hid, Hle |- *.
    rewrite running_mid, running_cons in Hid, Hle. split; [|case_decide; lia].
    etrans; [exact (inflight_count (w_mem w) i (-1) id)|]. case_decide; lia.
  - simpl. rewrite E. apply Hok.
Qed.
End broker.

(** * Answers to people *)
Section answers.
Context `{!Env, !Age, !Rand} {X C : Type} `{!Caddy C}.
Context `{!RuntimeDriver X, !Platform X}.
Context (o : Orchestrator).
Notation World := (World X C).
Notation OM := (OM (X := X) (C := C)).
Implicit Types (w : World).
#[local] Hint Resolve quiet_outside quiet_one quiet_read : frame.
#[local] Hint Resolve raises_exec raises_outside : raises.

Lemma wp_with_outcome_says {A} a act h b (m : OM A) (P : error + A → Prop) w :
  wp m (λ r _, P r) w → (∀ p e, P (inl (ErrWrap p e))) →
  wp (with_outcome a act h b m) (λ r _, P r) w.
Proof.
  intros Hm Hp. apply wp_bind, wp_attempt. eapply wp_mono; [exact Hm|]. intros [e|x] w1 Hr.
  - apply wp_bind, wp_bind, wp_attempt. by intros; unfold wp; simpl; destruct (Append _ _).1; apply Hr.
  - apply wp_bind, wp_bind, wp_attempt. unfold wp; simpl; destruct (Append _ _).1; simpl;
      [apply Hp|apply Hr].
Qed.
Lemma untouched_secrets w w' : untouched w w' → secrets_of (w_db w') = secrets_of (w_db w).
Proof.
  intros [Hd]. change (secrets_of (unlogged (w_db w')) = secrets_of (w_db w)). by rewrite Hd.
Qed.
Lemma quiet_operableBeam h b : frames quiet (operableBeam (X := X) (C := C) h b).
Proof. unfold operableBeam, GetBeam. solve_frame. Qed.
#[local] Hint Resolve quiet_operableBeam : frame.

(** After the authorization, whose record leaves the secrets alone. *)
Lemma wp_authorized {A} a act h b (m : OM A) (P : error + A → Prop) w :
  (∀ e, not_app_tool e → P (inl e)) →
  (∀ p e, P (inl (ErrWrap p e))) →
  (∀ w1, secrets_of (w_db w1) = secrets_of (w_db w) → wp m (λ r _, P r) w1) →
  wp (authorize a act h b;; with_outcome a act h b m) (λ r _, P r) w.
Proof.
  intros He Hp Hm. apply wp_bind, wp_lift. eapply wp_mono; [apply Authorize_spec|].
  intros [e|[]] s' [Hd _].
  - apply He. destruct Hd as [[why ->] _]. done.
  - destruct Hd as (reason & seq & id & t & prev & Hd). apply wp_with_outcome_says; [|done].
    apply Hm. simpl. by rewrite Hd.
Qed.

Lemma showLogs_hides h b opts w :
  wp (showLogs (C := C) h b opts) (λ r _, ∀ text, r = inr text → hidden (w_db w) h b text) w.
Proof.
  unfold showLogs, GetRelease. apply wp_quiet; [solve_frame|done|]. intros beam w1 Hq1.
  case_decide; [by apply wp_throw|]. apply wp_quiet; [solve_frame|done|]. intros rel w2 Hq2.
  apply wp_quiet; [solve_frame|done|]. intros raw w3 Hq3. apply wp_bind, wp_lift, wp_ScrubberFor; [done|].
  intros scrub s' E Hh. apply wp_ret. intros text [= <-]. specialize (Hh raw).
  by rewrite (quiet_db _ _ Hq3), (quiet_db _ _ Hq2), (quiet_db _ _ Hq1) in Hh.
Qed.

Lemma tryBeamTool_hides actor h b tool args w :
  wp (tryBeamTool (C := C) o actor h b tool args) (λ r _, answer_hidden (w_db w) h b r) w.
Proof.
  unfold tryBeamTool, GetRelease. destruct (_ || _); [by apply wp_throw|].
  assert (∀ A (m : OM A) w' e, raises not_app_tool m → (m w').1 = inl e →
    answer_hidden (w_db w) h b (inl e)) as Hr.
  { intros A m w' e Hm E. by eapply answer_other, Hm. }
  apply wp_quiet; [solve_frame|intros e w' E _; eapply Hr; [|exact E]|]. 
  { unfold operableBeam, GetBeam. solve_raises. }
  intros beam w1 Hq1. case_decide; [by apply wp_throw|].
  apply wp_quiet; [solve_frame|intros e w' E _; eapply Hr; [|exact E]; solve_raises|].
  intros rel w2 Hq2. apply wp_quiet; [unfold wrapping; solve_frame|intros e w' E _; eapply Hr; [|exact E]; solve_raises|].
  intros st w3 Hq3. case_decide; [by apply wp_throw|]. case_decide; [by apply wp_throw|].
  eapply wp_mono; [apply callAppTool_hides|]. intros r w' [_ Hh].
  by rewrite (quiet_db _ _ Hq3), (quiet_db _ _ Hq2), (quiet_db _ _ Hq1) in Hh.
Qed.

(** Discovery reads, and finds only what is published to the caller. *)
Lemma quiet_appView pub : frames quiet (appView (X := X) (C := C) o pub).
Proof.
  unfold appView, beamSignIn, GetBeam, GetBeamhall, GetRelease, ListResourcesByBeam, list_resources.
  solve_frame.
Qed.
Lemma wp_visible_apps actor pubs w :
  wp (visible_apps (C := C) o actor pubs) (λ r w', quiet w w'
    ∧ ∀ l p v, r = inr l → (p, v) ∈ l → p ∈ pubs ∧ for_actor actor p = true) w.
Proof.
  revert w. induction pubs as [|pub pubs IH]; intros w; simpl.
  { apply wp_ret. split; [done|]. intros l p v [= <-] ?%not_elem_of_nil. done. }
  assert (frames quiet (visible (X := X) (C := C) o actor pub)) as Hv.
  { unfold visible. pose proof quiet_appView. solve_frame. }
  destruct (for_actor actor pub) eqn:Ef.
  - apply wp_quiet; [done|done|]. intros v w1 Hq1. apply wp_bind. eapply wp_mono; [apply IH|].
    intros [e|rest] w2 [Hq2 Hr]; [split; [by etrans|done]|]. apply wp_ret. split; [by etrans|].
    intros l p v' [= <-] Hin. destruct v as [v0|].
    + apply elem_of_cons in Hin as [[= -> ->]|Hin]; [split; [by left|done]|].
      destruct (Hr _ _ _ eq_refl Hin). split; [by right|done].
    + destruct (Hr _ _ _ eq_refl Hin). split; [by right|done].
  - unfold visible. unfold for_actor in Ef. rewrite Ef. apply wp_bind, wp_ret, wp_bind.
    eapply wp_mono; [apply IH|]. intros [e|rest] w2 [Hq2 Hr]; [done|]. apply wp_ret. split; [done|].
    intros l p v' [= <-] Hin. destruct (Hr _ _ _ eq_refl Hin). split; [by right|done].
Qed.
Lemma wp_resolvePublishedApp actor app ws w :
  wp (resolvePublishedApp (C := C) o actor app ws) (λ r w', quiet w w'
    ∧ ∀ p v, r = inr (p, v) → p ∈ published_to actor (w_db w)) w.
Proof.
  unfold resolvePublishedApp, ListBeamAudiences. apply wp_bind. unfold wp at 1, in_store, lift, exec. simpl.
  destruct (fault _); simpl; [by split|]. apply wp_bind.
  match goal with |- wp _ _ ?w1 => assert (quiet w w1) as Hq1 by done end.
  eapply wp_mono; [apply wp_visible_apps|]. intros [e|apps] w2 [Hq Hr]; [split; [by etrans|done]|].
  assert (quiet w w2) as Hq2 by (by etrans). clear Hq Hq1.
  destruct (filter _ apps) as [|[p v] [|pv2 l]] eqn:E; [by apply wp_throw| |by apply wp_throw].
  apply wp_ret. split; [done|]. intros p' v' [= <- <-].
  assert ((p, v) ∈ apps) as Hin.
  { assert ((p, v) ∈ [(p, v)]) as Hl by left. rewrite <-E in Hl. by apply list_elem_of_filter in Hl as [_ ?]. }
  destruct (Hr _ _ _ eq_refl Hin) as [Hp Hf]. unfold published_to. by apply list_elem_of_filter.
Qed.

(** What a person was answered of an app: it was published to them. *)
Definition published_answer actor w (r : error + UseAppResult) : Prop :=
  ∀ res, r = inr res → ∃ pub, pub ∈ published_to actor (w_db w)
    ∧ answer_hidden (w_db w) (BA_BeamhallID pub) (BA_BeamID pub) r.
Lemma UseApp_spec actor req w :
  wp (UseApp (C := C) o actor req) (λ r w', unlogged (w_db w') = unlogged (w_db w)
    ∧ published_answer actor w r
    ∧ (is_inl r = false → ∃ hallID beamID seq, appended (w_db w) (w_db w')
         (call_event (Actor_ID actor) (TokenJTI actor) "use_app" (useAppDigest req)
            (SourceIP actor) use_refused hallID beamID None) seq)) w.
Proof.
  unfold UseApp. destruct (_ || _); [by apply wp_throw|].
  apply wp_bind. unfold useAppAllow, allow.
  assert (∀ ok w1, w_db w1 = w_db w → wp (
    if negb ok then throw (ErrMsg ("you are calling apps faster than this appliance allows (max "
      +:+ format_int (useRatePerMinute o) +:+ " calls per minute) — retry in a moment"))
    else
    called ← useApp_ o actor req;
    let '(hallID, beamID, r) := called in
    recorded_call (call_event (Actor_ID actor) (TokenJTI actor) "use_app" (useAppDigest req)
      (SourceIP actor) use_refused hallID beamID) r)
   (λ r w', unlogged (w_db w') = unlogged (w_db w)
    ∧ published_answer actor w r
    ∧ (is_inl r = false → ∃ hallID beamID seq, appended (w_db w) (w_db w')
         (call_event (Actor_ID actor) (TokenJTI actor) "use_app" (useAppDigest req)
            (SourceIP actor) use_refused hallID beamID None) seq)) w1) as Hcall.
  2: { case_decide; [by apply wp_ret, Hcall|]. unfold wp at 1.
       destruct (limiter_Allow _ _ _) as [ok x]. by apply Hcall. }
  intros ok w1 E1. destruct ok; simpl; [|by apply wp_throw; rewrite E1].
  assert (wp (useApp_ (C := C) o actor req) (λ r w', quiet w1 w' ∧ match r with
    | inl _ => False
    | inr (_, _, r) => published_answer actor w r
    end) w1) as Hu.
  { unfold useApp_. apply wp_bind, wp_attempt. eapply wp_mono; [apply wp_resolvePublishedApp|].
    intros [e|[pub view]] w2 [Hq2 Hr]; [by apply wp_ret|]. specialize (Hr _ _ eq_refl).
    rewrite E1 in Hr.
    assert (∀ r w', quiet w1 w' → (∀ res, r = inr res →
        answer_hidden (w_db w) (BA_BeamhallID pub) (BA_BeamID pub) r) →
      quiet w1 w' ∧ published_answer actor w r) as Hdone.
    { intros r w' Hq Hh. split; [done|]. intros res E. exists pub. eauto. }
    apply wp_bind, wp_attempt. destruct (negb _); [by apply wp_throw, wp_ret, Hdone|].
    apply wp_quiet; [unfold GetBeam; apply quiet_one|intros e w' _ Hq; apply wp_ret, Hdone; [by etrans|done]|].
    intros beam w3 Hq3. apply wp_quiet; [apply quiet_resolveLiveBackend|
      intros e w' _ Hq; apply wp_ret, Hdone; [by do 2 (etrans; [done|])|done]|].
    intros addr w4 Hq4. apply wp_bind. eapply wp_mono; [apply callAppTool_hides|].
    assert (quiet w1 w4) as Hq by (by do 2 (etrans; [done|])).
    intros [e|res] w5 [Hq5 Hh]; [apply wp_ret, Hdone; [by etrans|done]|].
    apply wp_ret, wp_ret, Hdone; [by etrans|]. intros res' _.
    rewrite (quiet_db _ _ Hq), E1 in Hh. exact Hh. }
  apply wp_bind. eapply wp_mono; [exact Hu|]. intros [e|[[h b] r]] w2 [Hq2 Hr]; [done|].
  assert (w_db w2 = w_db w) as E2 by (by rewrite (quiet_db _ _ Hq2)).
  apply wp_recorded_call.
  - intros e w' -> Huu. rewrite (unt_db _ _ Huu), E2. by split_and!.
  - intros a err w' -> Huu. rewrite (unt_db _ _ Huu), E2. by split_and!.
  - intros a w' seq -> Huu Hs. rewrite (unt_db _ _ Huu), E2. rewrite E2 in Hs.
    split_and!; [done..|]. intros _. by exists h, b, seq.
Qed.
End answers.

(** C23: a beam reaches only what it was granted, and cannot tell the rest apart.  A relayed
    call either is refused with one of the uniform answers (not granted, too many calls,
    too fast, a store failure), having called nothing outside but the limiter, or the
    target is an active app that a grant of the beam names; a success means it was live and
    the call is the log's last event.  In both cases only the audit log changed, and the
    slot the call held has been given back. *)
Theorem relay_reaches_only_granted `{!Env, !Age, !Rand} {X C : Type} `{!Caddy C}
    `{!RuntimeDriver X, !Platform X} (o : Orchestrator) (source : ID)
    (workspace app tool args : string) (w : World X C) :
  wp (C2CCall o source workspace app tool args) (λ r w',
    same_inflight w w' ∧ unlogged (w_db w') = unlogged (w_db w)
    ∧ ((∃ e, r = inl e ∧ uniform o e ∧ throttled w source w')
       ∨ ∃ hall target, peer (w_db w) source workspace app hall target
           ∧ answer_hidden (w_db w) (Beamhall_ID hall) (Beam_ID target) r
           ∧ (is_inl r = false → Beam_LiveReleaseID target ≠ no_id
                ∧ ∃ seq, appended (w_db w) (w_db w')
                    (call_event ("beam:" +:+ source) EmptyString "use_peer_tool"
                       (c2cDigest workspace app tool args) EmptyString peer_refused
                       (Beamhall_ID hall) (Beam_ID target) None) seq))) w.
Proof. apply C2CCall_spec. Qed.

(** C25: the relay believes only a beam's own containers.  With the relay enabled, a key is
    accepted only as the beam whose stored hash it has, only while that beam is active, and
    only from the address of a container Docker reports as that beam's; every other
    failure is the same answer.  Nothing is written. *)
Theorem relay_authenticates_containers `{!Env, !Age, !Rand} {X C : Type} `{!Caddy C}
    `{!RuntimeDriver X, !Platform X} (o : Orchestrator) (key remoteIP : string) (w : World X C)
    (Hfacts : has_netFacts o = true) (Hsigner : has_appSigner o = true)
    (Hclient : has_appClient o = true) :
  wp (C2CAuthenticate o key remoteIP) (λ r w', quiet w w' ∧
    match r with
    | inl e => e = ErrPeerAuth
    | inr b => db_c2c_keys (w_db w) !! b = Some (sha256_hex key)
        ∧ (∃ beam, db_beams (w_db w) !! b = Some beam ∧ Beam_Status beam = BeamActive
            ∧ ∃ facts x, (net_facts (networkName (Beam_BeamhallID beam)) x).1 = inr facts
                ∧ ∃ name, NF_ContainerIPs facts !! name = Some remoteIP
                    ∧ BeamIDFromContainerName name = Some b)
    end) w.
Proof. by apply C2CAuthenticate_spec. Qed.

(** The relay's recursion limit holds under every interleaving: however calls begin,
    are refused, end and mix with anything else, no beam ever has more than the configured
    number in flight, and the counter is exact. *)
Theorem relay_calls_bounded `{!Env, !Age, !Rand} {X C : Type}
    (o : Orchestrator) (w w' : World X C) (calls : list ID)
    (Hmax : (0 < c2cMaxInflight o)%Z) (Hstart : c2cInflight (w_mem w) = ∅)
    (Hrun : rtc (relay_step o) (w, []) (w', calls)) (id : ID) :
  inflight (w_mem w') id = running id calls ∧ (running id calls ≤ c2cMaxInflight o)%Z.
Proof.
  assert (slots_ok o (w', calls)) as Hok; [|apply Hok].
  assert (slots_ok o (w, [])) as Hs0.
  { intros i. unfold inflight, running. simpl. rewrite Hstart, lookup_empty. simpl. lia. }
  revert Hs0. induction Hrun as [|s1 s2 s3 Hs _ IH]; [done|]. intros Hs2.
  by eapply IH, relay_step_ok.
Qed.


(** ** The witnesses: the beam B1 granted itself a peer, its key, its container. *)
Definition Orch_relay : Orchestrator :=
  Orch1 <| has_netFacts := true |> <| has_appSigner := true |> <| has_appClient := true |>.
Definition World_keyed : World Engine ScriptedCaddy :=
  World_of (DB_live <| db_c2c_keys := {["B1" := sha256_hex "key"]} |>
                    <| db_beam_peers := {["B1" := MkBeamPeers "B1" "H1" (MkPeerSet ["B1"] []) "bob" T0]} |>).

Lemma relay_authenticates_containers_witness :
  (C2CAuthenticate Orch_relay "key" "172.18.0.7" World_keyed).1 = inr "B1"
  ∧ (C2CAuthenticate Orch_relay "key" "172.18.0.8" World_keyed).1 = inl ErrPeerAuth
  ∧ (∃ w', C2CAuthenticate Orch_relay "key" "172.18.0.7" World_keyed = (inr "B1", w')
       ∧ quiet World_keyed w'
       ∧ ∃ beam, db_beams (w_db World_keyed) !! "B1" = Some beam ∧ Beam_Status beam = BeamActive
            ∧ ∃ facts x, (net_facts (networkName (Beam_BeamhallID beam)) x).1 = inr facts
                ∧ ∃ name, NF_ContainerIPs facts !! name = Some "172.18.0.7"
                    ∧ BeamIDFromContainerName name = Some "B1").
Proof.
  assert ((C2CAuthenticate Orch_relay "key" "172.18.0.7" World_keyed).1 = inr "B1") as E
    by (vm_compute; reflexivity).
  split; [exact E|]. split; [vm_compute; reflexivity|].
  pose proof (relay_authenticates_containers Orch_relay "key" "172.18.0.7" World_keyed
    eq_refl eq_refl eq_refl) as Hw.
  unfold wp in Hw. destruct (C2CAuthenticate _ _ _ _) as [r w']. simpl in E. subst r.
  exists w'. destruct Hw as [Hq [_ Hb]]. done.
Defined.

Lemma relay_calls_bounded_witness :
  rtc (relay_step Orch_relay) (World_keyed, [])
    (snd (c2cAcquire Orch_relay "B1" World_keyed), ["B1"])
  ∧ inflight (w_mem (snd (c2cAcquire Orch_relay "B1" World_keyed))) "B1" = 1%Z
  ∧ (running "B1" ["B1"] ≤ c2cMaxInflight Orch_relay)%Z.
Proof.
  assert (rtc (relay_step Orch_relay) (World_keyed, [])
    (snd (c2cAcquire Orch_relay "B1" World_keyed), ["B1"])) as Hr.
  { eapply rtc_l; [|apply rtc_refl]. exact (relay_begin Orch_relay World_keyed [] "B1" true
      (snd (c2cAcquire Orch_relay "B1" World_keyed)) eq_refl). }
  split; [exact Hr|].
  exact (relay_calls_bounded Orch_relay World_keyed _ ["B1"] eq_refl eq_refl Hr "B1").
Defined.

(** A granted call is answered, an ungranted one refused. *)
Example relay_call_runs :
  (C2CCall Orch_relay "B1" "sales" "crm" "ping" "{}" World_keyed).1
    = inr (MkUseAppResult None None "{}")
  ∧ (C2CCall Orch_relay "B1" "sales" "hr" "ping" "{}" World_keyed).1 = inl ErrPeerNotGranted.
Proof. split; vm_compute; reflexivity. Qed.
