(* ===== verification/EgressSync.v ===== *)
(** The egress hook of the backplane (cmd/beamhalld/main.go egressSyncFunc): the policies it
    derives from the stored beamhalls, the peer grants and what Docker says of each hall's
    network, and what a run leaves in the firewall and in the gateway's guard. *)
From S2P Require Import Prelude Regexp GoStrings GoNet Domain Gateway GatewayProofs Store.
From S2P Require Import StoreOps Vault VaultProofs Outside Egress EgressProofs EgressReconcile.
From S2P Require Import Orch OrchScope Fixtures OrchFixtures.

(** Handing the subnets to the relay's guard. *)
Class Relay (X : Type) := relay_subnets : list string → X → X.

(** * The policy of a hall *)

(** external[beamID]: the external destinations granted to a beam. *)
Definition external_of (grants : list BeamPeers) (beamID : ID) : list string :=
  foldl (λ ext g,
    if decide (BP_SourceBeamID g = beamID ∧ 0 < length (Peers_External (BP_Peers g)))
    then Peers_External (BP_Peers g) else ext) [] grants.

Section policy.
Context (brokerNames : list string) (grants : list BeamPeers).

Definition is_broker (name : string) : bool := bool_decide (name ∈ brokerNames).
Definition broker_ips (facts : NetworkFacts) : list string :=
  sort_strings (snd <$> filter (λ ni, is_broker ni.1 = true) (map_to_list (NF_ContainerIPs facts))).
Definition source_grants (ni : string * string) : list SourceRule :=
  if is_broker ni.1 then []
  else match BeamIDFromContainerName ni.1 with
       | Some beamID => MkSourceRule ni.2 <$> external_of grants beamID
       | None => []
       end.
Definition hall_policy (bh : Beamhall) (facts : NetworkFacts) : EgressPolicy :=
  MkEgressPolicy (NF_Bridge facts)
    (if decide (NP_EgressMode (Beamhall_NetworkPolicy bh) = EgressAllowSet)
     then NP_EgressAllowlist (Beamhall_NetworkPolicy bh) else [])
    (broker_ips facts)
    (order_by (λ sr, Egress.SourceIP sr +:+ Dest sr)
       (mjoin (source_grants <$> map_to_list (NF_ContainerIPs facts)))).
End policy.

(** * The hook *)

Section sync.
Context `{!Env, !Age, !Rand} {X C : Type} `{!Caddy C}.
Context `{!RuntimeDriver X, !Platform X, !HostTools X, !Relay X}.
Context (linux : bool) (rec : Reconciler) (brokerNames : list string) (relay : bool).
Notation OM := (OM (X := X) (C := C)).

Definition on_firewall {A} (m : M X error A) : OM A :=
  lift w_out (λ x w, w <| w_out := x |>) m.
(** The halls that have a network, with what Docker says of it. *)
Fixpoint inspect (halls : list Beamhall) : OM (list (Beamhall * NetworkFacts)) :=
  match halls with
  | [] => mret []
  | bh :: halls =>
      facts ← attempt (outside (net_facts (networkName (Beamhall_ID bh))));
      rest ← inspect halls;
      mret (match facts with inl _ => rest | inr facts => (bh, facts) :: rest end)
  end.
Definition policies_of (grants : list BeamPeers) (found : list (Beamhall * NetworkFacts))
    : list EgressPolicy := (λ bf, hall_policy brokerNames grants bf.1 bf.2) <$> found.
Definition subnets_of (found : list (Beamhall * NetworkFacts)) : list string :=
  mjoin ((λ bf, NF_Subnets bf.2) <$> found).
Definition egressSync : OM () :=
  if negb linux then mret tt
  else
  halls ← wrapping "egress: list beamhalls: " (in_store ListBeamhalls);
  grants ← wrapping "egress: list peer grants: " (in_store ListBeamPeers);
  found ← inspect halls;
  on_firewall (Reconcile rec (policies_of grants found));;
  wrapping "gateway workload guard: " (in_gw (SetWorkloadSubnets (subnets_of found)));;
  if relay then modify (λ w, w <| w_out := relay_subnets (subnets_of found) (w_out w) |>)
  else mret tt.
End sync.

(** * What a run leaves *)

(** Inspecting a network is a read; the relay's guard is not the firewall's. *)
Class NetworkLaws (X : Type) `{!HostTools X, !FirewallLaws X, !Platform X, !Relay X} : Prop := {
  facts_read n x : (net_facts n x).2 = x;
  relay_keeps l x : chains (relay_subnets l x) = chains x }.

Section guard.
Context {C : Type} `{!Caddy C}.
Lemma wp_SetWorkloadSubnets subnets (Q : error + () → GWorld C → Prop) w :
  (∀ e w', workloadSubnets (gw w') = workloadSubnets (gw w) → Q (inl e) w') →
  (∀ w', workloadSubnets (gw w') = sort_strings subnets → Q (inr tt) w') →
  wp (SetWorkloadSubnets subnets) Q w.
Proof.
  intros He Ho. unfold SetWorkloadSubnets. apply wp_bind, wp_gets.
  destruct (decide _) as [E|_]; [by apply wp_ret, Ho|].
  apply wp_bind, gw_update_wp, wp_bind, wp_gets, wp_bind, wp_attempt. unfold wp at 1, gw_load.
  destruct (caddy_load _ _) as [[e|] c]; cbn.
  - by apply He.
  - by apply Ho.
Qed.
End guard.

Section spec.
Context `{!Env, !Age, !Rand} {X C : Type} `{!Caddy C}.
Context `{!RuntimeDriver X, !Platform X, !HostTools X, !FirewallLaws X, !Relay X, !NetworkLaws X}.
Context (rec : Reconciler) (Hbin : rec_bin rec = "iptables").
Context (Hres : rec_restoreBin rec = "iptables-restore").
Context (brokerNames : list string) (relay : bool).
Notation World := (World X C).
Implicit Types (w : World).

(** The halls that have a network, in the order of their slugs, and the grants, in that of
    their beams. *)
Definition facts_of (x : X) (bh : Beamhall) : option (Beamhall * NetworkFacts) :=
  match (net_facts (networkName (Beamhall_ID bh)) x).1 with
  | inr facts => Some (bh, facts)
  | inl _ => None
  end.
Definition inspected w : list (Beamhall * NetworkFacts) :=
  omap (facts_of (w_out w)) (order_by Beamhall_Slug (rows (db_beamhalls (w_db w)))).
Definition stored_grants w : list BeamPeers :=
  order_by BP_SourceBeamID (rows (db_beam_peers (w_db w))).
Definition stored_policies w : list EgressPolicy :=
  policies_of brokerNames (stored_grants w) (inspected w).

Lemma wp_inspect halls (Q : error + list (Beamhall * NetworkFacts) → World → Prop) w :
  Q (inr (omap (facts_of (w_out w)) halls)) w → wp (inspect halls) Q w.
Proof.
  revert Q. induction halls as [|bh halls IH]; intros Q HQ; [by apply wp_ret|]. simpl inspect.
  apply wp_bind, wp_attempt.
  pose proof (facts_read (networkName (Beamhall_ID bh)) (w_out w)) as Hx.
  assert (outside (net_facts (networkName (Beamhall_ID bh))) w =
    (match (net_facts (networkName (Beamhall_ID bh)) (w_out w)).1 with
     | inl e => inl (ErrExternal e) | inr a => inr a end, w)) as E.
  { unfold outside. destruct w. simpl in *. destruct (net_facts _ _) as [[e|a] x]; simpl in *; by subst. }
  unfold wp at 1. rewrite E. csimpl in HQ. unfold facts_of in HQ at 1.
  destruct (net_facts _ _).1 as [e|facts]; apply wp_bind, IH, wp_ret, HQ.
Qed.

Lemma wp_rows {A} (f : DB → A) (Q : error + A → World → Prop) w :
  (∀ e w', idle w w' → Q (inl e) w') →
  (∀ w', idle w w' → Q (inr (f (w_db w))) w') →
  wp (in_store (X := X) (C := C) (exec (q_read f))) Q w.
Proof.
  intros He Ha. apply wp_lift, wp_exec.
  - intros e s' E. by apply He, idle_in_store.
  - intros a s' Hq. unfold q_read in Hq. injection Hq as <- Hs. by apply Ha, idle_in_store.
Qed.

(** The firewall and the guard of a run: all of both, or the firewall alone when the
    gateway refuses the guard, or neither. *)
Definition synced w (r : error + ()) w' : Prop :=
  let guard w := workloadSubnets (gw (w_gw w)) in
  let on := ∃ script, buildScript rec (stored_policies w) = inr script
                      ∧ enforced script (w_out w') in
  match r with
  | inr _ => on ∧ guard w' = sort_strings (subnets_of (inspected w))
  | inl _ => (on ∨ hooked (w_out w) (w_out w')) ∧ guard w' = guard w
  end ∧ w_db w' = w_db w.

Lemma idle_synced w w' e : idle w w' → synced w (inl e) w'.
Proof.
  intros Hi. split; [|apply (idle_db _ _ Hi)]. split; [|by rewrite (idle_gw _ _ Hi)].
  right. rewrite (idle_out _ _ Hi). reflexivity.
Qed.

Lemma enforced_chains script x x' : chains x' = chains x → enforced script x → enforced script x'.
Proof. intros E. unfold enforced, jump_there. by rewrite E. Qed.

Lemma egressSync_spec w : wp (egressSync true rec brokerNames relay) (synced w) w.
Proof.
  unfold egressSync. cbn [negb]. unfold ListBeamhalls, ListBeamPeers.
  apply wp_bind, wp_map_error, wp_rows; [intros e w1 Hi; by apply idle_synced|].
  intros w1 Hi1. apply wp_bind, wp_map_error, wp_rows; [intros e w2 Hi; apply idle_synced; by etrans|].
  intros w2 Hi2. rewrite (idle_db _ _ Hi1). apply wp_bind, wp_inspect.
  assert (idle w w2) as Hi12 by (by etrans). rewrite (idle_out _ _ Hi12).
  fold (inspected w) (stored_grants w) (stored_policies w).
  apply wp_bind, wp_lift. eapply wp_mono; [by apply Reconcile_spec|]. rewrite (idle_out _ _ Hi12).
  intros [e|[]] x Hx; simpl.
  { split; [|apply (idle_db _ _ Hi12)]. split; [right; apply Hx|simpl; by rewrite (idle_gw _ _ Hi12)]. }
  destruct Hx as (script & Hb & Hf & _).
  apply wp_bind, wp_map_error, wp_lift, wp_SetWorkloadSubnets; simpl.
  { intros e g Hg. split; [|apply (idle_db _ _ Hi12)]. split; [left; by exists script|].
    simpl. by rewrite Hg, (idle_gw _ _ Hi12). }
  intros g Hg. destruct relay; apply wp_modify || apply wp_ret;
    (split; [|apply (idle_db _ _ Hi12)]; split; [|exact Hg]; exists script; split; [done|]); [|done].
  simpl. eapply enforced_chains; [|exact Hf]. apply relay_keeps.
Qed.
End spec.

(** ** Whose destinations a hall's policy carries *)

Lemma external_of_sound grants b d : d ∈ external_of grants b →
  ∃ g, g ∈ grants ∧ BP_SourceBeamID g = b ∧ d ∈ Peers_External (BP_Peers g).
Proof.
  unfold external_of. assert (∀ ext, d ∈ foldl (λ ext g,
    if decide (BP_SourceBeamID g = b ∧ 0 < length (Peers_External (BP_Peers g)))
    then Peers_External (BP_Peers g) else ext) ext grants →
    d ∈ ext ∨ ∃ g, g ∈ grants ∧ BP_SourceBeamID g = b ∧ d ∈ Peers_External (BP_Peers g)) as Hf.
  { induction grants as [|g grants IH]; intros ext; simpl; [by left|].
    intros [Hin|(g' & Hg & Hr)]%IH; [|right; exists g'; split; [by right|done]].
    case_decide as Hc; [|by left]. right. exists g. split; [by left|]. by destruct Hc. }
  intros [Hn|Hg]%Hf; [by apply not_elem_of_nil in Hn|done].
Qed.

(** What the policy of a hall lets out: its allowlist, if its mode is allow_set; packets
    to and from its brokers on its own bridge; and, from the present address of a beam's
    container, what that beam was granted. *)
Record policy_of_store (brokerNames : list string) (grants : list BeamPeers) (bh : Beamhall)
    (facts : NetworkFacts) (p : EgressPolicy) : Prop := MkPolicyOfStore {
  pos_bridge : Bridge p = NF_Bridge facts;
  pos_allow : ∀ e, e ∈ Allow p ↔ NP_EgressMode (Beamhall_NetworkPolicy bh) = EgressAllowSet
                                 ∧ e ∈ NP_EgressAllowlist (Beamhall_NetworkPolicy bh);
  pos_brokers : ∀ ip, ip ∈ SameBridgeAllow p ↔
    ∃ name, name ∈ brokerNames ∧ NF_ContainerIPs facts !! name = Some ip;
  pos_sources : ∀ sr, sr ∈ PerSource p → ∃ name g,
    NF_ContainerIPs facts !! name = Some (Egress.SourceIP sr) ∧ name ∉ brokerNames
    ∧ BeamIDFromContainerName name = Some (BP_SourceBeamID g) ∧ g ∈ grants
    ∧ Dest sr ∈ Peers_External (BP_Peers g) }.

Lemma hall_policy_spec brokerNames grants bh facts :
  policy_of_store brokerNames grants bh facts (hall_policy brokerNames grants bh facts).
Proof.
  split; simpl; [done|..].
  - intros e. case_decide; [naive_solver|]. rewrite elem_of_nil. naive_solver.
  - intros ip. unfold broker_ips. rewrite elem_of_sort_strings, list_elem_of_fmap. split.
    + intros ([n i] & -> & [Hb Hin]%list_elem_of_filter). exists n.
      split; [by apply bool_decide_eq_true in Hb|by apply elem_of_map_to_list].
    + intros (n & Hb & Hin). exists (n, ip). split; [done|]. apply list_elem_of_filter.
      split; [by apply bool_decide_eq_true|by apply elem_of_map_to_list].
  - intros sr. rewrite elem_of_order_by, list_elem_of_join.
    intros (l & Hsr & ([n i] & -> & Hin)%list_elem_of_fmap). apply elem_of_map_to_list in Hin.
    unfold source_grants, is_broker in Hsr. simpl in Hsr.
    case_bool_decide as Hb; [by apply not_elem_of_nil in Hsr|].
    destruct (BeamIDFromContainerName n) as [b|] eqn:Eb; [|by apply not_elem_of_nil in Hsr].
    apply list_elem_of_fmap in Hsr as (d & -> & (g & Hg & <- & Hd)%external_of_sound).
    exists n, g. done.
Qed.


(** A hall whose network cannot be inspected is open.  The hook treats any error of the
    inspection as "no network yet" and leaves the hall out: a packet of its bridge that is
    not always denied matches no rule of the script the run enforces. *)
Theorem uninspected_hall_is_open {X C : Type} `{!Platform X} {Packet : Type}
    (test : string → string → Packet → bool) (rec : Reconciler) (brokerNames : list string)
    (w : World X C) (rules : list Rule) (bh : Beamhall) (bridge : string) (pk : Packet)
    (Hrules : script_rules rec (stored_policies brokerNames w) = inr rules)
    (Hfail : facts_of (w_out w) bh = None)
    (Hpk : ∀ b, test "-i" b pk = bool_decide (b = bridge))
    (Hown : ∀ bh' facts, (bh', facts) ∈ inspected w → NF_Bridge facts = bridge → bh' = bh)
    (Hdeny : always_denied test rec pk = false) :
  verdict test chain rules pk = None.
Proof.
  destruct (script_rules_verdict test rec _ rules pk Hrules) as [-> _]. rewrite Hdeny.
  assert (∀ bh' facts, (bh', facts) ∈ inspected w → NF_Bridge facts ≠ bridge) as Hne.
  { intros bh' facts Hin Hb. rewrite <-(Hown _ _ Hin Hb) in Hfail.
    unfold inspected in Hin. apply list_elem_of_omap in Hin as (x & _ & Hx).
    assert (x = bh') as ->.
    { unfold facts_of in Hx. destruct (net_facts _ _).1; [done|]. by injection Hx. }
    congruence. }
  clear Hown. unfold stored_policies, policies_of.
  induction (inspected w) as [|[bh' facts] l IH]; [done|].
  csimpl. unfold from_bridge at 1. simpl. rewrite Hpk.
  destruct (bool_decide (NF_Bridge facts = bridge)) eqn:Hb.
  { apply bool_decide_eq_true in Hb. by destruct (Hne bh' facts (list_elem_of_here _ _) Hb). }
  rewrite andb_false_r. apply IH. intros b f Hin. refine (Hne b f _). by right.
Qed.

(** An entry is checked trimmed and stored as it is: this one passes the check, and no
    script is built for any appliance as long as a hall allows it. *)
Definition UntrimmedEntry : string := "10.0.0.0/8" +:+ nl.
Lemma accepted_entry_blocks_every_hall (r : Reconciler) (ps : list EgressPolicy) (p : EgressPolicy)
    (Hp : p ∈ ps) (Hbridge : Bridge p ≠ EmptyString) (Hentry : UntrimmedEntry ∈ Allow p) :
  ValidateAllowEntry UntrimmedEntry = None ∧ is_inl (buildScript r ps) = true.
Proof.
  split; [vm_compute; reflexivity|]. destruct (buildScript r ps) as [|script] eqn:E; [done|].
  apply sum_bind_inr in E as (rules & Hr & _).
  unfold script_rules in Hr. apply sum_bind_inr in Hr as (denies & _ & Hr).
  apply sum_bind_inr in Hr as (pols & Hpols%mapM_sum_inr & _).
  apply list_elem_of_lookup in Hp as [i Hi].
  destruct (Forall2_lookup_l _ _ _ _ _ Hpols Hi) as (rs & _ & Hrs). unfold policy_rules in Hrs.
  rewrite decide_False in Hrs by done. case_match; [done|].
  apply sum_bind_inr in Hrs as (? & _ & Hrs). apply sum_bind_inr in Hrs as (? & _ & Hrs).
  apply sum_bind_inr in Hrs as (allowed & Hal%mapM_sum_inr & _).
  apply list_elem_of_lookup in Hentry as [j Hj].
  by destruct (Forall2_lookup_l _ _ _ _ _ Hal Hj) as (? & _ & ?).
Qed.

(** ** An appliance with two halls, one of whose networks Docker does not report *)

#[export] Instance Table_driver : RuntimeDriver Table := {|
  drv_Deploy _ x := (inl "no engine", x);
  drv_Start _ x := (inl "no engine", x);
  drv_Pause _ x := (inl "no engine", x);
  drv_Resume _ x := (inl "no engine", x);
  drv_Stop _ _ x := (inl "no engine", x);
  drv_Destroy _ x := (inl "no engine", x);
  drv_Logs _ _ x := (inl "no engine", x);
  drv_Status _ x := (inl "no engine", x) |}.
Definition Facts1 : NetworkFacts :=
  MkNetworkFacts "br-sales" ["172.18.0.0/16"] "172.18.0.1"
    {["bh_B1-0a1b2c3d" := "172.18.0.5"; "bh-postgres" := "172.18.0.2"]}.
#[export] Instance Table_platform : Platform Table := {|
  BuildFromDir _ _ _ x := (inl "no builder", x);
  BuildFromCommit _ _ _ x := (inl "no builder", x);
  egress_sync x := (inr tt, x);
  repo_retire _ _ _ x := (inr tt, x);
  BindingJSON b := b;
  net_facts n x := (if decide (n = "bh-H1") then inr Facts1 else inl "daemon timeout", x);
  jwt_SignedString _ x := (inl "no key", x);
  http_URL _ := None;
  http_Do _ x := (inl "no client", x);
  json_Manifest _ := inl "no manifest";
  limiter_Allow _ _ x := (true, x) |}.
#[export] Instance Table_relay : Relay Table := λ _ x, x.
#[export] Instance Table_network_laws : NetworkLaws Table.
Proof. done. Qed.

Definition Hall2 : Beamhall :=
  Hall1 <| Beamhall_ID := "H2" |> <| Beamhall_Slug := "ops" |>
        <| Beamhall_NetworkPolicy := MkNetworkPolicy EgressDenyAll ["10.1.0.0/16"] |>.
Definition DB_halls : DB :=
  DB1 <| db_beamhalls := {["H1" := Hall1; "H2" := Hall2]} |>
      <| db_beam_peers := {["B1" := MkBeamPeers "B1" "H1" (MkPeerSet [] ["10.2.0.0/16"]) "root" T0]} |>.
Definition World_halls : World Table ScriptedCaddy :=
  MkWorld (MkStore 0 DB_halls) (MkGWorld (Gw_New []) (MkScriptedCaddy None [])) ∅ ∅ ∅ Table1 0 (MkMemory false false ∅).
Definition Rec2 : Reconciler := AllowHostPorts (Egress_New Resolver1 []) [443]%Z.


Definition Packet2 : string * string := ("br-ops", "10.9.9.9").
Definition test2 (flag value : string) (pk : string * string) : bool :=
  if decide (flag = "-i") then bool_decide (value = pk.1) else bool_decide (value = pk.2).
Lemma uninspected_hall_is_open_witness :
  ∃ rules, script_rules Rec2 (stored_policies ["bh-postgres"] World_halls) = inr rules
    ∧ db_beamhalls (w_db World_halls) !! "H2" = Some Hall2
    ∧ verdict test2 chain rules Packet2 = None.
Proof.
  eexists. split; [vm_compute; reflexivity|]. split; [reflexivity|].
  apply (uninspected_hall_is_open test2 Rec2 ["bh-postgres"] World_halls _ Hall2 "br-ops" Packet2).
  - vm_compute. reflexivity.
  - vm_compute. reflexivity.
  - intros b. reflexivity.
  - intros bh' facts Hin Hb. vm_compute in Hin. apply list_elem_of_singleton in Hin.
    injection Hin as _ ->. discriminate Hb.
  - reflexivity.
Defined.
