(* ===== verification/Tarball.v ===== *)
(** The source tarball of deploy_beam (internal/mcp/tarball.go): what unpacking it asks of the
    file system.  Every path is below the source directory and every link target is, read
    as text; but a link entry below another link is resolved elsewhere, and climbs out. *)
From S2P Require Import Prelude Regexp GoStrings GoPath Store.

(** * Unpacking *)

Definition maxExtractBytes : Z := 64 * 2 ^ 20.
Definition maxExtractFiles : Z := 4096.

(** tar.Header, with what reading the entry gives: its bytes, and how they end. *)
Record TarEntry := MkTarEntry {
  th_Name : string;
  th_Typeflag : ascii;
  th_Size : Z;
  th_exec : bool;
  th_Linkname : string;
  th_data : string;
  th_fails : option string}.
Definition TypeReg : ascii := "0".
Definition TypeSymlink : ascii := "2".
Definition TypeDir : ascii := "5".
Definition TypeXGlobalHeader : ascii := "g".
(** The entries of the stream, and the error after them if it does not just end. *)
Record Archive := MkArchive {
  ar_entries : list TarEntry;
  ar_fails : option string}.

(** What is asked of the file system. *)
Inductive FsCall :=
  | MkdirAll (path : string)
  | OpenFile (path : string) (exec : bool)
  | WriteData (path data : string)
  | Symlink (target path : string).
#[export] Instance FsCall_eq_dec : EqDecision FsCall.
Proof. solve_decision. Defined.

Section extract.
(** What the file system answers to the last of the calls so far. *)
Context (answer : list FsCall → option string).
Notation TM := (M (list FsCall) string).

Definition call (c : FsCall) : TM () := λ tr,
  (match answer (tr ++ [c]) with Some e => inl e | None => inr tt end, tr ++ [c]).
(** io.Copy from the entry, at most [limit] bytes: the number copied. *)
Definition copy (path : string) (e : TarEntry) (limit : Z) : TM Z :=
  let room := Z.to_nat limit in
  let data := String.substring 0 room (th_data e) in
  (if decide (data = EmptyString) then mret tt else call (WriteData path data));;
  (if decide (String.length (th_data e) < room) then check (th_fails e) else mret tt);;
  mret (Z.of_nat (String.length data)).
Definition past_limit {A} : TM A :=
  throw ("tarball decompresses past the " +:+ format_int (maxExtractBytes / 2 ^ 20) +:+ " MB limit").
Definition extract_file (path : string) (e : TarEntry) (total : Z) : TM Z :=
  let total := wrap64 (total + th_Size e) in
  if decide (maxExtractBytes < total)%Z then past_limit
  else
  call (MkdirAll (Dir path));;
  call (OpenFile path (th_exec e));;
  n ← copy path e (wrap64 (maxExtractBytes - total + 1));
  let total := wrap64 (total + wrap64 (n - th_Size e)) in
  if decide (maxExtractBytes < total)%Z then past_limit else mret total.
Definition extract_link (path name : string) (e : TarEntry) : TM () :=
  let target := th_Linkname e in
  if IsAbs target || negb (IsLocal (Path_Join (Dir name) target)) then
    throw ("tarball symlink " +:+ quoted (th_Name e) +:+ " → " +:+ quoted target
           +:+ " escapes the source directory")
  else
  call (MkdirAll (Dir path));;
  call (Symlink target path).
Fixpoint extract (dst : string) (entries : list TarEntry) (ends : option string) (files total : Z) : TM () :=
  match entries with
  | [] => match ends with Some e => throw ("read tarball: " +:+ e) | None => mret tt end
  | e :: entries =>
      let name := Clean (th_Name e) in
      if decide (name = ".") then extract dst entries ends files total
      else if negb (IsLocal name) then
        throw ("tarball entry " +:+ quoted (th_Name e) +:+ " escapes the source directory")
      else
      let files := (files + 1)%Z in
      if decide (maxExtractFiles < files)%Z then
        throw ("tarball has more than " +:+ format_int maxExtractFiles +:+ " entries")
      else
      let path := Path_Join dst name in
      if decide (th_Typeflag e = TypeDir) then
        call (MkdirAll path);; extract dst entries ends files total
      else if decide (th_Typeflag e = TypeReg) then
        total ← extract_file path e total; extract dst entries ends files total
      else if decide (th_Typeflag e = TypeSymlink) then
        extract_link path name e;; extract dst entries ends files total
      else if HasPrefix name "._" || bool_decide (th_Typeflag e = TypeXGlobalHeader) then
        extract dst entries ends files total
      else
        throw ("tarball entry " +:+ quoted (th_Name e) +:+ " has unsupported type "
               +:+ String (th_Typeflag e) EmptyString)
  end.
(** [gz]: what gzip makes of the bytes. *)
Definition extractTarGz (gz : string + Archive) (dst : string) : TM () :=
  match gz with
  | inl e => throw ("source_tarball is not a gzip stream: " +:+ e)
  | inr a => extract dst (ar_entries a) (ar_fails a) 0 0
  end.
End extract.

(** * What it asks for *)

(** At the directory's path or below, and a link's target stays inside as text. *)
Definition below (dst : list string) (p : string) : Prop :=
  ∃ comps, plain_path comps ∧ p = path_of (dst ++ comps).
Definition asks_inside (dst : list string) (c : FsCall) : Prop :=
  match c with
  | MkdirAll p | OpenFile p _ | WriteData p _ => below dst p
  | Symlink target p => ∃ comps, comps ≠ [] ∧ plain_path comps ∧ p = path_of (dst ++ comps)
      ∧ IsAbs target = false ∧ IsLocal (Path_Join (Dir (Join comps "/")) target) = true
  end.
Definition data_bytes (c : FsCall) : nat :=
  match c with WriteData _ d => String.length d | _ => 0 end.
Definition written (tr : list FsCall) : nat := sum_list_with data_bytes tr.

(** Files and links, which are the entries that count. *)
Definition creates (c : FsCall) : nat :=
  match c with OpenFile _ _ | Symlink _ _ => 1 | _ => 0 end.
Definition created (tr : list FsCall) : nat := sum_list_with creates tr.

Section inside.
Context (answer : list FsCall → option string) (dst : list string) (Hdst : dst ≠ []) (Hplain : plain_path dst).
Implicit Types (tr : list FsCall).
Notation inside tr := (Forall (asks_inside dst) tr).

Lemma inside_snoc tr c : inside tr → asks_inside dst c → inside (tr ++ [c]).
Proof. intros Ht Hc. apply Forall_app. by split; [|constructor]. Qed.
Lemma written_snoc tr c : written (tr ++ [c]) = written tr + data_bytes c.
Proof. unfold written. rewrite sum_list_with_app. simpl. lia. Qed.
Lemma created_snoc tr c : created (tr ++ [c]) = created tr + creates c.
Proof. unfold created. rewrite sum_list_with_app. simpl. lia. Qed.
Lemma wp_call c (Q : string + () → list FsCall → Prop) tr :
  (∀ r, Q r (tr ++ [c])) → wp (call answer c) Q tr.
Proof. intros HQ. unfold wp, call. simpl. apply HQ. Qed.

(** Where a file or link lands, and its directory. *)
Record lands (name path : string) : Prop := {
  la_path : ∃ comps, comps ≠ [] ∧ plain_path comps ∧ name = Join comps "/" ∧ path = path_of (dst ++ comps) }.
Lemma lands_clean n : IsLocal (Clean n) = true → Clean n ≠ "." →
  lands (Clean n) (Path_Join (path_of dst) (Clean n)).
Proof.
  intros Hl Hne. destruct (Path_Join_local dst n Hdst Hplain Hl Hne) as (comps & ? & ? & ? & ?).
  split. by exists comps.
Qed.
Lemma lands_below name path : lands name path → below dst path.
Proof. intros [(comps & _ & Hp & _ & ->)]. by exists comps. Qed.
Lemma lands_dir name path : lands name path → below dst (Dir path).
Proof.
  intros [(comps & Hne & [Hp Hs] & _ & ->)]. destruct Hplain as [Hdp Hds].
  destruct (exists_last Hne) as (l & c & ->). rewrite app_assoc. rewrite Dir_path_of.
  - exists l. split; [|done]. apply Forall_app in Hp as [Hp _], Hs as [Hs _]. done.
  - by destruct dst.
  - split; apply Forall_app in Hp as [? ?], Hs as [? ?]; repeat apply Forall_app_2; done.
Qed.

Lemma length_substring_le m s : String.length (String.substring 0 m s) ≤ m.
Proof. revert s. induction m as [|m IH]; intros [|c s]; simpl; try lia. specialize (IH s). lia. Qed.

(** Copying writes at most the room it is given, and exactly what it reports. *)
Lemma wp_copy path e limit tr : below dst path → inside tr →
  wp (copy answer path e limit) (λ r tr', inside tr' ∧ created tr' = created tr
    ∧ (Z.of_nat (written tr') ≤ Z.of_nat (written tr) + 0 `max` limit)%Z
    ∧ ∀ n, r = inr n → Z.of_nat (written tr') = (Z.of_nat (written tr) + n)%Z ∧ (0 ≤ n)%Z) tr.
Proof.
  intros Hb Ht. unfold copy. set (room := Z.to_nat limit).
  pose proof (length_substring_le room (th_data e)) as Hlen.
  assert (∀ tr', inside tr' → created tr' = created tr →
    written tr' = written tr + String.length (String.substring 0 room (th_data e)) →
    wp (W := list FsCall) (E := string)
      ((if decide (String.length (th_data e) < room) then check (th_fails e) else mret tt);;
       mret (Z.of_nat (String.length (String.substring 0 room (th_data e)))))
      (λ r tr', inside tr' ∧ created tr' = created tr
        ∧ (Z.of_nat (written tr') ≤ Z.of_nat (written tr) + 0 `max` limit)%Z
        ∧ ∀ n, r = inr n → Z.of_nat (written tr') = (Z.of_nat (written tr) + n)%Z ∧ (0 ≤ n)%Z) tr') as Hrest.
  { intros tr' Hi Hc Hw. apply wp_bind. case_decide.
    - apply wp_check; intros; [|apply wp_ret]; split_and!; try done; lia || (intros ? [= <-]; lia).
    - apply wp_ret, wp_ret. split_and!; try done; lia || (intros ? [= <-]; lia). }
  apply wp_bind. destruct (decide (String.substring 0 room (th_data e) = EmptyString)) as [Hd|Hd].
  - apply wp_ret. apply Hrest; [done|done|]. rewrite Hd. simpl. lia.
  - apply wp_call. intros [er|[]].
    + rewrite written_snoc, created_snoc. simpl.
      split_and!; [by apply inside_snoc|lia|subst room; lia|done].
    + apply Hrest; [by apply inside_snoc|rewrite created_snoc; simpl; lia|by rewrite written_snoc].
Qed.
(** A file: the total stays the number of bytes written, whatever size the entry declares. *)
Lemma wp_extract_file name path e total tr : lands name path → inside tr →
  (0 ≤ th_Size e < 2 ^ 63)%Z → (0 ≤ total ≤ maxExtractBytes)%Z → Z.of_nat (written tr) = total →
  wp (extract_file answer path e total) (λ r tr', inside tr' ∧ created tr' ≤ S (created tr)
    ∧ (Z.of_nat (written tr') ≤ maxExtractBytes + 1)%Z
    ∧ ∀ t, r = inr t → (0 ≤ t ≤ maxExtractBytes)%Z ∧ Z.of_nat (written tr') = t) tr.
Proof.
  intros Hl Ht Hsz Htot Hw. unfold extract_file.
  assert (maxExtractBytes = 67108864)%Z as Hmax by done.
  case_decide as Hbig; [apply wp_throw; split_and!; [done|lia|lia|done]|].
  apply wp_bind, wp_call. intros [er|[]].
  { rewrite written_snoc, created_snoc. simpl.
    split_and!; [apply inside_snoc; [done|by eapply lands_dir]|lia|lia|done]. }
  apply wp_bind, wp_call. intros [er|[]].
  { rewrite !written_snoc, !created_snoc. simpl.
    split_and!; [repeat apply inside_snoc; [done|by eapply lands_dir|by eapply lands_below]|lia|lia|done]. }
  set (total1 := wrap64 (total + th_Size e)) in *. set (limit := wrap64 (maxExtractBytes - total1 + 1)).
  assert (0 `max` limit ≤ maxExtractBytes + 1 - total)%Z as Hlim.
  { subst limit total1. unfold wrap64 in *. rewrite Hmax in *.
    destruct (decide (total + th_Size e < 2 ^ 63)%Z).
    - rewrite (Z.mod_small (total + th_Size e + 2 ^ 63)) in * by lia.
      rewrite Z.mod_small by lia. lia.
    - assert ((total + th_Size e + 2 ^ 63) `mod` 2 ^ 64 = total + th_Size e + 2 ^ 63 - 2 ^ 64)%Z as ->.
      { symmetry. apply (Z.mod_unique _ _ 1); lia. }
      assert ((67108864 - (total + th_Size e + 2 ^ 63 - 2 ^ 64 - 2 ^ 63) + 1 + 2 ^ 63) `mod` 2 ^ 64
              = 67108864 - total - th_Size e + 1 + 2 ^ 63)%Z as ->.
      { symmetry. apply (Z.mod_unique _ _ 1); lia. }
      lia. }
  apply wp_bind. eapply wp_mono.
  { apply (wp_copy path e limit); [by eapply lands_below|].
    repeat apply inside_snoc; [done|by eapply lands_dir|by eapply lands_below]. }
  intros r tr'. rewrite !written_snoc, !created_snoc. simpl. intros (Hi & Hc & Hwr & Hn).
  destruct r as [er|n]; [split_and!; [done|lia|lia|done]|].
  destruct (Hn n eq_refl) as [Hwn Hn0].
  assert (wrap64 (total1 + wrap64 (n - th_Size e)) = total + n)%Z as Heq.
  { rewrite (wrap64_id (n - th_Size e)) by (unfold int64; lia).
    subst total1. unfold wrap64. destruct (decide (total + th_Size e < 2 ^ 63)%Z).
    - rewrite (Z.mod_small (total + th_Size e + 2 ^ 63)) by lia. rewrite Z.mod_small by lia. lia.
    - assert ((total + th_Size e + 2 ^ 63) `mod` 2 ^ 64 = total + th_Size e + 2 ^ 63 - 2 ^ 64)%Z as ->.
      { symmetry. apply (Z.mod_unique _ _ 1); lia. }
      assert ((total + th_Size e + 2 ^ 63 - 2 ^ 64 - 2 ^ 63 + (n - th_Size e) + 2 ^ 63) `mod` 2 ^ 64
              = total + n + 2 ^ 63)%Z as ->.
      { symmetry. apply (Z.mod_unique _ _ (-1)); lia. }
      lia. }
  rewrite Heq. case_decide.
  - apply wp_throw. split_and!; [done|lia|lia|done].
  - apply wp_ret. split_and!; [done|lia|lia|]. intros ? [= <-]. lia.
Qed.

Lemma wp_extract_link name path e tr : lands name path → inside tr →
  wp (extract_link answer path name e) (λ _ tr', inside tr' ∧ written tr' = written tr
    ∧ created tr' ≤ S (created tr)) tr.
Proof.
  intros Hl Ht. unfold extract_link. case_match eqn:Hbad; [apply wp_throw; split_and!; [done|done|lia]|].
  apply orb_false_iff in Hbad as [Habs Hloc%negb_false_iff].
  apply wp_bind, wp_call. intros [er|[]].
  { rewrite written_snoc, created_snoc. simpl.
    split_and!; [apply inside_snoc; [done|by eapply lands_dir]|lia|lia]. }
  apply wp_call. intros _. rewrite !written_snoc, !created_snoc. simpl.
  split_and!; [|lia|lia]. repeat apply inside_snoc; [done|by eapply lands_dir|].
  destruct Hl as [(comps & Hne & Hp & -> & ->)]. by exists comps.
Qed.
Lemma wp_extract entries ends files total tr :
  Forall (λ e, 0 ≤ th_Size e < 2 ^ 63)%Z entries → inside tr →
  (0 ≤ total ≤ maxExtractBytes)%Z → Z.of_nat (written tr) = total →
  (Z.of_nat (created tr) ≤ files ≤ maxExtractFiles)%Z →
  wp (extract answer (path_of dst) entries ends files total) (λ _ tr', inside tr'
    ∧ (Z.of_nat (written tr') ≤ maxExtractBytes + 1)%Z
    ∧ (Z.of_nat (created tr') ≤ maxExtractFiles)%Z) tr.
Proof.
  intros Hs. revert files total tr. induction Hs as [|e entries Hsz _ IH]; intros files total tr Ht Htot Hw Hf.
  { simpl. destruct ends; [apply wp_throw|apply wp_ret]; split_and!; try done; lia. }
  assert (∀ m, wp (throw m : M (list FsCall) string ()) (λ _ tr', inside tr'
    ∧ (Z.of_nat (written tr') ≤ maxExtractBytes + 1)%Z
    ∧ (Z.of_nat (created tr') ≤ maxExtractFiles)%Z) tr) as Hthrow.
  { intros m. apply wp_throw. split_and!; [done|lia|lia]. }
  simpl. case_decide as Hdot; [by eapply IH|].
  destruct (IsLocal (Clean (th_Name e))) eqn:Hloc; [|apply Hthrow]. simpl.
  case_decide as Hmany; [apply Hthrow|].
  pose proof (lands_clean (th_Name e) Hloc Hdot) as Hl.
  set (path := Path_Join (path_of dst) (Clean (th_Name e))) in *.
  case_decide as Hd; [|case_decide as Hr; [|case_decide as Hk]].
  - apply wp_bind, wp_call.
    assert (inside (tr ++ [MkdirAll path])) as Hi by (apply inside_snoc; [done|by eapply lands_below]).
    intros [er|[]]; [rewrite written_snoc, created_snoc; simpl; split_and!; [done|lia|lia]|].
    eapply IH; [done|done|rewrite written_snoc; simpl; lia|rewrite created_snoc; simpl; lia].
  - apply wp_bind. eapply wp_mono; [by eapply wp_extract_file|].
    intros [er|t] tr' (Hi & Hc & Hb & Hok); [split_and!; [done|lia|lia]|].
    destruct (Hok t eq_refl) as [Ht' Hw']. eapply IH; [done|done|done|lia].
  - apply wp_bind. eapply wp_mono; [by eapply wp_extract_link|].
    intros [er|[]] tr' (Hi & Hb & Hc); [split_and!; [done|lia|lia]|].
    eapply IH; [done|done|lia|lia].
  - case_match; [|apply Hthrow]. eapply IH; [done|done|done|lia].
Qed.
End inside.


(** * A file tree *)

Inductive Node :=
  | DirNode
  | FileNode (exec : bool) (content : string)
  | LinkNode (target : string).
#[export] Instance Node_eq_dec : EqDecision Node.
Proof. solve_decision. Defined.
(** Nodes by the elements of their path; the root is not listed. *)
Notation Tree := (gmap (list string) Node).

(** Where a path leads from [cur], links followed (the last element's only if [follow]). *)
Fixpoint walk (fuel : nat) (follow : bool) (t : Tree) (cur todo : list string) : option (list string) :=
  match fuel with
  | O => None
  | S fuel =>
      match todo with
      | [] => Some cur
      | c :: rest =>
          if decide (c = EmptyString ∨ c = ".") then walk fuel follow t cur rest
          else if decide (c = "..") then walk fuel follow t (removelast cur) rest
          else match t !! (cur ++ [c]) with
               | Some (LinkNode target) =>
                   if decide (rest = [] ∧ follow = false) then Some (cur ++ [c])
                   else walk fuel follow t (if IsAbs target then [] else cur) (Split target "/" ++ rest)
               | Some DirNode => walk fuel follow t (cur ++ [c]) rest
               | _ => if decide (rest = []) then Some (cur ++ [c]) else None
               end
      end
  end.
Definition max_steps : nat := 255.
Definition resolve (follow : bool) (t : Tree) (p : string) : option (list string) :=
  walk max_steps follow t [] (Split p "/").
(** os.MkdirAll on the elements of a path: each one a directory, made if it is missing. *)
Fixpoint mkdirs (t : Tree) (done : string) (todo : list string) : option Tree :=
  match todo with
  | [] => Some t
  | c :: todo =>
      let p := done +:+ "/" +:+ c in
      at_ ← resolve true t p;
      match t !! at_ with
      | None => mkdirs (<[at_ := DirNode]> t) p todo
      | Some DirNode => mkdirs t p todo
      | Some _ => None
      end
  end.
Definition tree_call (t : Tree) (c : FsCall) : option Tree :=
  match c with
  | MkdirAll p => mkdirs t EmptyString (tail (Split p "/"))
  | OpenFile p exec =>
      at_ ← resolve true t p;
      match t !! at_ with
      | None => Some (<[at_ := FileNode exec EmptyString]> t)
      | Some (FileNode x _) => Some (<[at_ := FileNode x EmptyString]> t)
      | Some _ => None
      end
  | WriteData p data =>
      at_ ← resolve true t p;
      match t !! at_ with
      | Some (FileNode x content) => Some (<[at_ := FileNode x (content +:+ data)]> t)
      | _ => None
      end
  | Symlink target p =>
      at_ ← resolve false t p;
      match t !! at_ with None => Some (<[at_ := LinkNode target]> t) | Some _ => None end
  end.
(** A call that fails leaves the tree. *)
Definition tree_run (t : Tree) (tr : list FsCall) : Tree := foldl (λ t c, default t (tree_call t c)) t tr.
Definition tree_answer (t : Tree) (tr : list FsCall) : option string :=
  match tr with
  | [] => None
  | _ => match last tr with
         | Some c => match tree_call (tree_run t (removelast tr)) c with None => Some "fs" | Some _ => None end
         | None => None
         end
  end.
Definition unpack (t : Tree) (gz : string + Archive) (dst : list string) : (string + ()) * Tree :=
  let '(r, tr) := extractTarGz (tree_answer t) gz (path_of dst) [] in (r, tree_run t tr).

(** A link to the directory itself, a link below it that climbs from where it really is, and a
    file through that link: the archive is accepted and writes /etc/cron.d/job. *)
Definition small_tree : Tree := {[["tmp"] := DirNode; ["tmp"; "src"] := DirNode; ["etc"] := DirNode]}.
Definition entry (name : string) (flag : ascii) (link data : string) : TarEntry :=
  MkTarEntry name flag (Z.of_nat (String.length data)) false link data None.
Definition climbing_archive : Archive := MkArchive
  [entry "d" TypeSymlink "." EmptyString;
   entry "d/d/up" TypeSymlink "../.." EmptyString;
   entry "up/etc/cron.d/job" TypeReg EmptyString "* * * * * root id"] None.
Example link_chain_escapes :
  let '(r, t) := unpack small_tree (inr climbing_archive) ["tmp"; "src"] in
  r = inr tt ∧ t !! ["etc"; "cron.d"; "job"] = Some (FileNode false "* * * * * root id").
Proof. vm_compute. done. Qed.

(** * Without links nothing outside changes *)

Definition no_link (c : FsCall) : Prop := match c with Symlink _ _ => False | _ => True end.
Section no_links.
Context (answer : list FsCall → option string).
Definition link_free (tr tr' : list FsCall) : Prop := Forall no_link tr → Forall no_link tr'.
#[local] Instance link_free_preorder : PreOrder link_free.
Proof. split; [by intros t ?|]. unfold link_free. intros t1 t2 t3. auto. Qed.
Lemma frames_call c : no_link c → frames link_free (call answer c).
Proof. intros Hc tr Ht. simpl. apply Forall_app. by split; [|constructor]. Qed.
#[local] Hint Resolve frames_call : frame.
#[local] Hint Extern 1 (no_link _) => exact I : frame.
Lemma frames_extract_file path e total : frames link_free (extract_file answer path e total).
Proof. unfold extract_file, copy, past_limit. solve_frame. Qed.
Lemma frames_extract dst entries ends files total :
  Forall (λ e, th_Typeflag e ≠ TypeSymlink) entries →
  frames link_free (extract answer dst entries ends files total).
Proof.
  intros He. revert files total. induction He as [|e entries Hne _ IH]; intros files total; simpl; [case_match; [apply frames_throw|apply frames_ret]; tc_solve|].
  assert (∀ m, frames link_free (throw m : M (list FsCall) string ())) as Hthrow by (intros; solve_frame).
  case_decide; [apply IH|]. destruct (negb _); [apply Hthrow|]. case_decide; [apply Hthrow|].
  case_decide; [apply frames_bind; [tc_solve|by auto with frame|intros; apply IH]|].
  case_decide; [apply frames_bind; [tc_solve|apply frames_extract_file|intros; apply IH]|].
  rewrite decide_False by done. case_match; [apply IH|apply Hthrow].
Qed.
End no_links.

Section confined.
Context (dst : list string) (Hdst : dst ≠ []) (Hplain : plain_path dst).
Implicit Types (t : Tree) (p l : list string).
(** The directory is there, and there is no link on the way to it or below it. *)
Definition on_path p : Prop := p `prefix_of` dst ∨ dst `prefix_of` p.
Record sound t : Prop := {
  so_dirs p : p `prefix_of` dst → p ≠ [] → t !! p = Some DirNode;
  so_links p target : on_path p → t !! p ≠ Some (LinkNode target) }.
Definition outside_same t t' : Prop := ∀ p, ¬ dst `prefix_of` p → t' !! p = t !! p.

Lemma prefix_on_path l p comps : l = dst ++ comps → p `prefix_of` l → on_path p.
Proof.
  intros -> Hp. unfold on_path. destruct (prefix_weak_total p dst (dst ++ comps)); [done|by exists comps|by left|by right].
Qed.
Lemma walk_plain fuel follow t cur todo q :
  (∀ p target, p `prefix_of` cur ++ todo → t !! p ≠ Some (LinkNode target)) → Forall plain_comp todo →
  walk fuel follow t cur todo = Some q → q = cur ++ todo.
Proof.
  revert cur todo. induction fuel as [|fuel IH]; intros cur todo Hl Hp; [done|]. simpl.
  destruct Hp as [|c todo (He & Hd & Hdd) Hp]; [intros [= ->]; by rewrite app_nil_r|].
  rewrite decide_False by naive_solver. rewrite decide_False by done.
  destruct (t !! (cur ++ [c])) as [[|x content|target]|] eqn:Et.
  - intros Hw. apply IH in Hw; [by rewrite <-app_assoc in Hw| |done]. by rewrite <-app_assoc.
  - case_decide as Hr; [|done]. intros [= <-]. by subst todo.
  - exfalso. apply (Hl (cur ++ [c]) target); [|done]. exists todo. by rewrite <-app_assoc.
  - case_decide as Hr; [|done]. intros [= <-]. by subst todo.
Qed.
Lemma walk_rooted fuel follow t todo q :
  (∀ p target, p `prefix_of` todo → t !! p ≠ Some (LinkNode target)) → Forall plain_comp todo →
  walk fuel follow t [] (EmptyString :: todo) = Some q → q = todo.
Proof. destruct fuel as [|fuel]; [done|]. intros Hl Hp Hw. by apply (walk_plain fuel follow t []) in Hw. Qed.
Lemma resolve_walk follow t (path : string) q : resolve follow t path = Some q →
  ∃ fuel, walk fuel follow t [] (Split path "/") = Some q.
Proof. unfold resolve. generalize max_steps. intros fuel ?. by exists fuel. Qed.
Definition off_links l : Prop := plain_path l ∧ ∀ p, p `prefix_of` l → on_path p.
Lemma off_links_below comps : plain_path comps → off_links (dst ++ comps).
Proof.
  intros [Hp Hs]. destruct Hplain. split; [split; by apply Forall_app|].
  intros p Hpre. by eapply prefix_on_path.
Qed.
Lemma resolve_sound follow t l q : sound t → off_links l → l ≠ [] →
  resolve follow t (path_of l) = Some q → q = l.
Proof.
  intros Ht [[Hp Hs] Hl] Hne Hr. pose proof (resolve_walk _ _ _ _ Hr) as [fuel Hw].
  rewrite Split_path_of in Hw by done. apply walk_rooted in Hw; [done| |done].
  intros p target Hpre. by apply (so_links t Ht), Hl.
Qed.
(** A node made below the directory, which is no link. *)
Lemma insert_sound t0 t p n : sound t → outside_same t0 t → dst `prefix_of` p → p ≠ dst →
  (∀ target, n ≠ LinkNode target) → sound (<[p := n]> t) ∧ outside_same t0 (<[p := n]> t).
Proof.
  intros [Hd Hl] Ho Hp Hne Hn. assert (∀ p', p' `prefix_of` dst → p' ≠ p) as Hne'.
  { intros p' Hp' ->. apply Hne. by apply (anti_symm prefix). }
  split; [split|].
  - intros p' Hp' ?. rewrite lookup_insert_ne by (symmetry; by apply Hne'). by apply Hd.
  - intros p' target Hp'. destruct (decide (p' = p)) as [->|]; [|rewrite lookup_insert_ne by done; by apply Hl].
    rewrite lookup_insert_eq. intros [= ->]. by eapply Hn.
  - intros p' Hp'. rewrite lookup_insert_ne; [by apply Ho|]. by intros ->.
Qed.

(** The path of the elements so far, as MkdirAll spells it. *)
Definition upto l : string := match l with [] => EmptyString | _ => path_of l end.
Lemma upto_snoc l c : upto l +:+ "/" +:+ c = path_of (l ++ [c]).
Proof.
  unfold upto, path_of. destruct l as [|c1 l]; [done|]. change ((c1 :: l) ++ [c]) with (c1 :: (l ++ [c])).
  cut (Join (c1 :: l) "/" +:+ "/" +:+ c = Join (c1 :: l ++ [c]) "/"); [by intros <-|].
  revert c1. induction l as [|c2 l IH]; intros c1; [done|].
  change (Join (c1 :: c2 :: l) "/") with (c1 +:+ "/" +:+ Join (c2 :: l) "/").
  change (Join (c1 :: (c2 :: l) ++ [c]) "/") with (c1 +:+ "/" +:+ Join (c2 :: l ++ [c]) "/").
  by rewrite <-IH, !string_app_assoc.
Qed.
Notation stays t0 t := (sound t ∧ outside_same t0 t).
Lemma mkdirs_stays t0 t pre todo t' : stays t0 t → off_links (pre ++ todo) →
  mkdirs t (upto pre) todo = Some t' → stays t0 t'.
Proof.
  intros Ht Ho. revert t pre Ht Ho. induction todo as [|c todo IH]; intros t pre Ht Ho; simpl; [by intros [= <-]|].
  change (String "/" c) with ("/" +:+ c). rewrite upto_snoc. rewrite (cons_middle c pre todo) in Ho.
  assert (off_links (pre ++ [c])) as Hc.
  { destruct Ho as [[Hp Hs] Hl]. rewrite app_assoc in Hp, Hs, Hl.
    apply Forall_app in Hp as [? _], Hs as [? _]. split; [done|]. intros p Hp. by apply Hl, prefix_app_r. }
  assert (upto (pre ++ [c]) = path_of (pre ++ [c])) as Hup by (unfold upto; by destruct pre).
  destruct (resolve true t (path_of (pre ++ [c]))) as [q|] eqn:Hr; [|done]. simpl.
  pose proof Ht as [Hsound Hout]. apply resolve_sound in Hr as ->; [|done|done|by destruct pre].
  rewrite app_assoc in Ho. rewrite <-Hup.
  destruct (t !! (pre ++ [c])) as [[|x content|target]|] eqn:Et; [|done|done|]; apply IH; try done.
  assert (¬ (pre ++ [c]) `prefix_of` dst) as Hnp.
  { intros Hpre. pose proof (so_dirs t Hsound _ Hpre) as He. rewrite Et in He. destruct pre; by specialize (He ltac:(done)). }
  destruct Hc as [_ Hon]. destruct (Hon (pre ++ [c])) as [|Hd]; [done|done|].
  apply insert_sound; try done. intros Heq. apply Hnp. by rewrite Heq.
Qed.
(** Setting a file below the directory, where no directory is. *)
Lemma set_stays t0 t l n : stays t0 t → dst `prefix_of` l → t !! l ≠ Some DirNode →
  (∀ target, n ≠ LinkNode target) → stays t0 (<[l := n]> t).
Proof.
  intros [Hs Ho] Hp Hd Hn. apply insert_sound; try done. intros ->.
  apply Hd. by apply (so_dirs t Hs).
Qed.
Lemma tree_call_stays t0 t c t' : stays t0 t → asks_inside dst c → no_link c →
  tree_call t c = Some t' → stays t0 t'.
Proof.
  intros Ht Hi Hn. destruct c as [p|p exec|p data|target p]; [| | |done];
    destruct Hi as (comps & Hp & ->); pose proof (off_links_below comps Hp) as Ho; cbn [tree_call].
  { rewrite Split_path_of; [|by destruct dst|apply Ho]. by apply (mkdirs_stays t0 t []). }
  all: destruct (resolve true t _) as [q|] eqn:Hr; [|done]; simpl;
    apply resolve_sound in Hr as ->; [|apply Ht|done|by destruct dst];
    destruct (t !! (dst ++ comps)) as [[|x content|tg]|] eqn:Et; try done; intros [= <-];
    apply set_stays; try done; try (by exists comps); congruence.
Qed.
Lemma tree_run_stays t0 t tr : stays t0 t → Forall (asks_inside dst) tr → Forall no_link tr → stays t0 (tree_run t tr).
Proof.
  intros Ht Hi Hn. unfold tree_run. revert t Ht. induction Hi as [|c tr Hc Hi IH]; intros t Ht; [done|].
  apply Forall_cons in Hn as [Hnc Hn]. simpl. apply IH; [done|].
  destruct (tree_call t c) eqn:E; [|done]. simpl. by eapply tree_call_stays.
Qed.
End confined.

(** Without link entries an upload writes nothing outside the source directory.  In a file
    tree where the directory exists and no link lies on the way to it or below it, unpacking an
    archive that holds no link leaves every node outside the directory as it was, whatever names
    its entries have and whether unpacking succeeds or stops at an error. *)
Theorem extraction_confined (dst : list string) (t : Tree) (gz : string + Archive)
    (Hdst : dst ≠ []) (Hplain : plain_path dst) (Ht : sound dst t)
    (Hsizes : ∀ a, gz = inr a → Forall (λ e, 0 ≤ th_Size e < 2 ^ 63)%Z (ar_entries a))
    (Hlinks : ∀ a, gz = inr a → Forall (λ e, th_Typeflag e ≠ TypeSymlink) (ar_entries a)) :
  ∀ p, ¬ dst `prefix_of` p → (unpack t gz dst).2 !! p = t !! p.
Proof.
  unfold unpack. destruct (extractTarGz (tree_answer t) gz (path_of dst) []) as [r tr] eqn:E. simpl.
  assert (Forall (asks_inside dst) tr ∧ Forall no_link tr) as [Hi Hn].
  { change tr with (r, tr).2. rewrite <-E. destruct gz as [e|[entries ends]]; [by split|]. split.
    - by apply (wp_extract (tree_answer t) dst Hdst Hplain entries ends 0 0 [] (Hsizes _ eq_refl)).
    - by apply (frames_extract (tree_answer t) (path_of dst) entries ends 0 0 (Hlinks _ eq_refl)). }
  intros p Hp. by apply (tree_run_stays dst Hdst Hplain t t tr).
Qed.

Definition plain_archive : Archive := MkArchive
  [entry "./" TypeDir EmptyString EmptyString;
   entry "app/main.go" TypeReg EmptyString "package main";
   entry "../etc/passwd" TypeReg EmptyString "x"] None.
Lemma small_tree_sound : sound ["tmp"; "src"] small_tree.
Proof.
  split.
  - intros p [l Hl] Hne. destruct p as [|a [|b [|c p]]]; simplify_eq/=; done.
  - intros p target _. assert (map_Forall (λ _ n, n = DirNode) small_tree) as Hall by (apply (bool_decide_unpack _); by vm_compute).
    intros H. by apply Hall in H.
Qed.
Lemma extraction_confined_witness :
  let r := unpack small_tree (inr plain_archive) ["tmp"; "src"] in
  r.2 !! ["tmp"; "src"; "app"; "main.go"] = Some (FileNode false "package main")
  ∧ ∀ p, ¬ ["tmp"; "src"] `prefix_of` p → r.2 !! p = small_tree !! p.
Proof.
  split_and!; [by vm_compute|].
  apply (extraction_confined ["tmp"; "src"] small_tree (inr plain_archive)).
  - done.
  - split; repeat constructor; done.
  - apply small_tree_sound.
  - intros a [= <-]. repeat constructor; done.
  - intros a [= <-]. repeat constructor; done.
Defined.
