(* ===== verification/Auth.v ===== *)
(** Authentication (internal/auth): scopes, the claims of a token as the verifier reads them,
    the verifier itself, discovery of the identity provider's keys and their cache, and the
    Origin check.  The JWT library and the network are arguments.  The verifier's guarantees follow. *)
From S2P Require Import Prelude Regexp GoStrings GoNet GoHTTP GoText.

(** * Values of encoding/json *)

(** A decoded value; a number is kept as its text.  The members of an object are in the
    order of the document, the last of a name is the one a map holds. *)
Inductive any :=
  | ANull
  | ABool (b : bool)
  | ANum (text : string)
  | AStr (s : string)
  | AArr (l : list any)
  | AObj (members : list (string * any)).
Notation MapClaims := (list (string * any)).

(** [m[key]], nil when it is absent. *)
Definition index (m : MapClaims) (key : string) : any :=
  match list_find (λ kv, kv.1 = key) (rev m) with Some (_, kv) => kv.2 | None => ANull end.
(** [v.(string)] and the like, the zero value when the assertion fails. *)
Definition as_string (v : any) : option string := match v with AStr s => Some s | _ => None end.
Definition as_array (v : any) : option (list any) := match v with AArr l => Some l | _ => None end.
Definition as_object (v : any) : option MapClaims := match v with AObj m => Some m | _ => None end.
Definition str_claim (m : MapClaims) (key : string) : string := default EmptyString (as_string (index m key)).
Definition strings_of (l : list any) : list string := omap as_string l.

(** A field of a struct being decoded: members match up to case, null leaves it, another kind
    is an error. *)
Definition field_values (name : string) (m : MapClaims) : list any :=
  snd <$> filter (λ kv, ToLower kv.1 = ToLower name) m.
Definition string_field (name : string) (m : MapClaims) : option string :=
  foldl (λ acc v, old ← acc; match v with AStr s => Some s | ANull => Some old | _ => None end)
    (Some EmptyString) (field_values name m).
Definition array_field (name : string) (m : MapClaims) : option (list any) :=
  foldl (λ acc v, old ← acc; match v with AArr l => Some l | ANull => Some [] | _ => None end)
    (Some []) (field_values name m).
(** Decoding a value into a struct: null leaves it as it is. *)
Definition struct_members (v : any) : option MapClaims :=
  match v with AObj m => Some m | ANull => Some [] | _ => None end.

(** * Scopes (scopes.go) *)

Definition ScopeBeamhallsRead : string := "beamhalls:read".
Definition ScopeBeamsWrite : string := "beams:write".
Definition ScopeBeamsDeploy : string := "beams:deploy".
Definition ScopeBeamsOperate : string := "beams:operate".
Definition ScopeBeamsPromote : string := "beams:promote".
Definition ScopeSecretsWrite : string := "secrets:write".
Definition ScopeResourcesWrite : string := "resources:write".
Definition ScopeLogsRead : string := "logs:read".
Definition ScopeMetricsRead : string := "metrics:read".
Definition ScopeBeamsUse : string := "beams:use".
Definition ScopeAdminIT : string := "admin:it".
Definition AllScopes : list string :=
  [ScopeBeamhallsRead; ScopeBeamsWrite; ScopeBeamsDeploy; ScopeBeamsOperate;
   ScopeBeamsPromote; ScopeSecretsWrite; ScopeResourcesWrite;
   ScopeLogsRead; ScopeMetricsRead; ScopeBeamsUse].
Definition HasScope (granted : list string) (want : string) : bool := bool_decide (want ∈ granted).

(** * Token information *)

(** sdkauth.TokenInfo with the entries of Extra; an absent entry reads as empty. *)
Record TokenInfo := MkTokenInfo {
  Scopes : list string;
  Expiration : time;
  UserID : string;
  ExtraIssuer : string;
  ExtraSubject : string;
  ExtraJTI : string;
  ExtraEmail : string;
  ExtraRoles : list string;
  ExtraGroups : list string}.
Definition DefaultAdminRole : string := "beamhall-it".
Definition RolesOf (info : option TokenInfo) : list string :=
  match info with Some i => ExtraRoles i | None => [] end.
Definition GroupsOf (info : option TokenInfo) : list string :=
  match info with Some i => ExtraGroups i | None => [] end.
Definition HasRole (info : option TokenInfo) (role : string) : bool :=
  bool_decide (role ≠ EmptyString) && bool_decide (role ∈ RolesOf info).

(** * MapClaims *)

Definition scopesOf (claims : MapClaims) : list string :=
  match as_string (index claims "scope") with
  | Some s => Fields s
  | None =>
      match as_string (index claims "scp") with
      | Some s => Fields s
      | None => match as_array (index claims "scp") with Some arr => strings_of arr | None => [] end
      end
  end.
Definition rolesOf (claims : MapClaims) (trustFlat : bool) : list string :=
  (match as_object (index claims "realm_access") with
   | Some ra => match as_array (index ra "roles") with Some arr => strings_of arr | None => [] end
   | None => []
   end)
  ++ (if trustFlat then match as_array (index claims "roles") with Some arr => strings_of arr | None => [] end
      else []).
(** [val = m[part]] for each part. *)
Fixpoint descend (val : any) (parts : list string) : option any :=
  match parts with
  | [] => Some val
  | part :: parts => m ← as_object val; descend (index m part) parts
  end.
Definition groupsOf (claims : MapClaims) (path : string) : list string :=
  if decide (path = EmptyString) then []
  else match descend (AObj claims) (SplitN path "." 2) with
       | Some (AArr l) => filter (.≠ EmptyString) (strings_of l)
       | Some (AStr s) => Fields s
       | _ => []
       end.

Record Config := MkConfig {
  Issuer : string;
  Audience_ : string;
  JWKSURL : string;
  DiscoveryURL : string;
  Algorithms : list string;
  Leeway : duration;
  TrustFlatRolesClaim : bool;
  GroupsClaim : string}.
#[export] Instance Eta_Config : Eta Config := λ c, MkConfig (Issuer c) (Audience_ c) (JWKSURL c)
  (DiscoveryURL c) (Algorithms c) (Leeway c) (TrustFlatRolesClaim c) (GroupsClaim c).

(** What Verify makes of the claims of a token that validated. *)
Definition info_of (cfg : Config) (claims : MapClaims) (sub : string) (exp : time) : TokenInfo :=
  MkTokenInfo (scopesOf claims) exp (Issuer cfg +:+ "|" +:+ sub) (Issuer cfg) sub
    (str_claim claims "jti") (str_claim claims "email")
    (rolesOf claims (TrustFlatRolesClaim cfg)) (groupsOf claims (GroupsClaim cfg)).

(** The keys a token may be signed with. *)
Inductive PublicKey :=
  | RSAKey (n e : Z)
  | ECKey (curve : string) (x y : Z).
#[export] Instance PublicKey_eq_dec : EqDecision PublicKey.
Proof. solve_decision. Defined.
(** * The libraries *)

(** github.com/golang-jwt/jwt: parsing with the allowed algorithms, which gives the key id of
    the header; the signature, issuer, audience and times; its error for a key that is not
    found; and the expiry claim.  Then two texts: the SDK's error for an invalid token, and
    encoding/json's for a value of the wrong kind. *)
Class AuthLib := {
  jwt_begin : Config → string → string + any;
  jwt_finish : Config → Z → string → PublicKey → string + MapClaims;
  jwt_keyfunc_error : string → string;
  jwt_expiration : MapClaims → string + time;
  sdk_ErrInvalidToken : string;
  json_type_error : any → string}.

Section auth.
Context `{!AuthLib}.

(** * Discovery (discovery.go) *)

(** What a GET answers: the URL is refused, the host is not reached, or a status and a body
    that is no JSON or a value. *)
Inductive Reply :=
  | BadURL (e : string)
  | Unreachable (e : string)
  | Answered (status : Z) (body : string + any).
Definition wellKnown (issuer discoveryURL : string) : string :=
  if decide (discoveryURL = EmptyString) then TrimRight issuer "/" +:+ "/.well-known/openid-configuration"
  else discoveryURL.
Definition discoverJWKS (get : string → Reply) (issuer discoveryURL : string) : string + string :=
  let url := wellKnown issuer discoveryURL in
  match get url with
  | BadURL e => inl e
  | Unreachable e => inl (Sprintf "fetch OIDC discovery %s: %w" [FS url; FS e])
  | Answered status body =>
      if decide (status ≠ 200%Z) then inl (Sprintf "OIDC discovery %s: HTTP %d" [FS url; FD status])
      else
      match body with
      | inl e => inl (Sprintf "parse OIDC discovery %s: %w" [FS url; FS e])
      | inr v =>
          match (m ← struct_members v; i ← string_field "issuer" m; u ← string_field "jwks_uri" m; Some (i, u)) with
          | None => inl (Sprintf "parse OIDC discovery %s: %w" [FS url; FS (json_type_error v)])
          | Some (doc_issuer, uri) =>
              if decide (doc_issuer ≠ issuer) then
                inl (Sprintf "OIDC discovery issuer %q does not match configured issuer %q (copy the issuer from the discovery document verbatim — trailing slashes matter)" [FS doc_issuer; FS issuer])
              else if decide (uri = EmptyString) then inl (Sprintf "OIDC discovery %s has no jwks_uri" [FS url])
              else inr uri
          end
      end
  end.

(** * The key cache (jwks.go) *)

Record jwk := MkJwk {
  Kty : string; Kid : string; Use_ : string;
  KN : string; KE : string; Crv : string; KX : string; KY : string}.
Definition decode_jwk (v : any) : option jwk :=
  m ← struct_members v;
  kty ← string_field "kty" m; kid ← string_field "kid" m; use_ ← string_field "use" m;
  n ← string_field "n" m; e ← string_field "e" m; crv ← string_field "crv" m;
  x ← string_field "x" m; y ← string_field "y" m;
  Some (MkJwk kty kid use_ n e crv x y).
Definition decode_set (v : any) : option (list jwk) :=
  m ← struct_members v; keys ← array_field "keys" m; mapM decode_jwk keys.

(** big.Int.SetBytes *)
Fixpoint set_bytes (acc : Z) (s : string) : Z :=
  match s with
  | EmptyString => acc
  | String c s => set_bytes (acc * 256 + Z.of_nat (Ascii.nat_of_ascii c)) s
  end.
Definition b64Int (s : string) : option Z := set_bytes 0 <$> RawURL_DecodeString s.
Definition publicKey (k : jwk) : option PublicKey :=
  if decide (Kty k = "RSA") then n ← b64Int (KN k); e ← b64Int (KE k); Some (RSAKey n (wrap64 e))
  else if decide (Kty k = "EC") then
    if decide (Crv k ∈ ["P-256"; "P-384"; "P-521"]) then
      x ← b64Int (KX k); y ← b64Int (KY k); Some (ECKey (Crv k) x y)
    else None
  else None.
(** The usable keys of a set, by key id; the last of an id wins. *)
Definition usable_keys (set : list jwk) : gmap string PublicKey :=
  foldl (λ keys k, if decide (Use_ k ≠ EmptyString ∧ Use_ k ≠ "sig") then keys
                   else match publicKey k with None => keys | Some pub => <[Kid k := pub]> keys end) ∅ set.

Record jwksCache := MkJwksCache {
  jc_url : string;
  jc_issuer : string;
  jc_discoveryURL : string;
  jc_keys : gmap string PublicKey;
  jc_lastFetch : time}.
#[export] Instance Eta_jwksCache : Eta jwksCache := λ c,
  MkJwksCache (jc_url c) (jc_issuer c) (jc_discoveryURL c) (jc_keys c) (jc_lastFetch c).
Definition newJWKSCache (url issuer discoveryURL : string) : jwksCache :=
  MkJwksCache url issuer discoveryURL ∅ None.
Definition refetchCooldown : duration := (30 * 10 ^ 9)%Z.
Definition keysTTL : duration := (10 * 60 * 10 ^ 9)%Z.
Notation JM := (M jwksCache string).

(** One lookup: the clock when it reads the cache, the clock when it fetches, the network. *)
Record Moment := MkMoment {
  m_read : Z;
  m_fetch : Z;
  m_get : string → Reply}.
(** time.Since *)
Definition since (now : Z) (t : time) : duration :=
  time_sub now (match t with Some n => n | None => zero_time_sec * 10 ^ 9 end)%Z.

(** The endpoint, discovered if it is not known yet. *)
Definition endpoint (m : Moment) : JM string :=
  c ← gets id;
  if decide (jc_url c = EmptyString) then
    match discoverJWKS (m_get m) (jc_issuer c) (jc_discoveryURL c) with
    | inl e => throw e | inr u => mret u
    end
  else mret (jc_url c).
Definition download (m : Moment) (url : string) : JM () :=
  match m_get m url with
  | BadURL e => throw e
  | Unreachable e => throw (Sprintf "fetch JWKS %s: %w" [FS url; FS e])
  | Answered status body =>
      if decide (status ≠ 200%Z) then throw (Sprintf "fetch JWKS %s: HTTP %d" [FS url; FD status])
      else
      match body with
      | inl e => throw (Sprintf "decode JWKS %s: %w" [FS url; FS e])
      | inr v =>
          match decode_set v with
          | None => throw (Sprintf "decode JWKS %s: %w" [FS url; FS (json_type_error v)])
          | Some set =>
              let keys := usable_keys set in
              if decide (keys = ∅) then
                throw (Sprintf "JWKS %s contains no usable signature keys" [FS url])
              else modify (λ c, c <| jc_url := url |> <| jc_keys := keys |>)
          end
      end
  end.
Definition fetch (m : Moment) : JM () :=
  modify (λ c, c <| jc_lastFetch := Some (m_fetch m) |>);;
  url ← endpoint m;
  download m url.
Definition refreshed (kid : string) : JM PublicKey :=
  c ← gets id;
  match jc_keys c !! kid with
  | Some k => mret k
  | None => throw (Sprintf "unknown key id %q after JWKS refresh" [FS kid])
  end.
Definition Key (m : Moment) (kid : string) : JM PublicKey :=
  c ← gets id;
  let age := since (m_read m) (jc_lastFetch c) in
  match jc_keys c !! kid with
  | Some k =>
      if decide (age < keysTTL)%Z then mret k
      else if decide (age < refetchCooldown)%Z then mret k
      else fetch m;; refreshed kid
  | None =>
      if decide (age < refetchCooldown)%Z then
        throw (Sprintf "unknown key id %q (JWKS refresh on cooldown)" [FS kid])
      else fetch m;; refreshed kid
  end.

(** * The verifier *)

Definition NewVerifier (get : string → Reply) (cfg : Config) : string + (Config * jwksCache) :=
  if decide (Issuer cfg = EmptyString ∨ Audience_ cfg = EmptyString) then
    inl "auth config requires issuer and audience"
  else
  let cfg := if decide (JWKSURL cfg = EmptyString) then
               match discoverJWKS get (Issuer cfg) (DiscoveryURL cfg) with
               | inr url => cfg <| JWKSURL := url |>
               | inl _ => cfg
               end
             else cfg in
  let cfg := if decide (Algorithms cfg = []) then cfg <| Algorithms := ["RS256"; "ES256"] |> else cfg in
  match list_find (λ alg, HasPrefix (ToUpper alg) "HS" || bool_decide (ToLower alg = "none")) (Algorithms cfg) with
  | Some (_, alg) => inl (Sprintf "symmetric/none JWS algorithm %q is not allowed" [FS alg])
  | None =>
      let cfg := if decide (Leeway cfg = 0%Z) then cfg <| Leeway := (30 * 10 ^ 9)%Z |> else cfg in
      inr (cfg, newJWKSCache (JWKSURL cfg) (Issuer cfg) (DiscoveryURL cfg))
  end.

Definition invalid {A} (e : string) : JM A := throw (sdk_ErrInvalidToken +:+ ": " +:+ e).
Definition Verify (cfg : Config) (m : Moment) (now : Z) (token : string) : JM TokenInfo :=
  match jwt_begin cfg token with
  | inl e => invalid e
  | inr kid =>
      k ← attempt (match as_string kid with
                   | Some kid => if decide (kid = EmptyString) then throw "token has no kid header" else Key m kid
                   | None => throw "token has no kid header"
                   end);
      match k with
      | inl e => invalid (jwt_keyfunc_error e)
      | inr key =>
          match jwt_finish cfg now token key with
          | inl e => invalid e
          | inr claims =>
              let sub := str_claim claims "sub" in
              if decide (sub = EmptyString) then invalid "token has no sub claim"
              else
              match jwt_expiration claims with
              | inr (Some exp) => mret (info_of cfg claims sub (Some exp))
              | _ => invalid "token has no exp claim"
              end
          end
      end
  end.
End auth.

(** * The Origin check *)

(** CheckOrigin: whether a request goes on.  [hostname]: the host of an origin as net/url
    reads it, nothing when it does not parse. *)
Definition CheckOrigin (hostname : string → option string) (allowedHosts : list string) (origin : string) : bool :=
  if decide (origin = EmptyString) then true
  else match hostname origin with
       | None => false
       | Some h => bool_decide (h ≠ EmptyString) && bool_decide (ToLower h ∈ (ToLower <$> allowedHosts))
       end.

(** * Facts about authentication: what an accepted token means, which claims count, and how
    often the keys are fetched. *)

Notation JM := (M jwksCache string).

(** Claims that agree on everything but one name. *)
Definition agree_except (name : string) (m m' : MapClaims) : Prop := ∀ key, key ≠ name → index m key = index m' key.

Section accepted.
Context `{!AuthLib}.
Implicit Types (cfg : Config) (c : jwksCache).

(** An accepted token: the key of its header's id is in the cache the lookup leaves, the
    library checked the token under it, and the information is read from its claims. *)
Lemma Verify_inv cfg m now token info c c' : Verify cfg m now token c = (inr info, c') →
  ∃ kid key claims exp, jwt_begin cfg token = inr (AStr kid) ∧ Key m kid c = (inr key, c')
    ∧ jwt_finish cfg now token key = inr claims ∧ str_claim claims "sub" ≠ EmptyString
    ∧ jwt_expiration claims = inr (Some exp) ∧ info = info_of cfg claims (str_claim claims "sub") (Some exp).
Proof.
  unfold Verify. destruct (jwt_begin cfg token) as [e|kid]; [done|].
  destruct kid as [| | |kid| |]; try done. simpl.
  unfold mbind, M_bind, attempt. simpl. case_decide; [done|].
  destruct (Key m kid c) as [[e|key] c1] eqn:Ek; simpl; [done|].
  destruct (jwt_finish cfg now token key) as [e|claims] eqn:Ef; [done|]. case_decide as Hs; [done|].
  destruct (jwt_expiration claims) as [e|[exp|]] eqn:Ee; try done. intros [= <- <-].
  by exists kid, key, claims, exp.
Qed.

Lemma scopesOf_agree m m' : agree_except "roles" m m' → scopesOf m = scopesOf m'.
Proof. intros Ha. unfold scopesOf. by rewrite !(Ha "scope"), !(Ha "scp"). Qed.
Lemma rolesOf_agree m m' : agree_except "roles" m m' → rolesOf m false = rolesOf m' false.
Proof. intros Ha. unfold rolesOf. by rewrite (Ha "realm_access"). Qed.
Lemma groupsOf_agree path m m' : head (SplitN path "." 2) ≠ Some "roles" → agree_except "roles" m m' →
  groupsOf m path = groupsOf m' path.
Proof.
  intros Hp Ha. unfold groupsOf. case_decide; [done|]. destruct (SplitN path "." 2) as [|part parts] eqn:E.
  - exfalso. simpl in E. destruct (Cut path ".") as [x [rest|]]; done.
  - simpl in *. rewrite (Ha part); [done|]. by intros ->.
Qed.
Lemma info_of_agree cfg m m' exp : TrustFlatRolesClaim cfg = false →
  head (SplitN (GroupsClaim cfg) "." 2) ≠ Some "roles" → agree_except "roles" m m' →
  info_of cfg m (str_claim m "sub") exp = info_of cfg m' (str_claim m' "sub") exp.
Proof.
  intros Ht Hg Ha. unfold info_of, str_claim. rewrite Ht.
  rewrite (scopesOf_agree m m'), (rolesOf_agree m m'), (groupsOf_agree _ m m') by done.
  by rewrite !(Ha "sub"), (Ha "jti"), (Ha "email").
Qed.
End accepted.

(** A token cannot assert a role through the flat [roles] claim.  When that claim is not
    trusted and the groups are not configured to be read from it, the information of an
    accepted token is read from claims the library validated, its issuer is the configured one,
    and it would be the same, scopes, roles and groups included, whatever that claim said. *)
Theorem flat_roles_untrusted `{!AuthLib} (cfg : Config) (m : Moment) (now : Z) (token : string)
    (info : TokenInfo) (c c' : jwksCache)
    (Htrust : TrustFlatRolesClaim cfg = false)
    (Hgroups : head (SplitN (GroupsClaim cfg) "." 2) ≠ Some "roles")
    (Hverify : Verify cfg m now token c = (inr info, c')) :
  ExtraIssuer info = Issuer cfg ∧ ExtraSubject info ≠ EmptyString
  ∧ ∃ key claims exp, jwt_finish cfg now token key = inr claims ∧ jwt_expiration claims = inr (Some exp)
      ∧ ∀ claims', agree_except "roles" claims claims' →
          info_of cfg claims' (str_claim claims' "sub") (Some exp) = info.
Proof.
  apply Verify_inv in Hverify as (kid & key & claims & exp & _ & _ & Hf & Hs & He & ->).
  split_and!; [done|done|]. exists key, claims, exp. split_and!; [done|done|].
  intros claims' Ha. symmetry. by apply info_of_agree.
Qed.

(** * The key cache *)

Section cache.
Context `{!AuthLib}.
Implicit Types (c : jwksCache) (m : Moment).

(** A lookup fetches, and the fetch leaves its instant whatever comes of it, or it leaves the
    cache alone and does not depend on the network. *)
Definition same_stamp (c c' : jwksCache) : Prop := jc_lastFetch c' = jc_lastFetch c.
#[local] Instance same_stamp_preorder : PreOrder same_stamp.
Proof. split; [done|]. unfold same_stamp. intros c1 c2 c3. congruence. Qed.
Lemma frames_download m url : frames same_stamp (download m url).
Proof.
  unfold download. destruct (m_get m url) as [e|e|st [e|v]]; try done; case_decide; try done.
  destruct (decode_set v); [|done]. simpl. by case_decide.
Qed.
Lemma frames_endpoint m : frames same_stamp (endpoint m).
Proof.
  unfold endpoint. apply frames_bind; [apply _|done|]. intros c. case_decide; [|done].
  by destruct (discoverJWKS _ _ _).
Qed.
Lemma fetch_stamps m c : jc_lastFetch (fetch m c).2 = Some (m_fetch m).
Proof.
  change (fetch m c) with ((endpoint m ≫= download m) (c <| jc_lastFetch := Some (m_fetch m) |>)).
  assert (frames same_stamp (endpoint m ≫= download m)) as Hf.
  { apply frames_bind; [apply _|apply frames_endpoint|apply frames_download]. }
  apply Hf.
Qed.
Lemma Key_eq m kid c : Key m kid c =
  match jc_keys c !! kid with
  | Some k =>
      if decide (since (m_read m) (jc_lastFetch c) < keysTTL)%Z then (inr k, c)
      else if decide (since (m_read m) (jc_lastFetch c) < refetchCooldown)%Z then (inr k, c)
      else (fetch m;; refreshed kid) c
  | None =>
      if decide (since (m_read m) (jc_lastFetch c) < refetchCooldown)%Z then
        (inl (Sprintf "unknown key id %q (JWKS refresh on cooldown)" [FS kid]), c)
      else (fetch m;; refreshed kid) c
  end.
Proof.
  unfold Key, gets. unfold mbind at 1, M_bind at 1. unfold id at 1.
  destruct (jc_keys c !! kid); repeat (destruct (decide _)); reflexivity.
Qed.
Lemma refresh_stamps m kid c : jc_lastFetch ((fetch m;; refreshed kid) c).2 = Some (m_fetch m).
Proof.
  pose proof (fetch_stamps m c) as Hs. unfold refreshed, gets, mbind, M_bind.
  destruct (fetch m c) as [[e|[]] c1]; simpl in *; [done|]. unfold id. by destruct (jc_keys c1 !! kid).
Qed.
Lemma Key_fetches m kid c :
  (jc_lastFetch (Key m kid c).2 = Some (m_fetch m) ∧ (refetchCooldown ≤ since (m_read m) (jc_lastFetch c))%Z)
  ∨ ((Key m kid c).2 = c ∧ ∀ get, Key (MkMoment (m_read m) (m_fetch m) get) kid c = Key m kid c).
Proof.
  assert (refetchCooldown < keysTTL)%Z as Hlt by done.
  rewrite Key_eq. destruct (jc_keys c !! kid) as [k|] eqn:Ek.
  - destruct (decide (since _ _ < keysTTL)%Z) as [Hlow|Hhigh].
    { right. split; [done|]. intros get. by rewrite Key_eq, Ek, decide_True. }
    rewrite decide_False by lia. left. split; [apply refresh_stamps|lia].
  - destruct (decide (since _ _ < refetchCooldown)%Z) as [Hlow|Hhigh].
    { right. split; [done|]. intros get. by rewrite Key_eq, Ek, decide_True. }
    left. split; [apply refresh_stamps|lia].
Qed.
End cache.

(** The instants at which a sequence of lookups fetches. *)
Fixpoint fetch_times `{!AuthLib} (c : jwksCache) (calls : list (Moment * string)) : list Z :=
  match calls with
  | [] => []
  | (m, kid) :: calls =>
      let c' := (Key m kid c).2 in
      (if decide (jc_lastFetch c' = jc_lastFetch c) then [] else [m_fetch m]) ++ fetch_times c' calls
  end.
(** The clock never goes back: each lookup reads it, then fetches, then the next one comes. *)
Fixpoint clocked (now : Z) (calls : list (Moment * string)) : Prop :=
  match calls with
  | [] => True
  | (m, _) :: calls => (now ≤ m_read m ≤ m_fetch m)%Z ∧ clocked (m_fetch m) calls
  end.

Section spaced.
Context `{!AuthLib}.

Lemma since_ge now t : (refetchCooldown ≤ since now (Some t))%Z → (t + refetchCooldown ≤ now)%Z.
Proof. unfold since, time_sub, clamp64, refetchCooldown. lia. Qed.
Lemma clocked_mono a b calls : (a ≤ b)%Z → clocked b calls → clocked a calls.
Proof. destruct calls as [|[m kid] calls]; simpl; [done|]. intros ? [? ?]. split; [lia|done]. Qed.
Lemma fetch_times_spaced calls c now :
  (∀ t, jc_lastFetch c = Some t → t ≤ now)%Z → clocked now calls →
  StronglySorted (λ a b, a + refetchCooldown ≤ b)%Z (fetch_times c calls)
  ∧ Forall (λ a, ∀ t, jc_lastFetch c = Some t → t + refetchCooldown ≤ a)%Z (fetch_times c calls).
Proof.
  revert c now. induction calls as [|[m kid] calls IH]; intros c now Ht Hc; simpl; [by split; constructor|].
  destruct Hc as [[Hr Hm] Hc]. assert (0 < refetchCooldown)%Z as Hpos by done.
  destruct (Key_fetches m kid c) as [[Hs Hage]|[Hs _]].
  - destruct (IH (Key m kid c).2 (m_fetch m)) as [Hsort Hall]; [rewrite Hs; intros ? [= <-]; lia|done|].
    rewrite Hs in Hall.
    assert (Forall (λ a, m_fetch m + refetchCooldown ≤ a)%Z (fetch_times (Key m kid c).2 calls)) as Hall'.
    { eapply Forall_impl; [done|]. intros a Ha. by apply Ha. }
    assert (∀ t, jc_lastFetch c = Some t → t + refetchCooldown ≤ m_fetch m)%Z as Hfirst.
    { intros t Et. rewrite Et in Hage. apply since_ge in Hage. lia. }
    case_decide; simpl; (split; [try done|]).
    + eapply Forall_impl; [done|]. intros a Ha t Et. specialize (Hfirst t Et). simpl in Ha. lia.
    + by constructor.
    + constructor; [done|]. eapply Forall_impl; [done|]. intros a Ha t Et. specialize (Hfirst t Et). simpl in Ha. lia.
  - rewrite Hs. rewrite decide_True by done. simpl. apply (IH c now); [done|].
    eapply clocked_mono; [|done]. lia.
Qed.
End spaced.

(** A flood of bad tokens cannot hammer the identity provider.  However many lookups come
    one after another, with whatever key ids and whatever the network answers, the key set is
    fetched at most once in thirty seconds, failed fetches included; and a lookup that does not
    fetch leaves the cache as it was and does not depend on the network. *)
Theorem jwks_fetches_spaced `{!AuthLib} (url issuer discoveryURL : string) (now : Z)
    (calls : list (Moment * string)) (Hclock : clocked now calls) :
  let c := newJWKSCache url issuer discoveryURL in
  StronglySorted (λ a b, a + 30 * 10 ^ 9 ≤ b)%Z (fetch_times c calls)
  ∧ ∀ c m kid, jc_lastFetch (Key m kid c).2 ≠ Some (m_fetch m) →
      (Key m kid c).2 = c ∧ ∀ get, Key (MkMoment (m_read m) (m_fetch m) get) kid c = Key m kid c.
Proof.
  intros c. split.
  - by apply (fetch_times_spaced calls c now).
  - intros c1 m kid Hne. by destruct (Key_fetches m kid c1) as [[? _]|].
Qed.

(** * A small identity provider *)

(** One key, and a token whose text is its subject and that carries a flat roles claim. *)
Definition demo_claims (sub : string) : MapClaims :=
  [("sub", AStr sub); ("scope", AStr "beams:write beams:deploy");
   ("realm_access", AObj [("roles", AArr [AStr "builder"])]); ("roles", AArr [AStr DefaultAdminRole])].
#[local] Instance demo_lib : AuthLib := {|
  jwt_begin _ _ := inr (AStr "k1");
  jwt_finish _ _ token key := if decide (key = RSAKey 3 65537) then inr (demo_claims token) else inl "signature is invalid";
  jwt_keyfunc_error e := "token is unverifiable: error while executing keyfunc: " +:+ e;
  jwt_expiration _ := inr (Some (10 ^ 18)%Z);
  sdk_ErrInvalidToken := "invalid token";
  json_type_error _ := "json: cannot unmarshal" |}.
Definition demo_set : any :=
  AObj [("keys", AArr [AObj [("kty", AStr "RSA"); ("kid", AStr "k1"); ("n", AStr "Aw"); ("e", AStr "AQAB")]])].
Definition up (_ : string) : Reply := Answered 200 (inr demo_set).
Definition down (_ : string) : Reply := Unreachable "connection refused".
Definition demo_config : Config :=
  MkConfig "https://idp" "https://beamhall" "https://idp/keys" EmptyString ["RS256"] (30 * 10 ^ 9)%Z false "groups".
Definition at_second (s : Z) (get : string → Reply) : Moment := MkMoment (s * 10 ^ 9)%Z (s * 10 ^ 9)%Z get.
Definition demo_cache : jwksCache := newJWKSCache (JWKSURL demo_config) (Issuer demo_config) EmptyString.

Definition demo_verify := Verify demo_config (at_second 100 up) (100 * 10 ^ 9)%Z "ada" demo_cache.
Example demo_verify_roles :
  (match demo_verify.1 with inr i => ExtraRoles i | inl _ => [] end) = ["builder"].
Proof. vm_compute. reflexivity. Qed.

Lemma flat_roles_untrusted_witness :
  ∃ info, demo_verify.1 = inr info
    ∧ ExtraIssuer info = Issuer demo_config ∧ ExtraSubject info ≠ EmptyString
    ∧ ∃ key claims exp, jwt_finish demo_config (100 * 10 ^ 9)%Z "ada" key = inr claims
        ∧ jwt_expiration claims = inr (Some exp)
        ∧ ∀ claims', agree_except "roles" claims claims' →
            info_of demo_config claims' (str_claim claims' "sub") (Some exp) = info.
Proof.
  destruct demo_verify as [[e|info] c'] eqn:E; [exfalso; revert E; vm_compute; done|].
  exists info. split; [done|].
  apply (flat_roles_untrusted demo_config (at_second 100 up) (100 * 10 ^ 9)%Z "ada" info demo_cache c').
  - done.
  - vm_compute. done.
  - exact E.
Defined.

Definition flood : list (Moment * string) :=
  [(at_second 100 up, "k1"); (at_second 110 up, "kX"); (at_second 131 up, "kX"); (at_second 140 down, "kY");
   (at_second 170 down, "kY")].
Lemma jwks_fetches_spaced_witness :
  fetch_times demo_cache flood = [100 * 10 ^ 9; 131 * 10 ^ 9; 170 * 10 ^ 9]%Z
  ∧ StronglySorted (λ a b, a + 30 * 10 ^ 9 ≤ b)%Z (fetch_times demo_cache flood).
Proof.
  split; [vm_compute; reflexivity|].
  apply (jwks_fetches_spaced (JWKSURL demo_config) (Issuer demo_config) EmptyString 0%Z flood).
  vm_compute. split_and!; done.
Defined.

(** A refresh that fails renews the old keys: after ten minutes the provider is down, the lookup
    that tries it fails, and the next one is served the old key again without asking. *)
Example failed_refresh_renews :
  let c := (Key (at_second 100 up) "k1" demo_cache).2 in
  let (r1, c1) := Key (at_second 701 down) "k1" c in
  let (r2, c2) := Key (at_second 702 down) "k1" c1 in
  r1 = inl "fetch JWKS https://idp/keys: connection refused" ∧ r2 = inr (RSAKey 3 65537)
  ∧ jc_lastFetch c2 = Some (701 * 10 ^ 9)%Z.
Proof. vm_compute. done. Qed.
