(* ===== verification/GitTokens.v ===== *)
(** The git tokens of a beam's repository (internal/gitserver/token.go): grants in memory, held
    by reference, and the pushes that use them.  However minting, pushes and deploys interleave,
    a push token deploys at most once at a time and succeeds at most once. *)
From S2P Require Import Prelude GoStrings Domain Sha256.
#[local] Opaque sha256.

Inductive tokenKind := kindPush | kindRead.
#[export] Instance tokenKind_eq_dec : EqDecision tokenKind.
Proof. solve_decision. Defined.
Definition tokenKind_string (k : tokenKind) : string :=
  match k with kindPush => "push" | kindRead => "read" end.

Record grant := MkGrant {
  g_hash : string;
  g_kind : tokenKind;
  g_beamhall : ID;
  g_beam : ID;
  g_actor : ID;
  g_expiresAt : Z;
  g_used : bool}.
#[export] Instance Eta_grant : Eta grant := λ g,
  MkGrant (g_hash g) (g_kind g) (g_beamhall g) (g_beam g) (g_actor g) (g_expiresAt g) (g_used g).

(** Every grant ever minted by its address, the most recent one of a key, and the TTLs.  A
    principal holds the address, so a later Mint of the same key does not change which grant it
    claims. *)
Record TokenStore := MkTokenStore {
  ts_heap : list grant;
  ts_grants : gmap string nat;
  ts_ttl : duration;
  ts_readTTL : duration}.
#[export] Instance Eta_TokenStore : Eta TokenStore := λ s,
  MkTokenStore (ts_heap s) (ts_grants s) (ts_ttl s) (ts_readTTL s).
Definition NewTokenStore (ttl : duration) : TokenStore :=
  MkTokenStore [] ∅ (if decide (ttl = 0%Z) then (15 * 60 * 10 ^ 9)%Z else ttl) (3600 * 10 ^ 9)%Z.

Definition grantKey (kind : tokenKind) (beamhall beam : ID) : string :=
  tokenKind_string kind +:+ "/" +:+ beamhall +:+ "/" +:+ beam.

Record Principal := MkPrincipal {
  Pr_Beamhall : ID;
  Pr_Beam : ID;
  Pr_Actor : ID;
  pushGrant : option nat}.
#[export] Instance Principal_eq_dec : EqDecision Principal.
Proof. solve_decision. Defined.

(** [raw]: the 24 bytes of rand.Read; [now]: the clock. *)
Definition mint_ (kind : tokenKind) (beamhall beam actor : ID) (ttl : duration) (now : Z)
    (raw : string + string) (s : TokenStore) : (string + string) * TokenStore :=
  match raw with
  | inl e => (inl e, s)
  | inr raw =>
      let tok := hex_encode raw in
      let g := MkGrant (sha256 tok) kind beamhall beam actor (now + ttl) false in
      (inr tok, s <| ts_heap := ts_heap s ++ [g] |>
                  <| ts_grants := <[grantKey kind beamhall beam := length (ts_heap s)]> (ts_grants s) |>)
  end.
Definition MintPush (beamhall beam actor : ID) (now : Z) (raw : string + string) (s : TokenStore) :=
  mint_ kindPush beamhall beam actor (ts_ttl s) now raw s.
Definition MintRead (beamhall beam actor : ID) (now : Z) (raw : string + string) (s : TokenStore) :=
  mint_ kindRead beamhall beam actor (ts_readTTL s) now raw s.

(** The grant a token is for, with its address: there, not used, not expired, the hash equal. *)
Definition live_grant (kind : tokenKind) (now : Z) (beamhall beam : ID) (token : string)
    (s : TokenStore) : option (nat * grant) :=
  a ← ts_grants s !! grantKey kind beamhall beam;
  g ← ts_heap s !! a;
  if decide (g_used g = true ∨ g_expiresAt g < now)%Z then None
  else if decide (g_hash g = sha256 token) then Some (a, g) else None.
Definition Validate (now : Z) (beamhall beam : ID) (token : string) (s : TokenStore) : option Principal :=
  '(a, g) ← live_grant kindPush now beamhall beam token s;
  Some (MkPrincipal (g_beamhall g) (g_beam g) (g_actor g) (Some a)).
Definition ValidateRead (now : Z) (beamhall beam : ID) (token : string) (s : TokenStore) : option Principal :=
  '(a, g) ← live_grant kindRead now beamhall beam token s;
  Some (MkPrincipal (g_beamhall g) (g_beam g) (g_actor g) None).
Definition Claim (now : Z) (p : Principal) (s : TokenStore) : bool * TokenStore :=
  match pushGrant p with
  | None => (false, s)
  | Some a =>
      match ts_heap s !! a with
      | None => (false, s)
      | Some g =>
          if decide (g_used g = true ∨ g_expiresAt g < now)%Z then (false, s)
          else (true, s <| ts_heap := <[a := g <| g_used := true |>]> (ts_heap s) |>)
      end
  end.
Definition Unclaim (p : Principal) (s : TokenStore) : TokenStore :=
  match pushGrant p with
  | None => s
  | Some a =>
      match ts_heap s !! a with
      | None => s
      | Some g => s <| ts_heap := <[a := g <| g_used := false |>]> (ts_heap s) |>
      end
  end.

(** * Pushes that interleave *)

(** A receive-pack request that passed authentication: it holds its principal, claims the token
    before it deploys, and gives it back when the deploy fails. *)
Inductive Push :=
  | Authenticated (token : string) (p : Principal)
  | Deploying (token : string) (p : Principal)
  | Deployed (token : string) (p : Principal)
  | Refused (token : string) (p : Principal)
  | Failed (token : string) (p : Principal).
Record GitState := MkGitState {
  gs_tokens : TokenStore;
  gs_now : Z;
  gs_pushes : list Push}.
#[export] Instance Eta_GitState : Eta GitState := λ s, MkGitState (gs_tokens s) (gs_now s) (gs_pushes s).

Inductive git_step : GitState → GitState → Prop :=
  | step_time s now : (gs_now s ≤ now)%Z → git_step s (s <| gs_now := now |>)
  | step_mint s kind beamhall beam actor ttl raw :
      git_step s (s <| gs_tokens := (mint_ kind beamhall beam actor ttl (gs_now s) raw (gs_tokens s)).2 |>)
  | step_authenticate s beamhall beam token p :
      Validate (gs_now s) beamhall beam token (gs_tokens s) = Some p →
      git_step s (s <| gs_pushes := gs_pushes s ++ [Authenticated token p] |>)
  | step_claim s i token p ok ts :
      gs_pushes s !! i = Some (Authenticated token p) → Claim (gs_now s) p (gs_tokens s) = (ok, ts) →
      git_step s (s <| gs_tokens := ts |>
                    <| gs_pushes := <[i := if ok then Deploying token p else Refused token p]> (gs_pushes s) |>)
  | step_deployed s i token p :
      gs_pushes s !! i = Some (Deploying token p) →
      git_step s (s <| gs_pushes := <[i := Deployed token p]> (gs_pushes s) |>)
  | step_failed s i token p :
      gs_pushes s !! i = Some (Deploying token p) →
      git_step s (s <| gs_tokens := Unclaim p (gs_tokens s) |>
                    <| gs_pushes := <[i := Failed token p]> (gs_pushes s) |>).
Definition git_start (ttl : duration) (now : Z) : GitState := MkGitState (NewTokenStore ttl) now [].
Definition git_reach (ttl : duration) (now : Z) : GitState → Prop := rtc git_step (git_start ttl now).

(** The token of a push and the principal it acts as. *)
Definition push_data (x : Push) : string * Principal :=
  match x with
  | Authenticated t p | Deploying t p | Deployed t p | Refused t p | Failed t p => (t, p)
  end.
(** The grant a push has claimed and not given back. *)
Definition holds (x : Push) : option nat :=
  match x with Deploying _ p | Deployed _ p => pushGrant p | _ => None end.

(** Every push acts as a push grant that hashes its token says, a grant is used exactly while
    a push holds it, and no two pushes hold the same one. *)
Definition push_ok (heap : list grant) (x : Push) : Prop :=
  let '(token, p) := push_data x in
  ∃ a g, pushGrant p = Some a ∧ heap !! a = Some g ∧ g_hash g = sha256 token ∧ g_kind g = kindPush
    ∧ Pr_Beamhall p = g_beamhall g ∧ Pr_Beam p = g_beam g ∧ Pr_Actor p = g_actor g.
Record git_inv (s : GitState) : Prop := {
  gi_grants key a : ts_grants (gs_tokens s) !! key = Some a →
    ∃ g, ts_heap (gs_tokens s) !! a = Some g ∧ key = grantKey (g_kind g) (g_beamhall g) (g_beam g);
  gi_pushes : Forall (push_ok (ts_heap (gs_tokens s))) (gs_pushes s);
  gi_used a g : ts_heap (gs_tokens s) !! a = Some g → g_used g = true →
    ∃ i x, gs_pushes s !! i = Some x ∧ holds x = Some a;
  gi_held i x a g : gs_pushes s !! i = Some x → holds x = Some a →
    ts_heap (gs_tokens s) !! a = Some g → g_used g = true;
  gi_once i j x y a : gs_pushes s !! i = Some x → gs_pushes s !! j = Some y →
    holds x = Some a → holds y = Some a → i = j }.

Definition heap_le (heap heap' : list grant) : Prop :=
  ∀ a g, heap !! a = Some g → ∃ u, heap' !! a = Some (g <| g_used := u |>).
Lemma heap_le_refl heap : heap_le heap heap.
Proof. intros a g Ha. exists (g_used g). rewrite Ha. by destruct g. Qed.
Lemma heap_le_set heap a g u : heap !! a = Some g → heap_le heap (<[a := g <| g_used := u |>]> heap).
Proof.
  intros Ha b h Hb. destruct (decide (a = b)) as [<-|Hne].
  - exists u. rewrite list_lookup_insert_eq by (by eapply lookup_lt_Some). congruence.
  - rewrite list_lookup_insert_ne by done. by apply heap_le_refl.
Qed.
Lemma push_ok_le heap heap' x : heap_le heap heap' → push_ok heap x → push_ok heap' x.
Proof.
  intros Hle. unfold push_ok. destruct (push_data x) as [token p].
  intros (a & g & Hp & Ha & ? & ? & ? & ? & ?). destruct (Hle a g Ha) as [u Hu].
  exists a, (g <| g_used := u |>). by split_and!.
Qed.
Lemma grants_le ts (heap' : list grant) :
  (∀ key a, ts_grants ts !! key = Some a → ∃ g, ts_heap ts !! a = Some g ∧ key = grantKey (g_kind g) (g_beamhall g) (g_beam g)) →
  heap_le (ts_heap ts) heap' →
  ∀ key a, ts_grants ts !! key = Some a → ∃ g, heap' !! a = Some g ∧ key = grantKey (g_kind g) (g_beamhall g) (g_beam g).
Proof.
  intros Hg Hle key a Hk. destruct (Hg key a Hk) as (g & Ha & ->). destruct (Hle a g Ha) as [u Hu]. by eexists.
Qed.
Lemma grantKey_kind k bh b k' bh' b' : grantKey k bh b = grantKey k' bh' b' → k = k'.
Proof. by destruct k, k'. Qed.
Lemma Validate_ok ts now bh beam token p :
  (∀ key a, ts_grants ts !! key = Some a → ∃ g, ts_heap ts !! a = Some g ∧ key = grantKey (g_kind g) (g_beamhall g) (g_beam g)) →
  Validate now bh beam token ts = Some p → push_ok (ts_heap ts) (Authenticated token p).
Proof.
  intros Hg. unfold Validate, live_grant.
  destruct (ts_grants ts !! grantKey kindPush bh beam) as [a|] eqn:Ek; [|done]. simpl.
  destruct (Hg _ _ Ek) as (g & Ha & Hkey%grantKey_kind). rewrite Ha. simpl.
  case_decide; [done|]. case_decide; [|done]. intros [= <-]. exists a, g. by split_and!.
Qed.

(** Changing one push for another with the same data. *)
Lemma pushes_set heap pushes i x y : pushes !! i = Some x → push_data y = push_data x →
  Forall (push_ok heap) pushes → Forall (push_ok heap) (<[i := y]> pushes).
Proof.
  intros Hi Hd Hp. apply Forall_insert; [done|]. rewrite Forall_lookup in Hp. specialize (Hp i x Hi).
  unfold push_ok in *. by rewrite Hd.
Qed.
Lemma holds_insert (pushes : list Push) i x j y : pushes !! i = Some x → <[i := y]> pushes !! j = Some y ∨ <[i := y]> pushes !! j = pushes !! j.
Proof.
  intros Hi. destruct (decide (i = j)) as [<-|]; [left; apply list_lookup_insert_eq; by eapply lookup_lt_Some|].
  right. by rewrite list_lookup_insert_ne.
Qed.

Lemma git_inv_start ttl now : git_inv (git_start ttl now).
Proof. by split. Qed.
Lemma git_inv_mint s kind bh beam actor ttl raw : git_inv s →
  git_inv (s <| gs_tokens := (mint_ kind bh beam actor ttl (gs_now s) raw (gs_tokens s)).2 |>).
Proof.
  intros [Hg Hp Hu Hh Ho]. destruct raw as [e|raw]; [by split|]. simpl.
  set (g0 := MkGrant _ _ _ _ _ _ _).
  assert (heap_le (ts_heap (gs_tokens s)) (ts_heap (gs_tokens s) ++ [g0])) as Hle.
  { intros a g Ha. exists (g_used g). rewrite lookup_app_l by (by eapply lookup_lt_Some). rewrite Ha. by destruct g. }
  split; simpl.
  - intros key a. destruct (decide (key = grantKey kind bh beam)) as [->|Hne].
    + rewrite lookup_insert_eq. intros [= <-]. exists g0. split; [|done].
      by rewrite lookup_app_r, Nat.sub_diag by done.
    + rewrite lookup_insert_ne by done. by apply grants_le.
  - eapply Forall_impl; [done|]. intros x. by apply push_ok_le.
  - intros a g [Ha|[_ Ha]]%lookup_app_Some Hused; [by eapply Hu|].
    apply list_lookup_singleton_Some in Ha as [_ <-]. done.
  - intros i x a g Hi Hx Ha. rewrite Forall_lookup in Hp. specialize (Hp i x Hi).
    assert (∃ g', ts_heap (gs_tokens s) !! a = Some g') as [g' Ha'].
    { unfold push_ok in Hp. destruct x; simpl in *; try done;
        destruct Hp as (b & g' & Hb & Hg' & _); rewrite Hx in Hb; injection Hb as <-; by eexists. }
    rewrite lookup_app_l in Ha by (by eapply lookup_lt_Some). by eapply Hh.
  - done.
Qed.
(** A push changes its state without touching the tokens, and holds what it held. *)
Lemma git_inv_move s i x y : git_inv s → gs_pushes s !! i = Some x → push_data y = push_data x →
  holds y = holds x → git_inv (s <| gs_pushes := <[i := y]> (gs_pushes s) |>).
Proof.
  intros [Hg Hp Hu Hh Ho] Hi Hd Hhold. assert (i < length (gs_pushes s)) as Hlt by by eapply lookup_lt_Some.
  assert (∀ j z, <[i := y]> (gs_pushes s) !! j = Some z → ∃ z', gs_pushes s !! j = Some z' ∧ holds z' = holds z) as Hback.
  { intros j z. destruct (decide (i = j)) as [<-|Hne]; [rewrite list_lookup_insert_eq by done|rewrite list_lookup_insert_ne by done].
    - intros [= <-]. by exists x.
    - intros Hz. by exists z. }
  split; simpl; [done|by eapply pushes_set| | |].
  - intros a g Ha Hused. destruct (Hu a g Ha Hused) as (j & z & Hj & Hz).
    destruct (decide (i = j)) as [<-|Hne].
    + exists i, y. rewrite list_lookup_insert_eq by done. split; [done|]. rewrite Hhold. congruence.
    + exists j, z. by rewrite list_lookup_insert_ne.
  - intros j z a g (z' & Hj & Hz)%Hback Hza Ha. eapply Hh; [done|by rewrite Hz|done].
  - intros j k z1 z2 a (z1' & Hj & Hz1)%Hback (z2' & Hk & Hz2)%Hback H1 H2.
    eapply Ho; [done|done|by rewrite Hz1|by rewrite Hz2].
Qed.
(** The grant of a push is marked used or unused, and the push holds it or not. *)
Lemma git_inv_mark s i x y a g (u : bool) : git_inv s → gs_pushes s !! i = Some x → push_data y = push_data x →
  ts_heap (gs_tokens s) !! a = Some g →
  (∀ j z, gs_pushes s !! j = Some z → holds z = Some a → j = i) →
  holds y = (if u then Some a else None) → (holds x = None ∨ holds x = Some a) →
  git_inv (s <| gs_tokens := gs_tokens s <| ts_heap := <[a := g <| g_used := u |>]> (ts_heap (gs_tokens s)) |> |>
             <| gs_pushes := <[i := y]> (gs_pushes s) |>).
Proof.
  intros [Hg Hp Hu Hh Ho] Hi Hd Ha Honly Hy Hx. assert (i < length (gs_pushes s)) as Hlt by by eapply lookup_lt_Some.
  pose proof (heap_le_set _ a g u Ha) as Hle.
  assert (a < length (ts_heap (gs_tokens s))) as Halt by by eapply lookup_lt_Some.
  assert (∀ j z b, <[i := y]> (gs_pushes s) !! j = Some z → holds z = Some b →
    (j = i ∧ z = y ∧ u = true ∧ b = a) ∨ (j ≠ i ∧ b ≠ a ∧ gs_pushes s !! j = Some z)) as Hcase.
  { intros j z b. destruct (decide (i = j)) as [<-|Hne].
    - rewrite list_lookup_insert_eq by done. intros [= <-] Hz. left. rewrite Hy in Hz. destruct u; [|done].
      by injection Hz as <-.
    - rewrite list_lookup_insert_ne by done. intros Hz Hzb. right. split_and!; [done| |done].
      intros ->. by apply Hne; symmetry; eapply Honly. }
  split; simpl.
  - by apply grants_le.
  - eapply pushes_set; [done|done|]. eapply Forall_impl; [done|]. intros z. by apply push_ok_le.
  - intros b h. destruct (decide (a = b)) as [<-|Hne].
    + rewrite list_lookup_insert_eq by done. intros [= <-]. simpl. intros ->. exists i, y.
      by rewrite list_lookup_insert_eq.
    + rewrite list_lookup_insert_ne by done. intros Hb Hused. destruct (Hu b h Hb Hused) as (j & z & Hj & Hz).
      exists j, z. rewrite list_lookup_insert_ne; [done|]. intros <-. rewrite Hi in Hj. injection Hj as <-.
      destruct Hx as [Hx|Hx]; rewrite Hx in Hz; congruence.
  - intros j z b h Hj Hz Hb. destruct (Hcase j z b Hj Hz) as [(-> & -> & -> & ->)|(Hne & Hba & Hj')].
    + rewrite list_lookup_insert_eq in Hb by done. by injection Hb as <-.
    + rewrite list_lookup_insert_ne in Hb by done. by eapply Hh.
  - intros j k z1 z2 b H1 H2 Hz1 Hz2.
    destruct (Hcase j z1 b H1 Hz1) as [(-> & -> & -> & ->)|(Hne1 & Hba1 & Hj1)];
      destruct (Hcase k z2 _ H2 Hz2) as [(-> & -> & _ & ?)|(Hne2 & Hba2 & Hk2)]; try done. by eapply Ho.
Qed.
Lemma push_ok_grant s i x : git_inv s → gs_pushes s !! i = Some x →
  ∃ a g, pushGrant (push_data x).2 = Some a ∧ ts_heap (gs_tokens s) !! a = Some g.
Proof.
  intros Hs Hi. pose proof (gi_pushes s Hs) as Hp. rewrite Forall_lookup in Hp. specialize (Hp i x Hi).
  unfold push_ok in Hp. destruct (push_data x) as [t p]. destruct Hp as (a & g & ? & ? & _). by exists a, g.
Qed.
Lemma git_inv_step s s' : git_inv s → git_step s s' → git_inv s'.
Proof.
  intros Hs Hstep. destruct Hstep as [s now Hnow|s kind bh beam actor ttl raw|s bh beam token p Hv
    |s i token p ok ts Hi Hc|s i token p Hi|s i token p Hi].
  - destruct Hs. by split.
  - by apply git_inv_mint.
  - destruct Hs as [Hg Hp Hu Hh Ho]. apply Validate_ok in Hv; [|done].
    assert (∀ j z b, (gs_pushes s ++ [Authenticated token p]) !! j = Some z → holds z = Some b → gs_pushes s !! j = Some z) as Hback.
    { intros j z b [Hj|[_ Hj]]%lookup_app_Some Hz; [done|]. apply list_lookup_singleton_Some in Hj as [_ <-]. done. }
    split; simpl; [done|by apply Forall_app_2; [|constructor]| | |].
    + intros a g Ha Hused. destruct (Hu a g Ha Hused) as (j & z & Hj & Hz). exists j, z.
      by rewrite lookup_app_l by (by eapply lookup_lt_Some).
    + intros j z a g Hj Hz. eapply Hh; [by eapply Hback|done].
    + intros j k z1 z2 a Hj Hk H1 H2. eapply Ho; [by eapply Hback|by eapply Hback|done|done].
  - destruct (push_ok_grant s i _ Hs Hi) as (a & g & Hpg & Ha). simpl in Hpg.
    unfold Claim in Hc. rewrite Hpg, Ha in Hc. case_decide as Hlive.
    + injection Hc as <- <-. apply (git_inv_move s i (Authenticated token p) (Refused token p)); done.
    + injection Hc as <- <-. eapply (git_inv_mark s i (Authenticated token p) _ a g true); try done; [|by left].
      intros j z Hj Hz. exfalso. apply Hlive. left. by eapply (gi_held s Hs).
  - by apply (git_inv_move s i (Deploying token p) (Deployed token p)).
  - destruct (push_ok_grant s i _ Hs Hi) as (a & g & Hpg & Ha). simpl in Hpg.
    unfold Unclaim. rewrite Hpg, Ha.
    eapply (git_inv_mark s i (Deploying token p) _ a g false); try done; [|by right].
    intros j z Hj Hz. symmetry. by eapply (gi_once s Hs).
Qed.
Lemma git_inv_reach ttl now s : git_reach ttl now s → git_inv s.
Proof.
  intros Hr. unfold git_reach in Hr. assert (git_inv (git_start ttl now)) as H0 by apply git_inv_start.
  induction Hr as [|s1 s2 s3 H12 H23 IH]; [done|]. apply IH. by eapply git_inv_step.
Qed.

(** C19: a push token deploys at most once.  However minting, the clock, pushes and deploys
    interleave, every push acts as the person and on the beam its token was minted for, the
    token hashing to the stored digest; and of all the pushes that present one minted grant at
    most one is deploying or has deployed, so two deploys of one token never overlap and only a
    failed one lets it be used again. *)
Theorem push_token_single_use (ttl : duration) (now : Z) (s : GitState) (Hr : git_reach ttl now s) :
  (∀ i x, gs_pushes s !! i = Some x → push_ok (ts_heap (gs_tokens s)) x)
  ∧ (∀ i j x y a, gs_pushes s !! i = Some x → gs_pushes s !! j = Some y →
      holds x = Some a → holds y = Some a → i = j)
  ∧ (∀ i x a p, gs_pushes s !! i = Some x → holds x = Some a → pushGrant p = Some a →
      (Claim (gs_now s) p (gs_tokens s)).1 = false).
Proof.
  pose proof (git_inv_reach ttl now s Hr) as Hs. split_and!.
  - intros i x Hi. pose proof (gi_pushes s Hs) as Hp. rewrite Forall_lookup in Hp. by eapply Hp.
  - apply (gi_once s Hs).
  - intros i x a p Hi Hx Hp. unfold Claim. rewrite Hp.
    destruct (ts_heap (gs_tokens s) !! a) as [g|] eqn:Ha; [|done].
    rewrite decide_True; [done|]. left. by eapply (gi_held s Hs).
Qed.

(** Two pushes present the same token; one of them gets to deploy. *)
Definition demo_token : string := hex_encode "24 random bytes, so to s".
Definition demo_principal : Principal := MkPrincipal "hall" "beam" "ada" (Some 0).
Definition demo_pushes : GitState :=
  let minted := (mint_ kindPush "hall" "beam" "ada" 900%Z 0%Z (inr "24 random bytes, so to s") (NewTokenStore 0%Z)).2 in
  MkGitState (Claim 0%Z demo_principal minted).2 0%Z [Deploying demo_token demo_principal; Authenticated demo_token demo_principal].
#[local] Transparent sha256.
Lemma demo_reach : git_reach 0%Z 0%Z demo_pushes.
Proof.
  eapply rtc_l; [apply (step_mint _ kindPush "hall" "beam" "ada" 900%Z (inr "24 random bytes, so to s"))|].
  eapply rtc_l; [apply (step_authenticate _ "hall" "beam" demo_token demo_principal); vm_compute; reflexivity|].
  eapply rtc_l; [apply (step_authenticate _ "hall" "beam" demo_token demo_principal); vm_compute; reflexivity|].
  eapply rtc_l; [apply (step_claim _ 0 demo_token demo_principal true (Claim 0%Z demo_principal
    (mint_ kindPush "hall" "beam" "ada" 900%Z 0%Z (inr "24 random bytes, so to s") (NewTokenStore 0%Z)).2).2); [done|vm_compute; reflexivity]|].
  apply rtc_refl.
Qed.
Lemma push_token_single_use_witness :
  (Claim 0%Z demo_principal (gs_tokens demo_pushes)).1 = false
  ∧ ∀ i j x y a, gs_pushes demo_pushes !! i = Some x → gs_pushes demo_pushes !! j = Some y →
      holds x = Some a → holds y = Some a → i = j.
Proof.
  destruct (push_token_single_use 0%Z 0%Z demo_pushes demo_reach) as (_ & Hone & Hclaim). split.
  - apply (Hclaim 0 (Deploying demo_token demo_principal) 0 demo_principal); done.
  - exact Hone.
Defined.
