(* ===== verification/GitServer.v ===== *)
(** The git smart-HTTP server (internal/gitserver/gitserver.go) and the deploy callback of
    cmd/beamhalld: paths, authentication by git token, advertisement, clone and push.  The git
    protocol itself (go-git) and the repositories on disk are arguments.  What a git request can do ends the file. *)
From S2P Require Import Prelude Regexp GoStrings GoNet Sha256 GoText Domain Gateway GatewayProofs.
From S2P Require Import Store StoreOps Fixtures AuditLog Policy Vault VaultProofs Scrub Outside.
From S2P Require Import Orch AppTools Facility OrchBeam OrchFixtures OrchScope GitTokens.

(** * The site *)

(** What one process holds: the world the orchestrator acts on and the git tokens. *)
Record Site (X C : Type) := MkSite {
  si_world : World X C;
  si_tokens : TokenStore}.
Arguments MkSite {X C} _ _.
Arguments si_world {X C} _.
Arguments si_tokens {X C} _.
#[export] Instance Eta_Site X C : Eta (Site X C) := λ s, MkSite (si_world s) (si_tokens s).

Section site.
Context `{!Env, !Age, !Rand} {X C : Type}.
Definition SiM : Type → Type := M (Site X C) error.
Definition bp {A} (m : OM (X := X) (C := C) A) : SiM A :=
  lift si_world (λ w s, s <| si_world := w |>) m.
Definition dir {A} (m : SM A) : SiM A := bp (in_store m).
Definition site_now : SiM Z := t ← dir now; mret (UnixNano t).
Definition of_tokens {A} (f : TokenStore → A * TokenStore) : SiM A := λ s,
  let '(a, ts) := f (si_tokens s) in (inr a, s <| si_tokens := ts |>).
(** Minting draws 24 random bytes and reads the clock. *)
Definition mint_token (kind : tokenKind) (beamhall beam actor : ID) : SiM string :=
  n ← dir step_no;
  t ← site_now;
  r ← of_tokens (λ ts, (match kind with kindPush => MintPush | kindRead => MintRead end)
                         beamhall beam actor t (rand_read n 24) ts);
  match r with inl e => throw (ErrExternal e) | inr tok => mret tok end.
End site.

(** * Requests and replies *)

Definition receivePack : string := "git-receive-pack".
Definition uploadPack : string := "git-upload-pack".

(** A reference update of a push: the new commit, none when the reference is deleted. *)
Record PackRequest := MkPackRequest {
  pk_commands : list (string * option string);
  pk_caps : list string;
  pk_pack : string}.
Record Report := MkReport {
  rp_unpack : string;
  rp_commands : list (string * string)}.
#[export] Instance Eta_Report : Eta Report := λ r, MkReport (rp_unpack r) (rp_commands r).
(** A request: its body may not gunzip; then what the decoders of upload-pack and of
    receive-pack make of it. *)
Record GitRequest := MkGitRequest {
  gr_Method : string;
  gr_Path : string;
  gr_service : string;
  gr_BasicAuth : option string;
  gr_gunzips : bool;
  gr_as_upload : string + string;
  gr_as_receive : string + PackRequest}.
(** Sideband messages of a push. *)
Inductive Frame :=
  | FProgress (msg : string)
  | FError (msg : string)
  | FReport (r : Report).
Inductive GitReply :=
  | HTTPError (status : Z) (msg : string)
  | Advertisement (service : string) (caps : list string) (refs : string)
  | UploadResult (pack : string)
  | ReceiveResult (plain : option Report) (frames : list Frame).

(** What opening a session and asking for the references gives. *)
Inductive Refs :=
  | NoSession (e : string)
  | NoRefs (e : string)
  | EmptyRepository
  | RefsOf (caps : list string) (refs : string).
(** build.Repos.Ensure, and go-git's endpoint, sessions, upload-pack and receive-pack. *)
Class GitTransport (X : Type) := {
  git_ensure : string → string → ext X ();
  git_endpoint : string → option string;
  git_refs : bool → string → X → Refs * X;
  git_upload : string → string → ext X string;
  git_session : string → ext X ();
  git_receive : string → PackRequest → ext X Report }.

(** * Paths *)

Definition slugRe_ : re :=
  Cat AtStart (Cat (Class_ slug_end)
    (Cat (Opt (Cat (UpTo 30 (Class_ slug_char)) (Class_ slug_end))) AtEnd)).
(** What is before the first occurrence of [sep] and what follows it. *)
Fixpoint cut_at (s sep : string) : option (string * string) :=
  match CutPrefix s sep with
  | Some rest => Some (EmptyString, rest)
  | None => match s with
            | EmptyString => None
            | String c s => '(a, b) ← cut_at s sep; Some (String c a, b)
            end
  end.
Definition parsePath (p : string) : option (string * string * string) :=
  let p := default p (CutPrefix p "/git/") in
  '(repo, rest) ← cut_at p ".git/";
  match Cut repo "/" with
  | (hall, Some beam) =>
      if MatchString slugRe_ hall && MatchString slugRe_ beam then Some (hall, beam, rest) else None
  | _ => None
  end.
Definition oneLine (s : string) : string := replace_byte newline " " (TrimSpace s).
Definition pushedSHA (req : PackRequest) : string :=
  match omap snd (pk_commands req) with sha :: _ => sha | [] => EmptyString end.
Definition failCommands (report : Report) (e : error) : Report :=
  let reason := String.substring 0 100 (oneLine (Error e)) in
  report <| rp_commands := (λ c, (c.1, reason)) <$> rp_commands report |>.
Definition Sideband64k : string := "side-band-64k".
Definition Sideband : string := "side-band".
Definition ReportStatus : string := "report-status".
Definition emptyAdvRefs : list string := [ReportStatus; "delete-refs"; "ofs-delta"; Sideband64k].

(** The frames of a report, or the report alone when there is no sideband. *)
Definition writeReport (report : Report) (muxed : bool) (frames : list Frame) : GitReply :=
  if muxed then ReceiveResult None (frames ++ [FReport report]) else ReceiveResult (Some report) frames.

(** strings.Contains *)
Definition Contains (s sub : string) : bool := match cut_at s sub with Some _ => true | None => false end.

Section git.
Context `{!Env, !Age, !Rand} {X C : Type} `{!Caddy C}.
Context `{!RuntimeDriver X, !Platform X, !DatabaseProvisioner X, !IdentityProvider X, !Brokers X, !GitTransport X}.
Context (o : Orchestrator) (polls : nat).
Notation SiM := (SiM (X := X) (C := C)).

(** ** The deploy callback (cmd/beamhalld/main.go) *)

Definition resolveDeployedURL (beamID : ID) : SiM string :=
  routes ← attempt (dir (ListRoutesByBeam beamID));
  match routes with
  | inl _ => mret "(deployed, but the URL could not be determined — run list_beams or show_logs to find it)"
  | inr routes =>
      mret (match find (λ r, bool_decide (Route_Status r = RouteActive)) (rev routes) with
            | Some r => "https://" +:+ Route_Hostname r
            | None => EmptyString
            end)
  end.
Definition token_actor (p : Principal) : Actor := MkActor (Pr_Actor p) EmptyString false EmptyString [] EmptyString.
Definition gitDeployer (p : Principal) (sha : string) : SiM string :=
  beam ← bp (DeployBeamFromGit o polls (token_actor p) (Pr_Beamhall p) (Pr_Beam p) sha);
  resolveDeployedURL (Beam_ID beam).

(** ** The handler *)

Definition refuse {A} (status : Z) (msg : string) : SiM (GitReply + A) := mret (inl (HTTPError status msg)).
Definition authenticate (r : GitRequest) (hallSlug beamSlug : string) (write : bool)
    : SiM (GitReply + Principal * string) :=
  match gr_BasicAuth r with
  | None => refuse 401 "git token required"
  | Some pass =>
      if decide (pass = EmptyString) then refuse 401 "git token required"
      else
      bh ← attempt (dir (GetBeamhallBySlug hallSlug));
      match bh with
      | inl _ => refuse 404 "unknown repository"
      | inr bh =>
          beam ← attempt (dir (GetBeamBySlug (Beamhall_ID bh) beamSlug));
          match beam with
          | inl _ => refuse 404 "unknown repository"
          | inr beam =>
              t ← site_now;
              princ ← gets (λ s, (if write then Validate else ValidateRead) t (Beamhall_ID bh) (Beam_ID beam)
                                   pass (si_tokens s));
              match princ with
              | None =>
                  refuse 403 ("invalid or expired git token — " +:+
                    (if write then "run deploy_beam (with no source) again to get a fresh one-time push command"
                     else "run get_repo again to get a fresh clone command"))
              | Some princ =>
                  ensured ← attempt (bp (outside (git_ensure hallSlug beamSlug)));
                  match ensured with
                  | inl _ => refuse 500 "internal error"
                  | inr _ =>
                      match git_endpoint ("/" +:+ hallSlug +:+ "/" +:+ beamSlug +:+ ".git") with
                      | None => refuse 500 "internal error"
                      | Some ep => mret (inr (princ, ep))
                      end
                  end
              end
          end
      end
  end.

Definition ask_refs (write : bool) (ep : string) : SiM Refs :=
  bp (λ w, let '(r, x) := git_refs write ep (w_out w) in (inr r, w <| w_out := x |>)).
Definition add_caps (caps extra : list string) : list string := caps ++ filter (.∉ caps) extra.
Definition infoRefs (ep : string) : SiM GitReply :=
  refs ← ask_refs true ep;
  mret (match refs with
        | NoSession _ | NoRefs _ => HTTPError 500 "internal error"
        | EmptyRepository =>
            Advertisement receivePack (add_caps emptyAdvRefs [Sideband64k; ReportStatus]) EmptyString
        | RefsOf caps refs => Advertisement receivePack (add_caps caps [Sideband64k; ReportStatus]) refs
        end).
Definition uploadInfoRefs (ep : string) : SiM GitReply :=
  refs ← ask_refs false ep;
  mret (match refs with
        | NoSession _ | NoRefs _ => HTTPError 500 "internal error"
        | EmptyRepository => Advertisement uploadPack [] EmptyString
        | RefsOf caps refs => Advertisement uploadPack caps refs
        end).
Definition upload_pack (r : GitRequest) (ep : string) : SiM GitReply :=
  if negb (gr_gunzips r) then mret (HTTPError 400 "bad request body")
  else
  match gr_as_upload r with
  | inl e => mret (HTTPError 400 ("malformed upload-pack request: " +:+ e))
  | inr req =>
      resp ← attempt (bp (outside (git_upload ep req)));
      mret (match resp with
            | inl e => HTTPError 500 ("upload-pack failed: " +:+ Error e)
            | inr pack => UploadResult pack
            end)
  end.

(** The pack is applied, the token claimed, the commit deployed; a failed deploy gives the
    token back. *)
Definition receive_pack (r : GitRequest) (ep : string) (princ : Principal) : SiM GitReply :=
  if negb (gr_gunzips r) then mret (HTTPError 400 "bad request body")
  else
  match gr_as_receive r with
  | inl e => mret (HTTPError 400 ("malformed receive-pack request: " +:+ e))
  | inr req =>
      let sideOK := bool_decide (Sideband64k ∈ pk_caps req ∨ Sideband ∈ pk_caps req) in
      let sha := pushedSHA req in
      let req := MkPackRequest (pk_commands req)
                   (filter (λ c, c ≠ Sideband64k ∧ c ≠ Sideband) (pk_caps req)) (pk_pack req) in
      session ← attempt (bp (outside (git_session ep)));
      match session with
      | inl _ => mret (HTTPError 500 "internal error")
      | inr _ =>
          report ← attempt (bp (outside (git_receive ep req)));
          match report with
          | inl e =>
              mret (HTTPError 400 ("receive-pack failed: " +:+ Error e +:+
                (if Contains (Error e) "delta"
                 then " — re-run your push with --no-thin, e.g. git push --no-thin <remote> HEAD:main"
                 else EmptyString)))
          | inr report =>
              if decide (sha = EmptyString) then mret (writeReport report false [])
              else
              t ← site_now;
              ok ← of_tokens (Claim t princ);
              if negb ok then mret (HTTPError 403 "push token already claimed by a concurrent push")
              else
              url ← attempt (gitDeployer princ sha);
              match url with
              | inl derr =>
                  of_tokens (λ ts, (tt, Unclaim princ ts));;
                  mret (writeReport (failCommands report derr) sideOK
                    (if sideOK then
                       [FError ("deploy failed: " +:+ oneLine (Error derr) +:+ String newline EmptyString);
                        FProgress ("the push token is still valid — fix your code, commit, and run the same git push again."
                                   +:+ String newline EmptyString)]
                     else []))
              | inr url =>
                  mret (writeReport report sideOK
                    (if sideOK then [FProgress ("deployed; reachable at " +:+ url +:+ String newline EmptyString)]
                     else []))
              end
          end
      end
  end.

Definition serve (r : GitRequest) : SiM GitReply :=
  match parsePath (gr_Path r) with
  | None => mret (HTTPError 404 "404 page not found")
  | Some (hall, beam, rest) =>
      match (if decide (gr_Method r = "GET" ∧ rest = "info/refs") then Some (gr_service r)
             else if decide (gr_Method r = "POST" ∧ (rest = receivePack ∨ rest = uploadPack)) then Some rest
             else None) with
      | None => mret (HTTPError 404 "404 page not found")
      | Some service =>
          if decide (service ≠ receivePack ∧ service ≠ uploadPack) then
            mret (HTTPError 403 "unsupported git service")
          else
          let write := bool_decide (service = receivePack) in
          auth ← authenticate r hall beam write;
          match auth with
          | inl reply => mret reply
          | inr (princ, ep) =>
              if decide (gr_Method r = "GET") then if write then infoRefs ep else uploadInfoRefs ep
              else if write then receive_pack r ep princ else upload_pack r ep
          end
      end
  end.
End git.

(** * The git server never serves a repository without a live token of the right kind for that
    beam. *)

Section git.
Context `{!Env, !Age, !Rand} {X C : Type} `{!Caddy C}.
Context `{!RuntimeDriver X, !Platform X, !DatabaseProvisioner X, !IdentityProvider X, !Brokers X, !GitTransport X}.
Context (o : Orchestrator) (polls : nat).
Notation Site := (Site X C).
Implicit Types (s : Site).

(** Reads and nothing else: no token claimed, nothing outside. *)
Definition untold s s' : Prop := idle (si_world s) (si_world s') ∧ si_tokens s' = si_tokens s.
#[local] Instance untold_PreOrder : PreOrder untold.
Proof.
  split; unfold untold; [by intros s|]. intros s1 s2 s3 [] []. split; [by etrans|congruence].
Qed.
(** A request with a token that is live now for the beam its path names, of the kind its service
    asks for. *)
Definition wants_push (r : GitRequest) (rest : string) : bool :=
  bool_decide (rest = receivePack ∨ (rest = "info/refs" ∧ gr_service r = receivePack)).
Definition admitted (r : GitRequest) s : Prop :=
  ∃ hall slug rest bh b tok t found,
    parsePath (gr_Path r) = Some (hall, slug, rest)
    ∧ (∃ id, db_beamhalls (w_db (si_world s)) !! id = Some bh) ∧ Beamhall_Slug bh = hall
    ∧ (∃ id, db_beams (w_db (si_world s)) !! id = Some b) ∧ active_in (Beamhall_ID bh) b = true ∧ Beam_Slug b = slug
    ∧ gr_BasicAuth r = Some tok
    ∧ live_grant (if wants_push r rest then kindPush else kindRead) t (Beamhall_ID bh) (Beam_ID b) tok
        (si_tokens s) = Some found.

(** What a request that is not admitted leaves. *)
Definition turned_away s {A} (r : error + (GitReply + A)) s' : Prop :=
  untold s s' ∧ ∃ status msg, r = inr (inl (HTTPError status msg)).
Lemma wp_attempt_read {A} (f : DB → option A) (Q : error + (error + A) → Site → Prop) s :
  (∀ e s', untold s s' → Q (inr (inl e)) s') →
  (∀ a s', untold s s' → f (w_db (si_world s)) = Some a → Q (inr (inr a)) s') →
  wp (attempt (dir (exec (q_one f)))) Q s.
Proof.
  intros He Ha. apply wp_attempt, wp_lift, wp_read.
  - intros e w Hi. apply He. by split.
  - intros a w Hi Hf. apply Ha; [by split|done].
Qed.
Lemma wp_site_now (Q : error + Z → Site → Prop) s :
  (∀ t s', untold s s' → Q (inr t) s') → wp (site_now (X := X) (C := C)) Q s.
Proof.
  intros HQ. apply wp_bind, wp_lift, wp_lift, wp_now. intros t st E. apply wp_ret, HQ.
  split; [|done]. by apply idle_in_store.
Qed.

Lemma wp_git_authenticate r hall slug rest write s :
  parsePath (gr_Path r) = Some (hall, slug, rest) → write = wants_push r rest →
  wp (authenticate (X := X) (C := C) r hall slug write) (λ res s',
    admitted r s ∨ turned_away s res s') s.
Proof.
  intros Hp Hw. unfold authenticate, refuse.
  assert (∀ s' st msg, untold s s' → wp (mret (inl (HTTPError st msg)) : SiM (GitReply + Principal * string))
    (λ res s', admitted r s ∨ turned_away s res s') s') as Haway.
  { intros s' st msg Hu. apply wp_ret. right. split; [done|eauto]. }
  destruct (gr_BasicAuth r) as [tok|] eqn:Ht; [|by apply Haway].
  case_decide; [by apply Haway|].
  apply wp_bind, wp_attempt_read; [intros e s1 Hu1; by apply Haway|].
  intros bh s1 Hu1 Hbh. apply select_one_Some in Hbh as [Hslug Hbh].
  apply wp_bind, wp_attempt_read; [intros e s2 Hu2; apply Haway; by etrans|].
  intros b s2 Hu2 Hb. apply select_one_Some in Hb as [Hb1 Hb].
  rewrite (idle_db _ _ (proj1 Hu1)) in Hb.
  apply wp_bind, wp_site_now. intros t s3 Hu3.
  assert (untold s s3) as Hu by (etrans; [exact Hu1|by etrans]).
  apply wp_bind. unfold wp at 1, gets; simpl. rewrite (proj2 Hu).
  assert (∀ p, (if write then Validate else ValidateRead) t (Beamhall_ID bh) (Beam_ID b) tok (si_tokens s) = Some p →
    admitted r s) as Hadm.
  { intros p Hv. apply andb_True in Hb1 as [Hact Hbs].
    assert (is_Some (live_grant (if write then kindPush else kindRead) t (Beamhall_ID bh) (Beam_ID b) tok (si_tokens s)))
      as [found Hf].
    { destruct write; unfold Validate, ValidateRead in Hv;
        destruct (live_grant _ _ _ _ _ _); by eauto. }
    exists hall, slug, rest, bh, b, tok, t, found. rewrite <-Hw. split_and!; try done.
    - by apply bool_decide_unpack in Hslug.
    - by apply Is_true_true.
    - by apply bool_decide_unpack in Hbs. }
  destruct ((if write then Validate else ValidateRead) _ _ _ _ _) as [p|]; [|by apply Haway].
  left. by eapply Hadm.
Qed.
(** ** Clones change nothing here *)

(** The tables and the tokens. *)
Definition ours s s' : Prop := w_db (si_world s') = w_db (si_world s) ∧ si_tokens s' = si_tokens s.
#[local] Instance ours_PreOrder : PreOrder ours.
Proof. split; unfold ours; [by intros s|]. intros s1 s2 s3 [] []. split; congruence. Qed.
Lemma ours_outside {A} (f : ext X A) : frames ours (bp (C := C) (outside f)).
Proof. intros s. unfold ours; simpl. unfold outside. by destruct (f _) as [[e|a] x]. Qed.
Lemma ours_read {A} (f : DB → option A) : frames ours (dir (X := X) (C := C) (exec (q_one f))).
Proof.
  intros s. unfold ours; simpl. unfold exec, q_one. destruct (fault _); [done|].
  by destruct (f _).
Qed.
#[local] Hint Resolve ours_outside ours_read : frame.
Lemma ours_site_now : frames ours (site_now (X := X) (C := C)).
Proof. intros s. by unfold ours. Qed.
Lemma ours_ask write ep : frames ours (ask_refs (C := C) write ep).
Proof. intros s. unfold ours, ask_refs; simpl. by destruct (git_refs _ _ _). Qed.
Lemma ours_authenticate r hall slug write : frames ours (authenticate (X := X) (C := C) r hall slug write).
Proof.
  pose proof ours_site_now. unfold authenticate, refuse, GetBeamhallBySlug, GetBeamBySlug. solve_frame.
Qed.
Lemma ours_upload r ep : frames ours (upload_pack (C := C) r ep).
Proof. unfold upload_pack. solve_frame. Qed.
Lemma ours_info ep : frames ours (infoRefs (C := C) ep).
Proof. pose proof ours_ask. unfold infoRefs. solve_frame. Qed.
Lemma ours_upload_info ep : frames ours (uploadInfoRefs (C := C) ep).
Proof. pose proof ours_ask. unfold uploadInfoRefs. solve_frame. Qed.

(** A push: the one request that may deploy. *)
Definition is_push (r : GitRequest) : Prop :=
  gr_Method r = "POST" ∧ ∃ hall slug, parsePath (gr_Path r) = Some (hall, slug, receivePack).
Lemma ours_serve r : ¬ is_push r → frames ours (GitServer.serve (C := C) o polls r).
Proof.
  intros Hn. unfold GitServer.serve. destruct (parsePath (gr_Path r)) as [[[hall slug] rest]|] eqn:Hp; [|by intros s].
  pose proof ours_authenticate. pose proof ours_upload. pose proof ours_info. pose proof ours_upload_info.
  destruct (decide (gr_Method r = "GET" ∧ rest = "info/refs")) as [[Hg _]|Hg].
  { case_decide; [by intros s|]. apply frames_bind; [tc_solve|auto|]. intros [reply|[p ep]]; [by intros s|].
    rewrite decide_True by done. case_match; auto. }
  destruct (decide (gr_Method r = "POST" ∧ _)) as [[Hm Hr]|Hpost]; [|by intros s].
  case_decide as Hsvc; [by intros s|]. apply frames_bind; [tc_solve|auto|]. intros [reply|[p ep]]; [by intros s|].
  rewrite decide_False by (by rewrite Hm). case_bool_decide as Hw; [|auto].
  exfalso. apply Hn. subst rest. split; [done|by exists hall, slug].
Qed.

Lemma serve_checked r s :
  wp (GitServer.serve o polls r) (λ rep s',
    (admitted r s ∨ untold s s' ∧ ∃ status msg, rep = inr (HTTPError status msg))
    ∧ (¬ is_push r → ours s s')) s.
Proof.
  split; [|by intros Hn; apply ours_serve].
  change (wp (GitServer.serve o polls r) (λ rep s', admitted r s ∨ untold s s' ∧ ∃ status msg, rep = inr (HTTPError status msg)) s).
  assert (∀ st msg, wp (mret (HTTPError st msg) : SiM GitReply)
    (λ rep s', admitted r s ∨ untold s s' ∧ ∃ status msg, rep = inr (HTTPError status msg)) s) as Haway.
  { intros st msg. apply wp_ret. right. split; [reflexivity|eauto]. }
  unfold GitServer.serve. destruct (parsePath (gr_Path r)) as [[[hall slug] rest]|] eqn:Hp; [|by apply Haway].
  assert (∀ service, (if decide (gr_Method r = "GET" ∧ rest = "info/refs") then Some (gr_service r)
     else if decide (gr_Method r = "POST" ∧ (rest = receivePack ∨ rest = uploadPack)) then Some rest else None)
     = Some service → bool_decide (service = receivePack) = wants_push r rest) as Hw.
  { intros service E. unfold wants_push. apply bool_decide_ext.
    case_decide as Hg; [injection E as <-; destruct Hg as [_ ->]; naive_solver|].
    case_decide as Hpo; [injection E as <-|discriminate E]. split; [by left|].
    intros [?|[-> _]]; [done|]. destruct Hpo as [_ [[=]|[=]]]. }
  destruct (if decide _ then _ else _) as [service|] eqn:E; [|by apply Haway].
  destruct (decide (service ≠ receivePack ∧ _)); [by apply Haway|]. specialize (Hw service eq_refl).
  apply wp_bind. eapply wp_mono; [by apply (wp_git_authenticate r hall slug rest)|].
  intros res s' [Ha|[Hu (st & msg & ->)]].
  - destruct res as [e|[reply|[p ep]]]; by left.
  - apply wp_ret. right. by eauto.
Qed.
End git.

