(* ===== verification/Docker.v ===== *)
(** The Docker driver (internal/driver/dockerdriver.go, tmpfs_linux.go): what it asks of the
    daemon for each call of the runtime driver, and the directory of staged secrets.  The client
    library and the daemon are the class [DockerAPI]. *)
From S2P Require Import Prelude Regexp GoStrings GoPath GoNet GoHTTP GoText Domain Vault Outside GitServer.

(** * What the client library is given and returns *)

(** container.Config *)
Record ContainerConfig := MkContainerConfig {
  CC_Image : string;
  CC_Cmd : list string;
  CC_Env : list string;
  CC_Labels : gmap string string}.
(** mount.Mount of type bind *)
Record Mount := MkMount {
  MT_Source : string;
  MT_Target : string;
  MT_ReadOnly : bool}.
(** container.HostConfig with its Resources: the fields the driver sets, and of the others those
    that would open the container up. *)
Record HostConfig := MkHostConfig {
  HC_Runtime : string;
  HC_NetworkMode : string;
  HC_ExtraHosts : list string;
  HC_CapDrop : list string;
  HC_CapAdd : list string;
  HC_SecurityOpt : list string;
  HC_ReadonlyRootfs : bool;
  HC_Tmpfs : gmap string string;
  HC_Mounts : list Mount;
  HC_Memory : Z;
  HC_PidsLimit : option Z;
  HC_CPUQuota : Z;
  HC_CPUPeriod : Z;
  HC_RestartPolicy : string;
  HC_Privileged : bool;
  HC_UsernsMode : string;
  HC_PidMode : string;
  HC_IpcMode : string;
  HC_Binds : list string;
  HC_PortBindings : list (string * string);
  HC_Devices : list string}.
(** A request to create a container: its configuration, the networks it joins and its name. *)
Record CreateRequest := MkCreateRequest {
  CR_Config : ContainerConfig;
  CR_Host : HostConfig;
  CR_Endpoints : list string;
  CR_Name : string}.
Record NetworkOptions := MkNetworkOptions {
  NO_Driver : string;
  NO_Internal : bool;
  NO_Labels : gmap string string}.
(** network.Inspect: the IPAM configurations as subnet and gateway, the containers as name and
    IPv4 address in the order a range visits them. *)
Record NetworkResource := MkNetworkResource {
  NR_ID : string;
  NR_Options : gmap string string;
  NR_IPAM : list (string * string);
  NR_Containers : list (string * string)}.
(** container.InspectResponse: the addresses on its networks in the order a range visits them. *)
Record ContainerJSON := MkContainerJSON {
  CJ_Status : string;
  CJ_StartedAt : string;
  CJ_ExitCode : Z;
  CJ_Health : option string;
  CJ_Labels : gmap string string;
  CJ_Addresses : list string}.
Record ContainerLogsOptions := MkContainerLogsOptions {
  LO_ShowStdout : bool;
  LO_ShowStderr : bool;
  LO_Follow : bool;
  LO_Since : string;
  LO_Tail : string}.
Record ExecOptions := MkExecOptions {
  EO_Cmd : list string;
  EO_AttachStdin : bool;
  EO_AttachStdout : bool;
  EO_AttachStderr : bool;
  EO_Tty : bool}.
(** The calls on the staging root that may fail: a directory made, a file written into one, a
    directory removed, the root listed. *)
Inductive StagingCall :=
  | FsMkdir (dir : string)
  | FsWrite (dir file : string)
  | FsRemove (dir : string)
  | FsList.

(** The daemon with its client, and the system calls of the driver.  [cli_ImagePull] gives the
    read error of the drained stream, if it has one; [stdcopy] the text of a stream of frames and the
    error it ends with, if it has one. *)
Class DockerAPI (D : Type) := {
  cli_New : ext D ();
  cli_Info : ext D (list string);
  cli_ImageInspect : string → ext D ();
  cli_ImagePull : string → ext D (option string);
  cli_NetworkList : string → ext D (list string);
  cli_NetworkCreate : string → NetworkOptions → ext D ();
  cli_NetworkRemove : string → ext D ();
  cli_NetworkConnect : string → string → ext D ();
  cli_NetworkInspect : string → ext D NetworkResource;
  cli_ContainerCreate : CreateRequest → ext D string;
  cli_ContainerStart : string → ext D ();
  cli_ContainerPause : string → ext D ();
  cli_ContainerUnpause : string → ext D ();
  cli_ContainerStop : string → Z → ext D ();
  cli_ContainerRemove : string → ext D ();
  cli_ContainerInspect : string → ext D ContainerJSON;
  cli_ContainerList : ext D (list (gmap string string));
  cli_ContainerLogs : string → ContainerLogsOptions → ext D string;
  cli_ExecCreate : string → ExecOptions → ext D string;
  cli_ExecAttach : string → ext D string;
  cli_ExecInspect : string → ext D (bool * Z);
  stdcopy : string → string * option string;
  os_Statfs : string → ext D Z;
  os_rand : nat → D → string * D;
  fs_fault : StagingCall → ext D () }.

(** * The driver *)

Definition labelManaged : string := "beamhall.managed".
Definition labelBeam : string := "beamhall.beam".
Definition labelPort : string := "beamhall.port".
Definition labelStaging : string := "beamhall.staging".

(** The host: the daemon, the staging root as files by directory, and the requests to create a
    container that were sent so far. *)
Record Host (D : Type) := MkHost {
  h_daemon : D;
  h_root : gmap string (gmap string string);
  h_created : list CreateRequest}.
Arguments MkHost {D} _ _ _.
Arguments h_daemon {D} _.
Arguments h_root {D} _.
Arguments h_created {D} _.
#[export] Instance Eta_Host D : Eta (Host D) := λ h, MkHost (h_daemon h) (h_root h) (h_created h).

(** ** Text *)

Definition name_byte (c : ascii) : bool := is_upper c || is_lower c || is_digit c || one_of "_.-" c.
(** nameSanitizer replaces every other byte (of ASCII text). *)
Definition sanitize : string → string := map_bytes (λ c, if name_byte c then c else "_"%char).
Definition driver_short (ref : string) : string :=
  if decide (12 < String.length ref) then String.substring 0 12 ref else ref.
Definition mapState (s : string) : WorkloadState :=
  if decide (s = "running") then WorkloadRunning
  else if decide (s = "paused") then WorkloadPaused
  else if decide (s = "exited" ∨ s = "dead") then WorkloadExited
  else WorkloadUnknown.
(** time.Format and time.Parse with the layout RFC3339Nano *)
Definition trim_zeros (s : string) : string := TrimRight s "0".
Definition FormatRFC3339Nano (t : time) : string :=
  let ns := match t with Some n => (n `mod` 10 ^ 9)%Z | None => 0%Z end in
  let '((y, mo, d), (h, mi, s)) := clock_of t in
  pad 4 y +:+ "-" +:+ pad 2 mo +:+ "-" +:+ pad 2 d +:+ "T" +:+ pad 2 h +:+ ":" +:+ pad 2 mi +:+ ":" +:+ pad 2 s
  +:+ (if decide (ns = 0%Z) then EmptyString else "." +:+ trim_zeros (pad 9 ns)) +:+ "Z".
Definition get_zone (s : string) : option (Z * string) :=
  match s with
  | String c t =>
      if decide (c = "Z"%char) then Some (0%Z, t)
      else if negb (one_of "+-" c) then None
      else
        '(h, t) ← getnum true t; t ← CutPrefix t ":"; '(mi, t) ← getnum true t;
        if decide (24 < h ∨ 60 < mi)%Z then None
        else let off := (h * 3600 + mi * 60)%Z in
             Some ((if decide (c = "-"%char) then - off else off)%Z, t)
  | EmptyString => None
  end.
Definition ParseRFC3339Nano (s : string) : option Z :=
  '(y, s) ← get_year s; s ← CutPrefix s "-";
  '(mo, s) ← getnum true s;
  if decide (mo < 1 ∨ 12 < mo)%Z then None else
  s ← CutPrefix s "-"; '(d, s) ← getnum true s; s ← CutPrefix s "T";
  '(h, s) ← getnum false s;
  if decide (24 ≤ h)%Z then None else
  s ← CutPrefix s ":"; '(mi, s) ← getnum true s;
  if decide (60 ≤ mi)%Z then None else
  s ← CutPrefix s ":"; '(se, s) ← getnum true s;
  if decide (60 ≤ se)%Z then None else
  let '(ns, s) := get_fraction s in
  '(off, s) ← get_zone s;
  if decide (s ≠ EmptyString ∨ d < 1 ∨ days_in mo y < d)%Z then None
  else Some ((days_from_civil y mo d * 86400 + h * 3600 + mi * 60 + se - off) * 10 ^ 9 + ns)%Z.

(** ** The profile of a container *)

Definition runtimeName (rc : string) : string := if decide (rc = "runsc") then "runsc" else EmptyString.
Definition securityOpts (p : SecurityProfile) : list string :=
  (if SP_NoNewPrivileges p then ["no-new-privileges:true"] else [])
  ++ (if decide (SP_SeccompProfile p ≠ EmptyString ∧ SP_SeccompProfile p ≠ "default")
      then ["seccomp=" +:+ SP_SeccompProfile p] else [])
  ++ (if decide (SP_AppArmorProfile p ≠ EmptyString ∧ SP_AppArmorProfile p ≠ "default")
      then ["apparmor=" +:+ SP_AppArmorProfile p] else []).
Definition tmpfsMap (paths : list string) : gmap string string :=
  foldl (λ m p, <[p := "rw,nosuid,nodev"]> m) ∅ paths.
(** Memory, PidsLimit, CPUQuota and CPUPeriod *)
Definition resourceConfig (r : DriverLimits) : Z * option Z * Z * Z :=
  (if decide (0 < DL_MemBytes r)%Z then DL_MemBytes r else 0%Z,
   if decide (0 < DL_PidsMax r)%Z then Some (DL_PidsMax r) else None,
   if decide (0 < DL_CPUQuota r)%Z then DL_CPUQuota r else 0%Z,
   if decide (0 < DL_CPUQuota r)%Z then 100000%Z else 0%Z).
Definition containerConfig (spec : DeploySpec) (inst : string) : ContainerConfig :=
  MkContainerConfig (DS_ImageDigest spec) (DS_Command spec)
    (if decide (0 < DS_Port spec)%Z then ["PORT=" +:+ format_int (DS_Port spec)] else [])
    {[labelManaged := "true"; labelBeam := DS_BeamID spec; labelPort := format_int (DS_Port spec);
      labelStaging := inst]}.
Definition hostConfig (spec : DeploySpec) (mounts : list Mount) (hosts : list string) : HostConfig :=
  let sec := DS_Security spec in
  let '(mem, pids, quota, period) := resourceConfig (DS_Resources spec) in
  MkHostConfig (runtimeName (SP_RuntimeClass sec)) (BeamhallNetwork (DS_Network spec)) hosts (SP_CapDrop sec)
    (SP_CapAdd sec) (securityOpts sec) (SP_ReadOnlyRootfs sec) (tmpfsMap (SP_Tmpfs sec)) mounts mem pids quota period
    "no" false EmptyString EmptyString EmptyString [] [] [].

Definition strip_mask (ip : string) : string :=
  match IndexByte ip "/" with Some i => String.substring 0 i ip | None => ip end.
Definition bridge_of (n : NetworkResource) : option string :=
  let br := default EmptyString (NR_Options n !! "com.docker.network.bridge.name") in
  if decide (br ≠ EmptyString) then Some br
  else if decide (12 ≤ String.length (NR_ID n)) then Some ("br-" +:+ String.substring 0 12 (NR_ID n))
  else None.
Definition usernsRemapConfigured (securityOptions : list string) : bool :=
  existsb (λ opt, bool_decide (opt = "name=userns")) securityOptions.

(** ** The calls *)

Section driver.
Context {D : Type} `{!DockerAPI D} (secretsRoot : string).
Definition DM : Type → Type := M (Host D) string.
Definition cli {A} (f : ext D A) : DM A := lift h_daemon (λ d h, h <| h_daemon := d |>) f.
Definition wrap_err {A} (prefix : string) : DM A → DM A := map_error (String.append (prefix +:+ ": ")).

Definition EnsureNetwork (name : string) : DM () :=
  if decide (name = EmptyString) then mret tt
  else
  list_ ← wrap_err "network list" (cli (cli_NetworkList name));
  if decide (name ∈ list_) then mret tt
  else wrap_err (Sprintf "network create %q" [FS name])
         (cli (cli_NetworkCreate name (MkNetworkOptions "bridge" false {[labelManaged := "true"]}))).
Definition RemoveNetwork (name : string) : DM () := cli (cli_NetworkRemove name).
Definition ConnectContainerToNetwork (containerRef netName : string) : DM () :=
  EnsureNetwork netName;;
  r ← attempt (cli (cli_NetworkConnect netName containerRef));
  match r with
  | inr _ => mret tt
  | inl e => if Contains e "already exists in network" then mret tt else throw e
  end.
Definition no_bridge {A} (name : string) : DM A := throw (Sprintf "network %q has no resolvable bridge" [FS name]).
Definition inspect_network (name : string) : DM NetworkResource :=
  wrap_err (Sprintf "network inspect %q" [FS name]) (cli (cli_NetworkInspect name)).
Definition NetworkBridge (name : string) : DM string :=
  n ← inspect_network name;
  match bridge_of n with Some br => mret br | None => no_bridge name end.
Definition facts_from (br : string) (n : NetworkResource) : NetworkFacts :=
  MkNetworkFacts br
    (filter (.≠ EmptyString) (NR_IPAM n).*1)
    (default EmptyString (head (filter (.≠ EmptyString) (NR_IPAM n).*2)))
    (foldl (λ m '(name, ip), if decide (name ≠ EmptyString ∧ strip_mask ip ≠ EmptyString)
                             then <[name := strip_mask ip]> m else m) ∅ (NR_Containers n)).
Definition driver_NetworkFacts (name : string) : DM NetworkFacts :=
  n ← inspect_network name;
  match bridge_of n with Some br => mret (facts_from br n) | None => no_bridge name end.
Definition NetworkSubnets (name : string) : DM (list string) :=
  f ← driver_NetworkFacts name; mret (NF_Subnets f).

(** *** Staged secrets *)

(** What os.RemoveAll of a name under the root removes: no name and ["."] are the root, [".."] is
    above it. *)
Definition remove_staged (dir : string) (root : gmap string (gmap string string)) : gmap string (gmap string string) :=
  if decide (dir = EmptyString ∨ dir = "." ∨ dir = "..") then ∅ else delete dir root.
Definition RemoveStaged (dir : string) : DM () :=
  r ← attempt (cli (fs_fault (FsRemove dir)));
  match r with
  | inl _ => mret tt
  | inr _ => modify (λ h, h <| h_root := remove_staged dir (h_root h) |>)
  end.
Definition unstage (inst : string) : DM () := RemoveStaged (sanitize inst).
(** os.WriteFile of a name in a directory of the root. *)
Definition write_staged (dir file val : string) : DM () :=
  if decide (file = EmptyString ∨ file = "." ∨ file = "..") then
    throw ("open " +:+ Path_Join (Path_Join secretsRoot dir) file +:+ ": is a directory")
  else
  cli (fs_fault (FsWrite dir file));;
  modify (λ h, h <| h_root := alter (insert file val) dir (h_root h) |>).
Definition stage_one (inst : string) (mounts : list Mount) (m : string * string * string) : DM (list Mount) :=
  let '(name, target, val) := m in
  let file := sanitize name in
  wrap_err (Sprintf "write secret %q" [FS name]) (write_staged inst file val);;
  mret (mounts ++ [MkMount (Path_Join (Path_Join secretsRoot inst) file) target true]).
Fixpoint stage_all (inst : string) (mounts : list Mount) (ms : list (string * string * string)) : DM (list Mount) :=
  match ms with
  | [] => mret mounts
  | m :: ms => mounts ← stage_one inst mounts m; stage_all inst mounts ms
  end.
(** The secrets and then the bindings of a specification: name, target and content. *)
Definition to_stage (spec : DeploySpec) : list (string * string * string) :=
  ((λ s, (SM_Key s, SM_MountPath s, SM_Value s)) <$> DS_Secrets spec)
  ++ ((λ b, (RB_Alias b, RB_MountPath b, RB_Value b)) <$> DS_Bindings spec).
Definition stageSecrets (spec : DeploySpec) (inst : string) : DM (list Mount) :=
  if decide (to_stage spec = []) then mret []
  else
  wrap_err "stage secrets dir" (cli (fs_fault (FsMkdir inst)));;
  modify (λ h, h <| h_root := <[inst := default ∅ (h_root h !! inst)]> (h_root h) |>);;
  stage_all inst [] (to_stage spec).
Definition sweepStaleStaging : DM () :=
  containers ← attempt (cli cli_ContainerList);
  match containers with
  | inl _ => mret tt
  | inr containers =>
      let referenced := filter (.≠ EmptyString) ((λ l, sanitize (default EmptyString (l !! labelStaging))) <$> containers) in
      entries ← attempt (cli (fs_fault FsList));
      match entries with
      | inl _ => mret tt
      | inr _ =>
          dirs ← gets (λ h, (map_to_list (h_root h)).*1);
          for_each dirs (λ d, if decide (d ∈ referenced) then mret tt else RemoveStaged d)
      end
  end.

(** *** Containers *)

Definition instanceID (beamID : string) : DM string := λ h,
  let '(b, d) := os_rand 4 (h_daemon h) in
  (inr (sanitize beamID +:+ "-" +:+ hex_encode b), h <| h_daemon := d |>).
Definition peerHosts (netName : string) : DM (list string) :=
  if decide (netName = EmptyString) then mret []
  else
  info ← attempt (cli (cli_NetworkInspect netName));
  mret (match info with
        | inl _ => []
        | inr info => omap (λ '(name, ip), if decide (name = EmptyString ∨ strip_mask ip = EmptyString) then None
                                           else Some (name +:+ ":" +:+ strip_mask ip)) (NR_Containers info)
        end).
Definition ensureImage (ref : string) : DM () :=
  r ← attempt (cli (cli_ImageInspect ref));
  match r with
  | inr _ => mret tt
  | inl _ =>
      stream ← wrap_err ("pull " +:+ ref) (cli (cli_ImagePull ref));
      match stream with
      | Some e => throw ("pull " +:+ ref +:+ ": " +:+ e)
      | None => mret tt
      end
  end.
(** cli.ContainerCreate, on record. *)
Definition create_container (req : CreateRequest) : DM string :=
  modify (λ h, h <| h_created := h_created h ++ [req] |>);;
  cli (cli_ContainerCreate req).
Definition docker_Deploy (spec : DeploySpec) : DM Handle :=
  ensureImage (DS_ImageDigest spec);;
  let net := BeamhallNetwork (DS_Network spec) in
  EnsureNetwork net;;
  inst ← instanceID (DS_BeamID spec);
  mounts ← attempt (stageSecrets spec inst);
  match mounts with
  | inl e => unstage inst;; throw e
  | inr mounts =>
      hosts ← peerHosts net;
      resp ← attempt (create_container
        (MkCreateRequest (containerConfig spec inst) (hostConfig spec mounts hosts)
           (if decide (net ≠ EmptyString) then [net] else []) ("bh_" +:+ inst)));
      match resp with
      | inl e => unstage inst;; throw ("container create: " +:+ e)
      | inr id => mret (MkHandle "docker" id)
      end
  end.
Definition docker_Start (h : Handle) : DM () :=
  wrap_err ("start " +:+ driver_short (Ref h)) (cli (cli_ContainerStart (Ref h))).
Definition docker_Pause (h : Handle) : DM () := cli (cli_ContainerPause (Ref h)).
Definition docker_Resume (h : Handle) : DM () := cli (cli_ContainerUnpause (Ref h)).
Definition docker_Stop (h : Handle) (grace : duration) : DM () :=
  cli (cli_ContainerStop (Ref h) (Z.quot grace (10 ^ 9))).
Definition docker_Destroy (h : Handle) : DM () :=
  info ← attempt (cli (cli_ContainerInspect (Ref h)));
  let staging := match info with
    | inr info => sanitize (default EmptyString (CJ_Labels info !! labelStaging))
    | inl _ => EmptyString
    end in
  r ← attempt (cli (cli_ContainerRemove (Ref h)));
  (if decide (staging ≠ EmptyString) then RemoveStaged staging else mret tt);;
  match r with
  | inl e => throw ("remove " +:+ driver_short (Ref h) +:+ ": " +:+ e)
  | inr _ => mret tt
  end.
Definition logs_options (opts : LogOptions) : ContainerLogsOptions :=
  MkContainerLogsOptions
    (bool_decide (Streams opts = [] ∨ "stdout" ∈ Streams opts))
    (bool_decide (Streams opts = [] ∨ "stderr" ∈ Streams opts))
    (Follow opts)
    (match Since opts with None => EmptyString | t => FormatRFC3339Nano t end)
    (if decide (0 < TailN opts)%Z then format_int (TailN opts) else EmptyString).
(** The text the stream of Logs gives its reader. *)
Definition docker_Logs (h : Handle) (opts : LogOptions) : DM string :=
  raw ← cli (cli_ContainerLogs (Ref h) (logs_options opts));
  match stdcopy raw with (_, Some e) => throw e | (text, None) => mret text end.
Definition started_at (s : string) : time :=
  n ← ParseRFC3339Nano s; if decide (n = zero_time_sec * 10 ^ 9)%Z then None else Some n.
Definition status_of (info : ContainerJSON) : Status :=
  let port := default EmptyString (CJ_Labels info !! labelPort) in
  MkStatus (mapState (CJ_Status info))
    (if decide (CJ_ExitCode info ≠ 0%Z ∨ CJ_Status info = "exited") then Some (CJ_ExitCode info) else None)
    (started_at (CJ_StartedAt info))
    (default "none" (CJ_Health info))
    (if decide (port = EmptyString) then EmptyString
     else match filter (.≠ EmptyString) (CJ_Addresses info) with
          | ip :: _ => ip +:+ ":" +:+ port
          | [] => EmptyString
          end).
Definition docker_Status (h : Handle) : DM Status :=
  info ← wrap_err ("inspect " +:+ driver_short (Ref h)) (cli (cli_ContainerInspect (Ref h)));
  mret (status_of info).
(** The exit code and what the streams carried; [polls] bounds the inspections until the context
    is cancelled. *)
Fixpoint exec_wait (id : string) (polls : nat) : DM Z :=
  insp ← wrap_err "exec inspect" (cli (cli_ExecInspect id));
  let '(running, code) := insp in
  if negb running then mret code
  else match polls with
       | O => throw "context canceled"
       | S polls => exec_wait id polls
       end.
Definition docker_Exec (h : Handle) (cmd : list string) (stdin tty : bool) (polls : nat) : DM (Z * string) :=
  id ← wrap_err "exec create" (cli (cli_ExecCreate (Ref h) (MkExecOptions cmd stdin true true tty)));
  stream ← wrap_err "exec attach" (cli (cli_ExecAttach id));
  code ← exec_wait id polls;
  mret (code, if tty then stream else fst (stdcopy stream)).

(** *** The constructor *)

Definition tmpfsMagic : Z := 16914836.
Definition isTmpfs (path : string) : DM bool :=
  t ← cli (os_Statfs path);
  mret (bool_decide (t = tmpfsMagic)).
Definition NewDockerDriver : DM () :=
  wrap_err "docker client" (cli cli_New);;
  wrap_err "secrets root" (cli (fs_fault (FsMkdir EmptyString)));;
  ok ← wrap_err (Sprintf "secrets root %q: check tmpfs" [FS secretsRoot]) (isTmpfs secretsRoot);
  if negb ok then
    throw (Sprintf "secrets root %q is not a tmpfs mount — decrypted secrets must be staged off persistent disk; set BEAMHALL_SECRETS_DIR to a tmpfs path (the systemd unit provisions one via RuntimeDirectory)" [FS secretsRoot])
  else
  opts ← wrap_err "docker info" (cli cli_Info);
  if negb (usernsRemapConfigured opts) then
    throw ("docker daemon is not configured with userns-remap (SecurityOptions=[" +:+ Join opts " "
           +:+ "]) — Beamhall's workload isolation depends on this daemon-wide setting; see scripts/lab-bootstrap.sh")
  else sweepStaleStaging.
End driver.
(** The directory the driver uses when none is configured. *)
Definition secrets_root (configured : string) : string :=
  if decide (configured = EmptyString) then "/var/lib/beamhall/secrets" else configured.

(** The driver as the orchestrator sees it. *)
Definition DockerDriver {D} `{!DockerAPI D} (root : string) : RuntimeDriver (Host D) := {|
  drv_Deploy := docker_Deploy root;
  drv_Start := docker_Start;
  drv_Pause := docker_Pause;
  drv_Resume := docker_Resume;
  drv_Stop := docker_Stop;
  drv_Destroy := docker_Destroy;
  drv_Logs := docker_Logs;
  drv_Status := docker_Status |}.

Example docker_times :
  ParseRFC3339Nano "2024-02-29T12:34:56.5+01:00" = Some (1709206496 * 10 ^ 9 + 500000000)%Z
  ∧ FormatRFC3339Nano (Some (1709210096 * 10 ^ 9 + 5000000)%Z) = "2024-02-29T12:34:56.005Z"
  ∧ FormatRFC3339Nano (Some (1709210096 * 10 ^ 9)%Z) = "2024-02-29T12:34:56Z"
  ∧ ParseRFC3339Nano "0001-01-01T00:00:00Z" = Some (zero_time_sec * 10 ^ 9)%Z
  ∧ ParseRFC3339Nano "2024-02-30T00:00:00Z" = None.
Proof. vm_compute. done. Qed.
