(* ===== verification/DockerProofs.v ===== *)
(** The Docker driver: what it asks the daemon to create is confined, it keeps the contract the
    orchestrator's theorems assume of a driver, and no staged secret outlives its workload. *)
From S2P Require Import Prelude Regexp GoStrings GoPath GoNet GoHTTP GoText Diagnose Domain Gateway.
From S2P Require Import Store StoreOps StoreInv AuditLog Policy Vault Scrub Outside Orch AppTools.
From S2P Require Import Facility OrchBeam OrchLife OrchFrames OrchWorkload OrchGovern GitServer Docker.
From S2P Require Import GatewayProofs VaultProofs Fixtures OrchFixtures.

(** * Names *)

Lemma sanitize_bytes s : all_bytes name_byte (sanitize s) = true.
Proof.
  induction s as [|c s IH]; [done|]. change (name_byte (if name_byte c then c else "_"%char)
    && all_bytes name_byte (sanitize s) = true). rewrite IH, andb_true_r. by destruct (name_byte c) eqn:E.
Qed.
Lemma sanitize_id s : all_bytes name_byte s = true → sanitize s = s.
Proof.
  induction s as [|c s IH]; [done|]. cbn [all_bytes]. intros [Hc Hs]%andb_prop.
  change (String (if name_byte c then c else "_"%char) (sanitize s) = String c s). by rewrite Hc, (IH Hs).
Qed.
Lemma hex_digit_byte n : n < 16 → in_range 48 57 (hex_digit n) || in_range 97 102 (hex_digit n) = true.
Proof. intros Hn. do 16 (destruct n as [|n]; [reflexivity|]). lia. Qed.
Definition hex_byte (c : ascii) : bool := in_range 48 57 c || in_range 97 102 c.
Lemma hex_encode_bytes s : all_bytes hex_byte (hex_encode s) = true.
Proof.
  induction s as [|c s IH]; [done|]. cbn [hex_encode all_bytes]. rewrite IH. unfold hex_byte.
  rewrite !hex_digit_byte; [done|..]; pose proof (Ascii.nat_ascii_bounded c);
    [apply Nat.mod_upper_bound|apply Nat.Div0.div_lt_upper_bound]; lia.
Qed.
Lemma substring_app a b : String.substring 0 (String.length a) (a +:+ b) = a.
Proof. induction a as [|c a IH]; [by destruct b|]. rewrite string_app_cons. simpl. by rewrite IH. Qed.
Lemma CutPrefix_app p s : CutPrefix (p +:+ s) p = Some s.
Proof.
  unfold CutPrefix, HasPrefix.
  assert (String.prefix p (p +:+ s) = true) as ->.
  { induction p as [|c p IH]; [by destruct s|]. rewrite string_app_cons. simpl. by destruct (Ascii.ascii_dec c c). }
  rewrite string_length_app. replace (String.length p + String.length s - String.length p) with (String.length s) by lia.
  by rewrite substring_after.
Qed.
(** The name of a workload's container gives its beam back. *)
Definition instance_of (beamID inst : string) : Prop := ∃ b, inst = sanitize beamID +:+ "-" +:+ hex_encode b.
Lemma beam_of_instance beamID inst : sanitize beamID ≠ EmptyString → instance_of beamID inst →
  BeamIDFromContainerName ("bh_" +:+ inst) = Some (sanitize beamID).
Proof.
  intros Hne [b ->]. unfold BeamIDFromContainerName. rewrite CutPrefix_app. simpl.
  change ("-" +:+ hex_encode b) with (String "-" (hex_encode b)). rewrite LastIndexByte_app; [|apply LastIndexByte_none].
  - destruct (String.length (sanitize beamID)) as [|n] eqn:E; [by destruct (sanitize beamID)|].
    rewrite <- E. by rewrite substring_app.
  - eapply all_bytes_impl; [|apply hex_encode_bytes]. intros c Hc. rewrite bool_decide_false; [done|].
    intros ->. by vm_compute in Hc.
Qed.
Lemma instance_bytes beamID inst : instance_of beamID inst → all_bytes name_byte inst = true.
Proof.
  intros [b ->]. rewrite !all_bytes_app, sanitize_bytes. simpl.
  eapply all_bytes_impl; [|apply hex_encode_bytes]. unfold hex_byte, name_byte, is_lower, is_digit, in_range.
  intros c [Hc|Hc]%orb_prop; apply bool_decide_eq_true in Hc.
  - rewrite (bool_decide_true (48 ≤ _ ≤ 57)) by done. by rewrite !orb_true_r.
  - rewrite (bool_decide_true (97 ≤ _ ≤ 122)) by lia. by rewrite !orb_true_r.
Qed.
Lemma name_bytes_plain s : all_bytes name_byte s = true → no_slash s.
Proof.
  unfold no_slash. apply all_bytes_impl. intros c Hc. rewrite bool_decide_false; [done|]. intros ->. by vm_compute in Hc.
Qed.

(** * What is created *)

(** The calls that neither create nor remove a container. *)
Inductive other_call {D} `{!DockerAPI D} : (D → D) → Prop :=
  | oc_New : other_call (λ d, (cli_New d).2)
  | oc_Info : other_call (λ d, (cli_Info d).2)
  | oc_ImageInspect r : other_call (λ d, (cli_ImageInspect r d).2)
  | oc_ImagePull r : other_call (λ d, (cli_ImagePull r d).2)
  | oc_NetworkList n : other_call (λ d, (cli_NetworkList n d).2)
  | oc_NetworkCreate n o : other_call (λ d, (cli_NetworkCreate n o d).2)
  | oc_NetworkRemove n : other_call (λ d, (cli_NetworkRemove n d).2)
  | oc_NetworkConnect n r : other_call (λ d, (cli_NetworkConnect n r d).2)
  | oc_NetworkInspect n : other_call (λ d, (cli_NetworkInspect n d).2)
  | oc_Start r : other_call (λ d, (cli_ContainerStart r d).2)
  | oc_Pause r : other_call (λ d, (cli_ContainerPause r d).2)
  | oc_Unpause r : other_call (λ d, (cli_ContainerUnpause r d).2)
  | oc_Stop r t : other_call (λ d, (cli_ContainerStop r t d).2)
  | oc_Inspect r : other_call (λ d, (cli_ContainerInspect r d).2)
  | oc_List : other_call (λ d, (cli_ContainerList d).2)
  | oc_Logs r o : other_call (λ d, (cli_ContainerLogs r o d).2)
  | oc_ExecCreate r o : other_call (λ d, (cli_ExecCreate r o d).2)
  | oc_ExecAttach i : other_call (λ d, (cli_ExecAttach i d).2)
  | oc_ExecInspect i : other_call (λ d, (cli_ExecInspect i d).2)
  | oc_Statfs p : other_call (λ d, (os_Statfs p d).2)
  | oc_rand n : other_call (λ d, (os_rand n d).2)
  | oc_fs c : other_call (λ d, (fs_fault c d).2).
#[export] Hint Constructors other_call : core.

Section created.
Context {D : Type} `{!DockerAPI D} (root : string).

Lemma frames_cli {A} (R : relation (Host D)) (f : ext D A) :
  (∀ h, R h (h <| h_daemon := (f (h_daemon h)).2 |>)) → frames R (cli f).
Proof. intros Hf h. apply Hf. Qed.
Lemma frames_wrap_err {A} (R : relation (Host D)) p (m : DM A) : frames R m → frames R (wrap_err p m).
Proof. apply frames_map_error. Qed.

(** The calls that neither create nor remove a container, for a relation they and the staging
    root's changes are in. *)
Section quiet.
Context (R : relation (Host D)) `{!PreOrder R}.
Context (Rcli : ∀ f h, other_call f → R h (h <| h_daemon := f (h_daemon h) |>)).
Context (Rroot : ∀ r h, R h (h <| h_root := r |>)).
Ltac quiet_step :=
  match goal with
  | |- ∀ _, _ => intros
  | |- frames _ (cli _) => apply frames_cli; intros; apply (Rcli (λ d, (_ d).2)); constructor
  | |- frames _ (modify _) => apply frames_modify; intros; apply Rroot
  | |- frames _ (gets _) => apply frames_gets; tc_solve
  | |- frames _ (wrap_err _ _) => apply frames_wrap_err
  | |- _ => progress frame_step
  end.
Ltac solve_quiet := repeat (cbv zeta; progress quiet_step).
Lemma quiet_instanceID b : frames R (instanceID b).
Proof.
  intros h. unfold instanceID. pose proof (Rcli _ h (oc_rand 4)) as Hr. cbv beta in Hr. destruct (os_rand 4 (h_daemon h)) eqn:E. exact Hr.
Qed.
Lemma quiet_EnsureNetwork n : frames R (EnsureNetwork n).
Proof. unfold EnsureNetwork. solve_quiet. Qed.
Lemma quiet_ensureImage ref : frames R (ensureImage ref).
Proof. unfold ensureImage. solve_quiet. Qed.
Lemma quiet_peerHosts n : frames R (peerHosts n).
Proof. unfold peerHosts. solve_quiet. Qed.
Lemma quiet_RemoveStaged i : frames R (RemoveStaged i).
Proof. unfold RemoveStaged. solve_quiet. Qed.
Lemma quiet_unstage i : frames R (unstage i).
Proof. apply quiet_RemoveStaged. Qed.
Lemma quiet_stage_all i mounts ms : frames R (stage_all root i mounts ms).
Proof.
  revert mounts. induction ms as [|[[n t] v] ms IH]; intros mounts; simpl; [solve_quiet|].
  unfold write_staged. solve_quiet.
Qed.
Lemma quiet_stageSecrets spec i : frames R (stageSecrets root spec i).
Proof. pose proof quiet_stage_all. unfold stageSecrets. solve_quiet. Qed.
Lemma quiet_Start h : frames R (docker_Start h).
Proof. unfold docker_Start. solve_quiet. Qed.
Lemma quiet_Pause h : frames R (docker_Pause h).
Proof. unfold docker_Pause. solve_quiet. Qed.
Lemma quiet_Resume h : frames R (docker_Resume h).
Proof. unfold docker_Resume. solve_quiet. Qed.
Lemma quiet_Stop h d : frames R (docker_Stop h d).
Proof. unfold docker_Stop. solve_quiet. Qed.
Lemma quiet_Logs h opts : frames R (docker_Logs h opts).
Proof. unfold docker_Logs. solve_quiet. Qed.
Lemma quiet_Status h : frames R (docker_Status h).
Proof. unfold docker_Status. solve_quiet. Qed.
(** The same of the driver as the orchestrator calls it. *)
Lemma drv_quiet : let _ : RuntimeDriver (Host D) := DockerDriver root in
  (∀ h x, R x (drv_Start h x).2) ∧ (∀ h g x, R x (drv_Stop h g x).2)
  ∧ (∀ h opts x, R x (drv_Logs h opts x).2) ∧ ∀ h x, R x (drv_Status h x).2.
Proof. split_and!; intros; [apply (quiet_Start _)|apply (quiet_Stop _)|exact (quiet_Logs _ _ _)|apply (quiet_Status _)]. Qed.
Lemma quiet_Exec h cmd stdin tty n : frames R (docker_Exec h cmd stdin tty n).
Proof.
  assert (∀ id, frames R (exec_wait id n)) as Hwait by (induction n; intros id; simpl; solve_quiet).
  unfold docker_Exec. solve_quiet.
Qed.
Lemma quiet_Networks n r : frames R (RemoveNetwork n) ∧ frames R (ConnectContainerToNetwork r n)
  ∧ frames R (driver_NetworkFacts n) ∧ frames R (NetworkBridge n).
Proof.
  pose proof quiet_EnsureNetwork. unfold RemoveNetwork, ConnectContainerToNetwork, driver_NetworkFacts, NetworkBridge,
    inspect_network, no_bridge. split_and!; solve_quiet.
Qed.
Lemma quiet_sweep : frames R sweepStaleStaging.
Proof. pose proof quiet_RemoveStaged. unfold sweepStaleStaging. solve_quiet. Qed.
Lemma quiet_NewDockerDriver : frames R (NewDockerDriver root).
Proof. pose proof quiet_sweep. unfold NewDockerDriver, isTmpfs. solve_quiet. Qed.
End quiet.

(** No request to create a container. *)
Definition uncreating : relation (Host D) := λ h h', h_created h' = h_created h.
#[export] Instance uncreating_PreOrder : PreOrder uncreating.
Proof. split; unfold uncreating; [by intros h|congruence]. Qed.
Lemma uncreating_cli (f : D → D) h : other_call f → uncreating h (h <| h_daemon := f (h_daemon h) |>).
Proof. done. Qed.
Lemma uncreating_root r h : uncreating h (h <| h_root := r |>).
Proof. done. Qed.
#[local] Hint Resolve uncreating_cli uncreating_root uncreating_PreOrder : core.
Ltac by_uncreating H :=
  first [apply (H uncreating)|apply H]; solve [auto|exact uncreating_PreOrder|unfold uncreating; done].
Lemma quiet_Destroy h : frames uncreating (docker_Destroy h).
Proof.
  assert (∀ i, frames uncreating (RemoveStaged i)) by (intros; by_uncreating quiet_RemoveStaged).
  unfold docker_Destroy. repeat (cbv zeta; first [by apply frames_cli|frame_step]).
Qed.

(** A mount of a staged file: read-only, and a file of the instance's directory. *)
Definition staged_mount (inst : string) (m : Mount) : Prop :=
  MT_ReadOnly m = true
  ∧ ∃ file, MT_Source m = Path_Join (Path_Join root inst) file ∧ plain_comp file ∧ no_slash file.
Lemma stage_all_mounts inst ms : ∀ mounts h, Forall (staged_mount inst) mounts →
  wp (stage_all root inst mounts ms) (λ r _, ∀ out, r = inr out → Forall (staged_mount inst) out) h.
Proof.
  induction ms as [|[[name target] val] ms IH]; intros mounts h Hm; cbn [stage_all].
  { apply wp_ret. by intros ? [= <-]. }
  apply wp_bind. unfold stage_one. apply wp_bind, wp_map_error. unfold write_staged.
  case_decide as Hf; [by apply wp_throw|]. apply wp_bind. unfold wp at 1, cli, lift.
  destruct (fs_fault _ _) as [[e|[]] d]; [done|]. apply wp_modify, wp_ret, IH.
  apply Forall_app. split; [done|]. apply Forall_singleton. split; [done|]. eexists. split; [done|].
  split; [unfold plain_comp; tauto|]. apply name_bytes_plain, sanitize_bytes.
Qed.
Lemma stageSecrets_mounts spec inst h :
  wp (stageSecrets root spec inst) (λ r _, ∀ out, r = inr out → Forall (staged_mount inst) out) h.
Proof.
  unfold stageSecrets. case_decide; [apply wp_ret; intros ? [= <-]; constructor|].
  apply wp_bind, wp_map_error. unfold wp at 1, cli, lift. destruct (fs_fault _ _) as [[e|[]] d]; [done|].
  apply wp_bind, wp_modify, stage_all_mounts. constructor.
Qed.

(** What Deploy sends for a specification. *)
Definition request_of (spec : DeploySpec) (req : CreateRequest) : Prop :=
  ∃ inst mounts hosts, instance_of (DS_BeamID spec) inst ∧ Forall (staged_mount inst) mounts
    ∧ req = MkCreateRequest (containerConfig spec inst) (hostConfig spec mounts hosts)
              (if decide (BeamhallNetwork (DS_Network spec) ≠ EmptyString) then [BeamhallNetwork (DS_Network spec)] else [])
              ("bh_" +:+ inst).
(** At most one request, exactly one on success. *)
Definition sends_one (spec : DeploySpec) (h h' : Host D) (ok : bool) : Prop :=
  h_created h' = h_created h ∧ ok = false
  ∨ ∃ req, h_created h' = h_created h ++ [req] ∧ request_of spec req.
Lemma wp_sends_none {A} (m : DM A) (Q : string + A → Host D → Prop) h :
  frames uncreating m → (∀ r h', h_created h' = h_created h → Q r h') → wp m Q h.
Proof. intros Hm HQ. apply HQ, Hm. Qed.
Lemma deploy_requests spec h :
  wp (docker_Deploy root spec) (λ r h', sends_one spec h h' (negb (is_inl r))) h.
Proof.
  unfold docker_Deploy. apply wp_bind, wp_sends_none; [by_uncreating quiet_ensureImage|].
  intros [e|[]] h1 E1; [by left|]. apply wp_bind, wp_sends_none; [by_uncreating quiet_EnsureNetwork|].
  intros [e|[]] h2 E2; [left; by rewrite E2, E1|]. apply wp_bind. unfold wp at 1, instanceID.
  destruct (os_rand _ _) as [b d] eqn:Eb. cbn [fst snd]. set (inst := sanitize _ +:+ _).
  assert (instance_of (DS_BeamID spec) inst) as Hinst by (by exists b).
  set (h3 := h2 <| h_daemon := d |>). assert (h_created h3 = h_created h) as E3 by (unfold h3; simpl; congruence).
  clearbody h3 inst. clear E1 E2 Eb. apply wp_bind, wp_attempt.
  eapply (wp_mono _ (λ r h', uncreating h3 h' ∧ ∀ out, r = inr out → Forall (staged_mount inst) out)).
  { apply wp_frames; [by_uncreating quiet_stageSecrets|apply stageSecrets_mounts]. }
  intros [e|mounts] h4 [E4 Hm].
  { apply wp_bind, wp_sends_none; [by_uncreating quiet_unstage|]. intros [e'|[]] h5 E5; left; (split; [|done]); unfold uncreating in *; simpl; congruence. }
  apply wp_bind, wp_sends_none; [by_uncreating quiet_peerHosts|].
  intros [e|hosts] h5 E5; [left; (split; [|done]); unfold uncreating in *; simpl; congruence|].
  apply wp_bind, wp_attempt. unfold create_container. apply wp_bind, wp_modify. unfold wp at 1, cli, lift.
  match goal with |- context [cli_ContainerCreate ?r] => set (req := r) end.
  assert (request_of spec req) as Hreq.
  { exists inst, mounts, hosts. split; [done|]. split; [by apply Hm|done]. }
  assert (h_created (h5 <| h_created := h_created h5 ++ [req] |>) = h_created h ++ [req]) as E6
    by (unfold uncreating in *; simpl; congruence).
  destruct (cli_ContainerCreate req _) as [[e|id] d']; cbn [fst snd].
  - apply wp_bind, wp_sends_none; [by_uncreating quiet_unstage|]. intros [e'|[]] h7 E7; right; exists req; (split; [|done]);
      unfold uncreating in *; simpl in *; congruence.
  - apply wp_ret. right. by exists req.
Qed.
End created.

(** * Confinement *)

(** A request that gives its container nothing but the floor: every capability dropped but the
    few a template adds, no new privileges, the daemon's seccomp profile and user namespace, a
    read-only root with a temporary directory, limits on memory, processes and time, only files
    staged for its instance, read-only, no device, port or namespace of the host, the network of
    its beamhall alone, no secret in its environment, and a name that gives its beam back. *)
Record confined (root : string) (hall beam : ID) (req : CreateRequest) : Prop := MkConfined {
  cf_drop : HC_CapDrop (CR_Host req) = ["ALL"];
  cf_add : HC_CapAdd (CR_Host req) ⊆ ["NET_BIND_SERVICE"; "CHOWN"; "DAC_OVERRIDE"];
  cf_privs : "no-new-privileges:true" ∈ HC_SecurityOpt (CR_Host req);
  cf_seccomp : ∀ p, "seccomp=" +:+ p ∉ HC_SecurityOpt (CR_Host req);
  cf_rootfs : HC_ReadonlyRootfs (CR_Host req) = true;
  cf_tmpfs : HC_Tmpfs (CR_Host req) = {["/tmp" := "rw,nosuid,nodev"]};
  cf_limits : (0 < HC_Memory (CR_Host req))%Z ∧ HC_PidsLimit (CR_Host req) = Some 256%Z
              ∧ (0 < HC_CPUQuota (CR_Host req))%Z ∧ HC_CPUPeriod (CR_Host req) = 100000%Z;
  cf_mounts : ∃ inst, CR_Name req = "bh_" +:+ inst ∧ Forall (staged_mount root inst) (HC_Mounts (CR_Host req));
  cf_closed : HC_Privileged (CR_Host req) = false ∧ HC_UsernsMode (CR_Host req) = EmptyString
              ∧ HC_PidMode (CR_Host req) = EmptyString ∧ HC_IpcMode (CR_Host req) = EmptyString
              ∧ HC_Binds (CR_Host req) = [] ∧ HC_PortBindings (CR_Host req) = [] ∧ HC_Devices (CR_Host req) = [];
  cf_network : HC_NetworkMode (CR_Host req) = networkName hall ∧ CR_Endpoints req = [networkName hall];
  cf_env : Forall (λ e, ∃ p, e = "PORT=" +:+ format_int p) (CC_Env (CR_Config req));
  cf_name : sanitize beam ≠ EmptyString → BeamIDFromContainerName (CR_Name req) = Some (sanitize beam) }.

Lemma request_confined {D} `{!DockerAPI D} root (o : Orchestrator) hall beam bh sc pull mounts bindings req :
  hardened sc → (0 < MemBytes (SC_CgroupLimits sc))%Z → (0 < CPUQuota (SC_CgroupLimits sc))%Z →
  request_of root (deploy_spec o hall beam bh sc pull mounts bindings) req → confined root hall beam req.
Proof.
  intros [_ Hdrop Hadd Hsec Hprivs Hroot Htmp (_ & _ & Hpids)] Hmem Hcpu (inst & ms & hosts & Hinst & Hms & ->).
  unfold deploy_spec in *; simpl in *.
  split; simpl; unfold securityOpts; simpl; rewrite ?Hsec, ?Hprivs; try done.
  - apply elem_of_app. left. by apply list_elem_of_singleton.
  - intros p [Hp|Hp]%elem_of_app; [by apply list_elem_of_singleton in Hp|].
    rewrite decide_False in Hp by (by intros [_ []]). simpl in Hp.
    case_decide; [|by apply not_elem_of_nil in Hp]. by apply list_elem_of_singleton in Hp.
  - rewrite Htmp. reflexivity.
  - rewrite !decide_True by (done || (by rewrite Hpids)). by rewrite Hpids.
  - by exists inst.
  - case_decide; constructor; [eauto|constructor].
  - intros Hb. by apply beam_of_instance.
Qed.

(** What the calls outside the driver do to its host. *)
Class PlatformKeeps (D : Type) `{!Platform (Host D)} (R : relation (Host D)) := {
  egress_keeps_host x : R x (egress_sync x).2;
  facts_keep_host n x : R x (net_facts n x).2;
  sign_keeps_host c x : R x (jwt_SignedString c x).2;
  http_keeps_host r x : R x (http_Do r x).2 }.

Section spawn.
Context `{!Env, !Age, !Rand} {D C : Type} `{!Caddy C, !DockerAPI D, !Platform (Host D), !PlatformKeeps D uncreating}.
Context (root : string) (o : Orchestrator) (polls : nat).
#[local] Instance docker : RuntimeDriver (Host D) := DockerDriver root.
Notation World := (World (Host D) C).
Notation quiet := (on_outside (X := Host D) (C := C) uncreating).

Lemma drv_uncreating :
  (∀ h x, uncreating x (drv_Start h x).2) ∧ (∀ h g x, uncreating x (drv_Stop h g x).2)
  ∧ (∀ h opts x, uncreating x (drv_Logs h opts x).2) ∧ ∀ h x, uncreating x (drv_Status h x).2.
Proof. by apply (drv_quiet root uncreating). Qed.
Ltac by_quiet H :=
  destruct drv_uncreating as (? & ? & ? & ?);
  apply H; try tc_solve; intros;
  try match goal with |- h_created ?y = h_created ?x => change (uncreating x y) end;
  first [match goal with H : ∀ _ _, _ |- uncreating _ _ => apply H end
        |apply egress_keeps_host|apply facts_keep_host|apply sign_keeps_host|apply http_keeps_host|idtac].
Lemma wp_uncreating {A} (m : M World error A) (Q : error + A → World → Prop) w :
  frames quiet m → (∀ r w', h_created (w_out w') = h_created (w_out w) → Q r w') → wp m Q w.
Proof. intros Hm HQ. apply HQ, Hm. Qed.
Lemma quiet_cleanup hd (err : error) :
  frames quiet (logged (outside (drv_Stop hd 0%Z));; logged (outside (drv_Destroy hd));; throw (A := Status) err).
Proof.
  apply frames_bind; [tc_solve|apply frames_logged; by_quiet @calls_outside|].
  intros _. apply frames_bind; [tc_solve|apply frames_logged; by_quiet @calls_outside; apply quiet_Destroy|].
  intros _. apply frames_throw. tc_solve.
Qed.
Lemma spawn_requests h b r bh sc refs pull (w : World) :
  hardened sc → (0 < MemBytes (SC_CgroupLimits sc))%Z → (0 < CPUQuota (SC_CgroupLimits sc))%Z →
  wp (spawnWorkload o polls h b r bh sc refs pull) (λ res w',
    h_created (w_out w') = h_created (w_out w) ∧ is_inl res = true
    ∨ ∃ req, h_created (w_out w') = h_created (w_out w) ++ [req] ∧ confined root h b req) w.
Proof.
  intros Hsc Hmem Hcpu. unfold spawnWorkload.
  apply wp_bind, wp_uncreating; [by_quiet @calls_in_store|]. intros [e|mounts] w1 E1; [by left|].
  apply wp_bind, wp_uncreating; [by_quiet @calls_brandingBinding|]. intros [e|branding] w2 E2; [left; split; [congruence|done]|].
  apply wp_bind, wp_uncreating; [by_quiet @calls_c2cBinding|]. intros [e|c2c] w3 E3; [left; split; [congruence|done]|].
  rewrite <- E1, <- E2, <- E3. clear E1 E2 E3. apply wp_bind. unfold outside at 1, wp at 1.
  match goal with |- context [drv_Deploy ?s] => pose proof (deploy_requests root s (w_out w3)) as Hd end.
  unfold wp in Hd. change (drv_Deploy ?s) with (docker_Deploy root s).
  destruct (docker_Deploy _ _ _) as [[e|hd] x]; cbn in Hd |- *.
  { destruct Hd as [[Hx _]|(req & Hx & Hreq)]; [by left|right]. exists req. split; [done|].
    by eapply request_confined. }
  destruct Hd as [[_ [=]]|(req & Hx & Hreq)].
  assert (∀ (w' : World) (res : error + Status), h_created (w_out w') = h_created x →
    h_created (w_out w') = h_created (w_out w3) ∧ is_inl res = true
    ∨ ∃ req, h_created (w_out w') = h_created (w_out w3) ++ [req] ∧ confined root h b req) as Hdone.
  { intros w' res E. right. exists req. split; [congruence|]. by eapply request_confined. }
  apply wp_bind, wp_attempt, wp_uncreating; [by_quiet @calls_bring_up|]. intros [err|status] w4 E4.
  { apply wp_uncreating; [apply quiet_cleanup|]. intros res w5 E5. apply Hdone. by rewrite E5, E4. }
  apply wp_bind, wp_uncreating; [by_quiet @calls_probeAgentTools|]. intros [e|[]] w5 E5; [apply Hdone; by rewrite E5, E4|].
  apply wp_bind, wp_uncreating; [by_quiet @calls_resync|]. intros [e|[]] w6 E6; [|apply wp_ret]; apply Hdone; by rewrite E6, E5, E4.
Qed.
End spawn.

(** * The daemon's promises *)

(** The containers by identifier with their labels, and the container a reference (an identifier,
    the start of one, or a name) means. *)
Class DaemonLaws (D : Type) `{!DockerAPI D} := {
  dm_labels : D → gmap string (gmap string string);
  dm_resolve : string → D → option string;
  resolve_id id d : is_Some (dm_labels d !! id) → dm_resolve id d = Some id;
  create_labels req d : match cli_ContainerCreate req d with
    | (inr id, d') => dm_labels d !! id = None ∧ dm_labels d' = <[id := CC_Labels (CR_Config req)]> (dm_labels d)
    | (inl _, d') => dm_labels d' = dm_labels d
    end;
  remove_labels ref d : match dm_resolve ref d, cli_ContainerRemove ref d with
    | Some id, (inr _, d') => dm_labels d' = delete id (dm_labels d)
    | Some id, (inl _, d') => dm_labels d' = dm_labels d ∨ dm_labels d' = delete id (dm_labels d)
    | None, (_, d') => dm_labels d' = dm_labels d
    end;
  inspect_labels ref d info : fst (cli_ContainerInspect ref d) = inr info →
    ∃ id, dm_resolve ref d = Some id ∧ dm_labels d !! id = Some (CJ_Labels info);
  list_labels d ls : fst (cli_ContainerList d) = inr ls →
    ∀ l, l ∈ ls ↔ ∃ id, dm_labels d !! id = Some l;
  others_keep f d : other_call f →
    dm_labels (f d) = dm_labels d ∧ ∀ ref, dm_resolve ref (f d) = dm_resolve ref d }.

(** * The driver's contract *)

Section contract.
Context {D : Type} `{!DockerAPI D, !DaemonLaws D} (root : string).

(** The same containers under the same references. *)
Record same_labels (h h' : Host D) : Prop := MkSameLabels {
  sl_labels : dm_labels (h_daemon h') = dm_labels (h_daemon h);
  sl_resolve : ∀ ref, dm_resolve ref (h_daemon h') = dm_resolve ref (h_daemon h) }.
#[export] Instance same_labels_PreOrder : PreOrder same_labels.
Proof. split; [done|]. intros h1 h2 h3 [] []. split; congruence. Qed.
Lemma labels_cli (f : D → D) h : other_call f → same_labels h (h <| h_daemon := f (h_daemon h) |>).
Proof. intros [Hl Hr]%(others_keep _ (h_daemon h)). by split. Qed.
Lemma labels_root r h : same_labels h (h <| h_root := r |>).
Proof. done. Qed.
Lemma wp_labels {A} (m : DM A) (Q : string + A → Host D → Prop) h :
  frames same_labels m → (∀ r h', same_labels h h' → Q r h') → wp m Q h.
Proof. intros Hm HQ. apply HQ, Hm. Qed.
Ltac by_labels H := first [apply (H same_labels)|apply H]; first [exact labels_cli|exact labels_root|tc_solve].

(** What Deploy does to the containers: one more, labelled with its staging directory, or none. *)
Definition deployed (spec : DeploySpec) (h h' : Host D) (r : string + Handle) : Prop :=
  match r with
  | inr hd => ∃ inst, instance_of (DS_BeamID spec) inst ∧ DriverName hd = "docker"
      ∧ dm_labels (h_daemon h) !! Ref hd = None
      ∧ dm_labels (h_daemon h') = <[Ref hd := CC_Labels (containerConfig spec inst)]> (dm_labels (h_daemon h))
  | inl _ => dm_labels (h_daemon h') = dm_labels (h_daemon h)
  end.
Lemma deploy_containers spec h : wp (docker_Deploy root spec) (λ r h', deployed spec h h' r) h.
Proof.
  unfold docker_Deploy. apply wp_bind, wp_labels; [by_labels @quiet_ensureImage|].
  intros [e|[]] h1 [E1 _]; [done|]. apply wp_bind, wp_labels; [by_labels @quiet_EnsureNetwork|].
  intros [e|[]] h2 [E2 _]; [simpl; congruence|]. apply wp_bind. unfold wp at 1, instanceID.
  destruct (os_rand 4 (h_daemon h2)) as [b d] eqn:Eb. cbn [fst snd]. set (inst := sanitize _ +:+ _).
  assert (instance_of (DS_BeamID spec) inst) as Hinst by (by exists b).
  pose proof (labels_cli _ h2 (oc_rand 4)) as [E3 _]. cbv beta in E3. rewrite Eb in E3. clear Eb.
  cbn [snd] in E3. set (h3 := h2 <| h_daemon := d |>) in *. clearbody h3 inst.
  apply wp_bind, wp_attempt, wp_labels; [by_labels @quiet_stageSecrets|]. intros [e|mounts] h4 [E4 _].
  { apply wp_bind, wp_labels; [by_labels @quiet_unstage|]. intros [e'|[]] h5 [E5 _]; [|apply wp_throw]; simpl; congruence. }
  apply wp_bind, wp_labels; [by_labels @quiet_peerHosts|]. intros [e|hosts] h5 [E5 _]; [simpl; congruence|].
  apply wp_bind, wp_attempt. unfold create_container. apply wp_bind, wp_modify. unfold wp at 1, cli, lift.
  match goal with |- context [cli_ContainerCreate ?r ?d] => pose proof (create_labels r d) as Hc end.
  destruct (cli_ContainerCreate _ _) as [[e|id] d']; cbn [fst snd]; simpl in Hc.
  - apply wp_bind, wp_labels; [by_labels @quiet_unstage|]. intros [e'|[]] h7 [E7 _]; [|apply wp_throw]; simpl in *; congruence.
  - apply wp_ret. exists inst. simpl. destruct Hc as [Hnew ->]. rewrite <- E1, <- E2, <- E3, <- E4, <- E5. done.
Qed.

(** What Destroy does to them. *)
Definition destroyed (hd : Handle) (h h' : Host D) (r : string + ()) : Prop :=
  match dm_resolve (Ref hd) (h_daemon h) with
  | Some id =>
      dm_labels (h_daemon h') = delete id (dm_labels (h_daemon h))
      ∨ is_inl r = true ∧ dm_labels (h_daemon h') = dm_labels (h_daemon h)
  | None => dm_labels (h_daemon h') = dm_labels (h_daemon h)
  end.
Lemma destroy_containers hd h : wp (docker_Destroy hd) (λ r h', destroyed hd h h' r) h.
Proof.
  unfold docker_Destroy. apply wp_bind, wp_attempt, wp_labels.
  { apply frames_cli. intros h'. apply (labels_cli (λ d, (cli_ContainerInspect _ d).2)). constructor. }
  intros info h1 [E1 R1]. cbv zeta. apply wp_bind, wp_attempt. unfold wp at 1, cli, lift.
  pose proof (remove_labels (Ref hd) (h_daemon h1)) as Hr. rewrite E1, R1 in Hr. unfold destroyed.
  destruct (cli_ContainerRemove _ _) as [res d']; cbn [fst snd].
  apply wp_bind, wp_labels; [case_decide; [by_labels @quiet_RemoveStaged|apply frames_ret; tc_solve]|].
  intros rm h2 [E2 _]. simpl in E2. rewrite <- E2 in Hr. destruct (dm_resolve _ _), res as [e|[]], rm as [e'|[]];
    try apply wp_throw; try apply wp_ret; naive_solver.
Qed.

(** The containers the orchestrator knows of. *)
Definition docker_handles (h : Host D) : gset Handle := set_map (MkHandle "docker") (dom (dm_labels (h_daemon h))).
Lemma elem_of_docker_handles hd h :
  hd ∈ docker_handles h ↔ DriverName hd = "docker" ∧ is_Some (dm_labels (h_daemon h) !! Ref hd).
Proof.
  unfold docker_handles. rewrite elem_of_map. setoid_rewrite elem_of_dom. split; [by intros (r & -> & Hr)|].
  destruct hd as [n r]. simpl. intros [-> Hr]. by exists r.
Qed.
Lemma same_handles h h' : same_labels h h' → docker_handles h' = docker_handles h.
Proof. intros [E _]. unfold docker_handles. by rewrite E. Qed.

#[local] Instance docker_driver : RuntimeDriver (Host D) := DockerDriver root.
Context `{!Platform (Host D), !PlatformKeeps D same_labels}.
(** The driver keeps the contract the orchestrator's theorems assume of one. *)
#[export, refine] Instance Docker_laws : DriverLaws (Host D) := {| containers := docker_handles |}.
Proof.
  all: destruct (drv_quiet root same_labels labels_cli) as (Hstart & Hstop & Hlogs & Hstatus).
  - intros spec x. pose proof (deploy_containers spec x) as Hd. unfold wp in Hd.
    change (drv_Deploy spec x) with (docker_Deploy root spec x).
    destruct (docker_Deploy root spec x) as [[e|hd] x']; cbn in Hd; unfold docker_handles; [by rewrite Hd|].
    destruct Hd as (inst & _ & Hn & Hnew & ->). split.
    + intros [_ Hin]%elem_of_docker_handles. rewrite Hnew in Hin. by destruct Hin.
    + rewrite dom_insert_L, set_map_union_L, set_map_singleton_L. by destruct hd; simpl in Hn; subst.
  - intros hd x [Hn Hin]%elem_of_docker_handles. pose proof (destroy_containers hd x) as Hd. unfold wp, destroyed in Hd.
    rewrite (resolve_id _ _ Hin) in Hd. change (drv_Destroy hd x) with (docker_Destroy hd x).
    destruct (docker_Destroy hd x) as [r x']; cbn in Hd. unfold docker_handles.
    assert (∀ m : gmap string (gmap string string), set_map (MkHandle "docker") (dom (delete (Ref hd) m))
      = set_map (C := gset string) (D := gset Handle) (MkHandle "docker") (dom m) ∖ {[hd]}) as Hdel.
    { intros m. apply set_eq. intros h'. rewrite elem_of_difference, elem_of_singleton, !elem_of_map.
      setoid_rewrite dom_delete. destruct hd as [n i]. simpl in *. subst. set_solver. }
    destruct Hd as [E|[Hl E]]; rewrite E; [rewrite Hdel; destruct r; auto|]. destruct r; [by left|done].
  - intros hd x. by apply same_handles.
  - intros hd d x. by apply same_handles.
  - intros hd opts x. by apply same_handles.
  - intros hd x. by apply same_handles.
  - intros x. apply same_handles, egress_keeps_host.
  - intros n x. apply same_handles, facts_keep_host.
  - intros c x. apply same_handles, sign_keeps_host.
  - intros r x. apply same_handles, http_keeps_host.
Defined.
End contract.

(** * Staged secrets *)

Lemma remove_staged_lookup dir root d :
  is_Some (remove_staged dir root !! d) → is_Some (root !! d) ∧ d ≠ dir.
Proof.
  unfold remove_staged. case_decide; [by rewrite lookup_empty; intros []|].
  destruct (decide (d = dir)) as [->|]; [by rewrite lookup_delete_eq; intros []|]. by rewrite lookup_delete_ne.
Qed.

(** The calls the cleanup relies on succeed: inspecting a container there is, listing them, and
    listing and removing staged directories.  Every other call may fail. *)
Class Reliable (D : Type) `{!DockerAPI D, !DaemonLaws D} := {
  inspect_answers ref d : is_Some (dm_resolve ref d) → is_inl (fst (cli_ContainerInspect ref d)) = false;
  list_answers d : is_inl (fst (cli_ContainerList d)) = false;
  entries_answer d : is_inl (fst (fs_fault FsList d)) = false;
  removal_answers dir d : is_inl (fst (fs_fault (FsRemove dir) d)) = false }.

Section staging.
Context {D : Type} `{!DockerAPI D, !DaemonLaws D, !Reliable D} (root : string).

(** Every staged directory belongs to a container there is. *)
Definition staging_of (l : gmap string string) : string := sanitize (default EmptyString (l !! labelStaging)).
Definition staged (h : Host D) : Prop := ∀ dir, is_Some (h_root h !! dir) →
  dir ≠ EmptyString ∧ ∃ id l, dm_labels (h_daemon h) !! id = Some l ∧ staging_of l = dir.

(** Neither the containers nor the staging root. *)
Definition calm (h h' : Host D) : Prop := same_labels h h' ∧ h_root h' = h_root h.
#[export] Instance calm_PreOrder : PreOrder calm.
Proof. split; [by split|]. intros h1 h2 h3 [] []. split; [by etrans|congruence]. Qed.
Lemma calm_cli (f : D → D) h : other_call f → calm h (h <| h_daemon := f (h_daemon h) |>).
Proof. intros Hf. split; [by apply labels_cli|done]. Qed.
Lemma staged_calm h h' : calm h h' → staged h → staged h'.
Proof. intros [[El _] Er] Hs dir. rewrite Er, El. apply Hs. Qed.
Lemma wp_calm {A} (m : DM A) (Q : string + A → Host D → Prop) h :
  frames calm m → (∀ r h', calm h h' → Q r h') → wp m Q h.
Proof. intros Hm HQ. apply HQ, Hm. Qed.
Ltac by_calm H := first [apply (H calm)|apply H]; first [exact calm_cli|tc_solve].

Lemma wp_RemoveStaged dir (Q : string + () → Host D → Prop) h :
  (∀ h', same_labels h h' → h_root h' = remove_staged dir (h_root h) → Q (inr tt) h') →
  wp (RemoveStaged dir) Q h.
Proof.
  intros HQ. unfold RemoveStaged. apply wp_bind, wp_attempt. unfold wp at 1, cli, lift.
  pose proof (removal_answers dir (h_daemon h)) as Hr. pose proof (labels_cli _ h (oc_fs (FsRemove dir))) as Hl.
  cbv beta in Hl. destruct (fs_fault _ _) as [[e|[]] d]; [done|]. cbn [fst snd] in *. apply wp_modify, HQ; [|done].
  etrans; [exact Hl|]. apply labels_root.
Qed.
Lemma wp_peerHosts n (Q : string + list string → Host D → Prop) h :
  (∀ hosts h', calm h h' → Q (inr hosts) h') → wp (peerHosts n) Q h.
Proof.
  intros HQ. unfold peerHosts. case_decide; [by apply wp_ret, HQ|].
  apply wp_bind, wp_attempt, wp_calm; [|intros r h' Hc; by apply wp_ret, HQ].
  apply frames_cli. intros h'. apply (calm_cli (λ d, (cli_NetworkInspect _ d).2)). constructor.
Qed.

(** Staging touches the directory of its instance alone. *)
Definition only_at (inst : string) (h h' : Host D) : Prop :=
  same_labels h h' ∧ ∀ dir, dir ≠ inst → h_root h' !! dir = h_root h !! dir.
#[export] Instance only_at_PreOrder inst : PreOrder (only_at inst).
Proof.
  split; [by split|]. intros h1 h2 h3 [? E1] [? E2]. split; [by etrans|]. intros dir Hd. by rewrite E2, E1.
Qed.
Lemma only_at_cli inst (f : D → D) h : other_call f → only_at inst h (h <| h_daemon := f (h_daemon h) |>).
Proof. intros Hf. split; [by apply labels_cli|done]. Qed.
Lemma stageSecrets_only_at spec inst : frames (only_at inst) (stageSecrets root spec inst).
Proof.
  assert (∀ c, frames (only_at inst) (cli (D := D) (fs_fault c))) as Hfs.
  { intros c. apply frames_cli. intros h. apply (only_at_cli inst (λ d, (fs_fault c d).2)). constructor. }
  assert (∀ ms mounts, frames (only_at inst) (stage_all root inst mounts ms)) as Hall.
  { induction ms as [|[[n t] v] ms IH]; intros mounts; cbn [stage_all]; [apply frames_ret; tc_solve|].
    unfold stage_one, write_staged. repeat frame_step; try apply frames_wrap_err; repeat frame_step; try apply Hfs.
    intros h. split; [apply labels_root|]. intros dir Hd. simpl. by rewrite lookup_alter_ne. }
  unfold stageSecrets. repeat frame_step; try apply frames_wrap_err; repeat frame_step; try apply Hfs.
  intros h. split; [apply labels_root|]. intros dir Hd. simpl. by rewrite lookup_insert_ne.
Qed.
Lemma unstaged_staged inst h h' :
  sanitize inst = inst → staged h → dm_labels (h_daemon h') = dm_labels (h_daemon h) →
  (∀ dir, is_Some (h_root h' !! dir) → is_Some (h_root h !! dir) ∨ dir = inst) →
  ∀ h'', same_labels h' h'' → h_root h'' = remove_staged (sanitize inst) (h_root h') → staged h''.
Proof.
  intros Hi Hs El Hr h'' [El' _] Er dir. rewrite Er, El', El, Hi. intros [Hd Hne]%remove_staged_lookup.
  destruct (Hr dir Hd) as [Hd'|]; [|done]. by apply Hs.
Qed.
Lemma deploy_staged spec h : staged h → wp (docker_Deploy root spec) (λ _ h', staged h') h.
Proof.
  intros Hs. unfold docker_Deploy.
  apply wp_bind, wp_calm; [by_calm @quiet_ensureImage|]. intros r h1 C1.
  apply (staged_calm _ _ C1) in Hs. clear C1. destruct r as [e|[]]; [done|].
  apply wp_bind, wp_calm; [by_calm @quiet_EnsureNetwork|]. intros r h2 C2.
  apply (staged_calm _ _ C2) in Hs. clear C2 h h1. destruct r as [e|[]]; [done|].
  apply wp_bind. unfold wp at 1, instanceID. pose proof (calm_cli _ h2 (oc_rand 4)) as C3. cbv beta in C3.
  destruct (os_rand 4 (h_daemon h2)) as [b d] eqn:Eb. clear Eb. cbn [fst snd] in *. set (inst := sanitize _ +:+ _).
  set (h3 := h2 <| h_daemon := d |>) in *. apply (staged_calm _ _ C3) in Hs. clear C3.
  assert (sanitize inst = inst) as Hi by (eapply sanitize_id, instance_bytes; by exists b).
  assert (inst ≠ EmptyString) as Hne by (unfold inst; by destruct (sanitize (DS_BeamID spec))).
  clearbody h3 inst. apply wp_bind, wp_attempt.
  apply (wp_mono _ (λ _ h', only_at inst h3 h')); [apply stageSecrets_only_at|].
  intros mounts h4 [[El4 _] Er4].
  assert (∀ dir, is_Some (h_root h4 !! dir) → is_Some (h_root h3 !! dir) ∨ dir = inst) as Hr4.
  { intros dir Hd. destruct (decide (dir = inst)); [by right|left]. by rewrite <- Er4. }
  destruct mounts as [e|mounts].
  { apply wp_bind, wp_RemoveStaged. intros h5 L5 E5. apply wp_throw. by eapply unstaged_staged. }
  apply wp_bind, wp_peerHosts. intros hosts h5 [[El5 _] Er5]. rewrite El4 in El5. rewrite <- Er5 in Hr4.
  apply wp_bind, wp_attempt. unfold create_container. apply wp_bind, wp_modify. unfold wp at 1, cli, lift.
  match goal with |- context [cli_ContainerCreate ?r ?d] => pose proof (create_labels r d) as Hc end.
  destruct (cli_ContainerCreate _ _) as [[e|id] d']; cbn [fst snd]; simpl in Hc; rewrite El5 in Hc.
  { apply wp_bind, wp_RemoveStaged. intros h6 L6 E6. apply wp_throw.
    refine (unstaged_staged inst h3 _ Hi Hs _ _ h6 L6 E6); [exact Hc|exact Hr4]. }
  apply wp_ret. intros dir Hd. simpl in Hd |- *. destruct Hc as [Hnew ->]. destruct (Hr4 dir Hd) as [Hd'| ->].
  - destruct (Hs dir Hd') as (? & i & l & Hl & Hdir). split; [done|]. exists i, l.
    rewrite lookup_insert_ne; [done|congruence].
  - split; [done|]. exists id. eexists. by rewrite lookup_insert_eq.
Qed.

Lemma destroy_staged hd h : staged h → wp (docker_Destroy hd) (λ _ h', staged h') h.
Proof.
  intros Hs. unfold docker_Destroy. apply wp_bind, wp_attempt. unfold wp at 1, cli, lift.
  pose proof (inspect_labels (Ref hd) (h_daemon h)) as Hi. pose proof (inspect_answers (Ref hd) (h_daemon h)) as Ha.
  pose proof (labels_cli _ h (oc_Inspect (Ref hd))) as [El Rl]. cbv beta in El, Rl.
  destruct (cli_ContainerInspect _ _) as [info d]. cbn [fst snd] in *. set (h1 := h <| h_daemon := d |>) in *.
  cbv zeta. set (dir := match info with inl _ => EmptyString | inr i => _ end).
  apply wp_bind, wp_attempt. unfold wp at 1, cli, lift. pose proof (remove_labels (Ref hd) (h_daemon h1)) as Hr.
  rewrite El, Rl in Hr. destruct (cli_ContainerRemove _ _) as [res d']. cbn [fst snd] in *.
  assert (∀ x, dir ≠ x → is_Some (h_root h !! x) →
    ∃ id l, dm_labels d' !! id = Some l ∧ staging_of l = x) as Hkeep.
  { intros x Hx Hd. destruct (Hs x Hd) as (_ & i & l & Hl & Hdir).
    destruct (dm_resolve (Ref hd) (h_daemon h)) as [id|] eqn:E; [|rewrite <- Hr in Hl; eauto].
    destruct info as [e|info]; [by specialize (Ha ltac:(done))|]. destruct (Hi info eq_refl) as (id' & [= <-] & Hid).
    assert (i ≠ id) by (intros ->; rewrite Hid in Hl; injection Hl as <-; done).
    assert (delete id (dm_labels (h_daemon h)) !! i = Some l) by (by rewrite lookup_delete_ne).
    destruct res as [e|[]]; [destruct Hr as [Hr|Hr]|]; rewrite <- Hr in *; eauto. }
  set (h2 := h1 <| h_daemon := d' |>).
  assert (∀ h3, dm_labels (h_daemon h3) = dm_labels d' →
    (∀ x, is_Some (h_root h3 !! x) → is_Some (h_root h !! x) ∧ dir ≠ x) → staged h3) as Hdone.
  { intros h3 E3 R3 x [Hd Hx]%R3. rewrite E3. split; [by apply (Hs x)|by apply Hkeep]. }
  apply wp_bind. case_decide as Hne.
  - apply wp_RemoveStaged. intros h3 [E3 _] R3.
    assert (staged h3) as H3; [|by destruct res; [apply wp_throw|apply wp_ret]].
    apply Hdone; [done|]. intros x Hd. rewrite R3 in Hd. apply remove_staged_lookup in Hd as [? ?]. by split.
  - apply wp_ret. assert (staged h2) as H2; [|by destruct res; [apply wp_throw|apply wp_ret]].
    apply Hdone; [done|]. intros x Hd. split; [exact Hd|]. intros <-. by destruct (Hs dir Hd).
Qed.

(** A sweep removes the directories no container refers to. *)
Lemma sweep_loop (keep : list string) dirs h :
  wp (for_each dirs (λ d, if decide (d ∈ keep) then mret tt else RemoveStaged d)) (λ r h', r = inr tt
    ∧ same_labels h h' ∧ (∀ d, is_Some (h_root h' !! d) → is_Some (h_root h !! d) ∧ (d ∈ dirs → d ∈ keep))
    ∧ (Forall plain_comp dirs → ∀ d, d ∈ keep → h_root h' !! d = h_root h !! d)) h.
Proof.
  revert h. induction dirs as [|x dirs IH]; intros h; cbn [for_each].
  { apply wp_ret. split_and!; [done|done| |done]. intros d Hd. split; [done|]. by intros ?%not_elem_of_nil. }
  apply wp_bind. case_decide as Hx.
  - apply wp_ret. eapply wp_mono; [apply IH|]. intros r h' (-> & Hl & Hr & Hk). split_and!; [done..| |].
    + intros d [Hd Hin]%Hr. split; [done|]. intros [->|]%elem_of_cons; auto.
    + intros [_ Hp]%Forall_cons. by apply Hk.
  - apply wp_RemoveStaged. intros h1 L1 R1. eapply wp_mono; [apply IH|]. intros r h' (-> & Hl & Hr & Hk).
    split_and!; [done|by etrans| |].
    + intros d [Hd Hin]%Hr. rewrite R1 in Hd. apply remove_staged_lookup in Hd as [Hd Hne]. split; [done|].
      intros [->|Hin']%elem_of_cons; [done|auto].
    + intros [Hpx Hp]%Forall_cons d Hd. rewrite (Hk Hp d Hd), R1. unfold remove_staged.
      rewrite decide_False by (unfold plain_comp in Hpx; tauto). rewrite lookup_delete_ne; congruence.
Qed.
Definition sweep_post (h h' : Host D) : Prop :=
  same_labels h h' ∧ staged h'
  ∧ ((∀ d, is_Some (h_root h !! d) → plain_comp d) →
     ∀ id l, dm_labels (h_daemon h) !! id = Some l → staging_of l ≠ EmptyString →
       h_root h' !! staging_of l = h_root h !! staging_of l).
Lemma sweep_sweeps h : wp sweepStaleStaging (λ r h', r = inr tt ∧ sweep_post h h') h.
Proof.
  unfold sweepStaleStaging. apply wp_bind, wp_attempt. unfold wp at 1, cli, lift.
  pose proof (list_labels (h_daemon h)) as Hl. pose proof (list_answers (h_daemon h)) as Ha.
  pose proof (calm_cli _ h oc_List) as C1. cbv beta in C1.
  destruct (cli_ContainerList _) as [[e|ls] d]; [done|]. cbn [fst snd] in *. specialize (Hl ls eq_refl). clear Ha.
  set (h1 := h <| h_daemon := d |>) in *. clearbody h1. clear d. cbv zeta. set (keep := filter _ _).
  apply wp_bind, wp_attempt. unfold wp at 1, cli, lift.
  pose proof (entries_answer (h_daemon h1)) as Ha. pose proof (calm_cli _ h1 (oc_fs FsList)) as C2. cbv beta in C2.
  destruct (fs_fault _ _) as [[e|[]] d]; [done|]. cbn [fst snd] in *. set (h2 := h1 <| h_daemon := d |>) in *.
  assert (calm h h2) as [C R] by (by etrans). clearbody h2. clear C1 C2 Ha h1 d.
  assert (∀ x, x ∈ keep ↔ x ≠ EmptyString ∧ ∃ id l, dm_labels (h_daemon h) !! id = Some l
    ∧ staging_of l = x) as Hkeep.
  { intros x. unfold keep. rewrite list_elem_of_filter, list_elem_of_fmap. setoid_rewrite Hl. unfold staging_of. naive_solver. }
  apply wp_bind, wp_gets. eapply wp_mono; [apply sweep_loop|]. intros r h' (-> & L' & Hr & Hk). split; [done|].
  split; [by etrans|]. rewrite R in Hr, Hk. assert (∀ d, is_Some (h_root h !! d) ↔ d ∈ (map_to_list (h_root h)).*1) as Hdirs.
  { intros x. rewrite list_elem_of_fmap. split.
    - intros [v Hv]. exists (x, v). by rewrite elem_of_map_to_list.
    - intros ([y v] & -> & Hv%elem_of_map_to_list). by eexists. }
  split.
  - intros x [Hd Hin]%Hr. apply Hdirs, Hin, Hkeep in Hd as [Hne (id & l & Hl' & Hx)]. split; [done|].
    exists id, l. destruct C as [C _], L' as [L' _]. by rewrite L', C.
  - intros Hp id l Hl' Hne. apply Hk.
    + apply Forall_forall. intros x Hx%Hdirs. by apply Hp.
    + apply Hkeep. split; [done|]. by exists id, l.
Qed.
End staging.

(** * Delivery *)

Section delivery.
Context {D : Type} `{!DockerAPI D} (root : string).
Notation staged_name m := (sanitize m.1.1).

(** The mount of a staged secret, and its content under the root. *)
Definition mount_of (inst : string) (m : string * string * string) : Mount :=
  MkMount (Path_Join (Path_Join root inst) (staged_name m)) m.1.2 true.
Definition holds (inst : string) (ms : list (string * string * string)) (h : Host D) : Prop :=
  ∀ m, m ∈ ms → (h_root h !! inst) ≫= (λ files, files !! staged_name m) = Some m.2.
Definition same_root (h h' : Host D) : Prop := h_root h' = h_root h.
#[export] Instance same_root_PreOrder : PreOrder same_root.
Proof. split; unfold same_root; [by intros h|congruence]. Qed.
Lemma same_root_cli (f : D → D) h : other_call f → same_root h (h <| h_daemon := f (h_daemon h) |>).
Proof. done. Qed.

Lemma stage_all_delivers inst ms : ∀ done mounts h,
  NoDup ((λ m, staged_name m) <$> done ++ ms) → is_Some (h_root h !! inst) → holds inst done h →
  wp (stage_all root inst mounts ms) (λ r h', ∀ out, r = inr out →
    out = mounts ++ (mount_of inst <$> ms) ∧ holds inst (done ++ ms) h') h.
Proof.
  induction ms as [|[[name target] val] ms IH]; intros done mounts h Hnd Hdir Hh; cbn [stage_all].
  { apply wp_ret. intros ? [= <-]. by rewrite !app_nil_r. }
  apply wp_bind. unfold stage_one. apply wp_bind, wp_map_error. unfold write_staged.
  case_decide as Hf; [by apply wp_throw|]. apply wp_bind. unfold wp at 1, cli, lift.
  destruct (fs_fault _ _) as [[e|[]] d]; [done|]. cbn [fst snd]. apply wp_modify, wp_ret.
  set (m := (name, target, val)) in *. set (h1 := _ <| h_root := _ |>).
  assert (h_root h1 = alter (insert (sanitize name) val) inst (h_root h)) as E1 by done.
  eapply wp_mono; [apply (IH (done ++ [m]))|].
  - by rewrite <- app_assoc.
  - rewrite E1, lookup_alter_eq. by apply fmap_is_Some.
  - destruct Hdir as [files Hfiles]. intros m' [Hm'|Hm'%list_elem_of_singleton]%elem_of_app;
      rewrite E1, lookup_alter_eq; unfold holds in Hh; rewrite Hfiles in *; simpl.
    + rewrite lookup_insert_ne; [by apply (Hh m')|]. intros Heq. rewrite fmap_app, fmap_cons, NoDup_app in Hnd.
      destruct Hnd as (_ & Hnd & _). apply (Hnd (sanitize name)); [|by left].
      apply list_elem_of_fmap. by exists m'.
    + subst m'. simpl. by rewrite lookup_insert_eq.
  - intros r h' Hr out ->. destruct (Hr out eq_refl) as [-> Hout]. rewrite <- !app_assoc in *. done.
Qed.
Lemma stageSecrets_delivers spec inst h :
  NoDup ((λ m, staged_name m) <$> to_stage spec) →
  wp (stageSecrets root spec inst) (λ r h', ∀ out, r = inr out →
    out = mount_of inst <$> to_stage spec ∧ holds inst (to_stage spec) h') h.
Proof.
  intros Hnd. unfold stageSecrets. case_decide as E.
  { apply wp_ret. intros ? [= <-]. rewrite E. split; [done|]. by intros m ?%not_elem_of_nil. }
  apply wp_bind, wp_map_error. unfold wp at 1, cli, lift. destruct (fs_fault _ _) as [[e|[]] d]; [done|].
  cbn [fst snd]. apply wp_bind, wp_modify.
  apply (stage_all_delivers inst (to_stage spec) [] []); [done| |by intros m ?%not_elem_of_nil].
  simpl. rewrite lookup_insert_eq. by eexists.
Qed.
End delivery.

(** The secrets and the bindings of a specification: name, path in the container, content. *)
Definition wanted (spec : DeploySpec) : list (string * string * string) :=
  ((λ s, (SM_Key s, SM_MountPath s, SM_Value s)) <$> DS_Secrets spec)
  ++ ((λ b, (RB_Alias b, RB_MountPath b, RB_Value b)) <$> DS_Bindings spec).

(** C22: a workload gets exactly its secrets: when Deploy succeeds, the container asked for has one
    read-only mount for each secret and binding of the specification, at the path it asks for, and
    the staged file behind each mount holds that secret's value. *)
Theorem deploy_delivers_secrets {D : Type} `{!DockerAPI D} (root : string) (spec : DeploySpec) (h : Host D)
    (Hnames : NoDup ((λ m : string * string * string, sanitize m.1.1) <$> wanted spec)) :
  wp (docker_Deploy root spec) (λ r h', ∀ hd, r = inr hd → ∃ inst req,
    h_created h' = h_created h ++ [req] ∧ CR_Name req = "bh_" +:+ inst
    ∧ HC_Mounts (CR_Host req) = mount_of root inst <$> wanted spec ∧ holds inst (wanted spec) h') h.
Proof.
  change (wanted spec) with (to_stage spec) in *. unfold docker_Deploy.
  apply wp_bind, wp_sends_none; [apply (quiet_ensureImage uncreating uncreating_cli)|].
  intros [e|[]] h1 E1; [done|]. apply wp_bind, wp_sends_none; [apply (quiet_EnsureNetwork uncreating uncreating_cli)|].
  intros [e|[]] h2 E2; [done|]. apply wp_bind. unfold wp at 1, instanceID. destruct (os_rand _ _) as [b d].
  cbn [fst snd]. set (inst := sanitize _ +:+ _). set (h3 := h2 <| h_daemon := d |>).
  assert (h_created h3 = h_created h) as E3 by (unfold h3; simpl; congruence). clearbody h3 inst. clear E1 E2.
  apply wp_bind, wp_attempt. eapply (wp_mono _ (λ r h', uncreating h3 h' ∧ ∀ out, r = inr out →
    out = mount_of root inst <$> to_stage spec ∧ holds inst (to_stage spec) h')).
  { apply wp_frames; [apply (quiet_stageSecrets root uncreating uncreating_cli uncreating_root)|by apply stageSecrets_delivers]. }
  intros [e|mounts] h4 [E4 Hm].
  { apply wp_bind. by eapply (wp_mono _ (λ _ _, True)); [|intros [e'|[]]]. }
  destruct (Hm mounts eq_refl) as [-> Hh]. clear Hm. apply wp_bind.
  eapply (wp_mono _ (λ _ h', uncreating h4 h' ∧ same_root h4 h')).
  { apply wp_frames; [apply (quiet_peerHosts uncreating uncreating_cli)|]. apply (quiet_peerHosts same_root same_root_cli). }
  intros [e|hosts] h5 [E5 R5]; [done|]. apply wp_bind, wp_attempt. unfold create_container.
  apply wp_bind, wp_modify. unfold wp at 1, cli, lift. destruct (cli_ContainerCreate _ _) as [[e|id] d']; cbn [fst snd].
  { apply wp_bind. by eapply (wp_mono _ (λ _ _, True)); [|intros [e'|[]]]. }
  apply wp_ret. intros hd _. exists inst. eexists.
  split; [simpl; unfold uncreating in *; by rewrite E5, E4, E3|]. split_and!; [reflexivity..|].
  intros m Hin. unfold same_root in R5. simpl. rewrite R5. by apply Hh.
Qed.

(** * Histories *)

Section histories.
Context {D : Type} `{!DockerAPI D, !DaemonLaws D, !Reliable D} (root : string).

Lemma start_sweeps h :
  wp (NewDockerDriver root) (λ r h', r = inr tt → sweep_post h h') h.
Proof.
  unfold NewDockerDriver. apply wp_bind, wp_map_error, wp_calm.
  { apply frames_cli. intros x. apply (calm_cli (λ d, (cli_New d).2)). constructor. }
  intros [e|[]] h1 C1; [done|]. apply wp_bind, wp_map_error, wp_calm.
  { apply frames_cli. intros x. apply (calm_cli (λ d, (fs_fault _ d).2)). constructor. }
  intros [e|[]] h2 C2; [done|]. apply wp_bind, wp_map_error. unfold isTmpfs. apply wp_bind, wp_calm.
  { apply frames_cli. intros x. apply (calm_cli (λ d, (os_Statfs _ d).2)). constructor. }
  intros [e|t] h3 C3; [done|]. apply wp_ret. case_match; [done|]. apply wp_bind, wp_map_error, wp_calm.
  { apply frames_cli. intros x. apply (calm_cli (λ d, (cli_Info d).2)). constructor. }
  intros [e|opts] h4 C4; [done|]. case_match; [done|].
  eapply wp_mono; [apply sweep_sweeps|]. intros r h' [_ Hp] _.
  assert (calm h h4) as [C R] by (do 3 (etrans; [eassumption|]); done). destruct Hp as (L & S & K), C as [C1' C2'].
  split; [by etrans; [|exact L]|]. split; [done|]. rewrite C1', R in K. exact K.
Qed.

(** What becomes of the host: a call of the driver, containers that others create, or a restart
    of the backplane, whatever a crash left. *)
Inductive docker_step : Host D → Host D → Prop :=
  | ds_Deploy spec h : docker_step h (docker_Deploy root spec h).2
  | ds_Destroy hd h : docker_step h (docker_Destroy hd h).2
  | ds_Start hd h : docker_step h (docker_Start hd h).2
  | ds_Pause hd h : docker_step h (docker_Pause hd h).2
  | ds_Resume hd h : docker_step h (docker_Resume hd h).2
  | ds_Stop hd g h : docker_step h (docker_Stop hd g h).2
  | ds_Logs hd opts h : docker_step h (docker_Logs hd opts h).2
  | ds_Status hd h : docker_step h (docker_Status hd h).2
  | ds_Exec hd cmd i t n h : docker_step h (docker_Exec hd cmd i t n h).2
  | ds_Ensure n h : docker_step h (EnsureNetwork n h).2
  | ds_RemoveNetwork n h : docker_step h (RemoveNetwork n h).2
  | ds_Connect r n h : docker_step h (ConnectContainerToNetwork r n h).2
  | ds_Facts n h : docker_step h (driver_NetworkFacts n h).2
  | ds_Bridge n h : docker_step h (NetworkBridge n h).2
  | ds_others d h : dm_labels (h_daemon h) ⊆ dm_labels d → docker_step h (h <| h_daemon := d |>)
  | ds_restart h left : is_inl (fst (NewDockerDriver root left)) = false →
      docker_step h (NewDockerDriver root left).2.

Lemma start_staged h : is_inl (fst (NewDockerDriver root h)) = false → staged (NewDockerDriver root h).2.
Proof.
  intros Hok. pose proof (start_sweeps h) as Hs. unfold wp in Hs.
  destruct (NewDockerDriver root h) as [[e|[]] h']; [done|]. by destruct (Hs eq_refl) as (_ & Hst & _).
Qed.
Lemma step_staged h h' : docker_step h h' → staged h → staged h'.
Proof.
  intros Hstep Hs. destruct Hstep.
  - by apply (deploy_staged root).
  - by apply destroy_staged.
  - eapply staged_calm; [apply (quiet_Start calm calm_cli)|exact Hs].
  - eapply staged_calm; [apply (quiet_Pause calm calm_cli)|exact Hs].
  - eapply staged_calm; [apply (quiet_Resume calm calm_cli)|exact Hs].
  - eapply staged_calm; [apply (quiet_Stop calm calm_cli)|exact Hs].
  - eapply staged_calm; [apply (quiet_Logs calm calm_cli)|exact Hs].
  - eapply staged_calm; [apply (quiet_Status calm calm_cli)|exact Hs].
  - eapply staged_calm; [apply (quiet_Exec calm calm_cli)|exact Hs].
  - eapply staged_calm; [apply (quiet_EnsureNetwork calm calm_cli)|exact Hs].
  - eapply staged_calm; [apply (quiet_Networks calm calm_cli n EmptyString)|exact Hs].
  - eapply staged_calm; [apply (quiet_Networks calm calm_cli n r)|exact Hs].
  - eapply staged_calm; [apply (quiet_Networks calm calm_cli n EmptyString)|exact Hs].
  - eapply staged_calm; [apply (quiet_Networks calm calm_cli n EmptyString)|exact Hs].
  - intros dir Hd. destruct (Hs dir Hd) as (Hne & i & l & Hl & Hdir). split; [done|]. exists i, l. split; [|done].
    by eapply lookup_weaken.
  - by apply start_staged.
Qed.
End histories.


(** C10: what the orchestrator asks the daemon to create for a beam is confined, whatever the daemon
    answers: bringing up a workload under a hardened context with limits sends one request, which
    [confined] describes, or fails having sent none. *)
Theorem spawned_workloads_are_confined `{!Env, !Age, !Rand} {D C : Type} `{!Caddy C, !DockerAPI D}
    `{!Platform (Host D), !PlatformKeeps D uncreating} (root : string) (o : Orchestrator) (polls : nat) (h b r : ID)
    (bh : Beamhall) (sc : SecurityContext) (refs : list SecretRef) (pull : string) (w : World (Host D) C)
    (Hsc : hardened sc) (Hmem : (0 < MemBytes (SC_CgroupLimits sc))%Z) (Hcpu : (0 < CPUQuota (SC_CgroupLimits sc))%Z) :
  let _ : RuntimeDriver (Host D) := DockerDriver root in
  wp (spawnWorkload o polls h b r bh sc refs pull) (λ res w',
    h_created (w_out w') = h_created (w_out w) ∧ is_inl res = true
    ∨ ∃ req, h_created (w_out w') = h_created (w_out w) ++ [req] ∧ confined root h b req) w.
Proof. by apply spawn_requests. Qed.

(** C21: over the Docker driver, bringing up a workload leaks no container: on success the daemon has
    exactly one more, it runs and the release records it; on an error it has none more, unless
    it refused to remove it. *)
Theorem docker_spawns_leak_nothing `{!Env, !Age, !Rand} {D C : Type} `{!Caddy C, !DockerAPI D, !DaemonLaws D}
    `{!Platform (Host D), !PlatformKeeps D same_labels} (root : string) (o : Orchestrator) (polls : nat) (h b r : ID)
    (bh : Beamhall) (sc : SecurityContext) (refs : list SecretRef) (pull : string) (w : World (Host D) C) :
  let _ : RuntimeDriver (Host D) := DockerDriver root in
  wp (spawnWorkload o polls h b r bh sc refs pull) (λ res w',
    match res with
    | inr status => Status_State status = WorkloadRunning ∧ ∃ hd,
        hd ∉ docker_handles (w_out w) ∧ docker_handles (w_out w') = {[hd]} ∪ docker_handles (w_out w)
        ∧ records r hd (w_db w')
    | inl _ => docker_handles (w_out w') = docker_handles (w_out w) ∨ ∃ hd x,
        hd ∉ docker_handles (w_out w) ∧ docker_handles (w_out w') = {[hd]} ∪ docker_handles (w_out w)
        ∧ is_inl (fst (docker_Destroy hd x)) = true
    end) w.
Proof. intros drv. exact (spawn_containers (DriverLaws0 := Docker_laws root) o polls h b r bh sc refs pull w). Qed.

(** * A daemon *)

(** Containers by identifier, the networks, the error creation answers with, if any, and a
    counter for names. *)
Record Dock := MkDock {
  dk_containers : gmap string ContainerJSON;
  dk_networks : list string;
  dk_create : option string;
  dk_count : nat }.
#[export] Instance Eta_Dock : Eta Dock :=
  λ d, MkDock (dk_containers d) (dk_networks d) (dk_create d) (dk_count d).
Definition dk_ref (d : Dock) : string := new_ref ((λ _, WorkloadUnknown) <$> dk_containers d).
Definition dk_find {A} (ref : string) (d : Dock) (f : ContainerJSON → A * Dock) : (string + A) * Dock :=
  match dk_containers d !! ref with
  | Some c => let '(a, d') := f c in (inr a, d')
  | None => (inl ("No such container: " +:+ ref), d)
  end.
Definition dk_set (ref status : string) (d : Dock) : (string + ()) * Dock :=
  dk_find ref d (λ c, (tt, d <| dk_containers := <[ref := MkContainerJSON status (CJ_StartedAt c) (CJ_ExitCode c)
    (CJ_Health c) (CJ_Labels c) (CJ_Addresses c)]> (dk_containers d) |>)).
#[export] Instance Dock_API : DockerAPI Dock := {|
  cli_New d := (inr tt, d);
  cli_Info d := (inr ["name=seccomp,profile=builtin"; "name=userns"], d);
  cli_ImageInspect _ d := (inr tt, d);
  cli_ImagePull r d := (inl ("manifest unknown: " +:+ r), d);
  cli_NetworkList n d := (inr (filter (λ x, x = n) (dk_networks d)), d);
  cli_NetworkCreate n _ d := (inr tt, d <| dk_networks := n :: dk_networks d |>);
  cli_NetworkRemove n d := (inr tt, d <| dk_networks := filter (λ x, x ≠ n) (dk_networks d) |>);
  cli_NetworkConnect _ _ d := (inr tt, d);
  cli_NetworkInspect _ d := (inr (MkNetworkResource "0123456789abcdef" ∅ [("172.20.0.0/16", "172.20.0.1")]
                                    [("bh-postgres", "172.20.0.2/16")]), d);
  cli_ContainerCreate req d :=
    match dk_create d with
    | Some e => (inl e, d)
    | None => (inr (dk_ref d), d <| dk_containers := <[dk_ref d := MkContainerJSON "created" "0001-01-01T00:00:00Z" 0
                 None (CC_Labels (CR_Config req)) ["172.20.0.3"]]> (dk_containers d) |>)
    end;
  cli_ContainerStart r := dk_set r "running";
  cli_ContainerPause r := dk_set r "paused";
  cli_ContainerUnpause r := dk_set r "running";
  cli_ContainerStop r _ := dk_set r "exited";
  cli_ContainerRemove r d := dk_find r d (λ _, (tt, d <| dk_containers := delete r (dk_containers d) |>));
  cli_ContainerInspect r d := dk_find r d (λ c, (c, d));
  cli_ContainerList d :=
    (inr (CJ_Labels <$> (map_to_list (dk_containers d)).*2), d);
  cli_ContainerLogs r _ d := dk_find r d (λ _, ("listening on :8080", d));
  cli_ExecCreate r _ d := dk_find r d (λ _, ("exec", d));
  cli_ExecAttach _ d := (inr "done", d);
  cli_ExecInspect _ d := (inr (false, 0%Z), d);
  stdcopy s := (s, None);
  os_Statfs _ d := (inr tmpfsMagic, d);
  os_rand n d := (String.string_of_list_ascii (replicate n (ascii_of_nat (dk_count d))), d <| dk_count := S (dk_count d) |>);
  fs_fault _ d := (inr tt, d) |}.
#[export, refine] Instance Dock_laws : DaemonLaws Dock := {|
  dm_labels d := CJ_Labels <$> dk_containers d;
  dm_resolve ref d := if decide (is_Some (dk_containers d !! ref)) then Some ref else None |}.
Proof.
  - intros id d Hid. rewrite decide_True; [done|]. by rewrite lookup_fmap, fmap_is_Some in Hid.
  - intros req d. cbn. destruct (dk_create d); [done|]. cbn. rewrite fmap_insert. split; [|done].
    rewrite lookup_fmap. pose proof (new_ref_fresh ((λ _, WorkloadUnknown) <$> dk_containers d)) as Hf.
    rewrite lookup_fmap in Hf. unfold dk_ref. by destruct (dk_containers d !! _).
  - intros ref d. cbn. unfold dk_find. destruct (dk_containers d !! ref) as [c|]; cbn.
    + rewrite decide_True by done. by rewrite fmap_delete.
    + rewrite decide_False; [done|]. by intros [].
  - intros ref d info. cbn. unfold dk_find. destruct (dk_containers d !! ref) as [c|] eqn:E; cbn; [|done].
    intros [= <-]. exists ref. rewrite decide_True by done. by rewrite lookup_fmap, E.
  - intros d ls [= <-] l. rewrite !list_elem_of_fmap. split.
    + intros (c & -> & ([id c'] & -> & Hin%elem_of_map_to_list)%list_elem_of_fmap). exists id.
      by rewrite lookup_fmap, Hin.
    + intros (id & Hl). rewrite lookup_fmap, fmap_Some in Hl. destruct Hl as (c & Hc & ->).
      exists c. split; [done|]. apply list_elem_of_fmap. exists (id, c). by rewrite elem_of_map_to_list.
  - assert (∀ ref st d, CJ_Labels <$> dk_containers (dk_set ref st d).2 = CJ_Labels <$> dk_containers d
      ∧ ∀ r, is_Some (dk_containers (dk_set ref st d).2 !! r) ↔ is_Some (dk_containers d !! r)) as Hset.
    { intros ref st d. unfold dk_set, dk_find. destruct (dk_containers d !! ref) as [c|] eqn:E; cbn; [|done].
      split; [|intros r; rewrite lookup_insert_is_Some; destruct (decide (ref = r)) as [<-|]; naive_solver].
      rewrite fmap_insert. simpl. apply insert_id. by rewrite lookup_fmap, E. }
    assert (∀ A ref d (f : ContainerJSON → A), (dk_find ref d (λ c, (f c, d))).2 = d) as Hfind.
    { intros A ref d f. unfold dk_find. by destruct (dk_containers d !! ref). }
    intros f d []; cbn; rewrite ?Hfind; try done; (split; [apply Hset|]); intros r'; by apply decide_ext, Hset.
Defined.
#[export] Instance Dock_reliable : Reliable Dock.
Proof.
  split; [|done..]. intros ref d. cbn. case_decide as Hc; [|by intros []]. intros _. unfold dk_find.
  by destruct Hc as [c ->].
Qed.
#[export] Instance Dock_platform : Platform (Host Dock) := {|
  BuildFromDir _ _ _ x := (inr built, x);
  BuildFromCommit _ _ _ x := (inr built, x);
  egress_sync x := (inr tt, x);
  repo_retire _ _ _ x := (inr tt, x);
  net_facts := driver_NetworkFacts;
  BindingJSON b := b;
  jwt_SignedString c x := (inr ("jwt:" +:+ Claim_sub c), x);
  http_URL _ := None;
  http_Do r x := (inr (MkHTTPResponse 200 "200 OK" (ReqBody r) None), x);
  json_Manifest _ := inr (MkToolManifest 1 [MkTool "ping" "Answers." EmptyString]);
  limiter_Allow _ _ x := (true, x) |}.
#[export] Instance Dock_creates_nothing : PlatformKeeps Dock uncreating.
Proof. by split. Qed.
#[export] Instance Dock_keeps_labels : PlatformKeeps Dock same_labels.
Proof. by split. Qed.

(** A host whose staging root holds what a crash left; and one whose daemon refuses. *)
Definition Host1 : Host Dock := MkHost (MkDock ∅ [] None 1) {["B9-0a0a0a0a" := {["API_KEY" := "left"]}]} [].
Definition Host1_refusing : Host Dock := MkHost (MkDock ∅ [] (Some "name in use") 1) ∅ [].
Definition World_on (h : Host Dock) : World (Host Dock) ScriptedCaddy :=
  MkWorld (MkStore 0 DB1) Gateway1 ∅ ∅ ∅ h 0 (MkMemory true true ∅).
Lemma spawned_workloads_are_confined_witness :
  let _ : RuntimeDriver (Host Dock) := DockerDriver "/run/beamhall/secrets" in
  let spawn := spawnWorkload (C := ScriptedCaddy) Orch1 3 "H1" "B1" "R1" Hall1 Context1 [] "sha256:1" in
  is_inl (spawn (World_on Host1)).1 = false
  ∧ (CR_Name <$> h_created (w_out (spawn (World_on Host1)).2)) = ["bh_B1-01010101"]
  ∧ wp spawn (λ res w', h_created (w_out w') = h_created (w_out (World_on Host1)) ∧ is_inl res = true
      ∨ ∃ req, h_created (w_out w') = h_created (w_out (World_on Host1)) ++ [req]
               ∧ confined "/run/beamhall/secrets" "H1" "B1" req) (World_on Host1).
Proof.
  intros drv spawn. split; [vm_compute; reflexivity|split; [vm_compute; reflexivity|]].
  apply (spawned_workloads_are_confined "/run/beamhall/secrets" Orch1 3 "H1" "B1" "R1" Hall1 Context1 [] "sha256:1"
           (World_on Host1)); [|reflexivity..].
  split; try done. apply list_subseteq_nil.
Defined.

(** The release's container, on a host that starts, one whose daemon refuses to create it. *)
Definition Host1_started : Host Dock := (NewDockerDriver "/run/beamhall/secrets" Host1).2.
Definition Spec1 : DeploySpec :=
  MkDeploySpec "B1" "H1" "sha256:1" [] (MkDriverNetwork "bh-H1" true [])
    (MkSecurityProfile "runsc" true ["ALL"] [] "default" EmptyString true true ["/tmp"]) (MkDriverLimits 100000 268435456 256)
    [MkSecretMount "API_KEY" "/run/secrets/API_KEY" "s3cr3t"] [] 8080.
Definition Host1_deployed : Host Dock := (docker_Deploy "/run/beamhall/secrets" Spec1 Host1_started).2.
Definition Host1_destroyed : Host Dock :=
  (docker_Destroy (MkHandle "docker" "c") Host1_deployed).2.

(** Two secrets reach their mounts. *)
Definition Spec2 : DeploySpec :=
  MkDeploySpec "B1" "H1" "sha256:1" [] (DS_Network Spec1) (DS_Security Spec1) (DS_Resources Spec1)
    [MkSecretMount "API_KEY" "/run/secrets/API_KEY" "s3cr3t"]
    [MkResourceBinding "assertion.json" "/run/beamhall/assertion.json" "{}"] 8080.
Lemma deploy_delivers_secrets_witness :
  is_inl (fst (docker_Deploy "/run/beamhall/secrets" Spec2 Host1_started)) = false
  ∧ wp (docker_Deploy "/run/beamhall/secrets" Spec2) (λ r h', ∀ hd, r = inr hd → ∃ inst req,
      h_created h' = h_created Host1_started ++ [req] ∧ CR_Name req = "bh_" +:+ inst
      ∧ HC_Mounts (CR_Host req) = mount_of "/run/beamhall/secrets" inst <$> wanted Spec2
      ∧ holds inst (wanted Spec2) h') Host1_started.
Proof.
  split; [vm_compute; reflexivity|].
  apply (deploy_delivers_secrets "/run/beamhall/secrets" Spec2 Host1_started).
  apply (bool_decide_unpack _). vm_compute. exact I.
Defined.

Lemma docker_spawns_leak_nothing_witness :
  let _ : RuntimeDriver (Host Dock) := DockerDriver "/run/beamhall/secrets" in
  let spawn := spawnWorkload (C := ScriptedCaddy) Orch1 3 "H1" "B1" "R1" Hall1 Context1 [] "sha256:1" in
  is_inl (spawn (World_on Host1)).1 = false ∧ is_inl (spawn (World_on Host1_refusing)).1 = true
  ∧ docker_handles (w_out (spawn (World_on Host1_refusing)).2) = docker_handles Host1_refusing
  ∧ wp spawn (λ res w',
    match res with
    | inr status => Status_State status = WorkloadRunning ∧ ∃ hd,
        hd ∉ docker_handles (w_out (World_on Host1)) ∧ docker_handles (w_out w') = {[hd]} ∪ docker_handles (w_out (World_on Host1))
        ∧ records "R1" hd (w_db w')
    | inl _ => docker_handles (w_out w') = docker_handles (w_out (World_on Host1)) ∨ ∃ hd x,
        hd ∉ docker_handles (w_out (World_on Host1)) ∧ docker_handles (w_out w') = {[hd]} ∪ docker_handles (w_out (World_on Host1))
        ∧ is_inl (fst (docker_Destroy hd x)) = true
    end) (World_on Host1).
Proof.
  intros drv spawn. split; [vm_compute; reflexivity|split; [vm_compute; reflexivity|split; [vm_compute; reflexivity|]]].
  apply (docker_spawns_leak_nothing "/run/beamhall/secrets" Orch1 3 "H1" "B1" "R1" Hall1 Context1 [] "sha256:1" (World_on Host1)).
Defined.
