(* ===== verification/Mcp.v ===== *)
(** The MCP server (internal/mcp): who a call comes from, how names resolve, and which tools a
    caller is shown.  The handlers of the tools are in McpTools and McpAdmin. *)
From S2P Require Import Prelude Regexp GoStrings GoNet GoHTTP GoText Domain Gateway Store.
From S2P Require Import StoreOps AuditLog Policy Vault Scrub Outside Orch AppTools Facility.
From S2P Require Import OrchAdmin OrchProvision Tarball Auth GitTokens GitServer.

(** * What a call returns *)

(** The text for the agent and the structured output, as the JSON it is sent as. *)
Record ToolResult := MkToolResult {
  tr_text : string;
  tr_out : any}.
Definition text (msg : string) : ToolResult := MkToolResult msg ANull.
Definition jnum (z : Z) : any := ANum (format_int z).
Definition jstrs (l : list string) : any := AArr (AStr <$> l).
(** A slice that is nil when nothing was appended. *)
Definition jslice (l : list any) : any := match l with [] => ANull | _ => AArr l end.
(** Struct fields with omitempty. *)
Definition omit_str (key v : string) : list (string * any) := if decide (v = EmptyString) then [] else [(key, AStr v)].
Definition omit_num (key : string) (v : Z) : list (string * any) := if decide (v = 0%Z) then [] else [(key, jnum v)].
Definition omit_list (key : string) (l : list any) : list (string * any) :=
  match l with [] => [] | _ => [(key, AArr l)] end.
(** The sum of formatted pieces written to a strings.Builder. *)
Definition concat_ (l : list string) : string := foldr String.append EmptyString l.

(** The option values of the server: the orchestrator, whether git tokens can be minted and the
    address of the remotes, the role that elevates, and whether a groups claim is configured. *)
Record Server := MkServer {
  gitMinter : bool;
  gitBaseURL : string;
  adminRole : string;
  groupAudiences : bool}.
(** A tool call's transport data: the validated token, if any, and X-Forwarded-For. *)
Record CallRequest := MkCallRequest {
  cr_info : option TokenInfo;
  cr_forwarded : string}.

(** driver.Stats; the percentage as %.1f and as JSON print it. *)
Record Stats := MkStats {
  CPUPct_1f : string;
  CPUPct_json : string;
  MemBytes : Z;
  MemLimit : Z;
  NetRxBytes : Z;
  NetTxBytes : Z}.
(** What the handlers use besides the orchestrator: temporary directories and the file system an
    upload is unpacked in, gunzip and tar, a container's statistics, encoding/json on an app's
    arguments and answers, and base64's error text. *)
Class McpHost (X : Type) := {
  MkdirTemp : ext X string;
  fs_call : FsCall → X → option string * X;
  RemoveAll : string → X → X;
  gunzip : string → string + Archive;
  drv_Stats : Handle → ext X Stats;
  json_Marshal : list (string * any) → string + string;
  json_value : string → option any;
  json_schema : string → option (list (string * any));
  base64_error : string → string }.

Section mcp.
Context `{!Env, !Age, !Rand} {X C : Type} `{!Caddy C}.
Context `{!RuntimeDriver X, !Platform X, !DatabaseProvisioner X, !IdentityProvider X, !Brokers X}.
Context (o : Orchestrator) (srv : Server).
Notation SiM := (SiM (X := X) (C := C)).

(** * The caller (actor.go) *)

Definition elevated (info : TokenInfo) : bool :=
  HasScope (Scopes info) ScopeAdminIT || HasRole (Some info) (adminRole srv).
(** The gate on a tool's class, or its error. *)
Definition scope_error (info : TokenInfo) (requiredScope : string) : option error :=
  if decide (requiredScope = ScopeAdminIT) then
    if elevated info then None
    else Some (ErrMsg (Sprintf "insufficient_scope: this tool requires IT-admin (the %q scope or the %q role)"
                         [FS ScopeAdminIT; FS (adminRole srv)]))
  else if HasScope (Scopes info) requiredScope then None
  else Some (ErrMsg (Sprintf "insufficient_scope: this tool requires the %q scope" [FS requiredScope])).
Definition find_identity (info : TokenInfo) (requiredScope : string) : SiM Identity :=
  ident ← attempt (dir (GetIdentityByIssuerSubject (ExtraIssuer info) (ExtraSubject info)));
  match ident with
  | inr ident => mret ident
  | inl err =>
      if is_not_found err then
        if decide (requiredScope = ScopeBeamsUse ∧ AutoRegister o = true) then
          wrapping "register identity: "
            (bp (RegisterUserIdentity o (ExtraIssuer info) (ExtraSubject info) (ExtraEmail info)))
        else throw (ErrMsg (Sprintf "identity %q is not registered on this Beamhall appliance — ask IT to register it"
                              [FS (ExtraSubject info)]))
      else throw (ErrWrap "resolve identity: " err)
  end.
Definition actor_of (info : TokenInfo) (forwarded : string) (ident : Identity) : Actor :=
  MkActor (Identity_ID ident) (ExtraJTI info) (elevated info) forwarded (GroupsOf (Some info))
    (if decide (ExtraEmail info = EmptyString) then Identity_Email ident else ExtraEmail info).
Definition resolveActor (req : CallRequest) (requiredScope : string) : SiM Actor :=
  match cr_info req with
  | None => throw (ErrMsg "unauthenticated: no bearer token on this session")
  | Some info =>
      check (scope_error info requiredScope);;
      ident ← find_identity info requiredScope;
      if decide (Identity_Status ident ≠ IdentityActive) then
        throw (ErrMsg (Sprintf "identity %q is %s on this Beamhall appliance — ask IT to re-enable it"
                         [FS (ExtraSubject info); FS (IdentityStatus_string (Identity_Status ident))]))
      else mret (actor_of info (cr_forwarded req) ident)
  end.

Definition resolveBeamhall (slug : string) : SiM Beamhall :=
  map_error (λ e, if is_not_found e then ErrMsg (Sprintf "no beamhall named %q" [FS slug]) else e)
    (dir (GetBeamhallBySlug slug)).
Definition resolveBeam (beamhallID : ID) (slug : string) : SiM Beam :=
  map_error (λ e, if is_not_found e then ErrMsg (Sprintf "no beam named %q in this beamhall" [FS slug]) else e)
    (dir (GetBeamBySlug beamhallID slug)).
(** The preview and live addresses of the active routes; of several of a kind the last. *)
Definition channelURLs_ (beamID : ID) : SiM (string * string) :=
  routes ← attempt (dir (ListRoutesByBeam beamID));
  mret (match routes with
        | inl _ => (EmptyString, EmptyString)
        | inr routes =>
            foldl (λ '(preview, live) rt,
              if decide (Route_Status rt ≠ RouteActive) then (preview, live)
              else let url := "https://" +:+ Route_Hostname rt in
                   if decide (Route_Kind rt = RouteLive) then (preview, url) else (url, live))
              (EmptyString, EmptyString) routes
        end).
Definition activeURL (beamID : ID) : SiM string :=
  '(preview, live) ← channelURLs_ beamID;
  mret (if decide (live ≠ EmptyString) then live else preview).

(** * The menu (visibility.go) *)

Definition toolScope : list (string * string) :=
  [("list_beams", ScopeBeamhallsRead); ("create_beam", ScopeBeamsWrite);
   ("deploy_beam", ScopeBeamsDeploy); ("get_repo", ScopeBeamsWrite);
   ("create_database", ScopeResourcesWrite); ("provision_auth", ScopeResourcesWrite);
   ("show_auth", ScopeBeamhallsRead); ("provision_email", ScopeResourcesWrite);
   ("show_email", ScopeBeamhallsRead); ("provision_object_store", ScopeResourcesWrite);
   ("show_object_store", ScopeBeamhallsRead); ("show_branding", ScopeBeamhallsRead);
   ("set_secret", ScopeSecretsWrite); ("show_logs", ScopeLogsRead);
   ("pause_preview", ScopeBeamsOperate); ("resume_preview", ScopeBeamsOperate);
   ("promote_to_live", ScopeBeamsPromote); ("rollback", ScopeBeamsDeploy);
   ("show_metrics", ScopeMetricsRead); ("archive_beam", ScopeBeamsOperate);
   ("destroy_beam", ScopeBeamsWrite); ("try_beam_tool", ScopeBeamsOperate);
   ("update_beam", ScopeBeamsWrite); ("show_beam_peers", ScopeBeamhallsRead);
   ("list_apps", ScopeBeamsUse); ("describe_app", ScopeBeamsUse); ("use_app", ScopeBeamsUse);
   ("list_pending_promotions", ScopeAdminIT); ("approve_promotion", ScopeAdminIT);
   ("reject_promotion", ScopeAdminIT); ("admin_register_identity", ScopeAdminIT);
   ("admin_grant_membership", ScopeAdminIT); ("admin_revoke_membership", ScopeAdminIT);
   ("admin_set_membership_role", ScopeAdminIT); ("admin_list_identities", ScopeAdminIT);
   ("admin_set_identity_status", ScopeAdminIT); ("admin_deregister_identity", ScopeAdminIT);
   ("admin_create_beamhall", ScopeAdminIT); ("admin_list_beamhalls", ScopeAdminIT);
   ("admin_show_beamhall", ScopeAdminIT); ("admin_update_beamhall", ScopeAdminIT);
   ("admin_set_egress", ScopeAdminIT); ("admin_set_auth_groups", ScopeAdminIT);
   ("admin_set_email_senders", ScopeAdminIT); ("admin_set_email_provider", ScopeAdminIT);
   ("admin_set_object_store_provider", ScopeAdminIT);
   ("admin_set_object_store_quota", ScopeAdminIT); ("admin_set_branding", ScopeAdminIT);
   ("admin_set_app_audience", ScopeAdminIT); ("admin_set_beam_peers", ScopeAdminIT);
   ("admin_list_releases", ScopeAdminIT); ("admin_query_audit", ScopeAdminIT);
   ("admin_verify_audit_chain", ScopeAdminIT); ("admin_create_user", ScopeAdminIT);
   ("admin_list_users", ScopeAdminIT); ("admin_set_user_password", ScopeAdminIT);
   ("admin_set_user_enabled", ScopeAdminIT); ("admin_create_group", ScopeAdminIT);
   ("admin_list_groups", ScopeAdminIT); ("admin_add_user_to_group", ScopeAdminIT);
   ("admin_remove_user_from_group", ScopeAdminIT); ("admin_delete_user", ScopeAdminIT);
   ("admin_delete_group", ScopeAdminIT); ("admin_federate_directory", ScopeAdminIT);
   ("admin_unfederate_directory", ScopeAdminIT); ("admin_set_security_context", ScopeAdminIT);
   ("admin_prune_audit", ScopeAdminIT); ("admin_backup_now", ScopeAdminIT);
   ("admin_list_backups", ScopeAdminIT); ("admin_restore_backup", ScopeAdminIT);
   ("admin_request_upgrade", ScopeAdminIT); ("admin_list_pending_requests", ScopeAdminIT);
   ("admin_approve_request", ScopeAdminIT); ("admin_reject_request", ScopeAdminIT)].
Definition alwaysVisible : list string :=
  ["create_queue"].
Definition idpAdminTools : list string :=
  ["provision_auth"; "show_auth"; "admin_set_auth_groups"; "admin_create_user";
   "admin_list_users"; "admin_set_user_password"; "admin_set_user_enabled";
   "admin_create_group"; "admin_list_groups"; "admin_add_user_to_group";
   "admin_remove_user_from_group"; "admin_delete_user"; "admin_delete_group";
   "admin_federate_directory"; "admin_unfederate_directory"].
Definition sensitiveTierTools : list string :=
  ["admin_federate_directory"; "admin_unfederate_directory"; "admin_set_security_context";
   "admin_prune_audit"; "admin_restore_backup"; "admin_request_upgrade"].
Definition backupTools : list string :=
  ["admin_backup_now"; "admin_list_backups"; "admin_restore_backup"].
Definition upgradeTools : list string :=
  ["admin_request_upgrade"].
Definition emailTools : list string :=
  ["provision_email"; "show_email"; "admin_set_email_senders"].
Definition emailProviderTools : list string :=
  ["admin_set_email_provider"].
Definition objectStoreTools : list string :=
  ["provision_object_store"; "show_object_store"].
Definition objectStoreProviderTools : list string :=
  ["admin_set_object_store_provider"; "admin_set_object_store_quota"].

Record applianceState := MkApplianceState {
  as_idpEnabled : bool;
  as_sensitiveEnabled : bool;
  as_backupEnabled : bool;
  as_upgradeEnabled : bool;
  as_emailEnabled : bool;
  as_emailWired : bool;
  as_objStoreEnabled : bool;
  as_objStoreWired : bool}.
Definition lookup_scope (name : string) : option string := (list_to_map toolScope : gmap string string) !! name.
(** A tool of a class is hidden when the class is off. *)
Definition off (tools : list string) (on : bool) (name : string) : bool := bool_decide (name ∈ tools) && negb on.
Definition toolVisible (name : string) (info : option TokenInfo) (st : applianceState) : bool :=
  if decide (name ∈ alwaysVisible) then
    match info with Some i => HasScope (Scopes i) ScopeResourcesWrite | None => false end
  else
  match lookup_scope name with
  | None => false
  | Some scope =>
      if (match info with
          | None => true
          | Some i => if decide (scope = ScopeAdminIT)
                      then negb (HasScope (Scopes i) ScopeAdminIT || HasRole (Some i) (adminRole srv))
                      else negb (HasScope (Scopes i) scope)
          end) then false
      else negb (off idpAdminTools (as_idpEnabled st) name
                 || off sensitiveTierTools (as_sensitiveEnabled st) name
                 || off backupTools (as_backupEnabled st) name
                 || off upgradeTools (as_upgradeEnabled st) name
                 || off emailTools (as_emailEnabled st) name
                 || off emailProviderTools (as_emailWired st) name
                 || off objectStoreTools (as_objStoreEnabled st) name
                 || off objectStoreProviderTools (as_objStoreWired st) name)
  end.
(** The answer to tools/list: the registered tools the caller is shown. *)
Definition installToolFilter (info : option TokenInfo) (tools : list string) : SiM (list string) :=
  emailOn ← bp (EmailEnabled o);
  objStoreOn ← bp (ObjectStoreEnabled o);
  let st := MkApplianceState (idpEnabled o) (idpSensitive o) (bool_decide (backupDir o ≠ EmptyString))
              (UpgradeEnabled o) emailOn (EmailBrokerWired o) objStoreOn (ObjectStoreBrokerWired o) in
  mret (filter (λ name, toolVisible name info st = true) tools).
End mcp.
