(* ===== verification/McpTools.v ===== *)
(** The builder tools of the MCP server (internal/mcp/tools.go): every handler with its gate, the
    names it resolves, the orchestrator operation it calls, and what it answers.  The tools for employees follow. *)
From S2P Require Import Prelude Regexp GoStrings GoNet GoHTTP GoText Diagnose Domain Gateway.
From S2P Require Import Store StoreOps AuditLog Policy Vault Scrub Outside Orch AppTools Facility.
From S2P Require Import OrchAdmin OrchTools OrchProvision OrchBeam OrchLife Tarball Auth.
From S2P Require Import GitTokens GitServer Mcp.

Definition maxTarballBytes : Z := 8 * 2 ^ 20.
Definition secret_file (k : string) : string := "/run/secrets/" +:+ k.
Definition orEmpty (v : string) : string := if decide (v = EmptyString) then "(unset)" else v.

(** * Structured outputs *)

Record beamOut := MkBeamOut {
  bo_beam : string;
  bo_beamhall : string;
  bo_state : string;
  bo_mode : string;
  bo_url : string;
  bo_preview_url : string;
  bo_live_url : string;
  bo_live_state : string}.
Definition beamOut_members (b : beamOut) : list (string * any) :=
  [("beam", AStr (bo_beam b)); ("beamhall", AStr (bo_beamhall b)); ("state", AStr (bo_state b));
   ("mode", AStr (bo_mode b))]
  ++ omit_str "url" (bo_url b) ++ omit_str "preview_url" (bo_preview_url b)
  ++ omit_str "live_url" (bo_live_url b) ++ omit_str "live_state" (bo_live_state b).
Definition beam_summary (b : Beam) (hallSlug : string) : beamOut :=
  MkBeamOut (Beam_Slug b) hallSlug (BeamState_string (Beam_State b)) (BeamMode_string (Beam_Mode b))
    EmptyString EmptyString EmptyString EmptyString.
Definition beamChannels (beam : Beam) (hallSlug previewURL liveURL : string) : beamOut :=
  let primary := if decide (liveURL ≠ EmptyString) then liveURL else previewURL in
  MkBeamOut (Beam_Slug beam) hallSlug (BeamState_string (Beam_State beam)) (BeamMode_string (Beam_Mode beam))
    primary previewURL liveURL (BeamState_string (Beam_LiveState beam)).
Definition AuthInfo_json (i : AuthInfo) : any :=
  AObj ([("provisioned", ABool (AI_Provisioned i))] ++ omit_str "auth_mode" (AI_Mode i)
        ++ omit_str "issuer" (AI_Issuer i)
        ++ omit_list "channels" ((λ c, AObj ([("channel", AStr (AC_Channel c)); ("client_id", AStr (AC_ClientID c));
             ("audience", AStr (AC_Audience c))] ++ omit_list "redirect_uris" (AStr <$> AC_RedirectURIs c)
             ++ omit_list "groups" (AStr <$> AC_Groups c))) <$> AI_Channels i)).
Definition EmailInfo_json (i : EmailInfo) : any :=
  AObj ([("provisioned", ABool (EI_Provisioned i))] ++ omit_str "host" (EI_Host i)
        ++ omit_num "port" (EI_Port i) ++ omit_str "username" (EI_Username i)
        ++ omit_list "allowed_senders" (AStr <$> EI_AllowedSenders i)
        ++ omit_num "rate_limit_per_day" (EI_RateLimitPerDay i)).
Definition ObjectStoreInfo_json (i : ObjectStoreInfo) : any :=
  AObj ([("provisioned", ABool (OI_Provisioned i))] ++ omit_str "endpoint" (OI_Endpoint i)
        ++ omit_str "region" (OI_Region i)
        ++ omit_list "channels" ((λ c, AObj [("channel", AStr (OCI_Channel c)); ("bucket", AStr (OCI_Bucket c));
             ("quota_bytes", jnum (OCI_QuotaBytes c))]) <$> OI_Channels i)).
Definition BrandingInfo_any (i : BrandingInfo) : any :=
  let b := BI_Branding i in
  AObj ([("configured", ABool (Configured i))] ++ omit_str "scope" (BI_Scope i)
        ++ omit_str "header_html" (HeaderHTML b) ++ omit_str "footer_html" (FooterHTML b)
        ++ omit_str "primary_color" (PrimaryColor b) ++ omit_str "secondary_color" (SecondaryColor b)
        ++ omit_str "accent_color" (AccentColor b) ++ omit_str "background_color" (BackgroundColor b)
        ++ omit_str "text_color" (TextColor b) ++ omit_str "logo_url" (LogoURL i)
        ++ omit_str "logo_mime" (LogoMIME i) ++ omit_str "css_url" (CSSURL i)).
Definition PeerTargetView_json (t : PeerTargetView) : any :=
  AObj [("workspace", AStr (PT_Workspace t)); ("app", AStr (PT_App t)); ("live", ABool (PT_Live t));
        ("agent_tools", ABool (PT_AgentTools t))].

(** * Errors with a way out *)

Definition authBYOErr (e : error) : error :=
  if Contains (Error e) "IdP administration is not enabled on this Beamhall appliance (no owned/bundled IdP configured)" then
    ErrAround EmptyString e " — this Beamhall authenticates against an external corporate IdP it does not administer, so it cannot create a login for this beam. Ask IT to register an OIDC client for the beam in that IdP, then deliver its issuer/client_id/client_secret to the beam with set_secret as OIDC_ISSUER / OIDC_CLIENT_ID / OIDC_CLIENT_SECRET; your app validates tokens against that issuer normally"
  else e.
Definition emailDisabledErr (e : error) : error :=
  if Contains (Error e) "no delivery provider configured" then
    ErrAround EmptyString e " — email isn't configured on this appliance yet. Ask an IT admin to set the company mail provider with admin_set_email_provider; once they do, provision_email works. (Or wire SMTP yourself by delivering SMTP_HOST / SMTP_PORT / SMTP_USER / SMTP_PASS to the beam with set_secret and pointing your app's mailer at them.)"
  else e.
Definition objStoreDisabledErr (e : error) : error :=
  if Contains (Error e) "object store not available" then
    ErrAround EmptyString e " — object storage isn't available on this appliance (no broker wired). Ask an IT admin to enable it; once wired it's on by default. (Or wire S3 yourself by delivering S3_ENDPOINT / S3_REGION / S3_BUCKET / S3_ACCESS_KEY / S3_SECRET_KEY to the beam with set_secret and pointing your app's S3 SDK at them.)"
  else e.

Section tools.
Context `{!Env, !Age, !Rand} {X C : Type} `{!Caddy C}.
Context `{!RuntimeDriver X, !Platform X, !DatabaseProvisioner X, !IdentityProvider X, !Brokers X, !McpHost X}.
Context (o : Orchestrator) (polls : nat) (srv : Server).
Notation SiM := (SiM (X := X) (C := C)).
Notation OM := (OM (X := X) (C := C)).

(** The steps the handlers of a hall's and of a beam's tools begin with. *)
Definition on_hall (scope : string) (req : CallRequest) (hall : string)
    (k : Actor → Beamhall → SiM ToolResult) : SiM ToolResult :=
  actor ← resolveActor o srv req scope;
  bh ← resolveBeamhall hall;
  k actor bh.
Definition on_beam (scope : string) (req : CallRequest) (hall beam : string)
    (k : Actor → Beamhall → Beam → SiM ToolResult) : SiM ToolResult :=
  on_hall scope req hall (λ actor bh, b ← resolveBeam (Beamhall_ID bh) beam; k actor bh b).

(** * Beams *)

Definition createBeam_ (req : CallRequest) (hall slug displayName description runtimeHint : string) : SiM ToolResult :=
  on_hall ScopeBeamsWrite req hall (λ actor bh,
    beam ← bp (CreateBeam_ o actor (Beamhall_ID bh) slug displayName description runtimeHint);
    let msg := Sprintf "beam %q created in beamhall %q (state %s). Deploy it with deploy_beam — call it with no source to get a one-time git push remote (preferred). Building a web UI? Call show_branding first and apply the company header/footer/logo/palette it returns."
      [FS (Beam_Slug beam); FS (Beamhall_Slug bh); FS (BeamState_string (Beam_State beam))] in
    mret (MkToolResult (if decide (description = EmptyString) then
        msg +:+ " No description was set — that's the line users see when IT publishes this app to them; IT can add one when publishing (admin_set_app_audience)."
      else msg) (AObj (beamOut_members (beam_summary beam (Beamhall_Slug bh)))))).

Definition gitRemote (hallSlug beamSlug : string) : string * string * string :=
  let remote := Sprintf "%s/git/%s/%s.git" [FS (gitBaseURL srv); FS hallSlug; FS beamSlug] in
  match CutPrefix remote "http://" with
  | Some rest => (remote, "http://", rest)
  | None => match CutPrefix remote "https://" with
            | Some rest => (remote, "https://", rest)
            | None => (remote, "https://", remote)
            end
  end.

(** The upload, unpacked by asking the host's file system. *)
Definition fs_after (x : X) (tr : list FsCall) : X := foldl (λ x c, (fs_call c x).2) x tr.
Definition fs_answer (x : X) (tr : list FsCall) : option string :=
  match last tr with Some c => (fs_call c (fs_after x (removelast tr))).1 | None => None end.
Definition unpack_upload (raw srcDir : string) : OM () := λ w,
  let '(r, tr) := extractTarGz (fs_answer (w_out w)) (gunzip raw) srcDir [] in
  (match r with inl e => inl (ErrMsg e) | inr _ => inr tt end, w <| w_out := fs_after (w_out w) tr |>).
Definition remove_dir (srcDir : string) : OM () := modify (λ w, w <| w_out := RemoveAll srcDir (w_out w) |>).
Definition tarball_too_big : error :=
  ErrMsg (Sprintf "source_tarball exceeds %d MB; push to the beam's managed git remote instead" [FD (maxTarballBytes / 2 ^ 20)]).
Definition decode_tarball (b64 : string) : error + string :=
  if decide (maxTarballBytes < Std_DecodedLen (Z.of_nat (String.length b64)))%Z then inl tarball_too_big
  else match Std_DecodeString b64 with
       | None => inl (ErrWrap "source_tarball is not valid base64: " (ErrMsg (base64_error b64)))
       | Some raw => if decide (maxTarballBytes < Z.of_nat (String.length raw))%Z then inl tarball_too_big
                     else inr raw
       end.

Record deployBeamArgs := MkDeployBeamArgs {
  da_Beamhall : string;
  da_Beam : string;
  da_SourceTarball : string;
  da_ImageRef : string;
  da_ImageDigest : string}.
Definition deployed_reply (args : deployBeamArgs) (bh : Beamhall) (deployed : Beam) : SiM ToolResult :=
  '(previewURL, liveURL) ← channelURLs_ (Beam_ID deployed);
  let msg := concat_
    [Sprintf "beam %q deployed to its preview channel (state %s)" [FS (Beam_Slug deployed); FS (BeamState_string (Beam_State deployed))];
     if decide (previewURL ≠ EmptyString) then " — preview at " +:+ previewURL else EmptyString;
     ". Previews auto-pause after their idle window; resume_preview wakes them on a new URL.";
     if decide (Beam_Mode deployed = ModeLive ∧ liveURL ≠ EmptyString)
     then Sprintf " Production is unchanged at %s (promote_to_live again to ship this build)." [FS liveURL] else EmptyString] in
  mret (MkToolResult msg (AObj (beamOut_members (beamChannels deployed (Beamhall_Slug bh) previewURL liveURL)
                                ++ omit_str "image_digest" (da_ImageDigest args)))).
Definition push_reply (actor : Actor) (bh : Beamhall) (beam : Beam) : SiM ToolResult :=
  tok ← mint_token kindPush (Beamhall_ID bh) (Beam_ID beam) (Actor_ID actor);
  let '(remote, scheme, hostPath) := gitRemote (Beamhall_Slug bh) (Beam_Slug beam) in
  let cmd := Sprintf "git -c pack.window=0 push --no-thin %sx-access-token:%s@%s HEAD:main" [FS scheme; FS tok; FS hostPath] in
  let msg := Sprintf "Push your source to build and deploy %q. From your project directory, commit your code, then run:\n\n  %s\n\nBuild progress streams back as \'remote:\' lines and the preview URL prints on success. If the build fails, fix your code, commit, and run the SAME command again — the token stays valid until a deploy succeeds (or it expires shortly). For a later, separate deploy, call deploy_beam again for a fresh command. Before you write or change UI code, call show_branding and apply the company header/footer/logo/colour palette it returns. (Fallback, only if you can't use git: call deploy_beam with source_tarball for a direct upload.)"
    [FS (Beam_Slug beam); FS cmd] in
  mret (MkToolResult msg (AObj (beamOut_members (beam_summary beam (Beamhall_Slug bh))
                                ++ omit_str "git_remote" remote ++ omit_str "push_command" cmd))).
Definition deployBeam (req : CallRequest) (args : deployBeamArgs) : SiM ToolResult :=
  on_beam ScopeBeamsDeploy req (da_Beamhall args) (da_Beam args) (λ actor bh beam,
    if decide (da_SourceTarball args ≠ EmptyString
               ∧ (da_ImageRef args ≠ EmptyString ∨ da_ImageDigest args ≠ EmptyString)) then
      throw (ErrMsg "give either source_tarball or image_ref+image_digest, not both")
    else if decide (da_SourceTarball args ≠ EmptyString) then
      match decode_tarball (da_SourceTarball args) with
      | inl e => throw e
      | inr raw =>
          srcDir ← bp (outside MkdirTemp);
          r ← attempt (bp (unpack_upload raw srcDir);;
                       deployed ← bp (DeployBeamFromSource o polls actor (Beamhall_ID bh) (Beam_ID beam) srcDir);
                       deployed_reply args bh deployed);
          bp (remove_dir srcDir);;
          match r with inl e => throw e | inr res => mret res end
      end
    else if decide (da_ImageDigest args ≠ EmptyString) then
      deployed ← bp (DeployBeam o polls actor (Beamhall_ID bh) (Beam_ID beam) (da_ImageRef args) (da_ImageDigest args));
      deployed_reply args bh deployed
    else if gitMinter srv then push_reply actor bh beam
    else throw (ErrMsg "deploy_beam needs source_tarball (preferred) or image_ref+image_digest")).

(** ** What exists *)

Definition hall_lines (bh : Beamhall) (role : MembershipRole) (beams : list (Beam * string * string)) : list string :=
  Sprintf "%s (your role: %s) — %d active beam(s)"
    [FS (Beamhall_Slug bh); FS (MembershipRole_string role); FD (Z.of_nat (length beams))]
  :: ((λ '(b, previewURL, liveURL),
        Sprintf "  - %s [preview:%s] %s" [FS (Beam_Slug b); FS (BeamState_string (Beam_State b));
          FS (if decide (previewURL = EmptyString) then "(preview idle — resume_preview)" else previewURL)]
        +:+ (if decide (Beam_Mode b = ModeLive) then
               Sprintf "  [live] %s" [FS (if decide (liveURL = EmptyString) then "(live workload down)" else liveURL)]
             else EmptyString)) <$> beams).
Definition summary_json (b : Beam) (previewURL liveURL : string) : any :=
  AObj ([("beam", AStr (Beam_Slug b))] ++ omit_str "display_name" (Beam_DisplayName b)
        ++ [("mode", AStr (BeamMode_string (Beam_Mode b))); ("state", AStr (BeamState_string (Beam_State b)))]
        ++ omit_str "url" (if decide (liveURL ≠ EmptyString) then liveURL else previewURL)
        ++ omit_str "preview_url" previewURL ++ omit_str "live_url" liveURL
        ++ omit_str "live_state" (BeamState_string (Beam_LiveState b))).
Fixpoint with_urls (beams : list Beam) : SiM (list (Beam * string * string)) :=
  match beams with
  | [] => mret []
  | b :: beams => '(previewURL, liveURL) ← channelURLs_ (Beam_ID b);
                  rest ← with_urls beams; mret ((b, previewURL, liveURL) :: rest)
  end.
Fixpoint member_halls (only : string) (mships : list Membership) : SiM (list (any * list string)) :=
  match mships with
  | [] => mret []
  | m :: mships =>
      bh ← attempt (dir (GetBeamhall (Membership_BeamhallID m)));
      match bh with
      | inl _ => member_halls only mships
      | inr bh =>
          if decide (only ≠ EmptyString ∧ Beamhall_Slug bh ≠ only) then member_halls only mships
          else
          beams ← dir (ListBeamsByBeamhall (Beamhall_ID bh));
          beams ← with_urls beams;
          rest ← member_halls only mships;
          mret ((AObj [("beamhall", AStr (Beamhall_Slug bh)); ("role", AStr (MembershipRole_string (Membership_Role m)));
                       ("beams", jslice ((λ '(b, p, l), summary_json b p l) <$> beams))],
                 hall_lines bh (Membership_Role m) beams) :: rest)
      end
  end.
Definition listBeams (req : CallRequest) (only : string) : SiM ToolResult :=
  actor ← resolveActor o srv req ScopeBeamhallsRead;
  mships ← dir (ListMembershipsByIdentity (Actor_ID actor));
  halls ← member_halls only mships;
  let out := AObj [("beamhalls", jslice (fst <$> halls))] in
  mret (MkToolResult
    (match halls with
     | [] => if decide (only ≠ EmptyString)
             then Sprintf "No beamhall %q among your memberships (you only see beamhalls you belong to)." [FS only]
             else "You are not a member of any beamhall yet — ask IT to grant you membership."
     | _ => Join (mjoin (snd <$> halls)) (String newline EmptyString)
     end) out).
Definition getRepo (req : CallRequest) (hall beam : string) : SiM ToolResult :=
  actor ← resolveActor o srv req ScopeBeamsWrite;
  if negb (gitMinter srv) then throw (ErrMsg "the git transport is not enabled in this build of Beamhall")
  else
  bh ← resolveBeamhall hall;
  b ← resolveBeam (Beamhall_ID bh) beam;
  tok ← mint_token kindRead (Beamhall_ID bh) (Beam_ID b) (Actor_ID actor);
  let '(remote, scheme, hostPath) := gitRemote (Beamhall_Slug bh) (Beam_Slug b) in
  let cmd := Sprintf "git clone %sx-access-token:%s@%s %s" [FS scheme; FS tok; FS hostPath; FS (Beam_Slug b)] in
  mret (MkToolResult
    (Sprintf "Clone the source of %q (Beamhall hosts the beam's code). Run:\n\n  %s\n\nThis is a read-only, one-beam clone token; it expires shortly, so call get_repo again for a fresh one. After editing, ship changes with deploy_beam (git push)."
       [FS (Beam_Slug b); FS cmd])
    (AObj [("beam", AStr (Beam_Slug b)); ("beamhall", AStr (Beamhall_Slug bh)); ("remote", AStr remote); ("clone_url", AStr cmd)])).

(** * Facilities *)

Definition secret_files (keys : list string) : list string := secret_file <$> keys.
Definition keys_out (keys : list string) : list (string * any) :=
  [("secret_keys", jstrs keys); ("secret_files", jstrs (secret_files keys))].
Definition createDatabase_ (req : CallRequest) (hall beam name : string) : SiM ToolResult :=
  on_beam ScopeResourcesWrite req hall beam (λ actor bh b,
    key ← bp (CreateDatabase o actor (Beamhall_ID bh) (Beam_ID b) name);
    mret (MkToolResult
      (Sprintf "database %q provisioned. After the next deploy_beam, the PostgreSQL connection URL is the content of the file /run/secrets/%s inside the workload — read it from there; it is never shown here." [FS name; FS key])
      (AObj [("secret_key", AStr key); ("secret_file", AStr (secret_file key))]))).
Definition provisionAuth_ (req : CallRequest) (hall beam : string) : SiM ToolResult :=
  on_beam ScopeResourcesWrite req hall beam (λ actor bh b,
    keys ← map_error authBYOErr (bp (ProvisionAuth o actor (Beamhall_ID bh) (Beam_ID b)));
    mret (MkToolResult
      (Sprintf "company sign-in provisioned for beam %q (mode: library). After the next deploy_beam your app reads %s and runs a standard OpenID Connect code+PKCE flow — derive the redirect URL from the request Host and read OIDC_CLIENT_ID from its file (don't hardcode) so one image works in preview and production. No secret value is ever shown; the login URLs are kept correct for you across preview-URL changes."
         [FS (Beam_Slug b); FS (Join (secret_files keys) ", ")])
      (AObj (("auth_mode", AStr "library") :: keys_out keys)))).
Definition showAuth_ (req : CallRequest) (hall beam : string) : SiM ToolResult :=
  on_beam ScopeBeamhallsRead req hall beam (λ actor bh b,
    info ← map_error authBYOErr (bp (ShowAuth o actor (Beamhall_ID bh) (Beam_ID b)));
    if negb (AI_Provisioned info) then
      mret (MkToolResult (Sprintf "beam %q has no company sign-in provisioned — call provision_auth to add it." [FS (Beam_Slug b)])
              (AuthInfo_json info))
    else
      mret (MkToolResult
        (Sprintf "beam %q sign-in (mode %s, issuer %s):\n" [FS (Beam_Slug b); FS (AI_Mode info); FS (AI_Issuer info)]
         +:+ concat_ ((λ c, Sprintf "  - %s: client_id=%s audience=%s" [FS (AC_Channel c); FS (AC_ClientID c); FS (AC_Audience c)]
                +:+ (match AC_Groups c with [] => EmptyString | gs => Sprintf " groups=%s" [FS (Join gs ",")] end)
                +:+ String newline EmptyString) <$> AI_Channels info))
        (AuthInfo_json info))).
Definition provisionEmail_ (req : CallRequest) (hall beam : string) : SiM ToolResult :=
  on_beam ScopeResourcesWrite req hall beam (λ actor bh b,
    keys ← map_error emailDisabledErr (bp (ProvisionEmail o actor (Beamhall_ID bh) (Beam_ID b)));
    mret (MkToolResult
      (Sprintf "outbound email provisioned for beam %q. After the next deploy_beam your app reads %s and sends with any standard SMTP library — Beamhall relays to the company mail provider. NOTE: until an IT admin allows a sender with admin_set_email_senders, sends are rejected — ask IT for the From address/domain you need. No credential value is ever shown."
         [FS (Beam_Slug b); FS (Join (secret_files keys) ", ")])
      (AObj (keys_out keys)))).
Definition showEmail_ (req : CallRequest) (hall beam : string) : SiM ToolResult :=
  on_beam ScopeBeamhallsRead req hall beam (λ actor bh b,
    info ← map_error emailDisabledErr (bp (ShowEmail o actor (Beamhall_ID bh) (Beam_ID b)));
    if negb (EI_Provisioned info) then
      mret (MkToolResult (Sprintf "beam %q has no outbound email provisioned — call provision_email to add it." [FS (Beam_Slug b)])
              (EmailInfo_json info))
    else
      let senders := match EI_AllowedSenders info with
                     | [] => "none yet (ask IT to allow one with admin_set_email_senders — until then sends are rejected)"
                     | l => Join l ", "
                     end in
      mret (MkToolResult
        (Sprintf "beam %q email: sends via %s:%d as user %s; allowed senders: %s; rate limit: %d/day."
           [FS (Beam_Slug b); FS (EI_Host info); FD (EI_Port info); FS (EI_Username info); FS senders; FD (EI_RateLimitPerDay info)])
        (EmailInfo_json info))).
Definition branding_part (label v : string) : string :=
  if decide (v = EmptyString) then label +:+ ": none"
  else Sprintf "%s: set (%d chars)" [FS label; FD (Z.of_nat (String.length v))].
Definition showBranding_ (req : CallRequest) (hall : string) : SiM ToolResult :=
  on_hall ScopeBeamhallsRead req hall (λ actor bh,
    info ← bp (ShowBranding o actor (Beamhall_ID bh));
    if negb (Configured info) then
      mret (MkToolResult
        (Sprintf "beamhall %q has no company branding configured — no header, footer, logo, or palette is required here, so design the UI as you see fit. IT can define one company-wide or for this beamhall with admin_set_branding." [FS (Beamhall_Slug bh)])
        (BrandingInfo_any info))
    else
      let scope := if decide (BI_Scope info = "beamhall") then "team override over the company default" else "company-wide default" in
      let b := BI_Branding info in
      mret (MkToolResult
        (Sprintf "beamhall %q branding (%s): primary=%s secondary=%s accent=%s background=%s text=%s; logo %s; palette stylesheet %s; %s, %s. Link the stylesheet (or copy its --brand-* custom properties) rather than hardcoding colours, put the header HTML at the top of every page and the footer at the bottom, and show the logo in the header. IT owns these values (admin_set_branding); your workload also reads them from /run/beamhall/brand.json after the next deploy_beam."
           [FS (Beamhall_Slug bh); FS scope; FS (orEmpty (PrimaryColor b)); FS (orEmpty (SecondaryColor b)); FS (orEmpty (AccentColor b));
            FS (orEmpty (BackgroundColor b)); FS (orEmpty (TextColor b));
            FS (if decide (LogoURL info = EmptyString) then "none" else LogoURL info); FS (CSSURL info);
            FS (branding_part "header" (HeaderHTML b)); FS (branding_part "footer" (FooterHTML b))])
        (BrandingInfo_any info))).
Definition provisionObjectStore_ (req : CallRequest) (hall beam : string) : SiM ToolResult :=
  on_beam ScopeResourcesWrite req hall beam (λ actor bh b,
    keys ← map_error objStoreDisabledErr (bp (ProvisionObjectStore o actor (Beamhall_ID bh) (Beam_ID b)));
    mret (MkToolResult
      (Sprintf "object storage provisioned for beam %q. After the next deploy_beam your app reads %s and uses any S3 SDK pointed at S3_ENDPOINT with path-style addressing — Beamhall stores the bytes. Preview and production get separate buckets (promote_to_live provisions the live one). No credential value is ever shown."
         [FS (Beam_Slug b); FS (Join (secret_files keys) ", ")])
      (AObj (keys_out keys)))).
Definition showObjectStore_ (req : CallRequest) (hall beam : string) : SiM ToolResult :=
  on_beam ScopeBeamhallsRead req hall beam (λ actor bh b,
    info ← map_error objStoreDisabledErr (bp (ShowObjectStore o actor (Beamhall_ID bh) (Beam_ID b)));
    if negb (OI_Provisioned info) then
      mret (MkToolResult (Sprintf "beam %q has no object storage provisioned — call provision_object_store to add it." [FS (Beam_Slug b)])
              (ObjectStoreInfo_json info))
    else
      let parts := (λ c, Sprintf "%s→%s (quota %s)" [FS (OCI_Channel c); FS (OCI_Bucket c);
                      FS (if decide (0 < OCI_QuotaBytes c)%Z then Sprintf "%d bytes" [FD (OCI_QuotaBytes c)] else "unlimited")])
                   <$> OI_Channels info in
      mret (MkToolResult
        (Sprintf "beam %q object storage: endpoint %s, region %s; buckets: %s."
           [FS (Beam_Slug b); FS (OI_Endpoint info); FS (OI_Region info); FS (Join parts ", ")])
        (ObjectStoreInfo_json info))).
Definition setSecret_ (req : CallRequest) (hall beam key value : string) : SiM ToolResult :=
  on_hall ScopeSecretsWrite req hall (λ actor bh,
    beamID ← (if decide (beam ≠ EmptyString) then b ← resolveBeam (Beamhall_ID bh) beam; mret (Beam_ID b)
              else mret no_id);
    bp (SetSecret actor (Beamhall_ID bh) beamID key value);;
    mret (MkToolResult
      (Sprintf "secret %q stored (write-only). It becomes the file /run/secrets/%s inside the workload on the next deploy_beam." [FS key; FS key])
      (AObj [("secret_file", AStr (secret_file key))]))).

(** * Watching and operating *)

Definition showLogs_ (req : CallRequest) (hall beam : string) (tailLines : Z) : SiM ToolResult :=
  on_beam ScopeLogsRead req hall beam (λ actor bh b,
    let tail := if decide (tailLines ≤ 0)%Z then 200%Z else tailLines in
    out ← bp (ShowLogs actor (Beamhall_ID bh) (Beam_ID b) (MkLogOptions false None tail []));
    if decide (out = EmptyString) then mret (text "(no log output)")
    else
      let hint := Diagnose_Run out in
      mret (text (if decide (hint ≠ EmptyString) then
          out +:+ Lit_ "\n\n[beamhall] These logs match a known constraint: " +:+ hint else out))).

(** What an app's tools answer, for an agent. *)
Definition tool_info (t : Tool) : any :=
  AObj ([("name", AStr (Tool_Name t)); ("description", AStr (Tool_Description t))]
        ++ match json_schema (Tool_InputSchema t) with
           | Some ((_ :: _) as m) => [("input_schema", AObj m)]
           | _ => []
           end).
Definition menu_lines (tools : list Tool) : string :=
  concat_ ((λ t, Sprintf "  - %s — %s\n" [FS (Tool_Name t); FS (Tool_Description t)]) <$> tools).
Definition use_out (app workspace tool : string) (rest : list (string * any)) : any :=
  AObj ([("app", AStr app); ("workspace", AStr workspace)] ++ omit_str "tool" tool ++ rest).
Definition result_member (result : string) : list (string * any) :=
  match json_value result with
  | None | Some ANull => []
  | Some v => [("result", v)]
  end.
Definition marshal_args (arguments : list (string * any)) : SiM string :=
  match arguments with
  | [] => mret EmptyString
  | _ => match json_Marshal arguments with
         | inl e => throw (ErrWrap "arguments do not encode as JSON: " (ErrMsg e))
         | inr b => mret b
         end
  end.
(** errors.As(err, **AppToolError) *)
Fixpoint as_app_tool (e : error) : option (Z * string) :=
  match e with
  | ErrAppTool status body => Some (status, body)
  | ErrWrap _ e | ErrAround _ e _ => as_app_tool e
  | _ => None
  end.
Definition tryBeamTool_ (req : CallRequest) (hall beam tool : string) (arguments : list (string * any)) : SiM ToolResult :=
  on_beam ScopeBeamsOperate req hall beam (λ actor bh b,
    argBytes ← marshal_args arguments;
    res ← map_error (λ e,
      if err_is ErrNoAgentTools e then
        ErrMsg (Sprintf "beam %q does not serve the app-tools contract yet. To offer tools to your users' agents, make your app serve GET /.beamhall/tools (the JSON menu) and POST /.beamhall/tools/<name> (the invocation), verifying the Beamhall-Assertion header against /run/beamhall/assertion.json on BOTH — then deploy_beam and try again" [FS (Beam_Slug b)])
      else match as_app_tool e with
           | Some (status, body) =>
               ErrMsg (Sprintf "your app answered HTTP %d to tool %q:\n%s" [FD status; FS tool; FS body])
           | None => e
           end) (bp (TryBeamTool o actor (Beamhall_ID bh) (Beam_ID b) tool argBytes));
    match UA_Menu res with
    | Some menu =>
        let tools := TM_Tools menu in
        mret (MkToolResult
          ((match tools with
            | [] => Sprintf "Your app %q serves the contract but lists no tools yet (preview channel)." [FS (Beam_Slug b)]
            | _ => Sprintf "Your app %q offers %d tool(s) on its PREVIEW channel:\n\n" [FS (Beam_Slug b); FD (Z.of_nat (length tools))]
                   +:+ menu_lines tools +:+ Lit_ "\nInvoke one with try_beam_tool (tool + arguments)."
            end)
           +:+ " When it's ready for users: promote_to_live, then IT publishes with admin_set_app_audience, then their agents call it with use_app.")
          (use_out (Beam_Slug b) (Beamhall_Slug bh) tool (omit_list "tools" (tool_info <$> tools))))
    | None =>
        mret (MkToolResult
          (Sprintf "beam %q (preview) answered tool %q:\n\n%s" [FS (Beam_Slug b); FS tool; FS (TrimSpace (UA_Result res))])
          (use_out (Beam_Slug b) (Beamhall_Slug bh) tool (result_member (UA_Result res))))
    end).
Definition updateBeam_ (req : CallRequest) (hall beam description displayName : string) : SiM ToolResult :=
  on_beam ScopeBeamsWrite req hall beam (λ actor bh b,
    let some v := if decide (v ≠ EmptyString) then Some v else None in
    updated ← bp (UpdateBeam_ actor (Beamhall_ID bh) (Beam_ID b) (MkBeamUpdate (some description) (some displayName)));
    mret (MkToolResult
      (Sprintf "beam %q updated — display name %q, description %q. This is what users see when IT publishes the app (admin_set_app_audience); the app itself was not redeployed."
         [FS (Beam_Slug updated); FS (Beam_DisplayName updated); FS (Beam_Description updated)])
      (AObj (beamOut_members (beam_summary updated (Beamhall_Slug bh)))))).
Definition peer_line (t : PeerTargetView) : string :=
  Sprintf "  - app %s/%s via the relay (%s; %s)\n"
    [FS (PT_Workspace t); FS (PT_App t);
     FS (if PT_Live t then "live" else "NOT live — calls will refuse until its team runs promote_to_live");
     FS (if PT_AgentTools t then "serves agent tools" else "agent tools not detected on its live channel")].
Definition showBeamPeers_ (req : CallRequest) (hall beam : string) : SiM ToolResult :=
  on_beam ScopeBeamhallsRead req hall beam (λ actor bh b,
    v ← bp (ShowBeamPeers actor (Beamhall_ID bh) (Beam_ID b));
    let structured := AObj
      [("app", AStr (Beam_Slug b)); ("workspace", AStr (Beamhall_Slug bh));
       ("peers", jslice (PeerTargetView_json <$> PV_Targets v)); ("external", jslice (AStr <$> PV_External v));
       ("key_minted", ABool (PV_KeyMinted v)); ("preview_has_key", ABool (PV_PreviewHas v));
       ("live_has_key", ABool (PV_LiveHas v))] in
    if decide (PV_Targets v = [] ∧ PV_External v = []) then
      mret (MkToolResult
        (Sprintf "app %q has been granted NOTHING to reach — no peer apps, no external destinations. That is the default: apps cannot call each other or the outside world until IT grants it with admin_set_beam_peers (builders cannot widen this)." [FS (Beam_Slug b)])
        structured)
    else
      mret (MkToolResult
        (concat_ [Sprintf "app %q may reach:\n" [FS (Beam_Slug b)];
                  concat_ (peer_line <$> PV_Targets v);
                  concat_ ((λ e, Sprintf "  - external destination %s (direct egress, this app's workloads only)\n" [FS e]) <$> PV_External v);
                  if negb (PV_KeyMinted v) then "No relay credential exists yet — re-run admin_set_beam_peers (IT) to mint it."
                  else if negb (PV_PreviewHas v) then
                    "The relay credential has NOT reached the preview workload yet — run deploy_beam once; the workload then finds /run/beamhall/c2c.json and /run/secrets/BEAMHALL_C2C_KEY."
                  else
                    "The preview workload holds the relay credential (/run/beamhall/c2c.json + /run/secrets/BEAMHALL_C2C_KEY)."
                    +:+ (if PV_HasLiveChan v && negb (PV_LiveHas v)
                         then " The LIVE workload predates it — promote_to_live will carry it over." else EmptyString)])
        structured)).

Definition pausePreview_ (req : CallRequest) (hall beam : string) : SiM ToolResult :=
  on_beam ScopeBeamsOperate req hall beam (λ actor bh b,
    bp (PausePreview o actor (Beamhall_ID bh) (Beam_ID b));;
    mret (text (Sprintf "beam %q paused; its preview URL is retired. resume_preview wakes it on a new URL." [FS (Beam_Slug b)]))).
Definition resumePreview_ (req : CallRequest) (hall beam : string) : SiM ToolResult :=
  on_beam ScopeBeamsOperate req hall beam (λ actor bh b,
    host ← bp (ResumePreview o actor (Beamhall_ID bh) (Beam_ID b));
    let previewURL := "https://" +:+ host in
    updated ← resolveBeam (Beamhall_ID bh) beam;
    '(_, liveURL) ← channelURLs_ (Beam_ID updated);
    mret (MkToolResult
      (Sprintf "beam %q preview resumed at %s (previous preview URLs are dead)." [FS (Beam_Slug b); FS previewURL])
      (AObj (beamOut_members (beamChannels updated (Beamhall_Slug bh) previewURL liveURL))))).
Definition promoteToLive_ (req : CallRequest) (hall beam : string) : SiM ToolResult :=
  on_beam ScopeBeamsPromote req hall beam (λ actor bh b,
    if promoteApproval o then
      pr ← bp (RequestPromotion actor (Beamhall_ID bh) (Beam_ID b));
      mret (MkToolResult
        (Sprintf "promotion of beam %q requested (request %s) — an IT operator must approve it before it goes live."
           [FS (Beam_Slug b); FS (PR_ID pr)])
        (AObj (beamOut_members (beam_summary b (Beamhall_Slug bh)))))
    else
      host ← bp (PromoteToLive o polls actor (Beamhall_ID bh) (Beam_ID b));
      let liveURL := "https://" +:+ host in
      updated ← resolveBeam (Beamhall_ID bh) beam;
      '(previewURL, _) ← channelURLs_ (Beam_ID updated);
      mret (MkToolResult
        (if decide (Beam_Mode b ≠ ModeLive) then
           Sprintf "beam %q is LIVE at %s (stable URL, no auto-pause; one live slot consumed). Your preview channel keeps running on its own URL — keep iterating there and call promote_to_live again to ship the next version."
             [FS (Beam_Slug b); FS liveURL]
         else
           Sprintf "production for %q rolled forward to your current preview build — live at %s. Your preview channel is untouched, so you can keep iterating."
             [FS (Beam_Slug b); FS liveURL])
        (AObj (beamOut_members (beamChannels updated (Beamhall_Slug bh) previewURL liveURL))))).

(** * IT's promotion gate *)

(** Orchestrator.ListPendingPromotions *)
Definition ListPendingPromotions (actor : Actor) (beamhallID : ID) : OM (list PromotionRequest) :=
  check (requireIT actor);;
  in_store (ListPendingPromotionRequests beamhallID).
Definition listPendingPromotions_ (req : CallRequest) (hall : string) : SiM ToolResult :=
  on_hall ScopeAdminIT req hall (λ actor bh,
    reqs ← bp (ListPendingPromotions actor (Beamhall_ID bh));
    mret (text (match reqs with
      | [] => "no promotion requests are pending."
      | _ => Sprintf "%d pending promotion request(s):\n" [FD (Z.of_nat (length reqs))]
             +:+ concat_ ((λ r, Sprintf "  - %s  beam=%s  requested_by=%s  at=%s\n"
                    [FS (PR_ID r); FS (PR_BeamID r); FS (PR_RequestedBy r); FS (FormatRFC3339 (PR_CreatedAt r))]) <$> reqs)
      end))).
Definition approvePromotion_ (req : CallRequest) (requestID : string) : SiM ToolResult :=
  actor ← resolveActor o srv req ScopeAdminIT;
  host ← bp (ApprovePromotion o polls actor requestID);
  mret (text (Sprintf "promotion %s approved — beam is LIVE at https://%s." [FS requestID; FS host])).
Definition rejectPromotion_ (req : CallRequest) (requestID reason : string) : SiM ToolResult :=
  actor ← resolveActor o srv req ScopeAdminIT;
  bp (RejectPromotion actor requestID reason);;
  mret (text (Sprintf "promotion %s rejected." [FS requestID])).

(** * Rollback, metrics, the end *)

Definition pickRollbackTarget (beam : Beam) (toVersion : Z) : SiM ID :=
  rels ← dir (ListReleasesByBeam (Beam_ID beam));
  let prior := filter (λ r, Rel_Channel r = ChannelLive ∧ Rel_ID r ≠ Beam_LiveReleaseID beam) rels in
  if decide (0 < toVersion)%Z then
    match find (λ r, bool_decide (Rel_Version r = toVersion)) prior with
    | Some r => mret (Rel_ID r)
    | None =>
        throw (ErrMsg (Sprintf "beam %q has no prior production (live) release version %d (available: %v)"
                         [FS (Beam_Slug beam); FD toVersion; FInts (Rel_Version <$> prior)]))
    end
  else
  match prior with
  | [] => throw (ErrMsg (Sprintf "beam %q has no earlier production release to roll back to (it has only ever run its current live build, or was never promoted)"
                           [FS (Beam_Slug beam)]))
  | r :: _ => mret (Rel_ID r)
  end.
Definition rollback_ (req : CallRequest) (hall beam : string) (toVersion : Z) : SiM ToolResult :=
  on_beam ScopeBeamsDeploy req hall beam (λ actor bh b,
    target ← pickRollbackTarget b toVersion;
    host ← bp (RollbackBeam o polls actor (Beamhall_ID bh) (Beam_ID b) target);
    let url := "https://" +:+ host in
    mret (MkToolResult (Sprintf "beam %q rolled back and serving at %s." [FS (Beam_Slug b); FS url])
      (AObj (beamOut_members (MkBeamOut (Beam_Slug b) (Beamhall_Slug bh) (BeamState_string StateRunning)
                                (BeamMode_string (Beam_Mode b)) url EmptyString EmptyString EmptyString))))).
(** Orchestrator.ShowMetrics (internal/orch/rollback.go) *)
Definition showMetrics (beamhallID beamID : ID) : OM Stats :=
  beam ← operableBeam beamhallID beamID;
  if decide (Beam_CurrentReleaseID beam = no_id) then
    throw (ErrMsg ("beam " +:+ beamID +:+ " has no running workload"))
  else
  rel ← in_store (GetRelease (Beam_CurrentReleaseID beam));
  outside (drv_Stats (handleOf rel)).
Definition ShowMetrics (actor : Actor) (beamhallID beamID : ID) : OM Stats :=
  authorize actor ActionShowMetrics beamhallID beamID;;
  with_outcome actor ActionShowMetrics beamhallID beamID (showMetrics beamhallID beamID).
Definition showMetrics_ (req : CallRequest) (hall beam : string) : SiM ToolResult :=
  on_beam ScopeMetricsRead req hall beam (λ actor bh b,
    st ← bp (ShowMetrics actor (Beamhall_ID bh) (Beam_ID b));
    mret (MkToolResult
      (Sprintf "beam %q: CPU %s%%, memory %d/%d bytes, net rx/tx %d/%d bytes."
         [FS (Beam_Slug b); FS (CPUPct_1f st); FD (MemBytes st); FD (MemLimit st); FD (NetRxBytes st); FD (NetTxBytes st)])
      (AObj [("cpu_pct", ANum (CPUPct_json st)); ("mem_bytes", jnum (MemBytes st)); ("mem_limit", jnum (MemLimit st));
             ("net_rx_bytes", jnum (NetRxBytes st)); ("net_tx_bytes", jnum (NetTxBytes st))]))).
Definition destroyBeam_ (req : CallRequest) (hall beam : string) : SiM ToolResult :=
  on_beam ScopeBeamsWrite req hall beam (λ actor bh b,
    bp (DestroyBeam o actor (Beamhall_ID bh) (Beam_ID b));;
    mret (text (Sprintf "beam %q destroyed: workload removed, URL retired, name freed for reuse." [FS (Beam_Slug b)]))).
Definition archiveBeam_ (req : CallRequest) (hall beam : string) : SiM ToolResult :=
  on_beam ScopeBeamsOperate req hall beam (λ actor bh b,
    bp (ArchiveBeam o actor (Beamhall_ID bh) (Beam_ID b));;
    mret (text (Sprintf "beam %q archived: workload stopped, URL retired, quota slot freed. Source and history are retained; the name is free for reuse. This is terminal — to start again, create a new beam."
                  [FS (Beam_Slug b)]))).
(** The placeholder for a facility that does not exist yet. *)
Definition not_enabled (name : string) : SiM ToolResult :=
  throw (ErrMsg (Sprintf "%s is not enabled in this build of Beamhall" [FS name])).
End tools.

(** * The using tier of the MCP server (internal/mcp/tools_user.go): finding the apps published to
    the caller, and calling one. *)

(** errors.As(err, **AmbiguousAppError) *)
Fixpoint as_ambiguous (e : error) : option (string * list string) :=
  match e with
  | ErrAmbiguousApp app ws => Some (app, ws)
  | ErrWrap _ e | ErrAround _ e _ => as_ambiguous e
  | _ => None
  end.
Definition errAppNotPublished (app : string) : error :=
  ErrMsg (Sprintf "no app named %q is published to you. Call list_apps to see what is, or ask IT to publish it to you (admin_set_app_audience)" [FS app]).
Definition errAppAmbiguous (tool : string) (amb : string * list string) : error :=
  ErrMsg (Sprintf "%d workspaces publish an app named %q: %s. Call %s again with workspace set to the one you mean"
            [FD (Z.of_nat (length amb.2)); FS amb.1; FS (Join amb.2 ", "); FS tool]).
(** t.Format of the layout 2006-01-02 *)
Definition FormatDate (t : time) : string := String.substring 0 10 (FormatRFC3339 t).
Definition app_title (v : AppView) : string :=
  if decide (AV_Description v = EmptyString) then AV_DisplayName v else AV_Description v.
Definition appLine (v : AppView) : string :=
  Sprintf "  - %s — %s  (%s)\n" [FS (AV_App v); FS (app_title v); FS (AV_Workspace v)]
  +:+ (if AV_Live v then
         Sprintf "      %s%s\n" [FS (AV_URL v);
           FS (if decide (AV_SignIn v = "company_sso") then "   sign in with your company account" else EmptyString)]
         +:+ (if AV_AgentTools v then Lit_ "      offers agent tools — use_app shows its menu\n" else EmptyString)
       else Lit_ "      (not live yet — the team that owns it hasn't put it into production)\n").
Definition appSummaryOf (v : AppView) : list (string * any) :=
  [("app", AStr (AV_App v))] ++ omit_str "display_name" (AV_DisplayName v)
  ++ omit_str "description" (AV_Description v) ++ [("workspace", AStr (AV_Workspace v))]
  ++ omit_str "url" (AV_URL v)
  ++ [("live", ABool (AV_Live v)); ("sign_in", AStr (AV_SignIn v)); ("agent_tools", ABool (AV_AgentTools v))]
  ++ omit_str "published_at" (FormatDate (AV_PublishedAt v)).

Section user.
Context `{!Env, !Age, !Rand} {X C : Type} `{!Caddy C}.
Context `{!RuntimeDriver X, !Platform X, !DatabaseProvisioner X, !IdentityProvider X, !Brokers X, !McpHost X}.
Context (o : Orchestrator) (srv : Server).
Notation SiM := (SiM (X := X) (C := C)).

Definition listApps_ (req : CallRequest) : SiM ToolResult :=
  actor ← resolveActor o srv req ScopeBeamsUse;
  views ← bp (ListApps o actor);
  mret (MkToolResult
    (match views with
     | [] => "No apps are published to you yet. Ask IT to publish the app you need to you — they do that with admin_set_app_audience, and they'll need your name or a group you belong to. This list only shows apps published TO YOU; it is not the list of everything that exists here, so an empty list does not mean the app is missing."
     | _ => Sprintf "You can use %d app(s):\n\n" [FD (Z.of_nat (length views))] +:+ concat_ (appLine <$> views)
            +:+ Lit_ "\nOpen an app's URL in a browser to use it. Call describe_app with an app's name for detail. Expected an app that isn't here? Ask IT to publish it to you — they do that with admin_set_app_audience."
     end)
    (AObj [("apps", AArr ((λ v, AObj (appSummaryOf v)) <$> views)); ("count", jnum (Z.of_nat (length views)))])).

Definition describeApp_ (req : CallRequest) (app workspace : string) : SiM ToolResult :=
  actor ← resolveActor o srv req ScopeBeamsUse;
  v ← map_error (λ e,
        match as_ambiguous e with
        | Some amb => errAppAmbiguous "describe_app" amb
        | None => if err_is ErrAppNotPublished e then errAppNotPublished app else e
        end) (bp (DescribeApp o actor app workspace));
  mret (MkToolResult
    (concat_ [Sprintf "%s — %s\n\n" [FS (AV_App v); FS (app_title v)];
       if AV_Live v then Sprintf "  Open:      %s\n" [FS (AV_URL v)]
       else Lit_ "  Open:      (not live yet — the owning team hasn't run promote_to_live; ask them)\n";
       Sprintf "  Owned by:  %s (the team that builds and maintains it)\n" [FS (AV_Workspace v)];
       if decide (AV_SignIn v = "company_sso")
       then Lit_ "  Sign in:   your company account (single sign-on) — no separate password\n"
       else Lit_ "  Sign in:   handled by the app itself (not company single sign-on)\n";
       if AV_AgentTools v
       then Lit_ "  Agent tools: yes — call use_app with this app's name to see what it can do for the user without the browser\n"
       else EmptyString;
       Sprintf "  Published to you since: %s\n" [FS (FormatDate (AV_PublishedAt v))];
       Lit_ "\nOpen the URL in a browser to use it. Problems with the app itself go to the owning team; access problems go to IT."])
    (AObj (appSummaryOf v
           ++ [("capabilities", AObj [("browse", ABool true); ("agent_tools", ABool (AV_AgentTools v))])]))).

Record useAppArgs := MkUseAppArgs {
  ua_App : string;
  ua_Workspace : string;
  ua_Tool : string;
  ua_Arguments : list (string * any)}.
Definition use_error (args : useAppArgs) (e : error) : error :=
  match as_ambiguous e with
  | Some amb => errAppAmbiguous "use_app" amb
  | None =>
      if err_is ErrAppNotPublished e then errAppNotPublished (ua_App args)
      else if err_is ErrAppNotLive e then
        ErrMsg (Sprintf "the app %q is not live yet — its tools answer only in production, and the owning team hasn't run promote_to_live. Ask them; describe_app shows the app's status" [FS (ua_App args)])
      else if err_is ErrNoAgentTools e then
        ErrMsg (Sprintf "the app %q does not offer agent tools — it is used in the browser. Call describe_app for its URL and open that instead" [FS (ua_App args)])
      else match as_app_tool e with
           | Some (status, body) =>
               ErrMsg (Sprintf "the app answered HTTP %d to tool %q:\n%s\n\nThis is the app's own refusal or failure, relayed unchanged — the owning team is the right contact if it looks wrong" [FD status; FS (ua_Tool args); FS body])
           | None => e
           end
  end.
Definition use_menu (app : string) (tools : list Tool) : string :=
  match tools with
  | [] => Sprintf "The app %q currently lists no tools — a valid answer from the app (its menu can change with its next release), not an error. Use it in the browser instead: describe_app has the URL." [FS app]
  | _ => Sprintf "The app %q offers %d tool(s):\n\n" [FS app; FD (Z.of_nat (length tools))] +:+ menu_lines tools
         +:+ Lit_ "\nCall use_app again with tool set to one of these names and arguments matching its input_schema (in the structured content). These tools are the app's own — Beamhall relays your call and tells the app who the user is."
  end.
(** A result of UseApp always carries the view of the app. *)
Definition useApp (req : CallRequest) (args : useAppArgs) : SiM ToolResult :=
  actor ← resolveActor o srv req ScopeBeamsUse;
  argBytes ← marshal_args (ua_Arguments args);
  res ← map_error (use_error args)
          (bp (UseApp o actor (MkUseAppRequest (ua_App args) (ua_Workspace args) (ua_Tool args) argBytes)));
  let app := from_option AV_App EmptyString (UA_View res) in
  let workspace := from_option AV_Workspace EmptyString (UA_View res) in
  match UA_Menu res with
  | Some menu =>
      mret (MkToolResult (use_menu app (TM_Tools menu))
              (use_out app workspace (ua_Tool args) (omit_list "tools" (tool_info <$> TM_Tools menu))))
  | None =>
      mret (MkToolResult
        (Sprintf "%s answered tool %q:\n\n%s\n\nThis is the app's own output, relayed by Beamhall — present it to the user as the app's answer."
           [FS app; FS (ua_Tool args); FS (TrimSpace (UA_Result res))])
        (use_out app workspace (ua_Tool args) (result_member (UA_Result res))))
  end.
End user.
