(* ===== verification/McpAdmin.v ===== *)
(** IT's tools of the MCP server (internal/mcp/admin.go): the handlers of the admin_* family. *)
From S2P Require Import Prelude Regexp GoStrings GoNet GoHTTP GoText Domain Gateway Store.
From S2P Require Import StoreOps AuditLog Policy Vault Scrub Outside Orch AppTools Facility.
From S2P Require Import OrchAdmin OrchSensitive OrchTools OrchProvision Tarball Auth GitTokens.
From S2P Require Import GitServer Mcp McpTools.

(** * Arguments *)

Record createBeamhallArgs := MkCreateBeamhallArgs {
  cb_Slug : string;
  cb_DisplayName : string;
  cb_Department : string;
  cb_RuntimeClass : string;
  cb_MaxBeams : Z;
  cb_MaxLiveSlots : Z;
  cb_MaxDatabases : Z}.
(** Absent numbers are nil pointers. *)
Record updateBeamhallArgs := MkUpdateBeamhallArgs {
  ub_Slug : string;
  ub_MaxBeams : option Z;
  ub_MaxLiveSlots : option Z;
  ub_MaxDatabases : option Z;
  ub_Status : string;
  ub_DisplayName : string;
  ub_Department : string}.
Record setBrandingArgs := MkSetBrandingArgs {
  sb_Beamhall : string;
  sb_Branding : Branding;
  sb_LogoPNGBase64 : string;
  sb_ClearLogo : bool;
  sb_Clear : bool}.
Record setAppAudienceArgs := MkSetAppAudienceArgs {
  sa_Beamhall : string;
  sa_Beam : string;
  sa_Everyone : bool;
  sa_Groups : list string;
  sa_Identities : list string;
  sa_Description : string;
  sa_Clear : bool}.
(** An identity by its id, or by issuer and subject. *)
Record identityRef := MkIdentityRef {
  ir_IdentityID : string;
  ir_Issuer : string;
  ir_Subject : string}.

(** Parsing of roles, statuses, modes and isolation tiers. *)
Definition parseRole (s : string) : error + MembershipRole :=
  let r := ToLower (TrimSpace s) in
  if decide (r = MembershipRole_string RoleBuilder) then inr RoleBuilder
  else if decide (r = MembershipRole_string RoleBeamhallAdmin) then inr RoleBeamhallAdmin
  else if decide (r = MembershipRole_string RoleViewer) then inr RoleViewer
  else inl (ErrMsg (Sprintf "role must be builder, beamhall_admin or viewer, got %q" [FS s])).
(** A status is a string; the ones that are a constant's. *)
Definition identity_status (s : string) : string + IdentityStatus :=
  if decide (s = IdentityStatus_string IdentityActive) then inr IdentityActive
  else if decide (s = IdentityStatus_string IdentityDisabled) then inr IdentityDisabled
  else inl s.
Definition beamhall_status (s : string) : string + BeamhallStatus :=
  if decide (s = BeamhallStatus_string BeamhallActive) then inr BeamhallActive
  else if decide (s = BeamhallStatus_string BeamhallSuspended) then inr BeamhallSuspended
  else if decide (s = BeamhallStatus_string BeamhallArchived) then inr BeamhallArchived
  else inl s.
Definition egress_mode (s : string) : error + EgressMode :=
  if decide (s = "deny_all" ∨ s = EmptyString) then inr EgressDenyAll
  else if decide (s = "allowlist" ∨ s = "allow_set") then inr EgressAllowSet
  else inl (ErrMsg (Sprintf "mode must be deny_all or allowlist, got %q" [FS s])).
Definition runtime_class (s : string) : error + RuntimeClass :=
  let c := ToLower s in
  if decide (c = "runc") then inr RuntimeRunc
  else if decide (c = "runsc" ∨ c = "gvisor") then inr RuntimeRunsc
  else inl (ErrMsg (Sprintf "runtime_class must be runc or runsc, got %q" [FS s])).
(** The same with a default when none is given. *)
Definition runtime_class_or_runc (s : string) : error + RuntimeClass :=
  if decide (s = EmptyString) then inr RuntimeRunc else runtime_class s.
(** The quota of a new beamhall: a zero takes the default. *)
Definition or_default (z d : Z) : Z := if decide (z = 0%Z) then d else z.
Definition new_quota (args : createBeamhallArgs) : ResourceQuota :=
  MkResourceQuota (or_default (cb_MaxBeams args) 5) (or_default (cb_MaxLiveSlots args) 1)
    (or_default (cb_MaxDatabases args) 2) 0 0 0.
(** An empty string leaves a field as it is. *)
Definition given (s : string) : option string := if decide (s = EmptyString) then None else Some s.
Definition beamhall_update (args : updateBeamhallArgs) : BeamhallUpdate :=
  MkBeamhallUpdate (ub_MaxBeams args) (ub_MaxLiveSlots args) (ub_MaxDatabases args)
    (beamhall_status <$> given (ub_Status args)) (given (ub_DisplayName args)) (given (ub_Department args)).
Definition no_update (u : BeamhallUpdate) : bool :=
  match u with MkBeamhallUpdate None None None None None None => true | _ => false end.
Definition maxLogoBytes_ : Z := 2 ^ 20.
Definition logo_too_big : error :=
  ErrMsg (Sprintf "logo_png_base64 exceeds %d MB — use a smaller PNG" [FD (maxLogoBytes_ / 2 ^ 20)]).

Definition idpErr (e : error) : error :=
  if Contains (Error e) (Error idp_not_enabled) then
    ErrAround EmptyString e " — this appliance uses an external IdP; manage users/groups in that IdP, or run Beamhall's bundled Keycloak to administer identities here"
  else e.
Definition sensitiveRequestReply (ar : AdminActionRequest) : string :=
  Sprintf "%s — SENSITIVE, so it does NOT take effect yet (request %s). A DIFFERENT IT operator must run admin_approve_request %s (the requester cannot approve their own). Review the queue with admin_list_pending_requests."
    [FS (AAR_Summary ar); FS (AAR_ID ar); FS (AAR_ID ar)].
Definition request_id (ar : AdminActionRequest) : any := AObj [("request_id", AStr (AAR_ID ar))].

Section admin.
Context `{!Env, !Age, !Rand} {X C : Type} `{!Caddy C}.
Context `{!RuntimeDriver X, !Platform X, !Directory X, !Appliance X}.
Context `{!DatabaseProvisioner X, !IdentityProvider X, !Brokers X, !McpHost X}.
Context (o : Orchestrator) (srv : Server).
Context (path_join : string → string → string) (goos_goarch : string).
Notation SiM := (SiM (X := X) (C := C)).
Notation OM := (OM (X := X) (C := C)).

(** The step every handler begins with, and the one of those that name a beam. *)
Definition as_it (req : CallRequest) (k : Actor → SiM ToolResult) : SiM ToolResult :=
  actor ← resolveActor o srv req ScopeAdminIT;
  k actor.
Definition it_on_beam (req : CallRequest) (hall beam : string) (k : Actor → Beamhall → Beam → SiM ToolResult)
    : SiM ToolResult :=
  on_beam o srv ScopeAdminIT req hall beam k.
(** The reply of the tools that file a request. *)
Definition filed (m : SiM AdminActionRequest) : SiM ToolResult :=
  ar ← m;
  mret (MkToolResult (sensitiveRequestReply ar) (request_id ar)).

(** * Identities and memberships *)

Definition resolveIdentityRef (r : identityRef) : SiM ID :=
  if decide (ir_IdentityID r ≠ EmptyString) then mret (ir_IdentityID r)
  else if decide (ir_Issuer r = EmptyString ∨ ir_Subject r = EmptyString) then
    throw (ErrMsg "give identity_id, or both issuer and subject")
  else
  ident ← map_error (λ _, ErrMsg "no registered identity for that issuer+subject")
            (dir (GetIdentityByIssuerSubject (ir_Issuer r) (ir_Subject r)));
  mret (Identity_ID ident).

Definition adminRegisterIdentity (req : CallRequest) (issuer subject email displayName : string) : SiM ToolResult :=
  as_it req (λ actor,
    ident ← bp (RegisterIdentity actor issuer subject email displayName);
    mret (MkToolResult
      (Sprintf "identity registered (id %s) for subject %q. Grant it access with admin_grant_membership (identity_id %s)."
         [FS (Identity_ID ident); FS (Identity_ExternalSubject ident); FS (Identity_ID ident)])
      (AObj [("identity_id", AStr (Identity_ID ident))]))).
Definition adminGrantMembership (req : CallRequest) (hall role : string) (ref : identityRef) : SiM ToolResult :=
  as_it req (λ actor,
    role ← bp (of_sum (parseRole role));
    bh ← resolveBeamhall hall;
    identID ← (if decide (ir_IdentityID ref ≠ EmptyString) then mret (ir_IdentityID ref)
               else if decide (ir_Issuer ref = EmptyString ∨ ir_Subject ref = EmptyString) then
                 throw (ErrMsg "give identity_id, or both issuer and subject")
               else
               ident ← map_error (λ _, ErrMsg "no registered identity for that issuer+subject — run admin_register_identity first")
                         (dir (GetIdentityByIssuerSubject (ir_Issuer ref) (ir_Subject ref)));
               mret (Identity_ID ident));
    bp (GrantMembership actor identID (Beamhall_ID bh) role);;
    mret (text (Sprintf "granted %s role %q in beamhall %q."
                  [FS identID; FS (MembershipRole_string role); FS (Beamhall_Slug bh)]))).
Definition adminListIdentities (req : CallRequest) : SiM ToolResult :=
  as_it req (λ actor,
    idents ← bp (AdminListIdentities actor);
    match idents with
    | [] => mret (text "no identities registered yet.")
    | _ => mret (MkToolResult
        (Sprintf "%d registered identit(ies):\n" [FD (Z.of_nat (length idents))]
         +:+ concat_ ((λ i, Sprintf "  - %s  subject=%s  email=%s  issuer=%s\n"
                [FS (Identity_ID i); FS (Identity_ExternalSubject i); FS (Identity_Email i); FS (Identity_IdPIssuer i)]) <$> idents))
        (AObj [("identities", AArr ((λ i, AObj [("identity_id", AStr (Identity_ID i)); ("subject", AStr (Identity_ExternalSubject i));
            ("email", AStr (Identity_Email i)); ("issuer", AStr (Identity_IdPIssuer i))]) <$> idents))]))
    end).
Definition adminSetMembershipRole (req : CallRequest) (hall role : string) (ref : identityRef) : SiM ToolResult :=
  as_it req (λ actor,
    role ← bp (of_sum (parseRole role));
    identID ← resolveIdentityRef ref;
    bh ← resolveBeamhall hall;
    bp (SetMembershipRole actor identID (Beamhall_ID bh) role);;
    mret (MkToolResult
      (Sprintf "member %s in beamhall %q now has role %q." [FS identID; FS (Beamhall_Slug bh); FS (MembershipRole_string role)])
      (AObj [("identity_id", AStr identID); ("beamhall", AStr (Beamhall_Slug bh)); ("role", AStr (MembershipRole_string role))]))).
Definition adminDeregisterIdentity (req : CallRequest) (ref : identityRef) : SiM ToolResult :=
  as_it req (λ actor,
    identID ← resolveIdentityRef ref;
    bp (DeregisterIdentity actor identID);;
    mret (MkToolResult (Sprintf "identity %s deregistered." [FS identID]) (AObj [("identity_id", AStr identID)]))).
Definition adminRevokeMembership (req : CallRequest) (hall : string) (ref : identityRef) : SiM ToolResult :=
  as_it req (λ actor,
    identID ← resolveIdentityRef ref;
    bh ← resolveBeamhall hall;
    bp (RevokeMembership actor identID (Beamhall_ID bh));;
    mret (MkToolResult (Sprintf "revoked %s access to beamhall %q." [FS identID; FS (Beamhall_Slug bh)])
      (AObj [("identity_id", AStr identID); ("beamhall", AStr (Beamhall_Slug bh))]))).
Definition adminSetIdentityStatus (req : CallRequest) (status : string) (ref : identityRef) : SiM ToolResult :=
  as_it req (λ actor,
    identID ← resolveIdentityRef ref;
    bp (SetIdentityStatus actor identID (identity_status status));;
    let verb := if decide (status = IdentityStatus_string IdentityActive) then "re-enabled"
                else "disabled (all authorization now fails)" in
    mret (MkToolResult (Sprintf "identity %s %s." [FS identID; FS verb])
      (AObj [("identity_id", AStr identID); ("status", AStr status)]))).

(** * Beamhalls *)

Definition adminListBeamhalls (req : CallRequest) : SiM ToolResult :=
  as_it req (λ actor,
    halls ← bp (AdminListBeamhalls actor);
    match halls with
    | [] => mret (text "no beamhalls (workspaces) exist yet. Create one with admin_create_beamhall.")
    | _ => mret (MkToolResult
        (Sprintf "%d beamhall(s):\n" [FD (Z.of_nat (length halls))]
         +:+ concat_ ((λ h, Sprintf "  - %s  status=%s  egress=%s  quota=%d beams/%d live/%d db\n"
                [FS (Beamhall_Slug h); FS (BeamhallStatus_string (Beamhall_Status h));
                 FS (EgressMode_string (NP_EgressMode (Beamhall_NetworkPolicy h)));
                 FD (MaxBeams (Beamhall_Quota h)); FD (Beamhall_LiveSlotLimit h); FD (MaxDBCount (Beamhall_Quota h))]) <$> halls))
        (AObj [("beamhalls", AArr ((λ h, AObj [("slug", AStr (Beamhall_Slug h)); ("display_name", AStr (Beamhall_DisplayName h));
            ("department", AStr (Beamhall_Department h)); ("status", AStr (BeamhallStatus_string (Beamhall_Status h)));
            ("egress_mode", AStr (EgressMode_string (NP_EgressMode (Beamhall_NetworkPolicy h))));
            ("max_beams", jnum (MaxBeams (Beamhall_Quota h))); ("max_live_slots", jnum (Beamhall_LiveSlotLimit h));
            ("max_databases", jnum (MaxDBCount (Beamhall_Quota h)))]) <$> halls))]))
    end).
Definition member_line (m : MemberView) : string :=
  Sprintf "    - %s  role=%s  email=%s\n" [FS (MV_Subject m); FS (MembershipRole_string (MV_Role m)); FS (MV_Email m)].
Definition beam_line (b : BeamView) : string :=
  Sprintf "    - %s  state=%s  mode=%s  live=%s"
    [FS (BV_Slug b); FS (BeamState_string (BV_State b)); FS (BeamMode_string (BV_Mode b)); FS (BeamState_string (BV_LiveState b))]
  +:+ (if decide (BV_PreviewURL b ≠ EmptyString) then "  preview=" +:+ BV_PreviewURL b else EmptyString)
  +:+ (if decide (BV_LiveURL b ≠ EmptyString) then "  live_url=" +:+ BV_LiveURL b else EmptyString)
  +:+ String newline EmptyString.
Definition adminShowBeamhall (req : CallRequest) (slug : string) : SiM ToolResult :=
  as_it req (λ actor,
    v ← bp (AdminBeamhallView actor slug);
    let h := BHV_Beamhall v in
    let np := Beamhall_NetworkPolicy h in
    mret (MkToolResult
      (concat_
        ([Sprintf "beamhall %q (status %s)\n" [FS (Beamhall_Slug h); FS (BeamhallStatus_string (Beamhall_Status h))];
          Sprintf "  egress: %s  allowlist=[%s]\n"
            [FS (EgressMode_string (NP_EgressMode np)); FS (Join (NP_EgressAllowlist np) " ")];
          Sprintf "  quota:  %d beams / %d live slots / %d databases\n"
            [FD (MaxBeams (Beamhall_Quota h)); FD (Beamhall_LiveSlotLimit h); FD (MaxDBCount (Beamhall_Quota h))];
          Sprintf "  members (%d):\n" [FD (Z.of_nat (length (BHV_Members v)))]]
         ++ (member_line <$> BHV_Members v)
         ++ [Sprintf "  beams (%d):\n" [FD (Z.of_nat (length (BHV_Beams v)))]]
         ++ (beam_line <$> BHV_Beams v)))
      (AObj [("slug", AStr (Beamhall_Slug h)); ("status", AStr (BeamhallStatus_string (Beamhall_Status h)));
             ("egress_mode", AStr (EgressMode_string (NP_EgressMode np))); ("allowlist", jslice (AStr <$> NP_EgressAllowlist np));
             ("members", AArr ((λ m, AObj [("subject", AStr (MV_Subject m)); ("email", AStr (MV_Email m));
                ("role", AStr (MembershipRole_string (MV_Role m))); ("identity_id", AStr (MV_IdentityID m))]) <$> BHV_Members v));
             ("beams", AArr ((λ b, AObj [("slug", AStr (BV_Slug b)); ("state", AStr (BeamState_string (BV_State b)));
                ("mode", AStr (BeamMode_string (BV_Mode b))); ("live_state", AStr (BeamState_string (BV_LiveState b)));
                ("preview_url", AStr (BV_PreviewURL b)); ("live_url", AStr (BV_LiveURL b))]) <$> BHV_Beams v))]))).
Definition adminSetEgress (req : CallRequest) (slug mode : string) (allowlist : list string) : SiM ToolResult :=
  as_it req (λ actor,
    mode ← bp (of_sum (egress_mode mode));
    bh ← resolveBeamhall slug;
    bp (SetEgress o actor (Beamhall_ID bh) mode allowlist);;
    mret (text (Sprintf "egress for %q set to %s (%d allowlist entr%s). Re-asserted on the next deploy."
                  [FS slug; FS (EgressMode_string mode); FD (Z.of_nat (length allowlist));
                   FS (if decide (length allowlist = 1) then "y" else "ies")]))).
Definition adminCreateBeamhall (req : CallRequest) (args : createBeamhallArgs) : SiM ToolResult :=
  as_it req (λ actor,
    rc ← bp (of_sum (runtime_class_or_runc (cb_RuntimeClass args)));
    let q := new_quota args in
    bh ← bp (Admin_CreateBeamhall actor (MkNewBeamhallSpec (cb_Slug args) (cb_DisplayName args) (cb_Department args)
               (Some rc) None q (MaxLiveSlots q) None []));
    mret (MkToolResult
      (Sprintf "beamhall %q created (runtime_class %s; quota %d beams / %d live / %d databases). Grant builders access with admin_grant_membership."
         [FS (Beamhall_Slug bh); FS (RuntimeClass_string rc); FD (MaxBeams q); FD (MaxLiveSlots q); FD (MaxDBCount q)])
      (AObj [("beamhall", AStr (Beamhall_Slug bh))]))).
Definition adminUpdateBeamhall (req : CallRequest) (args : updateBeamhallArgs) : SiM ToolResult :=
  as_it req (λ actor,
    let upd := beamhall_update args in
    if no_update upd then
      throw (ErrMsg "nothing to update: set at least one of max_beams, max_live_slots, max_databases, status, display_name, department")
    else
    bh ← bp (AdminUpdateBeamhall actor (ub_Slug args) upd);
    let q := Beamhall_Quota bh in
    mret (MkToolResult
      (Sprintf "beamhall %q updated: status=%s, quota %d beams / %d live slots / %d databases."
         [FS (Beamhall_Slug bh); FS (BeamhallStatus_string (Beamhall_Status bh)); FD (MaxBeams q);
          FD (Beamhall_LiveSlotLimit bh); FD (MaxDBCount q)])
      (AObj [("slug", AStr (Beamhall_Slug bh)); ("status", AStr (BeamhallStatus_string (Beamhall_Status bh)));
             ("max_beams", jnum (MaxBeams q)); ("max_live_slots", jnum (Beamhall_LiveSlotLimit bh));
             ("max_databases", jnum (MaxDBCount q))]))).

(** * Accounts and groups of the bundled IdP *)

Definition adminCreateUser (req : CallRequest) (username email firstName lastName : string) : SiM ToolResult :=
  as_it req (λ actor,
    u ← map_error idpErr (bp (AdminCreateUser o actor (MkNewUser username email firstName lastName true)));
    mret (MkToolResult
      (Sprintf "user %q created (id %s). Set a first password with admin_set_user_password, then have them sign in and you can admin_register_identity + admin_grant_membership for their access."
         [FS (User_Username u); FS (User_ID u)])
      (AObj [("user_id", AStr (User_ID u)); ("username", AStr (User_Username u))]))).
Definition bool_v (b : bool) : string := if b then "true" else "false".
Definition adminListUsers (req : CallRequest) (query : string) (max : Z) : SiM ToolResult :=
  as_it req (λ actor,
    users ← map_error idpErr (bp (AdminListUsers o actor query max));
    match users with
    | [] => mret (text "no matching users.")
    | _ => mret (MkToolResult
        (Sprintf "%d user(s):\n" [FD (Z.of_nat (length users))]
         +:+ concat_ ((λ u, Sprintf "  - %s  username=%s  email=%s  enabled=%v\n"
                [FS (User_ID u); FS (User_Username u); FS (User_Email u); FS (bool_v (User_Enabled u))]) <$> users))
        (AObj [("users", AArr ((λ u, AObj [("user_id", AStr (User_ID u)); ("username", AStr (User_Username u));
            ("email", AStr (User_Email u)); ("enabled", ABool (User_Enabled u))]) <$> users))]))
    end).
Definition adminSetUserPassword (req : CallRequest) (userID password : string) : SiM ToolResult :=
  as_it req (λ actor,
    map_error idpErr (bp (AdminSetUserPassword o actor userID password));;
    mret (text (Sprintf "temporary password set for user %s; they must change it at next login." [FS userID]))).
Definition adminSetUserEnabled (req : CallRequest) (userID : string) (enabled : bool) : SiM ToolResult :=
  as_it req (λ actor,
    map_error idpErr (bp (AdminSetUserEnabled o actor userID enabled));;
    mret (MkToolResult (Sprintf "bundled-IdP user %s %s." [FS userID; FS (if enabled then "enabled" else "disabled")])
      (AObj [("user_id", AStr userID); ("enabled", ABool enabled)]))).
Definition adminCreateGroup (req : CallRequest) (name : string) : SiM ToolResult :=
  as_it req (λ actor,
    g ← map_error idpErr (bp (AdminCreateGroup o actor name));
    mret (MkToolResult (Sprintf "group %q created (id %s)." [FS (Group_Name g); FS (Group_ID g)])
      (AObj [("group_id", AStr (Group_ID g)); ("name", AStr (Group_Name g))]))).
Definition adminListGroups (req : CallRequest) : SiM ToolResult :=
  as_it req (λ actor,
    groups ← map_error idpErr (bp (AdminListGroups o actor));
    match groups with
    | [] => mret (text "no groups.")
    | _ => mret (MkToolResult
        (Sprintf "%d group(s):\n" [FD (Z.of_nat (length groups))]
         +:+ concat_ ((λ g, Sprintf "  - %s  name=%s  path=%s\n" [FS (Group_ID g); FS (Group_Name g); FS (Group_Path g)]) <$> groups))
        (AObj [("groups", AArr ((λ g, AObj [("group_id", AStr (Group_ID g)); ("name", AStr (Group_Name g));
            ("path", AStr (Group_Path g))]) <$> groups))]))
    end).
Definition adminAddUserToGroup (req : CallRequest) (userID groupID : string) : SiM ToolResult :=
  as_it req (λ actor,
    map_error idpErr (bp (AdminAddUserToGroup o actor userID groupID));;
    mret (text (Sprintf "user %s added to group %s." [FS userID; FS groupID]))).
Definition adminRemoveUserFromGroup (req : CallRequest) (userID groupID : string) : SiM ToolResult :=
  as_it req (λ actor,
    map_error idpErr (bp (AdminRemoveUserFromGroup o actor userID groupID));;
    mret (text (Sprintf "user %s removed from group %s." [FS userID; FS groupID]))).
Definition adminDeleteUser (req : CallRequest) (userID : string) : SiM ToolResult :=
  as_it req (λ actor,
    map_error idpErr (bp (AdminDeleteUser o actor userID));;
    mret (MkToolResult (Sprintf "bundled-IdP user %s permanently deleted." [FS userID]) (AObj [("user_id", AStr userID)]))).
Definition adminDeleteGroup (req : CallRequest) (groupID : string) : SiM ToolResult :=
  as_it req (λ actor,
    map_error idpErr (bp (AdminDeleteGroup o actor groupID));;
    mret (MkToolResult (Sprintf "bundled-IdP group %s permanently deleted." [FS groupID]) (AObj [("group_id", AStr groupID)]))).

(** * The sensitive tier *)

Definition adminFederateDirectory (req : CallRequest) (d : DirectoryFederation) : SiM ToolResult :=
  as_it req (λ actor,
    ar ← map_error idpErr (bp (RequestFederateDirectory o actor d));
    mret (MkToolResult
      (Sprintf "federation of directory %q requested (request %s). This is a SENSITIVE change to who can sign in, so it does not take effect yet — a DIFFERENT IT operator must run admin_approve_request %s. The bind password is sealed at rest."
         [FS (DF_Name d); FS (AAR_ID ar); FS (AAR_ID ar)])
      (request_id ar))).
Definition adminUnfederateDirectory (req : CallRequest) (name : string) : SiM ToolResult :=
  as_it req (λ actor, filed (map_error idpErr (bp (RequestUnfederateDirectory o actor name)))).
Definition adminSetSecurityContext (req : CallRequest) (slug runtimeClass : string) : SiM ToolResult :=
  as_it req (λ actor,
    rc ← bp (of_sum (runtime_class runtimeClass));
    filed (bp (RequestSetSecurityContext o actor slug rc))).
Definition adminPruneAudit (req : CallRequest) (throughSeq : Z) : SiM ToolResult :=
  as_it req (λ actor, filed (bp (RequestPruneAudit o actor throughSeq))).
Definition adminRestoreBackup (req : CallRequest) (name : string) : SiM ToolResult :=
  as_it req (λ actor, filed (bp (RequestRestoreBackup o path_join actor name))).
Definition adminRequestUpgrade (req : CallRequest) (version expectedSHA256 : string) : SiM ToolResult :=
  as_it req (λ actor, filed (bp (RequestUpgrade o goos_goarch actor version expectedSHA256))).
Definition adminListPendingRequests (req : CallRequest) : SiM ToolResult :=
  as_it req (λ actor,
    reqs ← bp (ListPendingAdminActions actor);
    match reqs with
    | [] => mret (text "no sensitive admin actions are pending approval.")
    | _ => mret (MkToolResult
        (Sprintf "%d sensitive action(s) awaiting four-eyes approval:\n" [FD (Z.of_nat (length reqs))]
         +:+ concat_ ((λ r, Sprintf "  - %s  type=%s  requested_by=%s  %s\n"
                [FS (AAR_ID r); FS (AdminActionType_string (AAR_ActionType r)); FS (AAR_RequestedBy r); FS (AAR_Summary r)]) <$> reqs))
        (AObj [("requests", AArr ((λ r, AObj [("request_id", AStr (AAR_ID r)); ("type", AStr (AdminActionType_string (AAR_ActionType r)));
            ("requested_by", AStr (AAR_RequestedBy r)); ("summary", AStr (AAR_Summary r))]) <$> reqs))]))
    end).
Definition adminApproveRequest (req : CallRequest) (requestID : string) : SiM ToolResult :=
  as_it req (λ actor,
    ar ← map_error idpErr (bp (ApproveAdminAction o path_join actor requestID));
    mret (text (Sprintf "request %s approved and executed" [FS requestID]
                +:+ (if decide (AAR_Result ar ≠ EmptyString) then ": " +:+ AAR_Result ar else EmptyString) +:+ "."))).
Definition adminRejectRequest (req : CallRequest) (requestID reason : string) : SiM ToolResult :=
  as_it req (λ actor,
    bp (RejectAdminAction actor requestID reason);;
    mret (text (Sprintf "request %s rejected." [FS requestID]))).

(** * Releases, the audit log, backups *)

Definition adminListReleases (req : CallRequest) (hall beam : string) : SiM ToolResult :=
  it_on_beam req hall beam (λ actor bh b,
    rels ← bp (AdminListReleases actor (Beam_ID b));
    match rels with
    | [] => mret (MkToolResult
        (Sprintf "beam %q has no production (live) releases yet — promote_to_live creates the first." [FS (Beam_Slug b)])
        (AObj [("releases", AArr [])]))
    | _ => mret (MkToolResult
        (Sprintf "%d production release(s) for beam %q (newest first):\n" [FD (Z.of_nat (length rels)); FS (Beam_Slug b)]
         +:+ concat_ ((λ r, Sprintf "  - %s  release_id=%s  to_version=%d%s\n"
                [FS (RE_Label r); FS (RE_ReleaseID r); FD (RE_Version r); FS (if RE_Current r then "  <- current" else EmptyString)]) <$> rels)
         +:+ "Roll back with the rollback tool (to_version = the number above).")
        (AObj [("releases", AArr ((λ r, AObj [("label", AStr (RE_Label r)); ("release_id", AStr (RE_ReleaseID r));
            ("to_version", jnum (RE_Version r)); ("current", ABool (RE_Current r))]) <$> rels))]))
    end).
Definition audit_line (e : AuditEntry) : string :=
  Sprintf "  #%d  %s  %s  %s  actor=%s"
    [FD (AE_Seq e); FS (FormatRFC3339 (AE_At e)); FS (AuditDecision_string (AE_Decision e)); FS (AE_Action e); FS (AE_Actor e)]
  +:+ (if decide (AE_Beamhall e ≠ EmptyString) then "  beamhall=" +:+ AE_Beamhall e else EmptyString)
  +:+ (if decide (AE_ResultStatus e ≠ EmptyString) then "  result=" +:+ AE_ResultStatus e else EmptyString)
  +:+ (if decide (AE_Reason e ≠ EmptyString) then "  reason=" +:+ AE_Reason e else EmptyString)
  +:+ String newline EmptyString.
Definition audit_json (e : AuditEntry) : any :=
  AObj [("seq", jnum (AE_Seq e)); ("at", AStr (FormatRFC3339 (AE_At e))); ("action", AStr (AE_Action e));
        ("decision", AStr (AuditDecision_string (AE_Decision e))); ("actor", AStr (AE_Actor e));
        ("beamhall", AStr (AE_Beamhall e)); ("beam", AStr (AE_Beam e)); ("result", AStr (AE_ResultStatus e));
        ("reason", AStr (AE_Reason e)); ("source_ip", AStr (AE_SourceIP e))].
Definition max_seq (entries : list AuditEntry) : Z :=
  foldl (λ m e, if decide (m < AE_Seq e)%Z then AE_Seq e else m) 0%Z entries.
Definition adminQueryAudit (req : CallRequest) (hall : string) (afterSeq limit : Z) : SiM ToolResult :=
  as_it req (λ actor,
    entries ← bp (AdminQueryAudit actor hall afterSeq limit);
    match entries with
    | [] => mret (MkToolResult "no audit events match." (AObj [("events", AArr [])]))
    | _ =>
        let scope := if decide (hall ≠ EmptyString) then "beamhall " +:+ hall else "appliance-wide" in
        mret (MkToolResult
          (Sprintf "%d audit event(s) (%s):\n" [FD (Z.of_nat (length entries)); FS scope]
           +:+ concat_ (audit_line <$> entries)
           +:+ Sprintf "(next_after_seq=%d to page forward)" [FD (max_seq entries)])
          (AObj [("events", AArr (audit_json <$> entries)); ("next_after_seq", jnum (max_seq entries))]))
    end).
Definition Issue_String (i : Issue) : string := Sprintf "seq %d: %s" [FD (Issue_Seq i); FS (Issue_Reason i)].
Definition verdict (issues : list Issue) (cp : option AuditCheckpoint) : ToolResult :=
  MkToolResult
    ((match issues with
      | [] => "audit chain VERIFIED — intact, no tampering detected."
      | _ => Sprintf "audit chain INTEGRITY VIOLATION — %d issue(s):\n" [FD (Z.of_nat (length issues))]
             +:+ concat_ ((λ i, Sprintf "  - %s\n" [FS (Issue_String i)]) <$> issues)
      end)
     +:+ (match cp with
          | Some cp => Sprintf "\n(retention checkpoint: %d event(s) pruned through seq %d on %s; verification resumes from there)"
                         [FD (CP_PrunedCount cp); FD (CP_ThroughSeq cp); FS (FormatRFC3339 (CP_At cp))]
          | None => EmptyString
          end))
    (AObj ([("intact", ABool (bool_decide (issues = []))); ("issues", jslice ((λ i, AStr (Issue_String i)) <$> issues))]
           ++ match cp with
              | Some cp => [("checkpoint", AObj [("through_seq", jnum (CP_ThroughSeq cp)); ("pruned_count", jnum (CP_PrunedCount cp))])]
              | None => []
              end)).
(** The batches of Verify are at most as many as the records, and one that is empty. *)
Definition verify_fuel : OM nat := gets (λ w, S (length (db_audit (w_db w)))).
Definition adminVerifyAuditChain (req : CallRequest) : SiM ToolResult :=
  as_it req (λ actor,
    fuel ← bp verify_fuel;
    '(issues, cp) ← bp (AdminVerifyAuditChain fuel actor);
    match issues with
    | Some issues => mret (verdict issues cp)
    | None => throw (ErrMsg "more batches than records")
    end).
Definition adminBackupNow (req : CallRequest) : SiM ToolResult :=
  as_it req (λ actor,
    now ← dir now;
    info ← bp (AdminBackupNow o path_join actor now);
    mret (MkToolResult
      (Sprintf "backup written: %s (%d bytes, created %s; secret key + repos included). Verified intact. List with admin_list_backups."
         [FS (BI_Name info); FD (BI_SizeBytes info); FS (BI_CreatedAt info)])
      (AObj [("name", AStr (BI_Name info)); ("size_bytes", jnum (BI_SizeBytes info)); ("created_at", AStr (BI_CreatedAt info));
             ("has_secret_key", ABool (BI_HasKey info)); ("has_repos", ABool (BI_HasRepos info)); ("valid", ABool (BI_Valid info))]))).
Definition adminListBackups (req : CallRequest) : SiM ToolResult :=
  as_it req (λ actor,
    backups ← bp (AdminListBackups o path_join actor);
    match backups with
    | [] => mret (MkToolResult "no backups yet — take one with admin_backup_now." (AObj [("backups", AArr [])]))
    | _ => mret (MkToolResult
        (Sprintf "%d backup(s) (newest first):\n" [FD (Z.of_nat (length backups))]
         +:+ concat_ ((λ k, Sprintf "  - %s  created=%s  %d bytes  [%s]\n"
                [FS (BI_Name k); FS (BI_CreatedAt k); FD (BI_SizeBytes k);
                 FS (if BI_Valid k then "verified" else "INVALID: " +:+ BI_Error k)]) <$> backups))
        (AObj [("backups", AArr ((λ k, AObj [("name", AStr (BI_Name k)); ("created_at", AStr (BI_CreatedAt k));
            ("size_bytes", jnum (BI_SizeBytes k)); ("valid", ABool (BI_Valid k)); ("error", AStr (BI_Error k));
            ("has_secret_key", ABool (BI_HasKey k)); ("has_repos", ABool (BI_HasRepos k))]) <$> backups))]))
    end).

(** * Facilities *)

Definition adminSetEmailProvider (req : CallRequest) (smarthost username password : string) (startTLS : option bool)
    : SiM ToolResult :=
  as_it req (λ actor,
    bp (SetEmailProvider o actor smarthost username password (default true startTLS));;
    mret (if decide (TrimSpace smarthost = EmptyString) then
      MkToolResult "outbound email is now DISABLED (smarthost cleared); provision_email is unavailable to builders until you set a smarthost again."
        (AObj [("enabled", ABool false)])
    else
      MkToolResult
        (Sprintf "outbound email enabled — Beamhall relays through %s. Builders can now provision_email; allow each beam's From addresses with admin_set_email_senders."
           [FS smarthost])
        (AObj [("enabled", ABool true); ("smarthost", AStr smarthost)]))).
Definition adminSetObjectStoreProvider (req : CallRequest) (endpoint region bucket accessKey secretKey : string)
    (forcePathStyle useSSL : option bool) : SiM ToolResult :=
  as_it req (λ actor,
    bp (SetObjectStoreProvider o actor endpoint region bucket accessKey secretKey
          (default true forcePathStyle) (default true useSSL));;
    mret (if decide (TrimSpace endpoint = EmptyString) then
      MkToolResult "object storage now uses Beamhall's built-in LOCAL store (no external account). Builders use provision_object_store; data is kept on the appliance."
        (AObj [("backend", AStr "local")])
    else
      MkToolResult
        (Sprintf "object storage now FORWARDS to %s (bucket %s). Builders' data lands there under a per-beam prefix; the credential is held by Beamhall and never exposed."
           [FS endpoint; FS bucket])
        (AObj [("backend", AStr "external"); ("endpoint", AStr endpoint); ("bucket", AStr bucket)]))).
Definition adminSetObjectStoreQuota (req : CallRequest) (hall beam : string) (maxBytes : Z) : SiM ToolResult :=
  it_on_beam req hall beam (λ actor bh b,
    map_error objStoreDisabledErr (bp (SetObjectStoreQuota o actor (Beamhall_ID bh) (Beam_ID b) maxBytes));;
    mret (MkToolResult
      (if decide (maxBytes = 0%Z) then Sprintf "beam %q object-storage quota set to unlimited." [FS (Beam_Slug b)]
       else Sprintf "beam %q object-storage quota set to %d bytes." [FS (Beam_Slug b); FD maxBytes])
      (AObj [("max_bytes", jnum maxBytes)]))).
Definition adminSetEmailSenders (req : CallRequest) (hall beam : string) (senders : list string) : SiM ToolResult :=
  it_on_beam req hall beam (λ actor bh b,
    map_error emailDisabledErr (bp (SetEmailSenders o actor (Beamhall_ID bh) (Beam_ID b) senders));;
    mret (MkToolResult
      (match senders with
       | [] => Sprintf "beam %q may now send from no addresses (all outbound mail blocked)." [FS (Beam_Slug b)]
       | _ => Sprintf "beam %q may now send email as: %s." [FS (Beam_Slug b); FS (Join senders ", ")]
       end) (AObj [("senders", jstrs senders)]))).
Definition adminSetAuthGroups (req : CallRequest) (hall beam : string) (groups : list string) : SiM ToolResult :=
  it_on_beam req hall beam (λ actor bh b,
    map_error idpErr (bp (SetAuthGroups o actor (Beamhall_ID bh) (Beam_ID b) groups));;
    mret (MkToolResult
      (match groups with
       | [] => Sprintf "beam %q sign-in now exposes no employee groups." [FS (Beam_Slug b)]
       | _ => Sprintf "beam %q sign-in may now carry groups: %s." [FS (Beam_Slug b); FS (Join groups ", ")]
       end) (AObj [("groups", jstrs groups)]))).

(** The logo, rejected on its encoded length before it is decoded. *)
Definition decode_logo (b64 : string) : error + option string :=
  if decide (b64 = EmptyString) then inr None
  else if decide (maxLogoBytes_ < Std_DecodedLen (Z.of_nat (String.length b64)))%Z then inl logo_too_big
  else match Std_DecodeString b64 with
       | None => inl (ErrWrap "logo_png_base64 is not valid base64: " (ErrMsg (base64_error b64)))
       | Some raw => if decide (maxLogoBytes_ < Z.of_nat (String.length raw))%Z then inl logo_too_big
                     else inr (Some raw)
       end.
(** The scope of a branding and what it is called. *)
Definition branding_scope (hall : string) : SiM (ID * string) :=
  if decide (hall = EmptyString) then mret (FacilityScope, "the company-wide default")
  else bh ← resolveBeamhall hall; mret (Beamhall_ID bh, Sprintf "beamhall %q" [FS (Beamhall_Slug bh)]).
Definition adminSetBranding (req : CallRequest) (args : setBrandingArgs) : SiM ToolResult :=
  as_it req (λ actor,
    '(scopeID, scopeName) ← branding_scope (sb_Beamhall args);
    logo ← bp (of_sum (decode_logo (sb_LogoPNGBase64 args)));
    bp (SetBranding actor scopeID (MkBrandingSpec (sb_Branding args) logo (sb_ClearLogo args) (sb_Clear args)));;
    if sb_Clear args then
      mret (MkToolResult
        (if decide (scopeID ≠ FacilityScope)
         then Sprintf "branding cleared for %s — it now inherits the company-wide default." [FS scopeName]
         else Sprintf "branding cleared for %s — beamhalls with no override of their own now have no branding." [FS scopeName])
        (AObj [("scope", AStr scopeName); ("cleared", ABool true)]))
    else
      let logoState := match logo with
                       | Some _ => "replaced"
                       | None => if sb_ClearLogo args then "removed" else "kept"
                       end in
      mret (MkToolResult
        (Sprintf "branding set for %s (logo %s). Builders see it with show_branding and apply it to the apps they build; the palette stylesheet and logo are live at their public URLs now (show_branding returns them), and each beam picks the values up as /run/beamhall/brand.json on its next deploy_beam."
           [FS scopeName; FS logoState])
        (AObj [("scope", AStr scopeName); ("logo", AStr logoState)]))).

(** * Who reaches what *)

Definition peers_reply (beam : Beam) (bh : Beamhall) (res : SetBeamPeersResult) : ToolResult :=
  let external := match SR_Grant res with Some g => Peers_External (BP_Peers g) | None => [] end in
  MkToolResult
    (concat_
      ([Sprintf "app %q in workspace %q may now reach:" [FS (Beam_Slug beam); FS (Beamhall_Slug bh)]]
       ++ ((λ t, Sprintf "\n  - app %s/%s via the audited relay" [FS (PT_Workspace t); FS (PT_App t)]
              +:+ (if PT_Live t then EmptyString
                   else " (NOT live yet — calls will refuse until its team runs promote_to_live)")) <$> SR_Targets res)
       ++ ((λ e, Sprintf "\n  - external destination %s (this app's workloads only)" [FS e]) <$> external)
       ++ [if SR_KeyCreated res then
             Sprintf "\nA relay credential was minted for %q — its team must run deploy_beam ONCE so the workload picks up /run/secrets/BEAMHALL_C2C_KEY and the calling instructions in /run/beamhall/c2c.json. show_beam_peers shows them the state and the how-to."
               [FS (Beam_Slug beam)]
           else Lit_ "\nThe grant is live now (the relay re-checks per call); the app's existing credential keeps working.";
           Lit_ "\nSet-and-replace: re-run with the full grant to change it; clear=true revokes everything."]))
    (AObj [("app", AStr (Beam_Slug beam)); ("workspace", AStr (Beamhall_Slug bh));
           ("peers", jslice (PeerTargetView_json <$> SR_Targets res)); ("external", jslice (AStr <$> external));
           ("key_created", ABool (SR_KeyCreated res))]).
Definition adminSetBeamPeers (req : CallRequest) (hall beam : string) (spec : PeerSpec) : SiM ToolResult :=
  it_on_beam req hall beam (λ actor bh b,
    res ← bp (SetBeamPeers o actor (Beamhall_ID bh) (Beam_ID b) spec);
    mret (if PS_Clear spec then
      MkToolResult
        (Sprintf "app %q in workspace %q now reaches NOTHING — every peer and external grant is revoked, effective immediately (the relay re-checks per call; in-flight external flows are cut on the next reconcile). Re-grant with admin_set_beam_peers."
           [FS (Beam_Slug b); FS (Beamhall_Slug bh)])
        (AObj [("app", AStr (Beam_Slug b)); ("workspace", AStr (Beamhall_Slug bh)); ("cleared", ABool true)])
    else peers_reply b bh res)).

(** Who an audience names, in words. *)
Definition audience_words (aud : Audience) : list string :=
  (if Everyone aud then ["everyone (any registered employee)"] else [])
  ++ (match Groups aud with [] => [] | gs => ["groups " +:+ Join gs ", "] end)
  ++ (match length (Identities aud) with
      | 0 => []
      | 1 => ["1 named identity"]
      | n => [Sprintf "%d named identities" [FD (Z.of_nat n)]]
      end).
Definition audience_reply (bh : Beamhall) (beam : Beam) (aud : Audience) : SiM ToolResult :=
  live_part ← (if decide (Beam_LiveState beam = StateLive) then
    '(_, live) ← channelURLs_ (Beam_ID beam);
    mret (Sprintf " Their agents see it in list_apps now and get its live URL (%s); to everyone else it does not appear to exist." [FS live])
  else mret (Sprintf " Their agents see it in list_apps now; to everyone else it does not appear to exist. It is NOT live yet — the team that owns it must run promote_to_live before the URL works; until then users see it listed as \'not live yet\'." []));
  mret (MkToolResult
    (Sprintf "app %q in workspace %q is published to: %s."
       [FS (Beam_Slug beam); FS (Beamhall_Slug bh); FS (Join (audience_words aud) "; ")]
     +:+ live_part +:+ " Change who by re-running with the full audience; unpublish with clear=true."
     +:+ (match Groups aud with
          | [] => EmptyString
          | _ => if groupAudiences srv then EmptyString
                 else " WARNING: this appliance has no group claim configured (BEAMHALL_OAUTH_GROUPS_CLAIM is empty), so the groups you set will never match anyone. Publish to identities or to everyone, or ask the operator to configure the claim."
          end))
    (AObj [("app", AStr (Beam_Slug beam)); ("workspace", AStr (Beamhall_Slug bh)); ("published", ABool true);
           ("everyone", ABool (Everyone aud)); ("groups", jslice (AStr <$> Groups aud));
           ("identities", jnum (Z.of_nat (length (Identities aud))))])).
Definition adminSetAppAudience (req : CallRequest) (args : setAppAudienceArgs) : SiM ToolResult :=
  it_on_beam req (sa_Beamhall args) (sa_Beam args) (λ actor bh b,
    let aud := MkAudience (sa_Everyone args) (sa_Groups args) (sa_Identities args) in
    if negb (sa_Clear args) && IsEmpty aud then
      throw (ErrMsg "an audience of nobody is the same as unpublished — pass everyone=true, groups, or identities; to unpublish, pass clear=true")
    else
    bp (SetAppAudience actor (Beamhall_ID bh) (Beam_ID b)
          (MkAudienceSpec aud (sa_Description args) (bool_decide (sa_Description args ≠ EmptyString)) (sa_Clear args)));;
    if sa_Clear args then
      mret (MkToolResult
        (Sprintf "app %q in workspace %q is UNPUBLISHED — it no longer appears in any user's list_apps, and describe_app answers as if it does not exist. The app itself keeps running and its URL still works for anyone who already has it (publication controls discovery, not the network). Publish it again with admin_set_app_audience."
           [FS (Beam_Slug b); FS (Beamhall_Slug bh)])
        (AObj [("app", AStr (Beam_Slug b)); ("workspace", AStr (Beamhall_Slug bh)); ("published", ABool false)]))
    else audience_reply bh b aud).
End admin.
