(* ===== verification/McpCalls.v ===== *)
(** The MCP server as one surface: the registered tools and their arguments, a call of one of them,
    and the gate of the token on every call. *)
From S2P Require Import Prelude Regexp GoStrings GoNet GoHTTP GoText Domain Gateway GatewayProofs.
From S2P Require Import Store StoreOps Fixtures StoreInv AuditLog Policy PolicyProofs Vault.
From S2P Require Import VaultProofs Scrub Outside Orch AppTools Facility OrchAdmin OrchSensitive.
From S2P Require Import OrchTools OrchProvision OrchBeam OrchLife OrchFixtures OrchScope.
From S2P Require Import OrchFrames OrchRun OrchAdminRun OrchGovern Tarball Auth.
From S2P Require Import GitTokens GitServer Mcp McpTools McpAdmin.

(** * Callers and a host for the witnesses of the MCP server's theorems. *)

(** A host whose archives are empty and whose JSON is the empty object. *)
#[export] Instance Engine_host : McpHost Engine := {|
  MkdirTemp e := (inr "/tmp/beamhall-src", e);
  fs_call _ e := (None, e);
  RemoveAll _ e := e;
  gunzip _ := inr (MkArchive [] None);
  drv_Stats _ e := (inr (MkStats "0.0" "0" 0 0 0 0), e);
  json_Marshal _ := inr "{}";
  json_value _ := None;
  json_schema _ := None;
  base64_error _ := "illegal base64 data" |}.

Definition Server1 : Server := MkServer true "https://git.example.com" "beamhall-it" true.
(** A token of [sub] with these scopes. *)
Definition token_of (sub : string) (scopes : list string) : TokenInfo :=
  MkTokenInfo scopes (Some 1800000000000000000%Z) sub "https://idp" sub ("jti-" +:+ sub) EmptyString [] [].
Definition call_of (sub : string) (scopes : list string) : CallRequest :=
  MkCallRequest (Some (token_of sub scopes)) "192.0.2.1".
(** The fixtures' store with a registered employee who is a member of nothing. *)
Definition Eve : Identity :=
  MkIdentity "eve" "sub-eve" "eve@example.com" "Eve" "https://idp" IdentityActive T0.
Definition Site1 : Site Engine ScriptedCaddy :=
  MkSite (World_of (DB1 <| db_identities := <["eve" := Eve]> (db_identities DB1) |>)) (NewTokenStore 0%Z).

(** * The registered tools and their arguments *)

(** registerTools, registerUserTools and registerAdminTools, without the descriptions. *)
Inductive BuilderCall :=
  | T_list_beams (only : string)
  | T_create_beam (hall slug displayName description runtimeHint : string)
  | T_update_beam (hall beam description displayName : string)
  | T_deploy_beam (args : deployBeamArgs)
  | T_get_repo (hall beam : string)
  | T_create_database (hall beam name : string)
  | T_provision_auth (hall beam : string)
  | T_show_auth (hall beam : string)
  | T_provision_email (hall beam : string)
  | T_show_email (hall beam : string)
  | T_provision_object_store (hall beam : string)
  | T_show_object_store (hall beam : string)
  | T_show_branding (hall : string)
  | T_show_beam_peers (hall beam : string)
  | T_set_secret (hall beam key value : string)
  | T_show_logs (hall beam : string) (tailLines : Z)
  | T_pause_preview (hall beam : string)
  | T_resume_preview (hall beam : string)
  | T_try_beam_tool (hall beam tool : string) (arguments : list (string * any))
  | T_promote_to_live (hall beam : string)
  | T_rollback (hall beam : string) (toVersion : Z)
  | T_list_pending_promotions (hall : string)
  | T_approve_promotion (requestID : string)
  | T_reject_promotion (requestID reason : string)
  | T_show_metrics (hall beam : string)
  | T_archive_beam (hall beam : string)
  | T_destroy_beam (hall beam : string)
  | T_create_queue.
Definition builder_name (c : BuilderCall) : string :=
  match c with
  | T_list_beams _ => "list_beams"
  | T_create_beam _ _ _ _ _ => "create_beam"
  | T_update_beam _ _ _ _ => "update_beam"
  | T_deploy_beam _ => "deploy_beam"
  | T_get_repo _ _ => "get_repo"
  | T_create_database _ _ _ => "create_database"
  | T_provision_auth _ _ => "provision_auth"
  | T_show_auth _ _ => "show_auth"
  | T_provision_email _ _ => "provision_email"
  | T_show_email _ _ => "show_email"
  | T_provision_object_store _ _ => "provision_object_store"
  | T_show_object_store _ _ => "show_object_store"
  | T_show_branding _ => "show_branding"
  | T_show_beam_peers _ _ => "show_beam_peers"
  | T_set_secret _ _ _ _ => "set_secret"
  | T_show_logs _ _ _ => "show_logs"
  | T_pause_preview _ _ => "pause_preview"
  | T_resume_preview _ _ => "resume_preview"
  | T_try_beam_tool _ _ _ _ => "try_beam_tool"
  | T_promote_to_live _ _ => "promote_to_live"
  | T_rollback _ _ _ => "rollback"
  | T_list_pending_promotions _ => "list_pending_promotions"
  | T_approve_promotion _ => "approve_promotion"
  | T_reject_promotion _ _ => "reject_promotion"
  | T_show_metrics _ _ => "show_metrics"
  | T_archive_beam _ _ => "archive_beam"
  | T_destroy_beam _ _ => "destroy_beam"
  | T_create_queue => "create_queue"
  end.
Inductive UserCall :=
  | U_list_apps
  | U_describe_app (app workspace : string)
  | U_use_app (args : useAppArgs).
Definition user_name (c : UserCall) : string :=
  match c with
  | U_list_apps => "list_apps"
  | U_describe_app _ _ => "describe_app"
  | U_use_app _ => "use_app"
  end.
Inductive AdminCall :=
  | A_register_identity (issuer subject email displayName : string)
  | A_grant_membership (hall role : string) (ref : identityRef)
  | A_list_identities
  | A_create_beamhall (args : createBeamhallArgs)
  | A_list_beamhalls
  | A_show_beamhall (slug : string)
  | A_set_egress (slug mode : string) (allowlist : list string)
  | A_set_auth_groups (hall beam : string) (groups : list string)
  | A_set_email_senders (hall beam : string) (senders : list string)
  | A_set_email_provider (smarthost username password : string) (startTLS : option bool)
  | A_set_object_store_provider (endpoint region bucket accessKey secretKey : string) (forcePathStyle useSSL : option bool)
  | A_set_object_store_quota (hall beam : string) (maxBytes : Z)
  | A_set_branding (args : setBrandingArgs)
  | A_set_app_audience (args : setAppAudienceArgs)
  | A_set_beam_peers (hall beam : string) (spec : PeerSpec)
  | A_create_user (username email firstName lastName : string)
  | A_list_users (query : string) (max : Z)
  | A_set_user_password (userID password : string)
  | A_create_group (name : string)
  | A_list_groups
  | A_add_user_to_group (userID groupID : string)
  | A_federate_directory (d : DirectoryFederation)
  | A_list_pending_requests
  | A_approve_request (requestID : string)
  | A_reject_request (requestID reason : string)
  | A_update_beamhall (args : updateBeamhallArgs)
  | A_revoke_membership (hall : string) (ref : identityRef)
  | A_set_identity_status (status : string) (ref : identityRef)
  | A_list_releases (hall beam : string)
  | A_query_audit (hall : string) (afterSeq limit : Z)
  | A_verify_audit_chain
  | A_set_user_enabled (userID : string) (enabled : bool)
  | A_set_membership_role (hall role : string) (ref : identityRef)
  | A_deregister_identity (ref : identityRef)
  | A_remove_user_from_group (userID groupID : string)
  | A_delete_user (userID : string)
  | A_delete_group (groupID : string)
  | A_set_security_context (slug runtimeClass : string)
  | A_unfederate_directory (name : string)
  | A_prune_audit (throughSeq : Z)
  | A_backup_now
  | A_list_backups
  | A_restore_backup (name : string)
  | A_request_upgrade (version expectedSHA256 : string).
Definition admin_name (c : AdminCall) : string :=
  match c with
  | A_register_identity _ _ _ _ => "admin_register_identity"
  | A_grant_membership _ _ _ => "admin_grant_membership"
  | A_list_identities => "admin_list_identities"
  | A_create_beamhall _ => "admin_create_beamhall"
  | A_list_beamhalls => "admin_list_beamhalls"
  | A_show_beamhall _ => "admin_show_beamhall"
  | A_set_egress _ _ _ => "admin_set_egress"
  | A_set_auth_groups _ _ _ => "admin_set_auth_groups"
  | A_set_email_senders _ _ _ => "admin_set_email_senders"
  | A_set_email_provider _ _ _ _ => "admin_set_email_provider"
  | A_set_object_store_provider _ _ _ _ _ _ _ => "admin_set_object_store_provider"
  | A_set_object_store_quota _ _ _ => "admin_set_object_store_quota"
  | A_set_branding _ => "admin_set_branding"
  | A_set_app_audience _ => "admin_set_app_audience"
  | A_set_beam_peers _ _ _ => "admin_set_beam_peers"
  | A_create_user _ _ _ _ => "admin_create_user"
  | A_list_users _ _ => "admin_list_users"
  | A_set_user_password _ _ => "admin_set_user_password"
  | A_create_group _ => "admin_create_group"
  | A_list_groups => "admin_list_groups"
  | A_add_user_to_group _ _ => "admin_add_user_to_group"
  | A_federate_directory _ => "admin_federate_directory"
  | A_list_pending_requests => "admin_list_pending_requests"
  | A_approve_request _ => "admin_approve_request"
  | A_reject_request _ _ => "admin_reject_request"
  | A_update_beamhall _ => "admin_update_beamhall"
  | A_revoke_membership _ _ => "admin_revoke_membership"
  | A_set_identity_status _ _ => "admin_set_identity_status"
  | A_list_releases _ _ => "admin_list_releases"
  | A_query_audit _ _ _ => "admin_query_audit"
  | A_verify_audit_chain => "admin_verify_audit_chain"
  | A_set_user_enabled _ _ => "admin_set_user_enabled"
  | A_set_membership_role _ _ _ => "admin_set_membership_role"
  | A_deregister_identity _ => "admin_deregister_identity"
  | A_remove_user_from_group _ _ => "admin_remove_user_from_group"
  | A_delete_user _ => "admin_delete_user"
  | A_delete_group _ => "admin_delete_group"
  | A_set_security_context _ _ => "admin_set_security_context"
  | A_unfederate_directory _ => "admin_unfederate_directory"
  | A_prune_audit _ => "admin_prune_audit"
  | A_backup_now => "admin_backup_now"
  | A_list_backups => "admin_list_backups"
  | A_restore_backup _ => "admin_restore_backup"
  | A_request_upgrade _ _ => "admin_request_upgrade"
  end.
Inductive ToolCall :=
  | Builder (c : BuilderCall)
  | User_ (c : UserCall)
  | Admin (c : AdminCall).
Definition tool_name (c : ToolCall) : string :=
  match c with
  | Builder c => builder_name c
  | User_ c => user_name c
  | Admin c => admin_name c
  end.

Section calls.
Context `{!Env, !Age, !Rand} {X C : Type} `{!Caddy C}.
Context `{!RuntimeDriver X, !Platform X, !Directory X, !Appliance X}.
Context `{!DatabaseProvisioner X, !IdentityProvider X, !Brokers X, !McpHost X}.
Context (o : Orchestrator) (polls : nat) (srv : Server).
Context (path_join : string → string → string) (goos_goarch : string).
Notation SiM := (SiM (X := X) (C := C)).
Notation OM := (OM (X := X) (C := C)).

Definition run_builder (req : CallRequest) (c : BuilderCall) : SiM ToolResult :=
  match c with
  | T_list_beams only => listBeams o srv req only
  | T_create_beam hall slug displayName description runtimeHint => createBeam_ o srv req hall slug displayName description runtimeHint
  | T_update_beam hall beam description displayName => updateBeam_ o srv req hall beam description displayName
  | T_deploy_beam args => deployBeam o polls srv req args
  | T_get_repo hall beam => getRepo o srv req hall beam
  | T_create_database hall beam name => createDatabase_ o srv req hall beam name
  | T_provision_auth hall beam => provisionAuth_ o srv req hall beam
  | T_show_auth hall beam => showAuth_ o srv req hall beam
  | T_provision_email hall beam => provisionEmail_ o srv req hall beam
  | T_show_email hall beam => showEmail_ o srv req hall beam
  | T_provision_object_store hall beam => provisionObjectStore_ o srv req hall beam
  | T_show_object_store hall beam => showObjectStore_ o srv req hall beam
  | T_show_branding hall => showBranding_ o srv req hall
  | T_show_beam_peers hall beam => showBeamPeers_ o srv req hall beam
  | T_set_secret hall beam key value => setSecret_ o srv req hall beam key value
  | T_show_logs hall beam tailLines => showLogs_ o srv req hall beam tailLines
  | T_pause_preview hall beam => pausePreview_ o srv req hall beam
  | T_resume_preview hall beam => resumePreview_ o srv req hall beam
  | T_try_beam_tool hall beam tool arguments => tryBeamTool_ o srv req hall beam tool arguments
  | T_promote_to_live hall beam => promoteToLive_ o polls srv req hall beam
  | T_rollback hall beam toVersion => rollback_ o polls srv req hall beam toVersion
  | T_list_pending_promotions hall => listPendingPromotions_ o srv req hall
  | T_approve_promotion requestID => approvePromotion_ o polls srv req requestID
  | T_reject_promotion requestID reason => rejectPromotion_ o srv req requestID reason
  | T_show_metrics hall beam => showMetrics_ o srv req hall beam
  | T_archive_beam hall beam => archiveBeam_ o srv req hall beam
  | T_destroy_beam hall beam => destroyBeam_ o srv req hall beam
  | T_create_queue => not_enabled "create_queue"
  end.
Definition run_user (req : CallRequest) (c : UserCall) : SiM ToolResult :=
  match c with
  | U_list_apps => listApps_ o srv req
  | U_describe_app app workspace => describeApp_ o srv req app workspace
  | U_use_app args => useApp o srv req args
  end.
Definition run_it (req : CallRequest) (c : AdminCall) : SiM ToolResult :=
  match c with
  | A_register_identity issuer subject email displayName => adminRegisterIdentity o srv req issuer subject email displayName
  | A_grant_membership hall role ref => adminGrantMembership o srv req hall role ref
  | A_list_identities => adminListIdentities o srv req
  | A_create_beamhall args => adminCreateBeamhall o srv req args
  | A_list_beamhalls => adminListBeamhalls o srv req
  | A_show_beamhall slug => adminShowBeamhall o srv req slug
  | A_set_egress slug mode allowlist => adminSetEgress o srv req slug mode allowlist
  | A_set_auth_groups hall beam groups => adminSetAuthGroups o srv req hall beam groups
  | A_set_email_senders hall beam senders => adminSetEmailSenders o srv req hall beam senders
  | A_set_email_provider smarthost username password startTLS => adminSetEmailProvider o srv req smarthost username password startTLS
  | A_set_object_store_provider endpoint region bucket accessKey secretKey forcePathStyle useSSL => adminSetObjectStoreProvider o srv req endpoint region bucket accessKey secretKey forcePathStyle useSSL
  | A_set_object_store_quota hall beam maxBytes => adminSetObjectStoreQuota o srv req hall beam maxBytes
  | A_set_branding args => adminSetBranding o srv req args
  | A_set_app_audience args => adminSetAppAudience o srv req args
  | A_set_beam_peers hall beam spec => adminSetBeamPeers o srv req hall beam spec
  | A_create_user username email firstName lastName => adminCreateUser o srv req username email firstName lastName
  | A_list_users query max => adminListUsers o srv req query max
  | A_set_user_password userID password => adminSetUserPassword o srv req userID password
  | A_create_group name => adminCreateGroup o srv req name
  | A_list_groups => adminListGroups o srv req
  | A_add_user_to_group userID groupID => adminAddUserToGroup o srv req userID groupID
  | A_federate_directory d => adminFederateDirectory o srv req d
  | A_list_pending_requests => adminListPendingRequests o srv req
  | A_approve_request requestID => adminApproveRequest o srv path_join req requestID
  | A_reject_request requestID reason => adminRejectRequest o srv req requestID reason
  | A_update_beamhall args => adminUpdateBeamhall o srv req args
  | A_revoke_membership hall ref => adminRevokeMembership o srv req hall ref
  | A_set_identity_status status ref => adminSetIdentityStatus o srv req status ref
  | A_list_releases hall beam => adminListReleases o srv req hall beam
  | A_query_audit hall afterSeq limit => adminQueryAudit o srv req hall afterSeq limit
  | A_verify_audit_chain => adminVerifyAuditChain o srv req
  | A_set_user_enabled userID enabled => adminSetUserEnabled o srv req userID enabled
  | A_set_membership_role hall role ref => adminSetMembershipRole o srv req hall role ref
  | A_deregister_identity ref => adminDeregisterIdentity o srv req ref
  | A_remove_user_from_group userID groupID => adminRemoveUserFromGroup o srv req userID groupID
  | A_delete_user userID => adminDeleteUser o srv req userID
  | A_delete_group groupID => adminDeleteGroup o srv req groupID
  | A_set_security_context slug runtimeClass => adminSetSecurityContext o srv req slug runtimeClass
  | A_unfederate_directory name => adminUnfederateDirectory o srv req name
  | A_prune_audit throughSeq => adminPruneAudit o srv req throughSeq
  | A_backup_now => adminBackupNow o srv path_join req
  | A_list_backups => adminListBackups o srv path_join req
  | A_restore_backup name => adminRestoreBackup o srv path_join req name
  | A_request_upgrade version expectedSHA256 => adminRequestUpgrade o srv goos_goarch req version expectedSHA256
  end.
Definition call_tool (req : CallRequest) (c : ToolCall) : SiM ToolResult :=
  match c with
  | Builder c => run_builder req c
  | User_ c => run_user req c
  | Admin c => run_it req c
  end.
(** A history of calls, from whoever; an error is answered and the next call comes. *)
Definition call_tools (calls : list (CallRequest * ToolCall)) : SiM () :=
  for_each calls (λ rc, logged (call_tool rc.1 rc.2;; mret tt)).

(** * The gate *)

(** A token without the scope of a tool, or with none at all. *)
Definition unscoped (req : CallRequest) (scope : string) : Prop :=
  ∀ info, cr_info req = Some info → scope_error srv info scope ≠ None.
Lemma resolveActor_unscoped req scope s :
  unscoped req scope → ∃ e, resolveActor (X := X) (C := C) o srv req scope s = (inl e, s).
Proof.
  unfold unscoped, resolveActor. intros Hu. destruct (cr_info req) as [info|]; [|by eexists].
  specialize (Hu info eq_refl). destruct (scope_error srv info scope) as [e|]; [|done]. by exists e.
Qed.
Lemma gated_call {A} req scope (k : Actor → SiM A) s :
  unscoped req scope → ∃ e, (resolveActor o srv req scope ≫= k) s = (inl e, s).
Proof.
  intros Hu. destruct (resolveActor_unscoped req scope s Hu) as [e He]. exists e.
  change (match resolveActor o srv req scope s with (inl e, s') => (inl e, s') | (inr a, s') => k a s' end = (inl e, s)).
  by rewrite He.
Qed.
(** The scopes of the table, by name. *)
Lemma unscoped_tool req name scope :
  lookup_scope name = Some scope →
  (∀ info sc, cr_info req = Some info → lookup_scope name = Some sc → scope_error srv info sc ≠ None) →
  unscoped req scope.
Proof. intros Hl Hno info Hi. by apply Hno. Qed.

Lemma call_tool_unscoped req c s :
  (∀ info scope, cr_info req = Some info → lookup_scope (tool_name c) = Some scope →
     scope_error srv info scope ≠ None) →
  ∃ e, call_tool req c s = (inl e, s).
Proof.
  intros Hno. destruct c as [c|c|c]; destruct c; simpl in *.
  all: try (eapply unscoped_tool in Hno; [|vm_compute; reflexivity]).
  all: try (by eexists).
  all: exact (gated_call _ _ _ _ Hno).
Qed.
End calls.

(** No scope, no effect.  A call of any registered tool whose token is missing, or lacks
    the scope the tool is listed under (administration: neither the scope nor the elevating
    role), is answered with an error and changes nothing at all: not the store, not the
    audit log, not a token, not the outside. *)
Theorem tools_need_their_scope `{!Env, !Age, !Rand} {X C : Type} `{!Caddy C}
    `{!RuntimeDriver X, !Platform X, !Directory X, !Appliance X}
    `{!DatabaseProvisioner X, !IdentityProvider X, !Brokers X, !McpHost X}
    (o : Orchestrator) (polls : nat) (srv : Server)
    (path_join : string → string → string) (goos_goarch : string)
    (req : CallRequest) (c : ToolCall) (s : Site X C)
    (Hno : ∀ info scope, cr_info req = Some info → lookup_scope (tool_name c) = Some scope →
       scope_error srv info scope ≠ None) :
  ∃ e, call_tool o polls srv path_join goos_goarch req c s = (inl e, s).
Proof. by apply call_tool_unscoped. Qed.

(** A builder's token does not administer. *)
Definition Grab : ToolCall := Admin (A_grant_membership "sales" "beamhall_admin" (MkIdentityRef "eve" EmptyString EmptyString)).
Lemma tools_need_their_scope_witness :
  ∃ e, call_tool Orch1 3 Server1 slash_join "linux_amd64" (call_of "sub-eve" [ScopeBeamsWrite]) Grab Site1
       = (inl e, Site1).
Proof.
  apply (tools_need_their_scope Orch1 3 Server1 slash_join "linux_amd64"
           (call_of "sub-eve" [ScopeBeamsWrite]) Grab Site1).
  assert (lookup_scope (tool_name Grab) = Some ScopeAdminIT) as El by (vm_compute; reflexivity).
  intros info scope [= <-]. rewrite El. intros [= <-]. vm_compute. discriminate.
Defined.
