(* ===== verification/McpMenu.v ===== *)
(** The menu of the MCP server (internal/mcp/visibility.go): what it hides does not work when it is
    called anyway, and what it shows passes its gate. *)
From S2P Require Import Prelude Regexp GoStrings GoNet GoHTTP GoText Domain Gateway GatewayProofs.
From S2P Require Import Store StoreOps Fixtures StoreInv AuditLog Policy PolicyProofs Vault.
From S2P Require Import VaultProofs Scrub Outside Orch AppTools Facility OrchAdmin OrchSensitive.
From S2P Require Import OrchTools OrchProvision OrchBeam OrchLife OrchFixtures OrchScope.
From S2P Require Import OrchFrames OrchRun OrchAdminRun OrchGovern Tarball Auth.
From S2P Require Import GitTokens GitServer Mcp McpTools McpAdmin McpCalls.

Definition shown_only : list string := ["show_auth"; "show_email"; "show_object_store"].
Lemma off_spec tools on name : off tools on name = true → name ∈ tools ∧ on = false.
Proof. unfold off. intros [Hin%bool_decide_eq_true Hon%negb_true_iff]%andb_true_iff. done. Qed.
Lemma registered (c : ToolCall) : tool_name c ∉ alwaysVisible → is_Some (lookup_scope (tool_name c)).
Proof.
  intros Hn. destruct c as [c|c|c]; destruct c; vm_compute; try done.
  all: first [by eexists|exfalso; apply Hn; set_solver].
Qed.

Section menu.
Context `{!Env, !Age, !Rand} {X C : Type} `{!Caddy C}.
Context `{!RuntimeDriver X, !Platform X, !Directory X, !Appliance X}.
Context `{!DatabaseProvisioner X, !IdentityProvider X, !Brokers X, !McpHost X}.
Context (o : Orchestrator) (polls : nat) (srv : Server).
Context (path_join : string → string → string) (goos_goarch : string).
Notation SiM := (SiM (X := X) (C := C)).
Notation OM := (OM (X := X) (C := C)).

(** * The menu *)

(** What decides the menu, in the world a call finds. *)
Definition appliance_of (w : World X C) : applianceState :=
  MkApplianceState (idpEnabled o) (idpSensitive o) (bool_decide (backupDir o ≠ EmptyString)) (UpgradeEnabled o)
    (has_emailProv o && emailEnabled (w_mem w)) (has_emailProv o)
    (has_objStoreProv o && objStoreEnabled (w_mem w)) (has_objStoreProv o).
Lemma installToolFilter_is info tools s :
  installToolFilter o srv info tools s
  = (inr (filter (λ name, toolVisible srv name info (appliance_of (si_world s)) = true) tools), s).
Proof. by destruct s as [w ts]; destruct w. Qed.

(** A call that fails in every state where the memory is [mem], which none of the steps
    before the check writes. *)
Section fails.
Context {W E : Type} (f : W → Memory) (mem : Memory).
Definition fails {A} (m : M W E A) : Prop := ∀ w, f w = mem → is_inl (m w).1 = true.
Definition same_mem : relation W := λ w w', f w' = f w.
#[global] Instance same_mem_PreOrder : PreOrder same_mem.
Proof. split; unfold same_mem; [by intros w|congruence]. Qed.
Lemma fails_throw {A} (e : E) : fails (throw (A := A) e).
Proof. by intros w. Qed.
Lemma fails_first {A B} (m : M W E A) (k : A → M W E B) : fails m → fails (m ≫= k).
Proof.
  intros Hm w Hw. specialize (Hm w Hw). unfold mbind, M_bind. by destruct (m w) as [[e|a] w'].
Qed.
Lemma fails_then {A B} (m : M W E A) (k : A → M W E B) :
  frames same_mem m → (∀ a, fails (k a)) → fails (m ≫= k).
Proof.
  intros Hm Hk w Hw. specialize (Hm w). unfold mbind, M_bind.
  destruct (m w) as [[e|a] w']; simpl in *; [done|]. apply Hk. by rewrite Hm.
Qed.
Lemma fails_gets {A B} (g : W → A) (k : A → M W E B) :
  (∀ w, f w = mem → fails (k (g w))) → fails (gets g ≫= k).
Proof. intros Hk w Hw. by apply Hk. Qed.
Lemma fails_map_error {A} (g : E → E) (m : M W E A) : fails m → fails (map_error g m).
Proof. intros Hm w Hw. specialize (Hm w Hw). unfold map_error. by destruct (m w) as [[e|a] w']. Qed.
(** It fails there at its first step. *)
Definition stops {A} (m : M W E A) : Prop := ∀ w, f w = mem → ∃ e, m w = (inl e, w).
Lemma fails_attempt {A B} (m : M W E A) (k : E + A → M W E B) :
  stops m → (∀ e, fails (k (inl e))) → fails (attempt m ≫= k).
Proof.
  intros Hm Hk w Hw. destruct (Hm w Hw) as [e He]. unfold mbind, M_bind, attempt. rewrite He.
  by apply Hk.
Qed.
End fails.

Notation wmem := (λ w : World X C, w_mem w).
Notation smem := (λ s : Site X C, w_mem (si_world s)).
Lemma mem_in_store {A} (m : SM A) : frames (same_mem wmem) (in_store (X := X) (C := C) m).
Proof. by intros w. Qed.
Lemma mem_dir {A} (m : SM A) : frames (same_mem smem) (dir (X := X) (C := C) m).
Proof. by intros s. Qed.
Lemma mem_bp {A} (m : OM A) : frames (same_mem wmem) m → frames (same_mem smem) (bp m).
Proof. intros Hm s. apply (Hm (si_world s)). Qed.
Lemma fails_bp mem {A} (m : OM A) : fails wmem mem m → fails smem mem (bp m).
Proof. intros Hm s Hs. apply (Hm (si_world s) Hs). Qed.
#[local] Hint Resolve mem_in_store mem_dir mem_bp : frame.
Lemma mem_resolveActor req scope : frames (same_mem smem) (resolveActor (C := C) o srv req scope).
Proof.
  assert (∀ i s e, frames (same_mem wmem) (RegisterUserIdentity (X := X) (C := C) o i s e)).
  { intros. unfold RegisterUserIdentity. solve_frame. }
  unfold resolveActor, find_identity, wrapping. solve_frame.
Qed.
Lemma mem_resolveBeamhall hall : frames (same_mem smem) (resolveBeamhall (X := X) (C := C) hall).
Proof. unfold resolveBeamhall. solve_frame. Qed.
Lemma mem_resolveBeam h b : frames (same_mem smem) (resolveBeam (X := X) (C := C) h b).
Proof. unfold resolveBeam. solve_frame. Qed.
#[local] Hint Resolve mem_resolveActor mem_resolveBeamhall mem_resolveBeam : frame.

Lemma fails_on_hall mem scope req hall k :
  (∀ a bh, fails smem mem (k a bh)) → fails smem mem (on_hall o srv scope req hall k).
Proof. intros Hk. unfold on_hall. apply fails_then; [auto with frame|]. intros a. apply fails_then; auto with frame. Qed.
Lemma fails_on_beam mem scope req hall beam k :
  (∀ a bh b, fails smem mem (k a bh b)) → fails smem mem (on_beam o srv scope req hall beam k).
Proof. intros Hk. apply fails_on_hall. intros a bh. apply fails_then; auto with frame. Qed.
Lemma fails_as_it mem req k : (∀ a, fails smem mem (k a)) → fails smem mem (as_it o srv req k).
Proof. intros Hk. apply fails_then; auto with frame. Qed.
Lemma fails_it_only mem a act h {A} (m : OM A) :
  stops wmem mem m → fails wmem mem (it_only a act h m).
Proof.
  intros Hm. unfold it_only, it_only_beam. destruct (requireIT a) as [err|].
  - apply fails_then; [unfold itAuditBeam; solve_frame|]. intros []. apply fails_throw.
  - apply fails_attempt; [done|]. intros e.
    apply fails_then; [unfold itAuditBeam; solve_frame|]. intros []. apply fails_throw.
Qed.
Lemma fails_it_read mem a {A} (m : OM A) : stops wmem mem m → fails wmem mem (it_read a m).
Proof.
  intros Hm w Hw. destruct (Hm w Hw) as [e He]. unfold it_read, check.
  destruct (requireIT a); [done|]. unfold mbind, M_bind; simpl. by rewrite He.
Qed.
Lemma fails_gated mem a act h b {A} (m : OM A) :
  stops wmem mem m → fails wmem mem (authorize a act h b;; with_outcome a act h b m).
Proof.
  intros Hm. apply fails_then; [unfold authorize; auto with frame|]. intros []. unfold with_outcome.
  apply fails_attempt; [done|]. intros e.
  apply fails_then; [unfold outcome; solve_frame|]. intros []. apply fails_throw.
Qed.
Lemma fails_filed mem (m : SiM AdminActionRequest) : fails smem mem m → fails smem mem (filed m).
Proof. apply fails_first. Qed.

(** To the operation a handler ends in, and its first check. *)
Ltac fail_step :=
  match goal with
  | |- ∀ _, _ => intros
  | |- fails _ _ (on_beam _ _ _ _ _ _ _) => apply fails_on_beam
  | |- fails _ _ (on_hall _ _ _ _ _ _) => apply fails_on_hall
  | |- fails _ _ (as_it _ _ _ _) => apply fails_as_it
  | |- fails _ _ (it_on_beam _ _ _ _ _ _) => apply fails_on_beam
  | |- fails _ _ (bp (of_sum ?r) ≫= _) => apply fails_then; [by intros ?; destruct r|]
  | |- fails _ _ (dir _ ≫= _) => apply fails_then; [apply mem_dir|]
  | |- fails _ _ (filed _) => apply fails_filed
  | |- fails _ _ (map_error _ _ ≫= _) => apply fails_first, fails_map_error, fails_bp
  | |- fails _ _ (map_error _ (bp _)) => apply fails_map_error, fails_bp
  | |- fails _ _ (bp _ ≫= _) => apply fails_first, fails_bp
  | |- fails _ _ (bp _) => apply fails_bp
  | |- fails _ _ (it_only _ _ _ _) => apply fails_it_only
  | |- fails _ _ (it_read _ _) => apply fails_it_read
  | |- fails _ _ (authorize _ _ _ _ ≫= _) => apply fails_gated
  end.
Ltac class_member H := match type of H with
  | ?n ∈ ?L => first [assert (bool_decide (n ∈ L) = false) as H2 by (vm_compute; reflexivity);
                      apply bool_decide_eq_false in H2; done|idtac] end.

Lemma idp_tools_off mem req c :
  idpEnabled o = false → tool_name c ∈ idpAdminTools → tool_name c ≠ "show_auth" →
  fails smem mem (call_tool o polls srv path_join goos_goarch req c).
Proof.
  intros Hoff Hin Hne. destruct c as [c|c|c]; destruct c; simpl in *; class_member Hin; try done.
  all: cbv delta [provisionAuth_ adminSetAuthGroups adminCreateUser adminListUsers
    adminSetUserPassword adminSetUserEnabled adminCreateGroup adminListGroups adminAddUserToGroup
    adminRemoveUserFromGroup adminDeleteUser adminDeleteGroup adminFederateDirectory
    adminUnfederateDirectory] beta.
  all: repeat fail_step.
  all: cbv delta [ProvisionAuth SetAuthGroups AdminCreateUser AdminListUsers AdminSetUserPassword
    AdminSetUserEnabled AdminCreateGroup AdminListGroups AdminAddUserToGroup AdminRemoveUserFromGroup
    AdminDeleteUser AdminDeleteGroup RequestFederateDirectory RequestUnfederateDirectory] beta.
  all: repeat fail_step; intros w Hw; unfold idp, provisionAuth, setAuthGroups, check, requireSensitiveTier.
  all: rewrite ?Hoff; simpl; try destruct (idpSensitive o); by eexists.
Qed.

Lemma fails_RequestSetSecurityContext mem a slug rc :
  idpSensitive o = false →
  fails wmem mem (RequestSetSecurityContext (X := X) (C := C) o a slug rc).
Proof.
  intros Hoff. unfold RequestSetSecurityContext, requireSensitiveTier, itAudit. rewrite Hoff.
  destruct (requireIT a); (apply fails_then; [unfold itAuditBeam; solve_frame|]); intros []; apply fails_throw.
Qed.
Lemma sensitive_tools_off mem req c :
  idpSensitive o = false → tool_name c ∈ sensitiveTierTools → fails smem mem (call_tool o polls srv path_join goos_goarch req c).
Proof.
  intros Hoff Hin. destruct c as [c|c|c]; destruct c; simpl in *; class_member Hin.
  all: cbv delta [adminFederateDirectory adminUnfederateDirectory adminSetSecurityContext
    adminPruneAudit adminRestoreBackup adminRequestUpgrade] beta; repeat fail_step.
  2: by apply fails_RequestSetSecurityContext.
  all: cbv delta [RequestFederateDirectory RequestUnfederateDirectory RequestPruneAudit
    RequestRestoreBackup RequestUpgrade] beta.
  all: repeat fail_step; intros w Hw; unfold check, requireSensitiveTier; rewrite ?Hoff; simpl.
  all: try case_decide; try destruct (UpgradeEnabled o); by eexists.
Qed.
Lemma backup_tools_off mem req c :
  backupDir o = EmptyString → tool_name c ∈ backupTools → fails smem mem (call_tool o polls srv path_join goos_goarch req c).
Proof.
  intros Hoff Hin. destruct c as [c|c|c]; destruct c; simpl in *; class_member Hin.
  all: cbv delta [adminBackupNow adminListBackups adminRestoreBackup] beta; repeat fail_step.
  all: cbv delta [AdminBackupNow AdminListBackups RequestRestoreBackup] beta; repeat fail_step.
  all: intros w Hw; rewrite Hoff; by eexists.
Qed.
Lemma upgrade_tools_off mem req c :
  UpgradeEnabled o = false → tool_name c ∈ upgradeTools → fails smem mem (call_tool o polls srv path_join goos_goarch req c).
Proof.
  intros Hoff Hin. destruct c as [c|c|c]; destruct c; simpl in *; class_member Hin.
  cbv delta [adminRequestUpgrade RequestUpgrade] beta; repeat fail_step.
  intros w Hw. rewrite Hoff. by eexists.
Qed.
Lemma email_tools_off mem req c :
  has_emailProv o && emailEnabled mem = false → tool_name c ∈ emailTools → tool_name c ≠ "show_email" →
  fails smem mem (call_tool o polls srv path_join goos_goarch req c).
Proof.
  intros Hoff Hin Hne. destruct c as [c|c|c]; destruct c; simpl in *; class_member Hin; try done.
  all: cbv delta [provisionEmail_ adminSetEmailSenders] beta; repeat fail_step.
  all: cbv delta [ProvisionEmail SetEmailSenders] beta; repeat fail_step.
  all: intros w <-; unfold provisionEmail, setEmailSenders, EmailEnabled, mbind, M_bind, gets.
  all: rewrite Hoff; by eexists.
Qed.
Lemma email_provider_tools_off mem req c :
  has_emailProv o = false → tool_name c ∈ emailProviderTools → fails smem mem (call_tool o polls srv path_join goos_goarch req c).
Proof.
  intros Hoff Hin. destruct c as [c|c|c]; destruct c; simpl in *; class_member Hin.
  cbv delta [adminSetEmailProvider SetEmailProvider] beta; repeat fail_step.
  intros w Hw. unfold setEmailProvider. rewrite Hoff. by eexists.
Qed.
Lemma object_store_tools_off mem req c :
  has_objStoreProv o && objStoreEnabled mem = false → tool_name c ∈ objectStoreTools →
  tool_name c ≠ "show_object_store" → fails smem mem (call_tool o polls srv path_join goos_goarch req c).
Proof.
  intros Hoff Hin Hne. destruct c as [c|c|c]; destruct c; simpl in *; class_member Hin; try done.
  cbv delta [provisionObjectStore_] beta; repeat fail_step.
  cbv delta [ProvisionObjectStore] beta; repeat fail_step.
  intros w <-; unfold provisionObjectStore, ObjectStoreEnabled, mbind, M_bind, gets.
  rewrite Hoff; by eexists.
Qed.
Lemma object_store_provider_tools_off mem req c :
  has_objStoreProv o = false → tool_name c ∈ objectStoreProviderTools → fails smem mem (call_tool o polls srv path_join goos_goarch req c).
Proof.
  intros Hoff Hin. destruct c as [c|c|c]; destruct c; simpl in *; class_member Hin.
  all: cbv delta [adminSetObjectStoreProvider adminSetObjectStoreQuota] beta; repeat fail_step.
  all: cbv delta [SetObjectStoreProvider SetObjectStoreQuota] beta; repeat fail_step.
  all: intros w Hw; unfold setObjectStoreProvider, setObjectStoreQuota, ObjectStoreEnabled, mbind, M_bind, gets.
  all: rewrite Hoff; by eexists.
Qed.

(** The gate as the menu writes it. *)
Definition barred (info : TokenInfo) (scope : string) : bool :=
  if decide (scope = ScopeAdminIT)
  then negb (HasScope (Scopes info) ScopeAdminIT || HasRole (Some info) (adminRole srv))
  else negb (HasScope (Scopes info) scope).
Lemma barred_is info scope : barred info scope = bool_decide (scope_error srv info scope ≠ None).
Proof.
  unfold barred, scope_error, elevated. case_decide.
  - by destruct (HasScope _ _ || HasRole _ _).
  - by destruct (HasScope _ _).
Qed.
Lemma toolVisible_is name info scope st :
  name ∉ alwaysVisible → lookup_scope name = Some scope →
  toolVisible srv name (Some info) st
  = negb (barred info scope)
    && negb (off idpAdminTools (as_idpEnabled st) name
             || off sensitiveTierTools (as_sensitiveEnabled st) name
             || off backupTools (as_backupEnabled st) name
             || off upgradeTools (as_upgradeEnabled st) name
             || off emailTools (as_emailEnabled st) name
             || off emailProviderTools (as_emailWired st) name
             || off objectStoreTools (as_objStoreEnabled st) name
             || off objectStoreProviderTools (as_objStoreWired st) name).
Proof.
  intros Ha Hs. unfold toolVisible. rewrite decide_False by exact Ha. rewrite Hs. fold (barred info scope).
  destruct (barred info scope); reflexivity.
Qed.
Lemma hidden_fails req c s :
  toolVisible srv (tool_name c) (cr_info req) (appliance_of (si_world s)) = false →
  tool_name c ∉ shown_only → is_inl (call_tool o polls srv path_join goos_goarch req c s).1 = true.
Proof.
  intros Hv Hne. destruct (decide (tool_name c ∈ alwaysVisible)) as [Ha|Ha].
  { clear Hv. destruct c as [c|c|c]; destruct c; simpl in Ha; class_member Ha. reflexivity. }
  destruct (registered c Ha) as [scope Hs].
  destruct (cr_info req) as [info|] eqn:Hi; cycle 1.
  { destruct (call_tool_unscoped o polls srv path_join goos_goarch req c s) as [e ->]; [|reflexivity].
    rewrite Hi. intros ? ? [=]. }
  rewrite (toolVisible_is _ _ _ _ Ha Hs), barred_is in Hv. case_bool_decide as Hg.
  { destruct (call_tool_unscoped o polls srv path_join goos_goarch req c s) as [e ->]; [|reflexivity].
    rewrite Hi, Hs. by intros ? ? [= <-] [= <-]. }
  apply negb_false_iff in Hv. simpl in Hv.
  set (mem := w_mem (si_world s)) in *.
  unfold shown_only in Hne. rewrite !not_elem_of_cons in Hne. destruct Hne as (Hn1 & Hn2 & Hn3 & _).
  repeat (apply orb_true_iff in Hv; destruct Hv as [Hv|Hv]); apply off_spec in Hv as [Hin Hoff].
  - exact (idp_tools_off mem req c Hoff Hin Hn1 s eq_refl).
  - exact (sensitive_tools_off mem req c Hoff Hin s eq_refl).
  - refine (backup_tools_off mem req c _ Hin s eq_refl). apply bool_decide_eq_false in Hoff.
    by apply dec_stable in Hoff.
  - exact (upgrade_tools_off mem req c Hoff Hin s eq_refl).
  - exact (email_tools_off mem req c Hoff Hin Hn2 s eq_refl).
  - exact (email_provider_tools_off mem req c Hoff Hin s eq_refl).
  - exact (object_store_tools_off mem req c Hoff Hin Hn3 s eq_refl).
  - exact (object_store_provider_tools_off mem req c Hoff Hin s eq_refl).
Qed.
(** A tool that is shown passes its gate, the placeholder apart. *)
Lemma shown_passes info c st :
  toolVisible srv (tool_name c) (Some info) st = true → tool_name c ∉ alwaysVisible →
  ∃ scope, lookup_scope (tool_name c) = Some scope ∧ scope_error srv info scope = None.
Proof.
  intros Hv Ha. destruct (registered c Ha) as [scope Hs]. exists scope. split; [exact Hs|].
  rewrite (toolVisible_is _ _ _ _ Ha Hs), barred_is in Hv.
  apply andb_true_iff in Hv as [Hv _]. case_bool_decide as Hg; [discriminate Hv|exact Hg].
Qed.
End menu.

(** C15: the menu is honest.  Of the tools registered, one that tools/list hides from a caller
    fails when that caller calls it anyway in the same state, the three tools that only show a
    facility apart; and one it shows is one whose gate the token passes, the placeholder apart. *)
Theorem menu_is_honest `{!Env, !Age, !Rand} {X C : Type} `{!Caddy C}
    `{!RuntimeDriver X, !Platform X, !Directory X, !Appliance X}
    `{!DatabaseProvisioner X, !IdentityProvider X, !Brokers X, !McpHost X}
    (o : Orchestrator) (polls : nat) (srv : Server)
    (path_join : string → string → string) (goos_goarch : string)
    (req : CallRequest) (c : ToolCall) (tools answer : list string) (s : Site X C)
    (Hmenu : installToolFilter o srv (cr_info req) tools s = (inr answer, s))
    (Hregistered : tool_name c ∈ tools) :
  (tool_name c ∉ answer → tool_name c ∉ shown_only →
     is_inl (call_tool o polls srv path_join goos_goarch req c s).1 = true)
  ∧ (tool_name c ∈ answer → tool_name c ∉ alwaysVisible →
     ∃ info scope, cr_info req = Some info ∧ lookup_scope (tool_name c) = Some scope
       ∧ scope_error srv info scope = None).
Proof.
  rewrite installToolFilter_is in Hmenu. injection Hmenu as <-. split.
  - intros Hn Hs. apply (hidden_fails o polls srv path_join goos_goarch); [|exact Hs].
    apply not_true_iff_false. intros Hv. apply Hn. by apply list_elem_of_filter.
  - intros [Hv _]%list_elem_of_filter Ha. destruct (cr_info req) as [info|] eqn:Hi.
    + destruct (shown_passes srv info c _ Hv Ha) as (scope & Hs & Hg). exists info, scope. exact (conj eq_refl (conj Hs Hg)).
    + destruct (registered c Ha) as [scope Hs]. unfold toolVisible in Hv.
      rewrite decide_False, Hs in Hv by exact Ha. discriminate Hv.
Qed.

(** A builder sees create_beam and not admin_create_user. *)
Definition Menu1 : list string := ["create_beam"; "admin_create_user"; "create_queue"].
Definition NewUser1 : ToolCall := Admin (A_create_user "mallory" EmptyString EmptyString EmptyString).
Lemma menu_is_honest_witness :
  installToolFilter Orch1 Server1 (cr_info (call_of "sub-ada" [ScopeBeamsWrite])) Menu1 Site1
    = (inr ["create_beam"], Site1)
  ∧ is_inl (call_tool Orch1 3 Server1 slash_join "linux_amd64" (call_of "sub-ada" [ScopeBeamsWrite]) NewUser1 Site1).1
    = true.
Proof.
  assert (installToolFilter Orch1 Server1 (cr_info (call_of "sub-ada" [ScopeBeamsWrite])) Menu1 Site1
    = (inr ["create_beam"], Site1)) as Hm by (vm_compute; reflexivity).
  split; [exact Hm|].
  apply (menu_is_honest Orch1 3 Server1 slash_join "linux_amd64" (call_of "sub-ada" [ScopeBeamsWrite])
           NewUser1 Menu1 ["create_beam"] Site1 Hm).
  all: refine (bool_decide_unpack _ _); vm_compute; exact I.
Defined.
