(* ===== verification/McpRun.v ===== *)
(** What a history of tool calls can do: a call is a program over the operations of the identity it
    authenticated as, so what holds of every history of operations holds of every history of calls;
    and callers without administration rights do not administer. *)
From S2P Require Import Prelude Regexp GoStrings GoNet GoHTTP GoText Domain Gateway GatewayProofs.
From S2P Require Import Store StoreOps Fixtures StoreInv AuditLog Policy PolicyProofs Vault.
From S2P Require Import VaultProofs Scrub Outside Orch AppTools Facility OrchAdmin OrchSensitive.
From S2P Require Import OrchTools OrchProvision OrchBeam OrchLife OrchFixtures OrchScope.
From S2P Require Import OrchFrames OrchRun OrchAdminRun OrchGovern Tarball Auth.
From S2P Require Import GitTokens GitServer Mcp McpTools McpAdmin McpCalls.

(** The actor an operation is for; none for those nobody asks for. *)
Definition orch_actor (op : OrchOp) : option Actor :=
  match op with
  | OCreateBeam a _ _ _ _ _ | OSetSecret a _ _ _ _ | ODeployBeam a _ _ _ _ | ODeployBeamFromSource a _ _ _
  | ODeployBeamFromGit a _ _ _ | OPausePreview a _ _ | OResumePreview a _ _ | OShowLogs a _ _ _
  | OPromoteToLive a _ _ | ORequestPromotion a _ _ | OApprovePromotion a _ | ORejectPromotion a _ _
  | ORollbackBeam a _ _ _ | ODestroyBeam a _ _ | OArchiveBeam a _ _ | OUpdateBeam a _ _ _
  | OCreateDatabase a _ _ _ | OProvisionEmail a _ _ | OProvisionAuth a _ _ | OProvisionObjectStore a _ _
  | OShowEmail a _ _ | OShowAuth a _ _ | OShowObjectStore a _ _ | OShowBranding a _ | OShowBeamPeers a _ _
  | OTryBeamTool a _ _ _ _ | OUseApp a _ => Some a
  | OPauseFunc _ | OC2CCall _ _ _ _ _ | OReconcileEmail | OReconcileObjectStore | ODrainEmailAudit _
  | ODrainObjectStoreAudit _ | OBoot => None
  end.
Definition op_actor (op : AnyOp) : option Actor :=
  match op with
  | ByUser op => orch_actor op
  | ByAdmin a _ => Some a
  end.

Section effects.
Context `{!Env, !Age, !Rand} {X C : Type} `{!Caddy C}.
Context `{!RuntimeDriver X, !Platform X, !Directory X, !Appliance X}.
Context `{!DatabaseProvisioner X, !IdentityProvider X, !Brokers X, !McpHost X}.
Context (o : Orchestrator) (polls : nat) (srv : Server).
Context (path_join : string → string → string) (goos_goarch : string).
Notation SiM := (SiM (X := X) (C := C)).
Notation OM := (OM (X := X) (C := C)).

(** The actor of a call: the active identity of the token's issuer and subject, with the token's
    elevation. *)
Definition acts_for (req : CallRequest) (a : Actor) : Prop :=
  ∃ info ident, cr_info req = Some info ∧ Identity_Status ident = IdentityActive
  ∧ Identity_IdPIssuer ident = ExtraIssuer info ∧ Identity_ExternalSubject ident = ExtraSubject info
  ∧ a = actor_of srv info (cr_forwarded req) ident.

(** ** The identity *)

(** What a call returns when it returns something. *)
Definition yields {W A} (m : M W error A) (Q : A → Prop) : Prop :=
  ∀ w, match (m w).1 with inr a => Q a | inl _ => True end.
Lemma yields_mono {W A} (m : M W error A) (Q Q' : A → Prop) :
  yields m Q → (∀ a, Q a → Q' a) → yields m Q'.
Proof. intros Hm HQ w. specialize (Hm w). destruct (m w) as [[e|a] w']; [done|by apply HQ]. Qed.
Lemma yields_throw {W A} e (Q : A → Prop) : yields (W := W) (throw e) Q.
Proof. by intros w. Qed.
Lemma yields_ret {W A} (a : A) (Q : A → Prop) : Q a → yields (W := W) (mret a) Q.
Proof. by intros Ha w. Qed.
Lemma yields_bind {W A B} (m : M W error A) (k : A → M W error B) (Q : A → Prop) Q' :
  yields m Q → (∀ a, Q a → yields (k a) Q') → yields (m ≫= k) Q'.
Proof.
  intros Hm Hk w. specialize (Hm w). unfold mbind, M_bind.
  destruct (m w) as [[e|a] w']; [done|]. by apply Hk.
Qed.
Lemma yields_any {W A B} (m : M W error A) (k : A → M W error B) Q :
  (∀ a, yields (k a) Q) → yields (m ≫= k) Q.
Proof. intros Hk. eapply (yields_bind _ _ (λ _, True)); [intros w; by case_match|auto]. Qed.
Lemma yields_attempt {W A} (m : M W error A) (Q : A → Prop) :
  yields m Q → yields (attempt m) (λ r, match r with inr a => Q a | inl _ => True end).
Proof. intros Hm w. exact (Hm w). Qed.
Lemma yields_lift {W V A} (get : W → V) (put : V → W → W) (m : M V error A) Q :
  yields m Q → yields (lift get put m) Q.
Proof. intros Hm w. exact (Hm (get w)). Qed.
Lemma yields_map_error {W A} f (m : M W error A) Q : yields m Q → yields (map_error f m) Q.
Proof. intros Hm w. specialize (Hm w). unfold map_error. by destruct (m w) as [[e|a] w']. Qed.

Definition is_of (issuer subject : string) (ident : Identity) : Prop :=
  Identity_IdPIssuer ident = issuer ∧ Identity_ExternalSubject ident = subject.
Lemma yields_by_subject issuer subject :
  yields (GetIdentityByIssuerSubject issuer subject) (is_of issuer subject).
Proof.
  intros s. unfold GetIdentityByIssuerSubject, exec, q_one. destruct (fault _); [done|].
  destruct (select_one _ _) as [i|] eqn:E; [|done]. apply select_one_Some in E as [Hp _].
  simpl. by apply bool_decide_unpack in Hp.
Qed.
Lemma yields_create_identity i :
  yields (CreateIdentity i) (is_of (Identity_IdPIssuer i) (Identity_ExternalSubject i)).
Proof. unfold CreateIdentity. do 3 (apply yields_any; intros ?). by apply yields_ret. Qed.
Lemma yields_register issuer subject email :
  yields (RegisterUserIdentity (X := X) (C := C) o issuer subject email) (is_of issuer subject).
Proof.
  unfold RegisterUserIdentity. destruct (negb _); [apply yields_throw|].
  case_decide; [apply yields_throw|].
  eapply yields_bind; [apply yields_attempt, yields_lift, yields_by_subject|].
  intros [e|i] Hi; [|by apply yields_ret].
  eapply yields_bind; [apply yields_attempt, yields_lift, yields_create_identity|].
  intros [e2|i] Hi2; simpl in Hi2.
  - destruct (is_conflict e2); [apply yields_lift, yields_by_subject|apply yields_throw].
  - apply yields_any. intros [e3|?]; [apply yields_throw|by apply yields_ret].
Qed.
Lemma yields_find_identity info scope :
  yields (find_identity (X := X) (C := C) o info scope) (is_of (ExtraIssuer info) (ExtraSubject info)).
Proof.
  unfold find_identity.
  eapply yields_bind; [apply yields_attempt, yields_lift, yields_lift, yields_by_subject|].
  intros [e|i] Hi; [|by apply yields_ret]. destruct (is_not_found e); [|apply yields_throw].
  case_decide; [|apply yields_throw]. apply yields_map_error, yields_lift, yields_register.
Qed.
Lemma yields_resolveActor req scope :
  yields (resolveActor (X := X) (C := C) o srv req scope) (acts_for req).
Proof.
  unfold resolveActor. destruct (cr_info req) as [info|] eqn:Hi; [|apply yields_throw].
  apply yields_any. intros _. eapply yields_bind; [apply yields_find_identity|]. intros ident [].
  case_decide as Hs; [apply yields_throw|]. apply yields_ret. exists info, ident.
  by split_and!.
Qed.

(** ** The effects *)

(** A relation that reads, the outside, the audit log and the operations of the call's actor
    respect. *)
Section framed.
Context (req : CallRequest) (R : relation (World X C)) `{!PreOrder R}.
Context (Hidle : ∀ w w', idle w w' → R w w') (Hout : ∀ w x, R w (w <| w_out := x |>)).
Context (Hlog : ∀ ev, frames R (in_store (Append ev))).
Context (Hreg : ∀ i s e, frames R (RegisterUserIdentity o i s e)).
Context (Hop : ∀ a op, acts_for req a → op_actor op = Some a →
  frames R (run_any o polls path_join goos_goarch op)).
Definition on_site : relation (Site X C) := λ s s', R (si_world s) (si_world s').
#[local] Instance on_site_PreOrder : PreOrder on_site.
Proof. split; unfold on_site; [by intros s|]. intros s1 s2 s3. apply transitivity. Qed.

Lemma frames_bp {A} (m : OM A) : frames R m → frames on_site (bp m).
Proof. intros Hm s. exact (Hm (si_world s)). Qed.
(** A computation of the store that changes no table. *)
Lemma frames_reading {A} (m : SM A) : frames (db_rel (same (λ d, d))) m → frames R (in_store m).
Proof. intros Hm w. apply Hidle, idle_in_store, Hm. Qed.
Lemma frames_dir {A} (m : SM A) : frames (db_rel (same (λ d, d))) m → frames on_site (dir m).
Proof. intros Hm. by apply frames_bp, frames_reading. Qed.
Lemma frames_out {A} (f : ext X A) : frames R (outside f).
Proof. intros w. unfold outside. destruct (f _) as [[e|a] x]; apply Hout. Qed.
Lemma frames_step : frames (db_rel (same (λ d, d))) step_no.
Proof. by intros s. Qed.
Lemma frames_mret_inv {A} (m : OM A) : frames R (m;; mret tt) → frames R m.
Proof. intros Hm w. specialize (Hm w). unfold mbind, M_bind in Hm. by destruct (m w) as [[e|a] w']. Qed.
Lemma of_user a op : orch_actor op = Some a → acts_for req a → frames R (run_orch o polls op).
Proof. intros Ho Ha. exact (Hop a (ByUser op) Ha Ho). Qed.
Lemma of_admin a op : acts_for req a → frames R (run_admin o path_join goos_goarch a op).
Proof. intros Ha. exact (Hop a (ByAdmin a op) Ha eq_refl). Qed.
Lemma frames_resolved {A} scope (k : Actor → SiM A) :
  (∀ a, acts_for req a → frames on_site (k a)) → frames on_site (resolveActor o srv req scope ≫= k).
Proof.
  assert (frames on_site (resolveActor (C := C) o srv req scope)) as Hf.
  { unfold resolveActor, find_identity, wrapping. repeat frame_step.
    - apply frames_dir. unfold GetIdentityByIssuerSubject. solve_frame.
    - by apply frames_bp. }
  intros Hk s. specialize (Hf s). pose proof (yields_resolveActor req scope s) as Hy. unfold mbind, M_bind.
  destruct (resolveActor _ _ _ _ s) as [[e|a] s']; [done|]. etrans; [exact Hf|]. by apply Hk.
Qed.

#[local] Hint Resolve frames_step frames_out : frame.
Create HintDb store_reads.
#[local] Hint Unfold GetIdentityByIssuerSubject GetBeamhallBySlug GetBeamBySlug GetBeamhall GetBeam GetIdentity
  GetRelease ListRoutesByBeam ListMembershipsByIdentity ListBeamsByBeamhall ListReleasesByBeam ListIdentities
  ListBeamhalls ListMembershipsByBeamhall ListPendingAdminActionRequests ListPendingPromotionRequests
  ListAuditEvents ListAuditEventsByBeamhall LatestAuditCheckpoint ListBeamAudiences ListResourcesByBeam
  list_resources GetMembership : store_reads.
Ltac read_store := try autounfold with store_reads; solve_frame.

Ltac by_user a op :=
  first [refine (of_user a op eq_refl _)|refine (frames_mret_inv _ (of_user a op eq_refl _))]; assumption.
Ltac by_admin a op :=
  first [refine (of_admin a op _)|refine (frames_mret_inv _ (of_admin a op _))]; assumption.
Ltac operation :=
  lazymatch goal with
  | |- frames _ (CreateBeam_ _ ?a ?h ?s ?n ?d ?t) => by_user a (OCreateBeam a h s n d t)
  | |- frames _ (SetSecret ?a ?h ?b ?k ?v) => by_user a (OSetSecret a h b k v)
  | |- frames _ (DeployBeam _ _ ?a ?h ?b ?r ?d) => by_user a (ODeployBeam a h b r d)
  | |- frames _ (DeployBeamFromSource _ _ ?a ?h ?b ?d) => by_user a (ODeployBeamFromSource a h b d)
  | |- frames _ (PausePreview _ ?a ?h ?b) => by_user a (OPausePreview a h b)
  | |- frames _ (ResumePreview _ ?a ?h ?b) => by_user a (OResumePreview a h b)
  | |- frames _ (ShowLogs ?a ?h ?b ?l) => by_user a (OShowLogs a h b l)
  | |- frames _ (PromoteToLive _ _ ?a ?h ?b) => by_user a (OPromoteToLive a h b)
  | |- frames _ (RequestPromotion ?a ?h ?b) => by_user a (ORequestPromotion a h b)
  | |- frames _ (ApprovePromotion _ _ ?a ?r) => by_user a (OApprovePromotion a r)
  | |- frames _ (RejectPromotion ?a ?r ?y) => by_user a (ORejectPromotion a r y)
  | |- frames _ (RollbackBeam _ _ ?a ?h ?b ?t) => by_user a (ORollbackBeam a h b t)
  | |- frames _ (DestroyBeam _ ?a ?h ?b) => by_user a (ODestroyBeam a h b)
  | |- frames _ (ArchiveBeam _ ?a ?h ?b) => by_user a (OArchiveBeam a h b)
  | |- frames _ (UpdateBeam_ ?a ?h ?b ?u) => by_user a (OUpdateBeam a h b u)
  | |- frames _ (CreateDatabase _ ?a ?h ?b ?n) => by_user a (OCreateDatabase a h b n)
  | |- frames _ (ProvisionEmail _ ?a ?h ?b) => by_user a (OProvisionEmail a h b)
  | |- frames _ (ProvisionAuth _ ?a ?h ?b) => by_user a (OProvisionAuth a h b)
  | |- frames _ (ProvisionObjectStore _ ?a ?h ?b) => by_user a (OProvisionObjectStore a h b)
  | |- frames _ (ShowEmail _ ?a ?h ?b) => by_user a (OShowEmail a h b)
  | |- frames _ (ShowAuth _ ?a ?h ?b) => by_user a (OShowAuth a h b)
  | |- frames _ (ShowObjectStore _ ?a ?h ?b) => by_user a (OShowObjectStore a h b)
  | |- frames _ (ShowBranding _ ?a ?h) => by_user a (OShowBranding a h)
  | |- frames _ (ShowBeamPeers ?a ?h ?b) => by_user a (OShowBeamPeers a h b)
  | |- frames _ (TryBeamTool _ ?a ?h ?b ?t ?g) => by_user a (OTryBeamTool a h b t g)
  | |- frames _ (UseApp _ ?a ?r) => by_user a (OUseApp a r)
  | |- frames _ (Admin_CreateBeamhall ?a ?s) => by_admin a (ACreateBeamhall s)
  | |- frames _ (RegisterIdentity ?a ?i ?s ?e ?d) => by_admin a (ARegisterIdentity i s e d)
  | |- frames _ (GrantMembership ?a ?i ?h ?r) => by_admin a (AGrantMembership i h r)
  | |- frames _ (SetEgress _ ?a ?h ?m ?l) => by_admin a (ASetEgress h m l)
  | |- frames _ (RevokeMembership ?a ?i ?h) => by_admin a (ARevokeMembership i h)
  | |- frames _ (SetMembershipRole ?a ?i ?h ?r) => by_admin a (ASetMembershipRole i h r)
  | |- frames _ (SetIdentityStatus ?a ?i ?s) => by_admin a (ASetIdentityStatus i s)
  | |- frames _ (DeregisterIdentity ?a ?i) => by_admin a (ADeregisterIdentity i)
  | |- frames _ (AdminUpdateBeamhall ?a ?s ?u) => by_admin a (AUpdateBeamhall s u)
  | |- frames _ (AdminCreateUser _ ?a ?u) => by_admin a (ACreateUser u)
  | |- frames _ (AdminSetUserPassword _ ?a ?u ?p) => by_admin a (ASetUserPassword u p)
  | |- frames _ (AdminSetUserEnabled _ ?a ?u ?b) => by_admin a (ASetUserEnabled u b)
  | |- frames _ (AdminCreateGroup _ ?a ?n) => by_admin a (ACreateGroup n)
  | |- frames _ (AdminAddUserToGroup _ ?a ?u ?g) => by_admin a (AAddUserToGroup u g)
  | |- frames _ (AdminRemoveUserFromGroup _ ?a ?u ?g) => by_admin a (ARemoveUserFromGroup u g)
  | |- frames _ (AdminDeleteUser _ ?a ?u) => by_admin a (ADeleteUser u)
  | |- frames _ (AdminDeleteGroup _ ?a ?g) => by_admin a (ADeleteGroup g)
  | |- frames _ (AdminBackupNow _ _ ?a ?t) => by_admin a (ABackupNow t)
  | |- frames _ (RequestFederateDirectory _ ?a ?d) => by_admin a (ARequestFederate d)
  | |- frames _ (RequestUnfederateDirectory _ ?a ?n) => by_admin a (ARequestUnfederate n)
  | |- frames _ (RequestSetSecurityContext _ ?a ?s ?r) => by_admin a (ARequestSetSecurityContext s r)
  | |- frames _ (RequestPruneAudit _ ?a ?n) => by_admin a (ARequestPruneAudit n)
  | |- frames _ (RequestRestoreBackup _ _ ?a ?n) => by_admin a (ARequestRestoreBackup n)
  | |- frames _ (RequestUpgrade _ _ ?a ?v ?s) => by_admin a (ARequestUpgrade v s)
  | |- frames _ (ApproveAdminAction _ _ ?a ?i) => by_admin a (AApprove i)
  | |- frames _ (RejectAdminAction ?a ?i ?r) => by_admin a (AReject i r)
  | |- frames _ (SetAppAudience ?a ?h ?b ?s) => by_admin a (ASetAppAudience h b s)
  | |- frames _ (SetBeamPeers _ ?a ?h ?b ?s) => by_admin a (ASetBeamPeers h b s)
  | |- frames _ (SetBranding ?a ?h ?s) => by_admin a (ASetBranding h s)
  | |- frames _ (SetAuthGroups _ ?a ?h ?b ?l) => by_admin a (ASetAuthGroups h b l)
  | |- frames _ (SetEmailSenders _ ?a ?h ?b ?l) => by_admin a (ASetEmailSenders h b l)
  | |- frames _ (SetEmailProvider _ ?a ?h ?u ?p ?t) => by_admin a (ASetEmailProvider h u p t)
  | |- frames _ (SetObjectStoreProvider _ ?a ?e ?r ?b ?k ?s ?p ?l) => by_admin a (ASetObjectStoreProvider e r b k s p l)
  | |- frames _ (SetObjectStoreQuota _ ?a ?h ?b ?n) => by_admin a (ASetObjectStoreQuota h b n)
  end.

(** The steps of a handler: its actor, its reads, its operation. *)
Ltac call_step :=
  match goal with
  | |- ∀ _, _ => intros
  | |- frames _ (resolveActor _ _ _ _ ≫= _) => apply frames_resolved
  | |- frames _ (on_beam _ _ _ _ _ _ _) => unfold on_beam
  | |- frames _ (it_on_beam _ _ _ _ _ _) => unfold it_on_beam
  | |- frames _ (on_hall _ _ _ _ _ _) => unfold on_hall
  | |- frames _ (as_it _ _ _ _) => unfold as_it
  | |- frames _ (filed _) => unfold filed
  | |- frames _ (let _ := _ in _) => cbv zeta
  | |- frames _ (dir _) => apply frames_dir; read_store
  | |- frames _ (in_store (Append _)) => apply Hlog
  | |- frames _ (in_store _) => apply frames_reading; read_store
  | |- frames _ (bp (of_sum ?r)) => apply frames_bp; intros ?; destruct r; reflexivity
  | |- frames _ (bp _) => apply frames_bp
  | |- frames _ (it_read _ _) => unfold it_read
  | |- frames _ (wrapping _ _) => unfold wrapping
  | |- frames _ _ => operation
  | |- _ => progress frame_step
  end.
Ltac solve_call := repeat (progress call_step).

(** ** What the handlers share *)

Lemma frames_channelURLs b : frames on_site (channelURLs_ (C := C) b).
Proof. unfold channelURLs_. solve_call. Qed.
Lemma frames_resolveBeamhall slug : frames on_site (resolveBeamhall (C := C) slug).
Proof. unfold resolveBeamhall. solve_call. Qed.
Lemma frames_resolveBeam h slug : frames on_site (resolveBeam (C := C) h slug).
Proof. unfold resolveBeam. solve_call. Qed.
Lemma frames_mint_token k h b a : frames on_site (mint_token (C := C) k h b a).
Proof.
  assert (∀ {A} (f : TokenStore → A * TokenStore), frames on_site (of_tokens (X := X) (C := C) f)) as Hf.
  { intros A f s. unfold of_tokens, on_site. destruct (f (si_tokens s)) as [r ts]. simpl. reflexivity. }
  unfold mint_token, site_now. solve_call.
Qed.
#[local] Hint Resolve frames_channelURLs frames_resolveBeamhall frames_resolveBeam frames_mint_token : frame.

(** ** The reads that are no operations *)

Lemma frames_collect_ {A B} (f : A → OM B) l : (∀ x, frames R (f x)) → frames R (collect f l).
Proof. intros Hf. induction l; simpl; solve_call. Qed.
Lemma frames_AdminBeamhallView a slug : frames R (AdminBeamhallView a slug).
Proof.
  unfold AdminBeamhallView, member_view, beam_view, channelURLs.
  repeat first [progress solve_call|apply frames_collect_].
Qed.
Lemma frames_Verify fuel : frames (db_rel (same (λ d, d))) (AuditLog.Verify fuel).
Proof.
  assert (∀ i s h, frames (db_rel (same (λ d, d))) (verify_loop fuel i s h)) as Hl.
  { induction fuel as [|fuel IH]; simpl; intros; read_store. }
  unfold AuditLog.Verify. read_store.
Qed.
#[local] Hint Resolve frames_AdminBeamhallView frames_Verify : frame.
Lemma frames_visible a pubs : frames R (visible_apps o a pubs).
Proof.
  assert (∀ pub, frames R (appView o pub)) as Hv by (intros; unfold appView, beamSignIn; solve_call).
  induction pubs; simpl; unfold visible; solve_call.
Qed.
#[local] Hint Resolve frames_visible : frame.
Lemma frames_ListApps a : frames R (ListApps o a).
Proof. unfold ListApps. solve_call. Qed.
Lemma frames_DescribeApp a app ws : frames R (DescribeApp o a app ws).
Proof. unfold DescribeApp, resolvePublishedApp. solve_call. Qed.
(** The enforcement point reads and appends. *)
Lemma frames_in_store_bind {A B} (m : SM A) (k : A → SM B) :
  frames R (in_store m) → (∀ a, frames R (in_store (k a))) → frames R (in_store (m ≫= k)).
Proof.
  intros Hm Hk w. specialize (Hm w). unfold in_store, lift, mbind, M_bind in *. simpl in *.
  destruct (m (w_store w)) as [[e|a] s]; simpl in *; [exact Hm|]. etrans; [exact Hm|].
  exact (Hk a (w <| w_store := s |>)).
Qed.
Lemma frames_in_store_attempt {A} (m : SM A) : frames R (in_store m) → frames R (in_store (attempt m)).
Proof. intros Hm w. exact (Hm w). Qed.
Lemma frames_decision q allow reason : frames R (in_store (decision q allow reason)).
Proof.
  unfold decision.
  apply frames_in_store_bind; [apply frames_in_store_attempt, Hlog|].
  intros r. apply frames_reading. solve_frame.
Qed.
Lemma frames_Authorize_ q : frames R (in_store (Authorize q)).
Proof.
  unfold Authorize.
  repeat match goal with
  | |- ∀ _, _ => intros
  | |- frames _ (in_store (decision _ _ _)) => apply frames_decision
  | |- frames _ (in_store (_ ≫= _)) => apply frames_in_store_bind
  | |- frames _ (in_store (attempt _)) => apply frames_in_store_attempt
  | |- frames _ (in_store (match _ with _ => _ end)) => case_match
  | |- _ => progress call_step
  end.
Qed.
#[local] Hint Resolve frames_Authorize_ : frame.
Lemma frames_ShowMetrics a h b : frames R (ShowMetrics a h b).
Proof.
  unfold ShowMetrics, showMetrics, authorize, with_outcome, outcome, operableBeam.
  apply frames_bind; [tc_solve|apply frames_Authorize_|solve_call].
Qed.
#[local] Hint Resolve frames_ListApps frames_DescribeApp frames_ShowMetrics : frame.

(** ** The calls *)

Lemma frames_with_urls l : frames on_site (with_urls (C := C) l).
Proof. induction l; simpl; solve_call. Qed.
#[local] Hint Resolve frames_with_urls : frame.
Lemma frames_member_halls only l : frames on_site (member_halls (C := C) only l).
Proof. induction l; simpl; solve_call. Qed.
#[local] Hint Resolve frames_member_halls : frame.
Lemma frames_unpack raw d : frames R (unpack_upload raw d).
Proof. intros w. unfold unpack_upload. destruct (extractTarGz _ _ _ _) as [[e|[]] tr]; apply Hout. Qed.
Lemma frames_remove_dir d : frames R (remove_dir d).
Proof. intros w. apply Hout. Qed.
Lemma frames_marshal args : frames on_site (marshal_args (C := C) args).
Proof. unfold marshal_args. solve_call. Qed.
#[local] Hint Resolve frames_unpack frames_remove_dir frames_marshal : frame.
Lemma frames_deployed_reply args bh b : frames on_site (deployed_reply (C := C) args bh b).
Proof. unfold deployed_reply. solve_call. Qed.
Lemma frames_push_reply a bh b : frames on_site (push_reply (C := C) srv a bh b).
Proof. unfold push_reply. solve_call. Qed.
#[local] Hint Resolve frames_deployed_reply frames_push_reply : frame.
Lemma frames_run_builder c : frames on_site (run_builder o polls srv req c).
Proof.
  destruct c; simpl.
  all: cbv delta [listBeams createBeam_ updateBeam_ deployBeam getRepo createDatabase_ provisionAuth_ showAuth_
    provisionEmail_ showEmail_ provisionObjectStore_ showObjectStore_ showBranding_ showBeamPeers_ setSecret_ showLogs_
    pausePreview_ resumePreview_ tryBeamTool_ promoteToLive_ rollback_ listPendingPromotions_ approvePromotion_
    rejectPromotion_ showMetrics_ archiveBeam_ destroyBeam_ not_enabled pickRollbackTarget ListPendingPromotions activeURL] beta.
  all: solve_call.
Qed.
Lemma frames_run_user c : frames on_site (run_user o srv req c).
Proof. destruct c; simpl; cbv delta [listApps_ describeApp_ useApp] beta; solve_call. Qed.
Lemma frames_resolveIdentityRef ref : frames on_site (resolveIdentityRef (C := C) ref).
Proof. unfold resolveIdentityRef. solve_call. Qed.
Lemma frames_branding_scope hall : frames on_site (branding_scope (C := C) hall).
Proof. unfold branding_scope. solve_call. Qed.
Lemma frames_audience_reply bh b aud : frames on_site (audience_reply (C := C) srv bh b aud).
Proof. unfold audience_reply. solve_call. Qed.
Lemma frames_describe name : frames R (describeBackup o path_join name).
Proof. unfold describeBackup. solve_call. Qed.
#[local] Hint Resolve frames_resolveIdentityRef frames_branding_scope frames_audience_reply frames_describe : frame.
Lemma frames_AdminListBackups a : frames R (AdminListBackups o path_join a).
Proof.
  unfold AdminListBackups. repeat first [progress call_step|apply frames_collect_].
Qed.
Lemma frames_AdminVerify fuel a : frames R (AdminVerifyAuditChain fuel a).
Proof. unfold AdminVerifyAuditChain. solve_call. Qed.
#[local] Hint Resolve frames_AdminListBackups frames_AdminVerify : frame.
Lemma frames_run_it c : frames on_site (run_it o srv path_join goos_goarch req c).
Proof.
  destruct c; simpl.
  all: cbv delta [adminRegisterIdentity adminGrantMembership adminListIdentities adminCreateBeamhall adminListBeamhalls
    adminShowBeamhall adminSetEgress adminSetAuthGroups adminSetEmailSenders adminSetEmailProvider
    adminSetObjectStoreProvider adminSetObjectStoreQuota adminSetBranding adminSetAppAudience adminSetBeamPeers
    adminCreateUser adminListUsers adminSetUserPassword adminCreateGroup adminListGroups adminAddUserToGroup
    adminFederateDirectory adminListPendingRequests adminApproveRequest adminRejectRequest adminUpdateBeamhall
    adminRevokeMembership adminSetIdentityStatus adminListReleases adminQueryAudit adminVerifyAuditChain
    adminSetUserEnabled adminSetMembershipRole adminDeregisterIdentity adminRemoveUserFromGroup adminDeleteUser
    adminDeleteGroup adminSetSecurityContext adminUnfederateDirectory adminPruneAudit adminBackupNow adminListBackups
    adminRestoreBackup adminRequestUpgrade] beta.
  all: solve_call.
  all: try unfold AdminListIdentities, AdminListBeamhalls, AdminListReleases, AdminQueryAudit,
    AdminListUsers, AdminListGroups, ListPendingAdminActions, idp, verify_fuel; solve_call.
Qed.
Lemma frames_call_tool c : frames on_site (call_tool o polls srv path_join goos_goarch req c).
Proof. destruct c; [apply frames_run_builder|apply frames_run_user|apply frames_run_it]. Qed.
End framed.

(** ** Who administers *)

(** What only IT decides is as it was; identities may have been added. *)
Record it_kept (d d' : DB) : Prop := MkItKept {
  ik_memberships : db_memberships d' = db_memberships d;
  ik_beamhalls : db_beamhalls d' = db_beamhalls d;
  ik_contexts : db_security_contexts d' = db_security_contexts d;
  ik_actions : db_admin_actions d' = db_admin_actions d;
  ik_audiences : db_audiences d' = db_audiences d;
  ik_branding : db_branding d' = db_branding d;
  ik_logos : db_branding_logos d' = db_branding_logos d;
  ik_keys : db_control_keys d' = db_control_keys d;
  ik_identities : db_identities d ⊆ db_identities d' }.
#[export] Instance it_kept_PreOrder : PreOrder it_kept.
Proof. split; [by split|]. intros d1 d2 d3 [] []. split; try congruence. by etrans. Qed.
Lemma it_kept_same d d' : it_tables d' = it_tables d → it_kept d d'.
Proof. unfold it_tables. intros [=]. split; congruence || (by apply reflexive_eq). Qed.
Lemma it_kept_unlogged d d' : unlogged d' = unlogged d → it_kept d d'.
Proof. destruct d, d'. intros [=]; subst. apply it_kept_same. reflexivity. Qed.
Lemma frames_it_kept {W A} (f : W → DB) (m : M W error A) :
  frames (λ w w', it_tables (f w') = it_tables (f w)) m → frames (λ w w', it_kept (f w) (f w')) m.
Proof. intros Hm w. apply it_kept_same, Hm. Qed.
Lemma frames_register_kept i s e :
  frames (on_world it_kept anything) (RegisterUserIdentity (X := X) (C := C) o i s e).
Proof.
  assert (∀ ev, frames (db_rel it_kept) (Append ev)) as Ha.
  { intros ev. apply (frames_it_kept st_db), Append_it_tables. }
  assert (∀ x, frames (db_rel it_kept) (CreateIdentity x)) as Hc.
  { intros x. unfold CreateIdentity. solve_frame.
    intros d [] d' Hq. apply q_insert_inv in Hq as (Hn & _ & _ & ->). split; try reflexivity.
    by apply insert_subseteq. }
  unfold RegisterUserIdentity, GetIdentityByIssuerSubject.
  repeat first [progress solve_world|apply frames_in_store; [tc_solve|first [apply Ha|apply Hc]]].
Qed.
Lemma unelevated_frames req c :
  (∀ info, cr_info req = Some info → elevated srv info = false) →
  frames (on_site (on_world it_kept anything)) (call_tool o polls srv path_join goos_goarch req c).
Proof.
  intros Hel. apply frames_call_tool; try tc_solve.
  - intros w w' Hi. split; [|done]. rewrite (idle_db _ _ Hi). reflexivity.
  - intros w x. split; [|done]. simpl. reflexivity.
  - intros ev. apply frames_in_store; [tc_solve|]. apply (frames_it_kept st_db), Append_it_tables.
  - apply frames_register_kept.
  - intros a op (info & ident & Hi & _ & _ & _ & ->) Ho. specialize (Hel info Hi).
    destruct op as [op|a' op]; simpl.
    + intros w. split; [|done]. apply it_kept_same.
      exact (proj1 (frames_run_orch_it o polls op w)).
    + injection Ho as ->. intros w. split; [|done].
      destruct (run_admin_gated o path_join goos_goarch (actor_of srv info (cr_forwarded req) ident) op w)
        as [Hg _].
      apply it_kept_unlogged, (unt_db _ _ (proj2 (Hg Hel))).
Qed.
End effects.


Lemma frames_register_governed `{!Env} {X C : Type} (o : Orchestrator) i s e :
  frames (on_world (keeping governed) anything) (RegisterUserIdentity (X := X) (C := C) o i s e).
Proof.
  unfold RegisterUserIdentity, GetIdentityByIssuerSubject.
  repeat first [progress solve_world|apply frames_in_store; [tc_solve|]
               |apply Append_governed|exact (run_op_governed (OpCreateIdentity _) eq_refl)].
Qed.
(** The hardening floor through a call that creates a beam. *)
Definition Create1 : ToolCall := Builder (T_create_beam "sales" "wiki" "Wiki" EmptyString EmptyString).
Definition Ada_writes : CallRequest := call_of "sub-ada" [ScopeBeamsWrite].


(** A builder tries to make itself an administrator, then an employee looks around. *)
Definition Calls1 : list (CallRequest * ToolCall) :=
  [(call_of "sub-bob" [ScopeBeamsWrite], Admin (A_set_membership_role "sales" "beamhall_admin" (MkIdentityRef "bob" EmptyString EmptyString)));
   (Ada_writes, Create1); (call_of "sub-eve" [ScopeBeamsUse], User_ U_list_apps)].

(** get_repo does not ask the enforcement point: a registered employee who is a member of nothing
    and holds beams:write is given a clone token for any beam, and nothing is on record. *)
Example outsider_clones :
  let r := call_tool Orch1 3 Server1 slash_join "linux_amd64" (call_of "sub-eve" [ScopeBeamsWrite])
             (Builder (T_get_repo "sales" "crm")) Site1 in
  is_inl r.1 = false ∧ db_audit (w_db (si_world r.2)) = db_audit (w_db (si_world Site1))
  ∧ (g_kind <$> ts_heap (si_tokens r.2)) = [kindRead].
Proof. vm_compute. done. Qed.

(** The three tools that show a facility answer although the facility is off: the advice the
    handlers attach to a disabled facility is never given by them. *)
Example show_auth_without_idp :
  is_inl (call_tool (Orch1 <| idpEnabled := false |>) 3 Server1 slash_join "linux_amd64"
            (call_of "sub-ada" [ScopeBeamhallsRead]) (Builder (T_show_auth "sales" "crm")) Site1).1 = false.
Proof. vm_compute. reflexivity. Qed.
