(* ===== verification/Console.v ===== *)
(** The admin console (internal/web): session cookies, the login at the identity provider, the
    session middleware with its CSRF token, and every action and view.  The templates are not
    modelled: a page is the data it is rendered from. *)
From S2P Require Import Prelude Regexp GoStrings GoNet GoHTTP Sha256 GoText Json Domain Gateway.
From S2P Require Import Store StoreOps AuditLog Policy Vault Scrub Outside SigV4 Orch AppTools.
From S2P Require Import Facility OrchAdmin OrchSensitive OrchProvision OrchBeam OrchLife Tarball.
From S2P Require Import Auth GitTokens GitServer Mcp McpTools McpAdmin.

(** * Session cookies (session.go) *)

Definition sessionCookie : string := "bh_admin_session".
Record session := MkSession {
  ss_Subject : string;
  ss_Issuer : string;
  ss_Email : string;
  ss_Identity : string;
  ss_ExpiresAt : Z;
  ss_CSRFNonce : string}.
Definition expired (s : session) (now : time) : bool := bool_decide (ss_ExpiresAt s ≤ unix_seconds now)%Z.
Definition session_members (s : session) : list (string * jval) :=
  [("sub", JStr (ss_Subject s)); ("iss", JStr (ss_Issuer s)); ("email", JStr (ss_Email s));
   ("id", JStr (ss_Identity s)); ("exp", JInt (ss_ExpiresAt s)); ("csrf", JStr (ss_CSRFNonce s))].
Definition read_session (payload : string) : option session :=
  members ← Unmarshal payload;
  sub ← str_field "sub" members; iss ← str_field "iss" members; email ← str_field "email" members;
  id ← str_field "id" members; exp ← int_field "exp" members; csrf ← str_field "csrf" members;
  Some (MkSession sub iss email id exp csrf).

(** The text before the last occurrence of a byte, and after it. *)
Fixpoint cut_last (b : ascii) (s : string) : option (string * string) :=
  match s with
  | EmptyString => None
  | String c rest =>
      match cut_last b rest with
      | Some (v, sig) => Some (String c v, sig)
      | None => if decide (c = b) then Some (EmptyString, rest) else None
      end
  end.
Section codec.
Context (key : string).
Definition sign (v : string) : string := RawURL_EncodeToString (hmacSHA256 key v).
Definition encode (s : session) : string :=
  let v := RawURL_EncodeToString (Marshal (session_members s)) in
  v +:+ "." +:+ sign v.
Definition decode (cookie : string) : string + session :=
  match cut_last "." cookie with
  | None => inl "malformed session cookie"
  | Some (v, sig) =>
      if decide (sig ≠ sign v) then inl "session signature mismatch"
      else
      match RawURL_DecodeString v with
      | None => inl "illegal base64 data"
      | Some payload =>
          match read_session payload with
          | None => inl "invalid session"
          | Some s => inr s
          end
      end
  end.
End codec.

(** * Requests and answers *)

(** The pattern of the mux a request matches, with its path values.  The values of the select
    boxes are constructors; a form that names another value is out of this model. *)
Inductive AdminRoute :=
  | R_login | R_callback | R_logout | R_dashboard | R_beamhall (slug : string) | R_audit
  | R_create_beamhall (runtime : option RuntimeClass) | R_register_identity
  | R_grant_membership (role : MembershipRole) | R_set_egress (slug : string) (mode : EgressMode)
  | R_promote (id : string) | R_pause (id : string) | R_resume (id : string) | R_rollback (id : string)
  | R_destroy (id : string) | R_approve (id : string) | R_reject (id : string).
(** What the handlers read of a request: the query, the form and the cookies by name. *)
Record WebRequest := MkWebRequest {
  wr_route : AdminRoute;
  wr_Query : string → string;
  wr_Form : string → string;
  wr_Cookie : string → option string;
  wr_Header : Header;
  wr_Host : string;
  wr_RemoteAddr : string}.
(** http.Cookie; each has the path /admin, HttpOnly and SameSite=Lax. *)
Record Cookie := MkCookie {
  ck_Name : string;
  ck_Value : string;
  ck_Secure : bool;
  ck_Expires : option Z;
  ck_MaxAge : Z}.

(** ** Pages *)

Record base := MkBase {
  bs_Title : string;
  bs_Operator : string;
  bs_Flash : string;
  bs_CSRF : string}.
Record releaseRow := MkReleaseRow {
  rw_ID : ID;
  rw_Label : string;
  rw_Image : string;
  rw_When : string;
  rw_Current : bool}.
Record beamRow := MkBeamRow {
  br_Beam : Beam;
  br_PreviewURL : string;
  br_LiveURL : string;
  br_LiveLog : list releaseRow}.
Record promotionRow := MkPromotionRow {
  pw_ID : ID;
  pw_Beam : string;
  pw_Requester : string;
  pw_When : string}.
Record beamhallData := MkBeamhallData {
  bd_Beamhall : Beamhall;
  bd_LiveCount : Z;
  bd_Beams : list beamRow;
  bd_Members : list (string * MembershipRole);
  bd_Identities : list Identity;
  bd_ApprovalGate : bool;
  bd_Pending : list promotionRow;
  bd_HasProduction : bool}.
Record auditRow := MkAuditRow {
  au_Seq : Z;
  au_When : string;
  au_Actor : string;
  au_Action : string;
  au_Decision : AuditDecision;
  au_Result : string;
  au_Reason : string}.
Inductive Page :=
  | LoginPage (err : string)
  | DashboardPage (b : base) (halls : list (Beamhall * Z * Z)) (identities : list Identity)
  | BeamhallPage (b : base) (data : beamhallData)
  | AuditPage (b : base) (chainOK : bool) (pruneNote : string) (events : list auditRow).
Inductive WebReply :=
  | WebError (status : Z) (msg : string)
  | Redirect (status : Z) (location : string)
  | Rendered (p : Page).
(** The cookies set, in order, and the answer. *)
Record Answer := MkAnswer {
  an_Cookies : list Cookie;
  an_Reply : WebReply}.
Definition plain (r : WebReply) : Answer := MkAnswer [] r.
Definition NotFound : Answer := plain (WebError 404 "404 page not found").
Definition internal_error : Answer := plain (WebError 500 "internal error").

(** * The console *)

Record oidcProvider := MkOidcProvider {
  op_authURL : string;
  op_tokURL : string;
  op_jwksURL : string}.
(** web.Config; the verifier's part is the Config of Auth.v. *)
Record ConsoleConfig := MkConsoleConfig {
  cc_BaseURL : string;
  cc_BaseDomain : string;
  cc_Issuer : string;
  cc_ClientID : string;
  cc_ClientSecret : string;
  cc_Scopes : list string;
  cc_Verifier : Auth.Config;
  cc_SessionKey : string;
  cc_SessionTTL : duration;
  cc_Secure : bool}.
(** What the network answers during a request, and the clocks the verifier reads. *)
Record Net := MkNet {
  net_moment : Moment;
  net_jwt_now : Z;
  net_post : string → string → Reply}.
(** The world, the endpoints once they are discovered, and the verifier's keys. *)
Record ConsoleState (X C : Type) := MkConsoleState {
  cs_world : World X C;
  cs_provider : option oidcProvider;
  cs_jwks : jwksCache}.
Arguments MkConsoleState {X C} _ _ _.
Arguments cs_world {X C} _.
Arguments cs_provider {X C} _.
Arguments cs_jwks {X C} _.
#[export] Instance Eta_ConsoleState X C : Eta (ConsoleState X C) :=
  λ s, MkConsoleState (cs_world s) (cs_provider s) (cs_jwks s).

(** ** The identity provider (oidc.go) *)

Section oidc.
Context `{!AuthLib} (cfg : ConsoleConfig).
Definition discover (get : string → Reply) : string + oidcProvider :=
  let u := TrimRight (cc_Issuer cfg) "/" +:+ "/.well-known/openid-configuration" in
  match get u with
  | BadURL e => inl e
  | Unreachable e => inl (Sprintf "OIDC discovery %s: %s" [FS u; FS e])
  | Answered status body =>
      if decide (status ≠ 200%Z) then inl (Sprintf "OIDC discovery %s: HTTP %d" [FS u; FD status])
      else
      match body with
      | inl e => inl ("OIDC discovery decode: " +:+ e)
      | inr v =>
          match (m ← struct_members v; a ← string_field "authorization_endpoint" m;
                 t ← string_field "token_endpoint" m; j ← string_field "jwks_uri" m; Some (a, t, j)) with
          | None => inl ("OIDC discovery decode: " +:+ json_type_error v)
          | Some (a, t, j) =>
              if decide (a = EmptyString ∨ t = EmptyString ∨ j = EmptyString)
              then inl (Sprintf "OIDC discovery %s: incomplete metadata" [FS u])
              else inr (MkOidcProvider a t j)
          end
      end
  end.
Definition authCodeURL (p : oidcProvider) (state redirectURI : string) : string :=
  op_authURL p +:+ "?" +:+ Values_Encode
    {["response_type" := "code"; "client_id" := cc_ClientID cfg; "redirect_uri" := redirectURI;
      "scope" := Join (cc_Scopes cfg) " "; "state" := state]}.
Definition exchange (p : oidcProvider) (post : string → string → Reply) (code redirectURI : string)
    : string + string :=
  let form := Values_Encode
    {["grant_type" := "authorization_code"; "code" := code; "redirect_uri" := redirectURI;
      "client_id" := cc_ClientID cfg; "client_secret" := cc_ClientSecret cfg]} in
  match post (op_tokURL p) form with
  | BadURL e => inl e
  | Unreachable e => inl ("token exchange: " +:+ e)
  | Answered status body =>
      if decide (status ≠ 200%Z) then inl (Sprintf "token exchange: HTTP %d" [FD status])
      else
      match body with
      | inl e => inl ("token response decode: " +:+ e)
      | inr v =>
          match (m ← struct_members v; a ← string_field "access_token" m; t ← string_field "token_type" m; Some a) with
          | None => inl ("token response decode: " +:+ json_type_error v)
          | Some a => if decide (a = EmptyString) then inl "token response had no access_token" else inr a
          end
      end
  end.
End oidc.

(** * Formats *)

Definition FormatMinute (t : time) : string :=
  let '((y, mo, d), (h, mi, _)) := clock_of t in
  pad 4 y +:+ "-" +:+ pad 2 mo +:+ "-" +:+ pad 2 d +:+ " " +:+ pad 2 h +:+ ":" +:+ pad 2 mi.
Definition FormatSecond (t : time) : string :=
  let '(_, (_, _, s)) := clock_of t in FormatMinute t +:+ ":" +:+ pad 2 s.
Definition shortImage (ref : string) : string :=
  if decide (ref = EmptyString) then "—"
  else
  match cut_at ref "@sha256:" with
  | Some (repo, dig) =>
      (match cut_last "/" repo with Some (_, name) => name | None => repo end)
      +:+ "@" +:+ String.substring 0 12 dig
  | None => ref
  end.
Definition relWhen (r : Release) : string :=
  let t := match Rel_ActivatedAt r with None => Rel_CreatedAt r | t => t end in
  match t with None => EmptyString | t => FormatMinute t end.
(** The live releases oldest first, numbered from [n] + 1. *)
Fixpoint number_rows (live : ID) (n : Z) (rels : list Release) : list releaseRow :=
  match rels with
  | [] => []
  | r :: rels =>
      if decide (Rel_Channel r ≠ ChannelLive) then number_rows live n rels
      else MkReleaseRow (Rel_ID r) ("v" +:+ format_int (n + 1))
             (shortImage (default EmptyString (Rel_ConfigSnapshot r !! "pull_ref"))) (relWhen r)
             (bool_decide (Rel_ID r = live)) :: number_rows live (n + 1) rels
  end.
Definition short (id : string) : string :=
  let n := String.length id in
  if decide (8 < n) then String.substring (n - 8) 8 id else id.

(** ** The handlers *)

Section console.
Context `{!Env, !Age, !Rand} {X C : Type} `{!Caddy C} `{!AuthLib}.
Context `{!RuntimeDriver X, !Platform X, !DatabaseProvisioner X, !IdentityProvider X, !Brokers X}.
Context (o : Orchestrator) (polls : nat) (cfg : ConsoleConfig) (net : Net).
Notation OM := (OM (X := X) (C := C)).
Definition ConsoleM : Type → Type := M (ConsoleState X C) error.
Definition cp {A} (m : OM A) : ConsoleM A := lift cs_world (λ w s, s <| cs_world := w |>) m.
Definition cdir {A} (m : SM A) : ConsoleM A := cp (in_store m).

Definition randomToken : ConsoleM string :=
  n ← cdir step_no;
  match rand_read n 24 with
  | inl e => throw (ErrExternal e)
  | inr b => mret (RawURL_EncodeToString b)
  end.
Definition externalSecure (r : WebRequest) : bool :=
  if decide (cc_BaseURL cfg ≠ EmptyString) then HasPrefix (cc_BaseURL cfg) "https://"
  else
  let p := Header_Get (wr_Header r) "X-Forwarded-Proto" in
  if decide (p ≠ EmptyString) then bool_decide (p = "https") else cc_Secure cfg.
Definition hostAllowed (host baseDomain : string) : bool :=
  let host := match SplitHostPort host with inr (h, _) => h | inl _ => host end in
  bool_decide (host = baseDomain) || HasSuffix host ("." +:+ baseDomain).
Definition redirectURI (r : WebRequest) : string :=
  if decide (cc_BaseURL cfg ≠ EmptyString) then TrimRight (cc_BaseURL cfg) "/" +:+ "/admin/callback"
  else
  let scheme := if externalSecure r then "https" else "http" in
  let host := if decide (cc_BaseDomain cfg ≠ EmptyString ∧ hostAllowed (wr_Host r) (cc_BaseDomain cfg) = false)
              then cc_BaseDomain cfg else wr_Host r in
  scheme +:+ "://" +:+ host +:+ "/admin/callback".
(** The provider, discovered on first use. *)
Definition oidc : ConsoleM oidcProvider :=
  p ← gets cs_provider;
  match p with
  | Some p => mret p
  | None =>
      match discover cfg (m_get (net_moment net)) with
      | inl e => throw (ErrMsg e)
      | inr p => modify (λ s, s <| cs_provider := Some p |>);; mret p
      end
  end.
Definition verify_token (token : string) : ConsoleM TokenInfo := λ s,
  let '(r, keys) := Auth.Verify (cc_Verifier cfg) (net_moment net) (net_jwt_now net) token (cs_jwks s) in
  (match r with inl e => inl (ErrMsg e) | inr info => inr info end, s <| cs_jwks := keys |>).

(** *** Login *)

Definition stateCookie : string := "bh_admin_oauth_state".
Definition handleLogin (r : WebRequest) : ConsoleM Answer :=
  if decide (wr_Query r "start" = EmptyString) then
    mret (plain (Rendered (LoginPage (wr_Query r "error"))))
  else
  state ← attempt randomToken;
  match state with
  | inl _ => mret internal_error
  | inr state =>
      prov ← attempt oidc;
      match prov with
      | inl _ => mret (plain (WebError 503 "identity provider unavailable — try again shortly"))
      | inr prov =>
          mret (MkAnswer [MkCookie stateCookie state (externalSecure r) None 600]
                  (Redirect 302 (authCodeURL cfg prov state (redirectURI r))))
      end
  end.
Definition setSession (s : session) (secure : bool) : Cookie :=
  MkCookie sessionCookie (encode (cc_SessionKey cfg) s) secure (Some (ss_ExpiresAt s)) 0.
Definition clearCookie (name : string) (secure : bool) : Cookie :=
  MkCookie name EmptyString secure None (-1).
Definition clearSession (secure : bool) : Cookie := clearCookie sessionCookie secure.
(** The session ends with the token if that is before its own time. *)
Definition session_end (now : Z) (expiration : time) : Z :=
  let at_ttl := (now + cc_SessionTTL cfg)%Z in
  wrap64 (unix_seconds (Some match expiration with
                             | Some e => if decide (e < at_ttl)%Z then e else at_ttl
                             | None => at_ttl
                             end)).
(** After the token is validated. *)
Definition open_session (r : WebRequest) (info : TokenInfo) : ConsoleM Answer :=
  if negb (HasScope (Scopes info) ScopeAdminIT) then
    mret (plain (WebError 403 "your account is not an IT administrator (missing the admin:it scope)"))
  else
  identID ← attempt (cp (EnsureOperator (ExtraIssuer info) (ExtraSubject info) (ExtraEmail info)));
  match identID with
  | inl _ => mret internal_error
  | inr identID =>
      t ← cdir now;
      nonce ← attempt randomToken;
      match nonce with
      | inl _ => mret internal_error
      | inr nonce =>
          let sess := MkSession (ExtraSubject info) (ExtraIssuer info) (ExtraEmail info) identID
                        (session_end (UnixNano t) (Expiration info)) nonce in
          mret (MkAnswer [setSession sess (externalSecure r); clearCookie stateCookie (externalSecure r)]
                  (Redirect 302 "/admin"))
      end
  end.
Definition handleCallback (r : WebRequest) : ConsoleM Answer :=
  if decide (wr_Cookie r stateCookie = None ∨ wr_Cookie r stateCookie = Some EmptyString
             ∨ wr_Cookie r stateCookie ≠ Some (wr_Query r "state")) then
    mret (plain (WebError 400 "invalid OAuth state — restart the login"))
  else
  let code := wr_Query r "code" in
  if decide (code = EmptyString) then mret (plain (WebError 400 "missing authorization code"))
  else
  prov ← attempt oidc;
  match prov with
  | inl _ => mret (plain (WebError 503 "identity provider unavailable — try again shortly"))
  | inr prov =>
      match exchange cfg prov (net_post net) code (redirectURI r) with
      | inl _ => mret (plain (WebError 502 "login failed at the identity provider"))
      | inr tok =>
          info ← attempt (verify_token tok);
          match info with
          | inl _ => mret (plain (WebError 502 "the identity provider returned an invalid token"))
          | inr info => open_session r info
          end
      end
  end.

(** *** The middleware *)

Definition requireAdmin (r : WebRequest) (h : session → ConsoleM Answer) : ConsoleM Answer :=
  match wr_Cookie r sessionCookie with
  | None => mret (plain (Redirect 302 "/admin/login"))
  | Some c =>
      let turn_away := MkAnswer [clearSession (externalSecure r)] (Redirect 302 "/admin/login") in
      match decode (cc_SessionKey cfg) c with
      | inl _ => mret turn_away
      | inr sess =>
          t ← cdir now;
          if expired sess t then mret turn_away else h sess
      end
  end.
Definition clientIP (r : WebRequest) : string :=
  let xff := Header_Get (wr_Header r) "X-Forwarded-For" in
  if decide (xff ≠ EmptyString) then xff else wr_RemoteAddr r.
Definition actor (r : WebRequest) (op : session) : Actor :=
  MkActor (ss_Identity op) EmptyString true (clientIP r) [] EmptyString.
Definition csrfToken (op : session) : string :=
  sign (cc_SessionKey cfg) ("csrf:" +:+ ss_Subject op +:+ ":" +:+ ss_CSRFNonce op).
Definition csrf_mismatch : Answer := plain (WebError 403 "CSRF token mismatch — reload the page and retry").
Definition checkCSRF (r : WebRequest) (op : session) (m : ConsoleM Answer) : ConsoleM Answer :=
  if decide (wr_Form r "csrf" ≠ csrfToken op) then mret csrf_mismatch else m.
Definition handleLogout (r : WebRequest) (op : session) : ConsoleM Answer :=
  checkCSRF r op (mret (MkAnswer [clearSession (externalSecure r)] (Redirect 302 "/admin/login"))).

(** *** Actions (actions.go) *)

Definition redirectFlash (path flash : string) : Answer :=
  plain (Redirect 303 (path +:+ "?flash=" +:+ QueryEscape flash)).
(** An operation and the message of its outcome. *)
Definition flashing {A} (dest failed : string) (done : A → string) (m : OM A) : ConsoleM Answer :=
  r ← attempt (cp m);
  mret (redirectFlash dest (match r with inl e => failed +:+ Error e | inr a => done a end)).
Definition atoi (r : WebRequest) (k : string) (def : Z) : Z :=
  match ParseInt_ 10 (wr_Form r k) with inr v => v | inl _ => def end.
Definition field (r : WebRequest) (k : string) : string := TrimSpace (wr_Form r k).
Definition new_beamhall (r : WebRequest) (runtime : option RuntimeClass) : NewBeamhallSpec :=
  MkNewBeamhallSpec (field r "slug") (field r "display_name") (field r "department") runtime (Some TemplateWebApp)
    (MkResourceQuota (atoi r "max_beams" 5) (atoi r "live_slots" 1) (atoi r "max_db" 2) 0 0 0)
    (atoi r "live_slots" 1) (Some EgressDenyAll) [].
Definition actionCreateBeamhall (r : WebRequest) (runtime : option RuntimeClass) (op : session) : ConsoleM Answer :=
  checkCSRF r op (
    let spec := new_beamhall r runtime in
    flashing "/admin" "create beamhall failed: " (λ _, "beamhall " +:+ NB_Slug spec +:+ " created")
      (Admin_CreateBeamhall (actor r op) spec)).
Definition actionRegisterIdentity (r : WebRequest) (op : session) : ConsoleM Answer :=
  checkCSRF r op (
    flashing "/admin" "register identity failed: " (λ _, "identity registered")
      (RegisterIdentity (actor r op) (field r "issuer") (field r "subject") (field r "email") (field r "display_name"))).
Definition hall_page (slug : string) : string := "/admin/beamhalls/" +:+ slug.
Definition actionGrantMembership (r : WebRequest) (role : MembershipRole) (op : session) : ConsoleM Answer :=
  checkCSRF r op (
    flashing (hall_page (wr_Form r "slug")) "grant failed: " (λ _, "membership granted")
      (GrantMembership (actor r op) (wr_Form r "identity_id") (wr_Form r "beamhall_id") role)).
Definition allow_lines (text : string) : list string :=
  filter (.≠ EmptyString) (TrimSpace <$> Split text Regexp.newline).
Definition actionSetEgress (r : WebRequest) (slug : string) (mode : EgressMode) (op : session) : ConsoleM Answer :=
  checkCSRF r op (
    bh ← attempt (cdir (GetBeamhallBySlug slug));
    match bh with
    | inl _ => mret NotFound
    | inr bh =>
        flashing (hall_page slug) "egress update failed: " (λ _, "egress policy updated")
          (SetEgress o (actor r op) (Beamhall_ID bh) mode (allow_lines (wr_Form r "allowlist")))
    end).
(** The beam of the path, which must be in the beamhall the form names. *)
Definition on_beam_of (r : WebRequest) (id : string) (k : Beamhall → Beam → ConsoleM Answer) : ConsoleM Answer :=
  bh ← attempt (cdir (GetBeamhallBySlug (wr_Form r "slug")));
  match bh with
  | inl _ => mret NotFound
  | inr bh =>
      b ← attempt (cdir (GetBeam id));
      match b with
      | inl _ => mret NotFound
      | inr b => if decide (Beam_BeamhallID b ≠ Beamhall_ID bh) then mret NotFound else k bh b
      end
  end.
Definition beamAction (r : WebRequest) (id : string) (op : session) (run : ID → ID → OM string) : ConsoleM Answer :=
  checkCSRF r op (on_beam_of r id (λ bh b,
    flashing (hall_page (wr_Form r "slug")) (Beam_Slug b +:+ ": ") (λ msg, Beam_Slug b +:+ " " +:+ msg)
      (run (Beamhall_ID bh) id))).
Definition actionPromote (r : WebRequest) (id : string) (op : session) : ConsoleM Answer :=
  beamAction r id op (λ bhID beamID,
    host ← PromoteToLive o polls (actor r op) bhID beamID; mret ("promoted to " +:+ host)).
Definition actionPause (r : WebRequest) (id : string) (op : session) : ConsoleM Answer :=
  beamAction r id op (λ bhID beamID, PausePreview o (actor r op) bhID beamID;; mret "paused").
Definition actionResume (r : WebRequest) (id : string) (op : session) : ConsoleM Answer :=
  beamAction r id op (λ bhID beamID,
    host ← ResumePreview o (actor r op) bhID beamID;
    mret ("resumed at https://" +:+ host +:+ " (new URL — the previous one is retired)")).
Definition actionRollback (r : WebRequest) (id : string) (op : session) : ConsoleM Answer :=
  checkCSRF r op (on_beam_of r id (λ bh b,
    flashing (hall_page (wr_Form r "slug")) (Beam_Slug b +:+ ": ")
      (λ host, Beam_Slug b +:+ " production rolled back — now serving https://" +:+ host)
      (RollbackBeam o polls (actor r op) (Beamhall_ID bh) id (wr_Form r "release_id")))).
Definition actionDestroy (r : WebRequest) (id : string) (op : session) : ConsoleM Answer :=
  beamAction r id op (λ bhID beamID, DestroyBeam o (actor r op) bhID beamID;; mret "destroyed").
Definition actionApprovePromotion (r : WebRequest) (id : string) (op : session) : ConsoleM Answer :=
  checkCSRF r op (
    flashing (hall_page (wr_Form r "slug")) "approve failed: " (λ host, "promotion approved — live at " +:+ host)
      (ApprovePromotion o polls (actor r op) id)).
Definition actionRejectPromotion (r : WebRequest) (id : string) (op : session) : ConsoleM Answer :=
  checkCSRF r op (
    flashing (hall_page (wr_Form r "slug")) "reject failed: " (λ _, "promotion rejected")
      (RejectPromotion (actor r op) id (wr_Form r "reason"))).

(** *** Views (views.go) *)

Definition base_of (r : WebRequest) (op : session) (title : string) : base :=
  MkBase title (ss_Email op) (wr_Query r "flash") (csrfToken op).
Fixpoint each {A B} (f : A → ConsoleM B) (l : list A) : ConsoleM (list B) :=
  match l with
  | [] => mret []
  | x :: l => y ← f x; ys ← each f l; mret (y :: ys)
  end.
(** A read whose error gives the zero value. *)
Definition or_else {A} (zero : A) (m : ConsoleM A) : ConsoleM A :=
  r ← attempt m;
  mret (match r with inl _ => zero | inr a => a end).
Definition console_or_fail {A} (m : ConsoleM A) (k : A → ConsoleM Answer) : ConsoleM Answer :=
  r ← attempt m;
  match r with inl _ => mret internal_error | inr a => k a end.
Definition handleDashboard (r : WebRequest) (op : session) : ConsoleM Answer :=
  console_or_fail (cdir ListBeamhalls) (λ halls,
    rows ← each (λ h,
      bc ← or_else 0%Z (cdir (CountBeamsByBeamhall (Beamhall_ID h)));
      lc ← or_else 0%Z (cdir (CountLiveBeamsByBeamhall (Beamhall_ID h)));
      mret (h, bc, lc)) halls;
    console_or_fail (cdir ListIdentities) (λ idents,
      mret (plain (Rendered (DashboardPage (base_of r op "Beamhalls") rows idents))))).
Definition console_channelURLs (beamID : ID) : ConsoleM (string * string) :=
  routes ← attempt (cdir (ListRoutesByBeam beamID));
  mret (match routes with inl _ => (EmptyString, EmptyString) | inr routes => channel_urls routes end).
Definition liveHistory (b : Beam) : ConsoleM (list releaseRow) :=
  if decide (Beam_Mode b ≠ ModeLive) then mret []
  else
  rels ← or_else [] (cdir (ListReleasesByBeam (Beam_ID b)));
  mret (rev (number_rows (Beam_LiveReleaseID b) 0 (rev rels))).
Definition beam_row (b : Beam) : ConsoleM beamRow :=
  '(preview, live) ← console_channelURLs (Beam_ID b);
  log ← liveHistory b;
  mret (MkBeamRow b preview live log).
Definition member_row (m : Membership) : ConsoleM (string * MembershipRole) :=
  i ← attempt (cdir (GetIdentity (Membership_IdentityID m)));
  mret (match i with inl _ => Membership_IdentityID m | inr i => Identity_Email i end, Membership_Role m).
Definition promotion_row (pr : PromotionRequest) : ConsoleM promotionRow :=
  b ← attempt (cdir (GetBeam (PR_BeamID pr)));
  i ← attempt (cdir (GetIdentity (PR_RequestedBy pr)));
  mret (MkPromotionRow (PR_ID pr) (match b with inl _ => PR_BeamID pr | inr b => Beam_Slug b end)
    (match i with
     | inr i => if decide (Identity_Email i ≠ EmptyString) then Identity_Email i else PR_RequestedBy pr
     | inl _ => PR_RequestedBy pr
     end) (FormatMinute (PR_CreatedAt pr))).
Definition handleBeamhall (r : WebRequest) (slug : string) (op : session) : ConsoleM Answer :=
  bh ← attempt (cdir (GetBeamhallBySlug slug));
  match bh with
  | inl _ => mret NotFound
  | inr bh =>
      let id := Beamhall_ID bh in
      console_or_fail (cdir (ListBeamsByBeamhall id)) (λ beams,
        rows ← each beam_row beams;
        members ← or_else [] (cdir (ListMembershipsByBeamhall id));
        mrows ← each member_row members;
        idents ← or_else [] (cdir ListIdentities);
        lc ← or_else 0%Z (cdir (CountLiveBeamsByBeamhall id));
        pending ← (if promoteApproval o then
                     reqs ← or_else [] (cp (ListPendingPromotions (actor r op) id));
                     each promotion_row reqs
                   else mret []);
        mret (plain (Rendered (BeamhallPage (base_of r op (Beamhall_Slug bh))
          (MkBeamhallData bh lc rows mrows idents (promoteApproval o) pending
             (existsb (λ b, bool_decide (Beam_Mode b = ModeLive)) beams))))))
  end.
Definition audit_row (rec : AuditRecord) : auditRow :=
  let e := Rec_Event rec in
  MkAuditRow (Rec_Seq rec) (FormatSecond (Ev_At e)) (short (Ev_ActorID e)) (Ev_Action e) (Ev_Decision e)
    (Ev_ResultStatus e) (Ev_Reason e).
Definition handleAudit (r : WebRequest) (op : session) : ConsoleM Answer :=
  fuel ← cp verify_fuel;
  console_or_fail (cdir (AuditLog.Verify fuel)) (λ issues,
    console_or_fail (cdir (ListAuditEvents 0 300)) (λ recs,
      cp_ ← or_else None (cdir LatestAuditCheckpoint);
      let note := match cp_ with
        | Some c => Sprintf "Older entries pruned through seq %d on %s by retention policy — the surviving chain below is anchored at that checkpoint."
                      [FD (CP_ThroughSeq c); FS (FormatDate (CP_At c))]
        | None => EmptyString
        end in
      mret (plain (Rendered (AuditPage (base_of r op "Audit log") (match issues with Some [] => true | _ => false end) note
                               (rev (audit_row <$> recs))))))).

(** *** The mux *)

Definition console_serve (r : WebRequest) : ConsoleM Answer :=
  match wr_route r with
  | R_login => handleLogin r
  | R_callback => handleCallback r
  | R_logout => requireAdmin r (handleLogout r)
  | R_dashboard => requireAdmin r (handleDashboard r)
  | R_beamhall slug => requireAdmin r (handleBeamhall r slug)
  | R_audit => requireAdmin r (handleAudit r)
  | R_create_beamhall runtime => requireAdmin r (actionCreateBeamhall r runtime)
  | R_register_identity => requireAdmin r (actionRegisterIdentity r)
  | R_grant_membership role => requireAdmin r (actionGrantMembership r role)
  | R_set_egress slug mode => requireAdmin r (actionSetEgress r slug mode)
  | R_promote id => requireAdmin r (actionPromote r id)
  | R_pause id => requireAdmin r (actionPause r id)
  | R_resume id => requireAdmin r (actionResume r id)
  | R_rollback id => requireAdmin r (actionRollback r id)
  | R_destroy id => requireAdmin r (actionDestroy r id)
  | R_approve id => requireAdmin r (actionApprovePromotion r id)
  | R_reject id => requireAdmin r (actionRejectPromotion r id)
  end.
End console.

(** web.New: the default lifetime of a session, and the endpoints if they can be discovered. *)
Definition console_config (cfg : ConsoleConfig) : ConsoleConfig :=
  if decide (cc_SessionTTL cfg = 0%Z)
  then MkConsoleConfig (cc_BaseURL cfg) (cc_BaseDomain cfg) (cc_Issuer cfg) (cc_ClientID cfg) (cc_ClientSecret cfg)
         (cc_Scopes cfg) (cc_Verifier cfg) (cc_SessionKey cfg) (8 * 3600 * 10 ^ 9)%Z (cc_Secure cfg)
  else cfg.
Definition console_new `{!AuthLib} {X C} (w : World X C) (keys : jwksCache) (cfg : ConsoleConfig)
    (get : string → Reply) : ConsoleState X C :=
  MkConsoleState w (match discover cfg get with inl _ => None | inr p => Some p end) keys.
