(* ===== verification/ConsoleProofs.v ===== *)
(** The admin console's sessions: a cookie reads back as the session it was made from, a signature
    fits one session and no form token, nothing happens without a session, and every session a
    history of requests uses was opened by the verified token of an administrator. *)
From S2P Require Import Prelude Regexp GoStrings GoNet GoHTTP Sha256 GoText Json Domain Gateway.
From S2P Require Import Store StoreOps AuditLog Policy Vault Scrub Outside SigV4 SigV4Proofs Orch.
From S2P Require Import AppTools Facility OrchAdmin OrchSensitive OrchProvision OrchBeam OrchLife.
From S2P Require Import StoreInv OrchScope Auth McpAdmin Console.

#[local] Opaque sha256 hmacSHA256 hex_encode RawURL_EncodeToString Marshal.

(** * Cookies *)

Definition no_byte (b c : ascii) : bool := negb (bool_decide (c = b)).
Lemma cut_last_none b s : all_bytes (no_byte b) s = true → cut_last b s = None.
Proof.
  induction s as [|c s IH]; [done|]. cbn [all_bytes cut_last]. intros [Hc Hs]%andb_prop. rewrite (IH Hs).
  unfold no_byte in Hc. case_decide; [|done]. by rewrite bool_decide_true in Hc.
Qed.
Lemma cut_last_app b v sig : all_bytes (no_byte b) sig = true →
  cut_last b (v +:+ String b sig) = Some (v, sig).
Proof.
  intros Hsig. induction v as [|c v IH].
  - change (EmptyString +:+ ?x) with x. simpl. rewrite cut_last_none by done. by rewrite decide_True.
  - rewrite string_app_cons. cbn [cut_last]. by rewrite IH.
Qed.
Lemma cut_last_inv b s v sig : cut_last b s = Some (v, sig) → s = v +:+ String b sig.
Proof.
  revert v. induction s as [|c s IH]; intros v; [done|]. cbn [cut_last].
  destruct (cut_last b s) as [[v' sig']|].
  - intros [= <- <-]. rewrite string_app_cons. by rewrite <- (IH v').
  - case_decide; [|done]. intros [= <- <-]. by subst.
Qed.
(** Base64 holds no dot and no colon. *)
Lemma encoded_free b s : b = "."%char ∨ b = ":"%char →
  all_bytes (no_byte b) (RawURL_EncodeToString s) = true.
Proof.
  intros Hb. apply RawURL_Encode_digits. intros z Hz.
  destruct (b64_digit_ok z Hz) as (_ & _ & _ & Hc & Hd). unfold no_byte. by destruct Hb as [->| ->]; rewrite bool_decide_false.
Qed.

Section codec.
Context (key : string).

Lemma cut_encode s :
  cut_last "." (encode key s)
  = Some (RawURL_EncodeToString (Marshal (session_members s)), sign key (RawURL_EncodeToString (Marshal (session_members s)))).
Proof. unfold encode. apply cut_last_app, encoded_free. by left. Qed.
Lemma read_session_members s : int64 (ss_ExpiresAt s) → read_session (Marshal (session_members s)) = Some s.
Proof.
  intros Hs. unfold read_session. rewrite Unmarshal_Marshal by (unfold session_members; by rewrite !Forall_cons, Forall_nil).
  by destruct s.
Qed.

(** A cookie reads back.  What the console encodes for a session, decoded under the same key,
    is that session, whatever texts it holds. *)
Theorem session_roundtrip (s : session) (Hexp : int64 (ss_ExpiresAt s)) :
  decode key (encode key s) = inr s.
Proof.
  unfold decode. rewrite cut_encode, decide_False by (intros H; by apply H).
  by rewrite RawURL_roundtrip, read_session_members.
Qed.

(** A signature fits one text. *)
Lemma sign_binds v v' : sign key v = sign key v' → v = v' ∨ sha256_collision.
Proof. unfold sign. intros E%RawURL_Encode_inj. by apply hmac_binds in E. Qed.
Lemma decode_inv c s : decode key c = inr s →
  ∃ v payload, cut_last "." c = Some (v, sign key v) ∧ RawURL_DecodeString v = Some payload
    ∧ read_session payload = Some s.
Proof.
  unfold decode. destruct (cut_last _ _) as [[v sig]|]; [|done]. case_decide as Hs; [done|].
  subst sig.
  destruct (RawURL_DecodeString v) as [payload|] eqn:Hd; [|done].
  destruct (read_session payload) as [s'|] eqn:Hr; [|done]. intros [= ->]. by exists v, payload.
Qed.
(** What a form token signs is not base64. *)
Lemma csrf_not_base64 rest : RawURL_DecodeString ("csrf:" +:+ rest) = None.
Proof.
  destruct (RawURL_DecodeString _) as [t|] eqn:E; [|done]. apply RawURL_Decode_alphabet in E.
  vm_compute in E. done.
Qed.
(** A cookie that carries the signature of a session is that session's. *)
Lemma decode_signed c v s s' : int64 (ss_ExpiresAt s') →
  cut_last "." c = Some (v, sign key (RawURL_EncodeToString (Marshal (session_members s')))) →
  decode key c = inr s → s = s' ∨ sha256_collision.
Proof.
  intros Hs' Hc (v' & payload & Hv & Hp & Hr)%decode_inv. rewrite Hc in Hv. injection Hv as -> Hsig.
  apply sign_binds in Hsig as [<-|]; [|by right]. left.
  rewrite RawURL_roundtrip in Hp. injection Hp as <-. rewrite read_session_members in Hr by done. by injection Hr.
Qed.
(** A cookie that carries a form token opens nothing. *)
Lemma decode_csrf c v rest s :
  cut_last "." c = Some (v, sign key ("csrf:" +:+ rest)) → decode key c = inr s → sha256_collision.
Proof.
  intros Hc (v' & payload & Hv & Hp & _)%decode_inv. rewrite Hc in Hv. injection Hv as -> Hsig.
  apply sign_binds in Hsig as [<-|]; [|done]. by rewrite csrf_not_base64 in Hp.
Qed.
End codec.

(** * What an answer carries *)

(** What the answer [a] leaves in the state, over all results that are answers. *)
Definition answers {W A} (m : M W error A) (Q : A → W → Prop) : Prop :=
  ∀ w, match m w with (inr a, w') => Q a w' | (inl _, _) => True end.
Section answers.
Context {W : Type}.
Lemma answers_ret {A} (a : A) (Q : A → W → Prop) : (∀ w, Q a w) → answers (mret a) Q.
Proof. intros Ha w. apply Ha. Qed.
Lemma answers_bind {A B} (m : M W error A) (k : A → M W error B) (P : A → W → Prop) Q :
  answers m P → (∀ a w, P a w → match k a w with (inr b, w') => Q b w' | (inl _, _) => True end) →
  answers (m ≫= k) Q.
Proof. intros Hm Hk w. specialize (Hm w). unfold mbind, M_bind. destruct (m w) as [[e|a] w']; [done|]. by apply Hk. Qed.
Lemma answers_then {A B} (m : M W error A) (k : A → M W error B) Q :
  (∀ a, answers (k a) Q) → answers (m ≫= k) Q.
Proof.
  intros Hk. apply (answers_bind m k (λ _ _, True)); [intros w; by repeat case_match|].
  intros a w _. apply Hk.
Qed.
Lemma answers_attempt {A} (m : M W error A) (Q : A → W → Prop) :
  answers m Q → answers (attempt m) (λ r w, match r with inr a => Q a w | inl _ => True end).
Proof. intros Hm w. specialize (Hm w). unfold attempt. by destruct (m w) as [[e|a] w']. Qed.
Lemma answers_mono {A} (m : M W error A) (Q Q' : A → W → Prop) :
  answers m Q → (∀ a w, Q a w → Q' a w) → answers m Q'.
Proof. intros Hm HQ w. specialize (Hm w). destruct (m w) as [[e|a] w']; [done|by apply HQ]. Qed.
End answers.

(** The signatures a browser finds in an answer: of the cookies it is told to keep and of the
    forms of a page. *)
Definition page_base (r : WebReply) : option base :=
  match r with
  | Rendered (DashboardPage b _ _) | Rendered (BeamhallPage b _) | Rendered (AuditPage b _ _ _) => Some b
  | _ => None
  end.
Definition signatures (a : Answer) : list string :=
  omap (λ ck, snd <$> cut_last "." (ck_Value ck)) (an_Cookies a)
  ++ match page_base (an_Reply a) with Some b => [bs_CSRF b] | None => [] end.

Section sessions.
Context `{!Env, !Age, !Rand} {X C : Type} `{!Caddy C} `{!AuthLib}.
Context `{!RuntimeDriver X, !Platform X, !DatabaseProvisioner X, !IdentityProvider X, !Brokers X}.
Context (o : Orchestrator) (polls : nat) (cfg : ConsoleConfig).
Notation State := (ConsoleState X C).

(** The table has a row of that identifier for the issuer and subject. *)
Definition registered (issuer subject : string) (id : ID) (d : DB) : Prop :=
  ∃ k i, db_identities d !! k = Some i ∧ Identity_ID i = id
    ∧ Identity_IdPIssuer i = issuer ∧ Identity_ExternalSubject i = subject.
(** The request [r] opened [s], in the state [st] after it: a callback whose state is the
    browser's, a token the verifier accepted and that has the administration scope, the
    identity registered for its issuer and subject, an end no later than the token's. *)
Definition opened_by (net : Net) (r : WebRequest) (s : session) (st : State) : Prop :=
  ∃ tok keys info now,
    wr_route r = R_callback ∧ wr_Cookie r stateCookie = Some (wr_Query r "state") ∧ wr_Query r "state" ≠ EmptyString
    ∧ (Auth.Verify (cc_Verifier cfg) (net_moment net) (net_jwt_now net) tok keys).1 = inr info
    ∧ HasScope (Scopes info) ScopeAdminIT = true
    ∧ ss_Subject s = ExtraSubject info ∧ ss_Issuer s = ExtraIssuer info ∧ ss_Email s = ExtraEmail info
    ∧ registered (ss_Issuer s) (ss_Subject s) (ss_Identity s) (w_db (cs_world st))
    ∧ ss_ExpiresAt s = session_end cfg now (Expiration info)
    ∧ ∀ e, Expiration info = Some e → int64 (Z.min e (now + cc_SessionTTL cfg)) → (ss_ExpiresAt s ≤ unix_seconds (Some e))%Z.
(** A signature is of a session the request opened, or of a form token. *)
Definition signs (net : Net) (r : WebRequest) (st : State) (sig : string) : Prop :=
  (∃ s, sig = sign (cc_SessionKey cfg) (RawURL_EncodeToString (Marshal (session_members s)))
        ∧ int64 (ss_ExpiresAt s) ∧ opened_by net r s st)
  ∨ ∃ rest, sig = sign (cc_SessionKey cfg) ("csrf:" +:+ rest).
Definition signs_all (net : Net) (r : WebRequest) (a : Answer) (st : State) : Prop :=
  Forall (signs net r st) (signatures a).

Lemma signs_nothing net r a st : signatures a = [] → signs_all net r a st.
Proof. unfold signs_all. intros ->. constructor. Qed.
Lemma signs_page net r p op b st :
  page_base (Rendered p) = Some b → bs_CSRF b = csrfToken cfg op → signs_all net r (plain (Rendered p)) st.
Proof.
  unfold signs_all, signatures. intros Hp Hb. simpl. simpl in Hp. rewrite Hp. apply Forall_singleton. right.
  rewrite Hb. unfold csrfToken. by eexists.
Qed.
Lemma random_no_dot : answers (randomToken (X := X) (C := C)) (λ s _, all_bytes (no_byte ".") s = true).
Proof.
  unfold randomToken. apply answers_then. intros n. destruct (rand_read n 24); [by intros w|].
  apply answers_ret. intros w. apply encoded_free. by left.
Qed.

(** ** The store during a callback *)
Lemma found_registered issuer subject :
  answers (GetIdentityByIssuerSubject issuer subject) (λ i st, registered issuer subject (Identity_ID i) (st_db st)).
Proof.
  intros st. unfold GetIdentityByIssuerSubject, exec, q_one. destruct (fault _); [done|].
  destruct (select_one _ _) as [i|] eqn:E; [|done]. apply select_one_Some in E as [Hp [k Hk]].
  simpl. apply bool_decide_unpack in Hp as []. by exists k, i.
Qed.
Lemma created_registered issuer subject email display :
  answers (CreateIdentity (MkIdentity no_id subject email display issuer IdentityActive None))
    (λ i st, registered issuer subject (Identity_ID i) (st_db st)).
Proof.
  unfold CreateIdentity. do 2 (apply answers_then; intros ?).
  eapply answers_bind with (P := λ _ st, registered issuer subject _ (st_db st)); [|intros [] st Hr; exact Hr].
  intros st. unfold exec. destruct (fault _); [done|].
  destruct (q_insert _ _ _ _ _ _) as [e|[[] d]] eqn:E; [done|].
  apply q_insert_inv in E as (_ & _ & _ & ->). eexists _, _. simpl. rewrite lookup_insert_eq. by split_and!.
Qed.
Lemma EnsureOperator_registered issuer subject email :
  answers (EnsureOperator (X := X) (C := C) issuer subject email) (λ id w, registered issuer subject id (w_db w)).
Proof.
  unfold EnsureOperator. eapply answers_bind.
  { apply (answers_attempt _ (λ i w, registered issuer subject (Identity_ID i) (w_db w))).
    intros w. pose proof (found_registered issuer subject (w_store w)) as Hf. unfold in_store, lift.
    destruct (GetIdentityByIssuerSubject _ _ _) as [[e|i] st]; [done|exact Hf]. }
  intros [e|i] w Hr; [|exact Hr].
  pose proof (created_registered issuer subject email email (w_store w)) as Hc.
  unfold mbind, M_bind, in_store, lift. destruct (CreateIdentity _ _) as [[e'|i] st]; [done|exact Hc].
Qed.

Lemma session_end_le at_ e : int64 (Z.min e (at_ + cc_SessionTTL cfg)) →
  (session_end cfg at_ (Some e) ≤ unix_seconds (Some e))%Z.
Proof.
  unfold session_end, unix_seconds. intros Hr.
  assert ((if decide (e < at_ + cc_SessionTTL cfg) then e else at_ + cc_SessionTTL cfg) = Z.min e (at_ + cc_SessionTTL cfg))%Z
    as -> by (case_decide; lia).
  rewrite wrap64_id; [apply Z.div_le_mono; lia|]. unfold int64 in Hr |- *. Z.to_euclidean_division_equations. lia.
Qed.

(** ** The handlers *)
Ltac answer_step :=
  match goal with
  | |- ∀ _, _ => intros
  | |- answers (mret _) _ => apply answers_ret; intros; by apply signs_nothing
  | |- answers (throw _) _ => by intros ?
  | |- answers (_ ≫= _) _ => apply answers_then
  | |- answers (console_or_fail _ _) _ => unfold console_or_fail
  | |- answers (checkCSRF _ _ _ _) _ => unfold checkCSRF
  | |- answers (on_beam_of _ _ _) _ => unfold on_beam_of
  | |- answers (flashing _ _ _ _) _ => unfold flashing, redirectFlash
  | |- answers (if _ then _ else _) _ => case_match
  | |- answers (match _ with _ => _ end) _ => case_match
  end.
Ltac solve_answers := repeat (cbv zeta; progress answer_step).

Lemma open_signs net r info tok keys :
  wr_route r = R_callback → wr_Cookie r stateCookie = Some (wr_Query r "state") → wr_Query r "state" ≠ EmptyString →
  (Auth.Verify (cc_Verifier cfg) (net_moment net) (net_jwt_now net) tok keys).1 = inr info →
  answers (open_session (X := X) (C := C) cfg r info) (signs_all net r).
Proof.
  intros Hr Hc Hq Hv. unfold open_session. destruct (HasScope _ _) eqn:Hs; [|solve_answers]. simpl.
  eapply answers_bind.
  { apply (answers_attempt _ (λ id st,
      registered (ExtraIssuer info) (ExtraSubject info) id (w_db (cs_world st)))).
    intros st. pose proof (EnsureOperator_registered (ExtraIssuer info) (ExtraSubject info) (ExtraEmail info) (cs_world st)) as He.
    unfold cp, lift. destruct (EnsureOperator _ _ _ _) as [[e|id] w]; [done|exact He]. }
  intros [e|id] st Hreg; [by apply signs_nothing|].
  unfold cdir, cp, in_store, lift, mbind, M_bind, attempt, randomToken, now, step_no; simpl.
  unfold mbind, M_bind; simpl. destruct (rand_read _ 24) as [e|b]; simpl; [by apply signs_nothing|].
  unfold signs_all, signatures. simpl. rewrite cut_encode. simpl. apply Forall_singleton. left.
  eexists. split; [done|]. split; [apply wrap64_range|].
  exists tok, keys, info, (UnixNano (Some (clock (st_step (w_store (cs_world st)))))). split_and!; try done.
  intros e -> He. by apply session_end_le.
Qed.
Lemma verify_accepts net tok :
  answers (verify_token (X := X) (C := C) cfg net tok) (λ info _, ∃ keys,
    (Auth.Verify (cc_Verifier cfg) (net_moment net) (net_jwt_now net) tok keys).1 = inr info).
Proof.
  intros st. unfold verify_token. destruct (Auth.Verify _ _ _ _ _) as [[e|info] keys] eqn:E; [done|].
  exists (cs_jwks st). by rewrite E.
Qed.
Lemma callback_signs net r : wr_route r = R_callback →
  answers (handleCallback (X := X) (C := C) cfg net r) (signs_all net r).
Proof.
  intros Hr. unfold handleCallback. case_decide as Hc; [solve_answers|].
  cbv zeta. case_decide; [solve_answers|]. apply answers_then. intros [e|prov]; [solve_answers|].
  destruct (exchange _ _ _ _ _) as [e|tok]; [solve_answers|].
  eapply answers_bind; [apply answers_attempt, verify_accepts|].
  intros [e|info] st Hi; [by apply signs_nothing|]. destruct Hi as [keys Hv].
  apply (open_signs net r info tok keys); [done| | |done].
  - destruct (decide (wr_Cookie r stateCookie = Some (wr_Query r "state"))); [done|tauto].
  - intros Hq. apply Hc. right. left. rewrite <- Hq.
    destruct (decide (wr_Cookie r stateCookie = Some (wr_Query r "state"))); [done|tauto].
Qed.
Lemma login_signs net r : answers (handleLogin (X := X) (C := C) cfg net r) (signs_all net r).
Proof.
  unfold handleLogin. case_decide; [solve_answers|].
  eapply answers_bind; [apply answers_attempt, random_no_dot|].
  intros [e|state] st Hd; [by apply signs_nothing|]. revert st. apply answers_then.
  intros [e|prov]; [solve_answers|]. apply answers_ret. intros st.
  apply signs_nothing. unfold signatures. simpl. by rewrite cut_last_none.
Qed.
Lemma admin_signs net r (h : session → ConsoleM Answer) :
  (∀ op, answers (h op) (signs_all net r)) → answers (requireAdmin (X := X) (C := C) cfg r h) (signs_all net r).
Proof. intros Hh. unfold requireAdmin. solve_answers. apply Hh. Qed.
Lemma serve_signs net r : answers (console_serve (X := X) (C := C) o polls cfg net r) (signs_all net r).
Proof.
  unfold console_serve. destruct (wr_route r) eqn:Hr; [apply login_signs|by apply callback_signs|..].
  all: apply admin_signs; intros op.
  all: cbv delta [handleLogout handleDashboard handleBeamhall handleAudit actionCreateBeamhall actionRegisterIdentity
    actionGrantMembership actionSetEgress actionPromote actionPause actionResume actionRollback actionDestroy
    actionApprovePromotion actionRejectPromotion beamAction] beta; solve_answers.
  all: apply answers_ret; intros; by eapply signs_page.
Qed.

(** ** Histories *)

Fixpoint console_run (reqs : list (Net * WebRequest)) (st : State) : list (error + Answer) * State :=
  match reqs with
  | [] => ([], st)
  | (net, r) :: reqs =>
      let '(a, st) := console_serve o polls cfg net r st in
      let '(rest, st) := console_run reqs st in (a :: rest, st)
  end.
(** Nobody but the console signs: a signature under the console's key that a request presents is
    in an earlier answer. *)
Definition unforged (reqs : list (Net * WebRequest)) (outcomes : list (error + Answer)) : Prop :=
  ∀ i net r c v, reqs !! i = Some (net, r) → wr_Cookie r sessionCookie = Some c →
    cut_last "." c = Some (v, sign (cc_SessionKey cfg) v) →
    ∃ j a, j < i ∧ outcomes !! j = Some (inr a) ∧ sign (cc_SessionKey cfg) v ∈ signatures a.

Lemma console_run_nth reqs st j net r a :
  reqs !! j = Some (net, r) → (console_run reqs st).1 !! j = Some (inr a) →
  signs_all net r a (console_run (take (S j) reqs) st).2.
Proof.
  revert st j. induction reqs as [|[net' r'] reqs IH]; intros st j; [done|].
  pose proof (serve_signs net' r' st) as Hs. simpl.
  destruct (console_serve _ _ _ _ _ _) as [x st1]. specialize (IH st1).
  destruct (console_run reqs st1) as [rest st2] eqn:E. destruct j as [|j]; simpl.
  - intros [= -> ->] [= ->]. exact Hs.
  - intros Hj Ha. specialize (IH j Hj Ha). by destruct (console_run (take (S j) reqs) st1).
Qed.
Lemma console_run_length reqs st : length (console_run reqs st).1 = length reqs.
Proof.
  revert st. induction reqs as [|[net r] reqs IH]; intros st; [done|]. simpl.
  destruct (console_serve _ _ _ _ _ _) as [x st1]. specialize (IH st1).
  destruct (console_run reqs st1). simpl in *. by f_equal.
Qed.
End sessions.


(** * The gate *)

(** Every request is answered. *)
Definition never_throws {W A} (m : M W error A) : Prop := ∀ w, is_inl (m w).1 = false.
Lemma never_throws_bind {W A B} (m : M W error A) (k : A → M W error B) :
  never_throws m → (∀ a, never_throws (k a)) → never_throws (m ≫= k).
Proof. intros Hm Hk w. specialize (Hm w). unfold mbind, M_bind. destruct (m w) as [[e|a] w']; [done|apply Hk]. Qed.
Lemma never_throws_lift {W V A} (get : W → V) (put : V → W → W) (m : M V error A) :
  never_throws m → never_throws (lift get put m).
Proof. intros Hm w. exact (Hm (get w)). Qed.

Section gate.
Context `{!Env, !Age, !Rand} {X C : Type} `{!Caddy C} `{!AuthLib}.
Context `{!RuntimeDriver X, !Platform X, !DatabaseProvisioner X, !IdentityProvider X, !Brokers X}.
Context (o : Orchestrator) (polls : nat) (cfg : ConsoleConfig) (net : Net).
Notation ConsoleM := (ConsoleM (X := X) (C := C)).

Ltac never_step :=
  match goal with
  | |- ∀ _, _ => intros
  | |- never_throws (mret _) => by intros ?
  | |- never_throws (attempt _) => by intros ?
  | |- never_throws (cdir now) => by intros ?
  | |- never_throws (cp verify_fuel) => by intros ?
  | |- never_throws (_ ≫= _) => apply never_throws_bind
  | |- never_throws (checkCSRF _ _ _ _) => unfold checkCSRF
  | |- never_throws (console_or_fail _ _) => unfold console_or_fail
  | |- never_throws (or_else _ _) => unfold or_else
  | |- never_throws (on_beam_of _ _ _) => unfold on_beam_of
  | |- never_throws (flashing _ _ _ _) => unfold flashing
  | |- never_throws (if _ then _ else _) => case_match
  | |- never_throws (match _ with _ => _ end) => case_match
  end.
Ltac solve_never := repeat (cbv zeta; progress never_step).
Lemma each_never {A B} (f : A → ConsoleM B) l : (∀ x, never_throws (f x)) → never_throws (each f l).
Proof. intros Hf. induction l as [|x l IH]; simpl; solve_never; [apply Hf|done]. Qed.
Lemma serve_never r : never_throws (console_serve (X := X) (C := C) o polls cfg net r).
Proof.
  unfold console_serve, requireAdmin.
  cbv delta [handleLogin handleCallback open_session handleLogout handleDashboard handleBeamhall handleAudit
    actionCreateBeamhall actionRegisterIdentity actionGrantMembership actionSetEgress actionPromote actionPause
    actionResume actionRollback actionDestroy actionApprovePromotion actionRejectPromotion beamAction] beta.
  solve_never; apply each_never; intros ?.
  all: unfold beam_row, member_row, promotion_row, console_channelURLs, liveHistory; solve_never.
Qed.

(** The routes behind the middleware, and those that act. *)
Definition needs_session (rt : AdminRoute) : bool :=
  match rt with R_login | R_callback => false | _ => true end.
Definition is_action (rt : AdminRoute) : bool :=
  match rt with R_login | R_callback | R_dashboard | R_beamhall _ | R_audit => false | _ => true end.
(** The request carries a session that the console signed and that has not ended at [t]. *)
Definition live_session (r : WebRequest) (t : time) (op : session) : Prop :=
  ∃ c, wr_Cookie r sessionCookie = Some c ∧ decode (cc_SessionKey cfg) c = inr op ∧ expired op t = false.
(** The two refusals: to the login page, and of the form. *)
Definition refusal (r : WebRequest) (a : Answer) : Prop :=
  a = csrf_mismatch ∨ a = plain (Redirect 302 "/admin/login")
  ∨ a = MkAnswer [clearSession (externalSecure cfg r)] (Redirect 302 "/admin/login").
(** Refused, and nothing has changed but the clock. *)
Record refused (r : WebRequest) (st : ConsoleState X C) (out : (error + Answer) * ConsoleState X C) : Prop := MkRefused {
  rf_answer : ∃ a, out.1 = inr a ∧ refusal r a;
  rf_world : idle (cs_world st) (cs_world out.2);
  rf_provider : cs_provider out.2 = cs_provider st;
  rf_jwks : cs_jwks out.2 = cs_jwks st }.
Lemma refused_still r st a : refusal r a → refused r st (inr a, st).
Proof. intros Ha. by split; [by exists a| |..]. Qed.

Lemma requireAdmin_gate r (h : session → ConsoleM Answer) (Q : session → Prop) st :
  (∀ op, Q op ∨ h op = mret csrf_mismatch) →
  (∃ op, live_session r (Some (clock (st_step (w_store (cs_world st))))) op ∧ Q op)
  ∨ refused r st (requireAdmin cfg r h st).
Proof.
  intros Hh. unfold requireAdmin. destruct (wr_Cookie r sessionCookie) as [c|] eqn:Hc.
  2:{ right. apply refused_still. by right; left. }
  destruct (decode _ _) as [e|op] eqn:Hd.
  { right. apply refused_still. by right; right. }
  unfold mbind, M_bind, cdir, cp, in_store, lift, now; simpl.
  destruct (expired op _) eqn:He.
  { right. split; [eexists; split; [done|by right; right]|by split|done|done]. }
  destruct (Hh op) as [HQ| ->]; [left; exists op; split; [by exists c|done]|].
  right. split; [eexists; split; [done|by left]|by split|done|done].
Qed.
Lemma checkCSRF_gate r op (m : ConsoleM Answer) :
  wr_Form r "csrf" = csrfToken cfg op ∨ checkCSRF cfg r op m = mret csrf_mismatch.
Proof. unfold checkCSRF. case_decide; [by right|by left]. Qed.
End gate.

(** Nothing happens without a session and, for what acts, its form token.  Every request is
    answered; behind the middleware it goes on only with a cookie the console signed, not ended
    at the time of the request, and an action only if its form carries that session's token;
    any other is sent to the login page or refused, and nothing at all has changed. *)
Theorem console_gate `{!Env, !Age, !Rand} {X C : Type} `{!Caddy C} `{!AuthLib}
    `{!RuntimeDriver X, !Platform X, !DatabaseProvisioner X, !IdentityProvider X, !Brokers X}
    (o : Orchestrator) (polls : nat) (cfg : ConsoleConfig) (net : Net) (r : WebRequest)
    (st : ConsoleState X C) (Hr : needs_session (wr_route r) = true) :
  is_inl (console_serve o polls cfg net r st).1 = false
  ∧ ((∃ op, live_session cfg r (Some (clock (st_step (w_store (cs_world st))))) op
        ∧ (is_action (wr_route r) = true → wr_Form r "csrf" = csrfToken cfg op))
     ∨ refused cfg r st (console_serve o polls cfg net r st)).
Proof.
  split; [apply serve_never|]. unfold console_serve. destruct (wr_route r) eqn:E; simpl in *; try done.
  all: apply requireAdmin_gate; intros op; simpl.
  2-4: by left.
  all: cbv delta [handleLogout actionCreateBeamhall actionRegisterIdentity actionGrantMembership actionSetEgress
    actionPromote actionPause actionResume actionRollback actionDestroy actionApprovePromotion actionRejectPromotion
    beamAction] beta.
  all: match goal with |- _ ∨ checkCSRF ?c ?r ?op ?m = _ => destruct (checkCSRF_gate c r op m); auto end.
Qed.

(** A form token is one session's.  Two sessions have the same form token only if they are of
    the same subject and have the same nonce; otherwise two inputs of SHA-256 collide.  Nonces as
    the console makes them hold no colon. *)
Theorem csrf_token_binds (cfg : ConsoleConfig) (op op' : session)
    (Hop : all_bytes (no_byte ":") (ss_CSRFNonce op) = true)
    (Hop' : all_bytes (no_byte ":") (ss_CSRFNonce op') = true)
    (Heq : csrfToken cfg op = csrfToken cfg op') :
  ss_Subject op = ss_Subject op' ∧ ss_CSRFNonce op = ss_CSRFNonce op' ∨ sha256_collision.
Proof.
  unfold csrfToken in Heq. apply sign_binds in Heq as [E|]; [left|by right].
  apply (string_app_inj_l "csrf:") in E.
  change (":" +:+ ss_CSRFNonce op) with (String ":" (ss_CSRFNonce op)) in E.
  change (":" +:+ ss_CSRFNonce op') with (String ":" (ss_CSRFNonce op')) in E.
  apply (f_equal (cut_last ":")) in E. rewrite !cut_last_app in E by done. by injection E.
Qed.


(** * The audit page *)

(** The page lists the oldest records of the log, latest of them first: once there are three
    hundred, nothing that is appended ever shows. *)
Section audit_page.
Context `{!Env} {X C : Type} (cfg : ConsoleConfig).
Definition page_events (a : Answer) : option (list auditRow) :=
  match an_Reply a with Rendered (AuditPage _ _ _ evs) => Some evs | _ => None end.
Lemma listed_oldest after limit :
  answers (ListAuditEvents after limit) (λ recs s, q_list_audit (AuditLog.after after) limit (st_db s) = recs).
Proof. intros s. unfold ListAuditEvents, exec, q_read. by destruct (fault _). Qed.
Lemma audit_page_oldest (r : WebRequest) (op : session) :
  answers (handleAudit (X := X) (C := C) cfg r op) (λ a st, ∀ evs, page_events a = Some evs →
    evs = rev (audit_row <$> q_list_audit (AuditLog.after 0) 300 (w_db (cs_world st)))).
Proof.
  unfold handleAudit, console_or_fail. do 2 (apply answers_then; intros ?).
  case_match; [by apply answers_ret|].
  eapply answers_bind.
  { apply (answers_attempt _ (λ recs st, q_list_audit (AuditLog.after 0) 300 (w_db (cs_world st)) = recs)).
    intros st. pose proof (listed_oldest 0 300 (w_store (cs_world st))) as Hl.
    unfold cdir, cp, in_store, lift. destruct (ListAuditEvents 0 300 _) as [[e|recs] s]; [done|exact Hl]. }
  intros [e|recs] st Hrecs; [done|].
  unfold or_else, cdir, cp, in_store, lift, attempt, LatestAuditCheckpoint, exec, q_read, mbind, M_bind; simpl.
  destruct (fault _); intros evs; unfold page_events; simpl; intros [= <-]; by rewrite Hrecs.
Qed.
End audit_page.
