(* ===== verification/ConsoleRun.v ===== *)
(** What a request to the admin console can do: operations of the session's identity as an
    administrator and nothing else, so what holds of every history of operations holds of every
    history of requests; and a console at work. *)
From S2P Require Import Prelude Regexp GoStrings GoNet GoHTTP Sha256 GoText Json Domain Gateway GatewayProofs.
From S2P Require Import Store StoreOps Fixtures StoreInv AuditLog Policy Vault VaultProofs Scrub Outside SigV4.
From S2P Require Import Orch AppTools Facility OrchAdmin OrchSensitive OrchProvision OrchBeam OrchLife.
From S2P Require Import OrchFixtures OrchScope OrchFrames OrchRun OrchAdminRun OrchGovern Auth Mcp.
From S2P Require Import GitTokens GitServer McpTools McpAdmin McpCalls McpRun Console ConsoleProofs.

Section effects.
Context `{!Env, !Age, !Rand} {X C : Type} `{!Caddy C} `{!AuthLib}.
Context `{!RuntimeDriver X, !Platform X, !Directory X, !Appliance X}.
Context `{!DatabaseProvisioner X, !IdentityProvider X, !Brokers X}.
Context (o : Orchestrator) (polls : nat) (cfg : ConsoleConfig) (net : Net) (r : WebRequest).
Context (path_join : string → string → string) (goos_goarch : string).
Notation ConsoleM := (ConsoleM (X := X) (C := C)).
Notation OM := (OM (X := X) (C := C)).

(** The actor of a request: the identity of the session its cookie holds, an administrator. *)
Definition operates_as (a : Actor) : Prop :=
  ∃ c op, wr_Cookie r sessionCookie = Some c ∧ decode (cc_SessionKey cfg) c = inr op ∧ a = actor r op.

(** A relation that reads, the registration of an operator at the login and the
    operations of the request's actor respect. *)
Section framed.
Context (R : relation (World X C)) `{!PreOrder R}.
Context (Hidle : ∀ w w', idle w w' → R w w').
Context (Hens : ∀ i s e, frames R (EnsureOperator i s e)).
Context (Hop : ∀ a op, operates_as a → op_actor op = Some a → frames R (run_any o polls path_join goos_goarch op)).
Definition on_console : relation (ConsoleState X C) := λ s s', R (cs_world s) (cs_world s').
#[local] Instance on_console_PreOrder : PreOrder on_console.
Proof. split; unfold on_console; [by intros s|]. intros s1 s2 s3. apply transitivity. Qed.

Lemma frames_cp {A} (m : OM A) : frames R m → frames on_console (cp m).
Proof. intros Hm s. exact (Hm (cs_world s)). Qed.
Lemma frames_cdir {A} (m : SM A) : frames (db_rel (same (λ d, d))) m → frames on_console (cdir m).
Proof. intros Hm. by apply frames_cp, (frames_reading R Hidle). Qed.
(** An operation of the orchestrator for the request's actor. *)
Lemma as_user a op : orch_actor op = Some a → operates_as a → frames R (run_orch o polls op).
Proof. intros Ho Ha. exact (Hop a (ByUser op) Ha Ho). Qed.
Lemma as_admin a op : operates_as a → frames R (run_admin o path_join goos_goarch a op).
Proof. intros Ha. exact (Hop a (ByAdmin a op) Ha eq_refl). Qed.

Ltac read_tables :=
  unfold GetIdentityByIssuerSubject, GetBeamhallBySlug, GetBeam, GetIdentity, ListRoutesByBeam, ListBeamsByBeamhall,
    ListReleasesByBeam, ListIdentities, ListBeamhalls, ListMembershipsByBeamhall, ListPendingPromotionRequests,
    ListAuditEvents, LatestAuditCheckpoint, CountBeamsByBeamhall, CountLiveBeamsByBeamhall; solve_frame.
Ltac by_user a op :=
  first [refine (as_user a op eq_refl _)|refine (frames_mret_inv _ _ (as_user a op eq_refl _))]; assumption.
Ltac by_admin a op :=
  first [refine (as_admin a op _)|refine (frames_mret_inv _ _ (as_admin a op _))]; assumption.
Ltac operation :=
  lazymatch goal with
  | |- frames _ (PausePreview _ ?a ?h ?b) => by_user a (OPausePreview a h b)
  | |- frames _ (ResumePreview _ ?a ?h ?b) => by_user a (OResumePreview a h b)
  | |- frames _ (PromoteToLive _ _ ?a ?h ?b) => by_user a (OPromoteToLive a h b)
  | |- frames _ (ApprovePromotion _ _ ?a ?q) => by_user a (OApprovePromotion a q)
  | |- frames _ (RejectPromotion ?a ?q ?y) => by_user a (ORejectPromotion a q y)
  | |- frames _ (RollbackBeam _ _ ?a ?h ?b ?t) => by_user a (ORollbackBeam a h b t)
  | |- frames _ (DestroyBeam _ ?a ?h ?b) => by_user a (ODestroyBeam a h b)
  | |- frames _ (Admin_CreateBeamhall ?a ?s) => by_admin a (ACreateBeamhall s)
  | |- frames _ (RegisterIdentity ?a ?i ?s ?e ?d) => by_admin a (ARegisterIdentity i s e d)
  | |- frames _ (GrantMembership ?a ?i ?h ?m) => by_admin a (AGrantMembership i h m)
  | |- frames _ (SetEgress _ ?a ?h ?m ?l) => by_admin a (ASetEgress h m l)
  end.
Ltac console_step :=
  match goal with
  | |- ∀ _, _ => intros
  | |- frames _ (let _ := _ in _) => cbv zeta
  | |- frames _ (checkCSRF _ _ _ _) => unfold checkCSRF
  | |- frames _ (console_or_fail _ _) => unfold console_or_fail
  | |- frames _ (or_else _ _) => unfold or_else
  | |- frames _ (on_beam_of _ _ _) => unfold on_beam_of
  | |- frames _ (flashing _ _ _ _) => unfold flashing
  | |- frames _ (cdir _) => apply frames_cdir; read_tables
  | |- frames _ (cp _) => apply frames_cp
  | |- frames _ (modify _) => apply frames_modify; intros ?; unfold on_console; simpl; reflexivity
  | |- frames _ (gets _) => apply frames_gets
  | |- frames _ _ => operation
  | |- _ => progress frame_step
  end.
Ltac solve_console := repeat (progress console_step).

Lemma frames_random : frames on_console randomToken.
Proof. unfold randomToken. solve_console. Qed.
Lemma frames_oidc : frames on_console (oidc cfg net).
Proof. unfold oidc. solve_console. Qed.
Lemma frames_verify_token tok : frames on_console (verify_token cfg net tok).
Proof. intros st. unfold verify_token. destruct (Auth.Verify _ _ _ _ _) as [[e|i] k]; unfold on_console; simpl; reflexivity. Qed.
Lemma frames_clock : frames on_console (cdir now).
Proof. apply frames_cdir. by intros s. Qed.
#[local] Hint Resolve frames_random frames_oidc frames_verify_token frames_clock : frame.
Lemma frames_login : frames on_console (handleLogin cfg net r).
Proof. unfold handleLogin. solve_console. Qed.
Lemma frames_callback : frames on_console (handleCallback cfg net r).
Proof. unfold handleCallback, open_session. solve_console. Qed.
Lemma frames_each {A B} (f : A → ConsoleM B) l : (∀ x, frames on_console (f x)) → frames on_console (each f l).
Proof. intros Hf. induction l as [|x l IH]; simpl; solve_console. Qed.
Lemma frames_requireAdmin (h : session → ConsoleM Answer) :
  (∀ op, operates_as (actor r op) → frames on_console (h op)) → frames on_console (requireAdmin cfg r h).
Proof.
  intros Hh. unfold requireAdmin. destruct (wr_Cookie r sessionCookie) as [c|] eqn:Hc; [|solve_console].
  cbv zeta. destruct (decode _ c) as [e|op] eqn:Hd; solve_console. apply Hh. by exists c, op.
Qed.
Lemma frames_pending a h : frames R (ListPendingPromotions a h).
Proof. unfold ListPendingPromotions. solve_console. apply (frames_reading R Hidle). read_tables. Qed.
Lemma frames_serve : frames on_console (console_serve o polls cfg net r).
Proof.
  unfold console_serve. destruct (wr_route r); [apply frames_login|apply frames_callback|..].
  all: apply frames_requireAdmin; intros op Hop'.
  all: cbv delta [handleLogout handleDashboard handleBeamhall handleAudit actionCreateBeamhall actionRegisterIdentity
    actionGrantMembership actionSetEgress actionPromote actionPause actionResume actionRollback actionDestroy
    actionApprovePromotion actionRejectPromotion beamAction] beta; solve_console.
  all: first [apply frames_each; intros ?|apply frames_pending|apply frames_Verify|idtac].
  all: unfold verify_fuel, beam_row, member_row, promotion_row, console_channelURLs, liveHistory; solve_console.
Qed.
End framed.
End effects.

(** C17: a request does nothing but operations of its operator.  Whatever relation on worlds
    reads, the registration of an operator at the login, and every operation of the orchestrator
    respect whose actor is the identity of the session in the request's cookie, as an
    administrator, every request to the console respects too, whatever it asks for. *)
Theorem requests_act_for_their_operator `{!Env, !Age, !Rand} {X C : Type} `{!Caddy C} `{!AuthLib}
    `{!RuntimeDriver X, !Platform X, !Directory X, !Appliance X}
    `{!DatabaseProvisioner X, !IdentityProvider X, !Brokers X}
    (o : Orchestrator) (polls : nat) (cfg : ConsoleConfig) (net : Net) (r : WebRequest)
    (path_join : string → string → string) (goos_goarch : string) (st : ConsoleState X C)
    (R : relation (World X C)) (HR : PreOrder R) (Hidle : ∀ w w', idle w w' → R w w')
    (Hens : ∀ i s e, frames R (EnsureOperator i s e))
    (Hop : ∀ a op, operates_as cfg r a → op_actor op = Some a →
       frames R (run_any o polls path_join goos_goarch op)) :
  R (cs_world st) (cs_world (console_serve o polls cfg net r st).2).
Proof. by apply (frames_serve o polls cfg net r path_join goos_goarch R). Qed.

(** * A console at work *)

(** An identity provider whose tokens are their subject and have the administration scope for
    an hour. *)
#[local] Instance Console_lib : AuthLib := {|
  jwt_begin _ _ := inr (AStr "k1");
  jwt_finish _ _ token key :=
    if decide (key = RSAKey 3 65537) then inr [("sub", AStr token); ("scope", AStr "openid admin:it")]
    else inl "signature is invalid";
  jwt_keyfunc_error e := e;
  jwt_expiration _ := inr (Some (1700003600 * 10 ^ 9)%Z);
  sdk_ErrInvalidToken := "invalid token";
  json_type_error _ := "json: cannot unmarshal" |}.
Definition Console1 : ConsoleConfig :=
  MkConsoleConfig "https://example.com" "example.com" "https://idp" "console" "s3cret" ["openid"; "admin:it"]
    demo_config "session-key" (8 * 3600 * 10 ^ 9)%Z true.
Definition idp_get (u : string) : Reply :=
  if decide (u = "https://idp/keys") then up u
  else Answered 200 (inr (AObj [("authorization_endpoint", AStr "https://idp/auth");
    ("token_endpoint", AStr "https://idp/token"); ("jwks_uri", AStr "https://idp/keys")])).
Definition Net_for (sub : string) : Net :=
  MkNet (at_second 1700000000 idp_get) (1700000000 * 10 ^ 9)%Z
    (λ _ _, Answered 200 (inr (AObj [("access_token", AStr sub); ("token_type", AStr "Bearer")]))).
Definition one (k v : string) : string → string := λ k', if decide (k' = k) then v else EmptyString.
Definition request (rt : AdminRoute) (query form : string → string) (cookies : list (string * string)) : WebRequest :=
  MkWebRequest rt query form (λ k, snd <$> find (λ kv, bool_decide (kv.1 = k)) cookies) ∅ "example.com" "192.0.2.9:4711".
Definition Login1 : WebRequest :=
  request R_callback (λ k, if decide (k = "state") then "st4te" else if decide (k = "code") then "c0de" else EmptyString)
    (λ _, EmptyString) [(stateCookie, "st4te")].
Definition Start1 (d : DB) : ConsoleState Engine ScriptedCaddy := MkConsoleState (World_of d) None demo_cache.
(** The session Ada's login opens. *)
Definition Session1 : session :=
  MkSession "sub-ada" "https://idp" EmptyString "ada" 1700003600 "AgICAgICAgICAgICAgICAgICAgICAgIC".
#[local] Opaque hmacSHA256.
Definition Cookie1 : string := encode "session-key" Session1.
Definition with_session (rt : AdminRoute) (form : string → string) : WebRequest :=
  request rt (λ _, EmptyString) form [(sessionCookie, Cookie1)].
Definition Look1 : WebRequest := with_session R_dashboard (λ _, EmptyString).
Definition History1 : list (Net * WebRequest) := [(Net_for "sub-ada", Login1); (Net_for "sub-ada", Look1)].
Definition Opening1 : Answer :=
  MkAnswer [setSession Console1 Session1 true; clearCookie stateCookie true] (Redirect 302 "/admin").

Lemma session_roundtrip_witness : int64 (ss_ExpiresAt Session1) ∧ decode "session-key" (encode "session-key" Session1) = inr Session1.
Proof.
  assert (int64 (ss_ExpiresAt Session1)) as Hs by (unfold int64; simpl; lia).
  split; [exact Hs|]. exact (session_roundtrip "session-key" Session1 Hs).
Defined.

Lemma History1_opens :
  (console_run Orch1 3 Console1 History1 (Start1 DB1)).1 !! 0 = Some (inr Opening1).
Proof. vm_compute. reflexivity. Qed.
Lemma History1_copied : unforged Console1 History1 (console_run Orch1 3 Console1 History1 (Start1 DB1)).1.
Proof.
  intros i net r c v Hi Hc Hv. destruct i as [|[|i]]; [by injection Hi as <- <-| |done].
  injection Hi as <- <-. change (Some Cookie1 = Some c) in Hc. apply (inj Some) in Hc as <-.
  unfold Cookie1 in Hv. rewrite cut_encode in Hv. apply (inj Some), (f_equal fst) in Hv. cbn [fst] in Hv. subst v.
  exists 0, Opening1. split; [lia|]. split; [exact History1_opens|].
  unfold Opening1, signatures, setSession. cbn [an_Cookies omap list_omap ck_Value].
  change (cc_SessionKey Console1) with "session-key". rewrite cut_encode. apply list_elem_of_here.
Qed.

(** A form that another site makes the browser send. *)
Definition Forged1 : WebRequest := with_session (R_destroy "B1") (one "slug" "sales").
Lemma console_gate_witness :
  let out := console_serve Orch1 3 Console1 (Net_for "sub-ada") Forged1 (Start1 DB1) in
  needs_session (wr_route Forged1) = true ∧ out.1 = inr csrf_mismatch
  ∧ is_inl out.1 = false
  ∧ ((∃ op, live_session Console1 Forged1 (Some (clock 0)) op
        ∧ (is_action (wr_route Forged1) = true → wr_Form Forged1 "csrf" = csrfToken Console1 op))
     ∨ refused Console1 Forged1 (Start1 DB1) out).
Proof.
  split; [reflexivity|]. split; [vm_compute; reflexivity|].
  exact (console_gate Orch1 3 Console1 (Net_for "sub-ada") Forged1 (Start1 DB1) eq_refl).
Defined.

(** One person, one nonce, another end. *)
Definition Session2 : session := MkSession "sub-ada" "https://idp" EmptyString "ada" 1700007200 (ss_CSRFNonce Session1).
Lemma csrf_token_binds_witness :
  csrfToken Console1 Session1 = csrfToken Console1 Session2
  ∧ (ss_Subject Session1 = ss_Subject Session2 ∧ ss_CSRFNonce Session1 = ss_CSRFNonce Session2 ∨ sha256_collision).
Proof.
  split; [reflexivity|].
  apply (csrf_token_binds Console1 Session1 Session2); [vm_compute; reflexivity..|reflexivity].
Defined.

Lemma frames_ensure_governed `{!Env} {X C : Type} i s e :
  frames (on_world (keeping governed) anything) (EnsureOperator (X := X) (C := C) i s e).
Proof.
  unfold EnsureOperator, GetIdentityByIssuerSubject.
  repeat first [progress solve_world|apply frames_in_store; [tc_solve|]
               |exact (run_op_governed (OpCreateIdentity _) eq_refl)].
Qed.
(** An operator creates a beamhall. *)
Definition Create_hall : WebRequest :=
  with_session (R_create_beamhall None)
    (λ k, if decide (k = "slug") then "ops" else if decide (k = "csrf") then csrfToken Console1 Session1 else EmptyString).
Lemma requests_act_for_their_operator_witness :
  let out := console_serve Orch1 3 Console1 (Net_for "sub-ada") Create_hall (Start1 DB1) in
  governed (w_db (cs_world (Start1 DB1))) ∧ size (db_beamhalls (w_db (cs_world out.2))) = 2
  ∧ governed (w_db (cs_world out.2)).
Proof.
  assert (governed (w_db (cs_world (Start1 DB1)))) as Hg.
  { split.
    - intros id sc Hsc. simpl in Hsc. in_literal Hsc. split; try reflexivity; try set_solver.
      all: vm_compute; naive_solver.
    - intros id bh Hbh. simpl in Hbh. in_literal Hbh. apply Forall_nil_2.
    - apply map_Forall_empty.
    - apply map_Forall_empty. }
  split; [exact Hg|]. split; [vm_compute; reflexivity|].
  refine (proj1 (requests_act_for_their_operator Orch1 3 Console1 (Net_for "sub-ada") Create_hall slash_join "linux_amd64"
    (Start1 DB1) (on_world (keeping governed) anything) _ _ _ _) Hg).
  - intros w w' Hi. split; [|done]. rewrite (idle_db _ _ Hi). reflexivity.
  - apply frames_ensure_governed.
  - intros a op _ _. apply run_any_governed.
Defined.

(** The console does not ask for the status of the identity: a disabled operator keeps the session
    it has, opens another, and administers with it, where every tool refuses.  (An operation on a
    beam is refused by the enforcement point.) *)
Definition DB_disabled : DB := DB1 <| db_identities := {["ada" := Ada <| Identity_Status := IdentityDisabled |>]} |>.
Example disabled_operator_acts :
  let run := console_run Orch1 3 Console1 [(Net_for "sub-ada", Login1); (Net_for "sub-ada", Create_hall)] (Start1 DB_disabled) in
  run.1 = [inr Opening1; inr (redirectFlash "/admin" "beamhall ops created")]
  ∧ size (db_beamhalls (w_db (cs_world run.2))) = 2
  ∧ is_inl (call_tool Orch1 3 Server1 slash_join "linux_amd64" (call_of "sub-ada" [ScopeAdminIT])
       (Admin A_list_identities) (MkSite (World_of DB_disabled) (NewTokenStore 0%Z))).1 = true.
Proof. vm_compute. done. Qed.
